(* ===== verification/_CoqProject ===== *)
-Q . S2P
Prelude.v
Protocol.v
Types.v
Sys.v
Prefix.v
Wire.v
Turns.v
Utils.v
Mfile.v
Error.v
Logd.v
Lograce.v
NetStream.v
FileStream.v
Cntl.v
Data.v
Pusher.v
Puller.v
Broadcast.v
Scanpair.v
Rufshare.v
Session.v
Delivery.v
Hearing.v
Answered.v
Joint.v
Threads.v
Keeps.v
Peeks.v
Progress.v
Typing.v
Discovery.v
Endpoints.v
Samples.v
Witnesses.v
