(* ===== verification/Prelude.v ===== *)
(** * RUFShare: a verification development

    RUFShare is a C library (include/, source/) that shares files between two
    machines: a receiver announces itself with broadcast datagrams, a sender finds
    it, and a file goes over in chunks, headers and acknowledgements on a TCP
    connection and the data on UDP.  This development translates the library into
    Rocq function by function and proves what its parts and the whole of it do.

    ** The program and its parts

    A caller fills an [InitConfig] and calls [push_file], [pull_file], [broadcast]
    or [scanpair] (source/rufshare.c), which check it and pass on to pusher.c,
    puller.c, broadcast.c and scanpair.c.  These use the control channel (cntl.c)
    and the data channel (data.c), which stand on the sockets (net_stream.c), the
    mapped files (file_stream.c, mfile.c) and the headers of include/utils and
    include/protocol.  All of them share one structure, [*conf].

    - Prelude.v: words and bytes, reading and writing memory with its bounds, the
      tactics and hint databases ([ruf], and the rewriting base of the same name).
    - Protocol.v, include/protocol/protocol.h: the four packets, packing, byte
      order and layout in memory, for hosts of either byte order (class [Host]).
    - Types.v, include/types.h: statuses and structures.
    - Sys.v: programs and what they mean (below), and the [CHECK_*] macros.
    - Wire.v: the messages along a trace, and the shapes of a header sent, a
      header received, a chunk in segments and a bounded number of tries.  Turns.v:
      conversations in which one side asks and the other answers.
    - Utils.v, include/utils/*.h: chunk arithmetic, string copying, file names,
      information strings, address format.  The checksums of libcrc are the
      parameter [Crc].
    - Mfile.v, FileStream.v, NetStream.v, Cntl.v, Data.v, Pusher.v, Puller.v,
      Broadcast.v, Scanpair.v: the file of source/ of the same name.
    - Logd.v: source/logging/logd.c; Lograce.v: its [append_log], cut into steps that
      several threads interleave.
    - Error.v: include/error.h, include/tryexec.h.  Rufshare.v: source/rufshare.c.
    - Session.v: a sender and a receiver joined by a network, after the fact: what
      two successes say of the files.
    - Prefix.v: beginnings of executions; Delivery.v: what goes over the sockets when
      some of the data arrives spoiled, and a sender that perseveres; Hearing.v: a
      receiver that reads such messages, Answered.v: a sender that reads its answers;
      Joint.v: the two run together, their calls interleaved, each reading what the
      other has written.
    - Threads.v: the receiver and the broadcasting thread that [pull_file] starts,
      their calls interleaved over one configuration.
    - Keeps.v: a logic of what a program keeps true of the configuration and of its
      calls, sound for the threads in any interleaving.  Typing.v: the types of the
      configuration's fields and of the arguments of every call, kept by the four
      public functions and the thread.  Endpoints.v: the addresses that the control
      and the data channel bind and connect to.
    - Peeks.v: the logic of Keeps.v, for what the sender and the receiver have just
      polled before they read; Progress.v: the two together as a transition system,
      of which every run comes to an end.
    - Discovery.v: a scan on a network of broadcasters.
    - Samples.v: concrete inputs, and runs of the programs; Witnesses.v: each
      theorem that has hypotheses, at an input that satisfies them.

    Every operation keeps the name it has in the source.  Where two files have
    static functions of one name, those of scanpair.c carry the prefix [scan_].
    The bodies of loops have names of their own ([push_segment], [push_one_chunk],
    [push_flow_try], [scan_turn], ...).

    ** How programs are modelled

    A function that touches anything outside its locals is an interaction tree over
    the calls it makes to the operating system, the allocator and the threads, and
    its reads and writes of [*conf] ([sysE]).  Its result is an [outcome]: a value,
    the status of an early return, an exit of the process, or undefined behaviour
    (an access outside an object, a NULL dereference, a string without terminator).
    A [status_t] function is a program of type [M unit] that fails with its status.
    A function on memory alone is a Rocq function to [option], [None] for undefined
    behaviour.  Integers are [Z]s reduced to their width where the C type wraps.
    Arguments named [stack] are what a local structure holds before it is written,
    which the program reads when an information string has less than four fields.
    A mapped file is the list of its bytes in the [MFILE] of [*conf].

    [wp R Q t s] is total correctness: whatever replies the environment [R] allows,
    [t] comes to an end, in an outcome and a state that satisfy [Q].  [posix] allows
    every documented reply of every call, failures and short counts included, and
    records the calls; so a theorem about [posix] covers every error path.
    [posix_if] and [posix_while] allow fewer: those that satisfy a property of each
    call, or of all the calls so far.  [exec] is one execution, and [wp_exec] says
    that it satisfies what [wp] promises.  [run] executes a program against a
    function that answers its calls, with fuel; [wp_run] says that enough fuel
    gives a result.

    ** What is proved

    - The two programs together (Session): when [push_file] here and [pull_file]
      there both succeed, over a reliable control connection and any data channel,
      the two files have the same size, the same CRC-16 and chunk by chunk the same
      CRC-32.  The proof runs the sender's and the receiver's sessions in step.
    - The sender perseveres (Delivery): when no call goes wrong and no header or
      chunk is refused [tf_trycount] times in a row, [push_file] succeeds, however
      often the receiver answers with a NACK.  Here and in the theorems on the two
      programs the file has less than 2^32 bytes, and where they promise success its
      size is not a multiple of the chunk size.
    - They succeed (Hearing, Answered, Joint): when no call of either goes wrong and
      the network delivers in order, both programs return [SUCCESS] and the files are
      equal byte for byte, over every interleaving of their calls, also when bytes of
      the data are changed on the way, as long as the CRC-32 tells every chunk that
      arrives spoiled and none arrives so as often as there are tries: such a chunk is
      refused and sent again.  What the answers are, and what the receiver is sent, is
      derived from the beginnings of the other's execution (Prefix), not assumed.
    - They cannot but succeed (Turns, Peeks, Progress): [inevitable] says that,
      whatever steps the two take, there is a next one until both have returned, and
      that this happens after finitely many.  The replies are good ones that the
      network can give: a read, and a poll that finds a socket readable, waits for
      what the other side has sent.  Since the wires of both are known turn by turn,
      of two sides that both wait one is behind, and has something to read; and a
      poll is always followed by the read it was made for.  A socket counts as
      readable as soon as a byte is there: the low-water mark that the receiver sets
      on its data socket is a recorded call without effect.  Connecting and accepting
      are taken to succeed when they are tried.
    - The threads (Threads): a reception beside which the broadcasting thread runs is
      a reception alone, but for the descriptor it closes; so it ends, keeps to the
      protocol, and succeeds where it would alone.
    - The sessions (Rufshare, Pusher, Puller): each program refines a description of
      the protocol by what goes over the wire ([sender_session], [sends_from],
      [receiver_session], [receives_from]); it always ends, returns only listed
      statuses, and frees what it allocates but on the paths the theorems name.  The
      receiver's theorems take a first message that announces a file consistently,
      and name the two cases in which it goes out of its memory even so: an
      information string without terminator, and an announcement it has refused.  A
      failure of the sender is diagnosed: its status is the complaint of a call that
      went wrong ([complaint] in Sys), or of a wrong answer.  The received file has
      the announced checksums whatever the network does; the chunks cover the file.
      A chunk that came in whole with a wrong CRC-32 is asked for again; one of
      which a segment was lost is not, and ends the transfer.
    - Types (Keeps, Typing): in every state the two threads can reach, the fields of
      the configuration and the arguments of the calls are values of their C types,
      and the open files well formed.
    - Exits (Error): [tryexec] reports the text of its status and ends the process.
    - The channels (Cntl, Data, NetStream): exact calls and results of the eight
      header functions and the two chunk functions, on every path.
    - Files (Mfile, FileStream): reads and writes stay within the mapping and keep
      the stream well formed; what is written is read back.
    - Packets and strings (Protocol, Utils): formats, round trips, bounds.
    - Discovery (Broadcast, Scanpair): a broadcast whose datagrams are taken never
      ends; a scan does, and records exactly the beacons it received.  On a network
      of broadcasters the entries are the names and addresses the broadcasters were
      given, when these survive the information string (Discovery), and a sender that dials such an entry connects to where
      the receiver binds (Endpoints).
    - The logger (Logd, Lograce): from [init_logd] on, a ring of the last records, and
      no file left open when opening fails; threads that log at the
      same time stay within it exactly when there is a slot ahead for each.
    - What goes wrong: the theorems on multiples of the chunk size, on positions
      past 4 GiB, on the verification that succeeds on a mismatch, on the handshake
      that goes on after a NACK, on colons in file names and on the broadcaster
      whose socket the receiver closes show behaviour its authors can hardly want.

    ** Bounds and fuel

    Fuel appears in [run], where theorems quantify over it or take any amount that
    gives a result; in [segments], where the length of the data is enough
    ([segments_concat]); in [dec_digits], 20 digits, enough for any 64-bit number;
    and as the 2000 steps of the runs of Samples, which all end.  Loops of the
    program have no fuel: they are [loop]s of the monad, and [wp] proves that they
    end, by a measure.

    ** What is not modelled

    - The logging macros inside the functions ([LOGT], [LOGD], [LOGE]): the logger is
      modelled by itself, with the text of [vsnprintf] and the time of [localtime] as
      arguments.
    - Races within one access of [*conf]: a read or a write of it is one step, though
      C leaves an unsynchronised access undefined.  Descriptor numbers are not a
      resource the two threads share: one that a thread closes may be given again to
      the other by the system, and each thread's replies are any documented ones.
      The checksum thread is taken at its join, since nothing writes the file before
      it.
    - libcrc, of which the repository has no source; the tests, their fakes of the
      socket calls and their framework.

    ** Plan

    Every function of the library is modelled.  Left: the logging macros as calls of
    the functions that have them. *)
From stdpp Require Export base list numbers option strings.
From Stdlib Require Export ZArith Lia.

#[global] Open Scope Z_scope.
#[global] Set Default Proof Using "Type".

(** ** Machine integers: a [w]-bit unsigned value is a [Z] reduced modulo [2^w] *)

Declare Scope ruf_scope.
Delimit Scope ruf_scope with ruf.

Definition wrap (w z : Z) : Z := z mod 2 ^ w.
Definition in_width (w z : Z) : Prop := 0 <= z < 2 ^ w.

Notation "'u8' z" := (wrap 8 z) (at level 9, z at level 9) : ruf_scope.
Notation "'u16' z" := (wrap 16 z) (at level 9, z at level 9) : ruf_scope.
Notation "'u32' z" := (wrap 32 z) (at level 9, z at level 9) : ruf_scope.
Notation "'size_t' z" := (wrap 64 z) (at level 9, z at level 9) : ruf_scope.
#[global] Open Scope ruf_scope.

#[export] Instance in_width_dec w z : Decision (in_width w z).
Proof. unfold in_width; apply _. Defined.

(** ** Memory: the bytes from a pointer to the end of its object *)

Abbreviation bytes := (list Z) (only parsing).

Definition len (l : list Z) : Z := Z.of_nat (length l).
Definition byte_ok (z : Z) : Prop := 0 <= z < 256.
Definition bytes_ok (l : list Z) : Prop := Forall byte_ok l.

#[export] Instance byte_ok_dec z : Decision (byte_ok z).
Proof. unfold byte_ok; apply _. Defined.
#[export] Instance bytes_ok_dec l : Decision (bytes_ok l).
Proof. unfold bytes_ok; apply _. Defined.

Definition ztake (n : Z) (l : list Z) : list Z := take (Z.to_nat n) l.
Definition zdrop (n : Z) (l : list Z) : list Z := drop (Z.to_nat n) l.
Definition zeros (n : Z) : list Z := replicate (Z.to_nat n) 0.

(** [n] bytes read at offset [off] of an object; [None] when the access leaves it. *)
Definition mem_read (l : list Z) (off n : Z) : option (list Z) :=
  if bool_decide (0 <= off /\ 0 <= n /\ off + n <= len l)
  then Some (ztake n (zdrop off l)) else None.

(** [src] written at offset [off] of an object; [None] when the access leaves it. *)
Definition mem_write (l : list Z) (off : Z) (src : list Z) : option (list Z) :=
  if bool_decide (0 <= off /\ off + len src <= len l)
  then Some (ztake off l ++ src ++ zdrop (off + len src) l) else None.

(** ** C strings: the bytes of an object up to the first NUL *)

Fixpoint cstr (l : list Z) : list Z :=
  match l with
  | [] => []
  | c :: l' => if c =? 0 then [] else c :: cstr l'
  end.

(** [strlen]; [None] when the object holds no terminator. *)
Fixpoint strlen (l : list Z) : option Z :=
  match l with
  | [] => None
  | c :: l' => if c =? 0 then Some 0 else Z.succ <$> strlen l'
  end.

Definition no_nul (l : list Z) : Prop := Forall (fun c => c <> 0) l.

(** The bytes of a literal, without and with its terminator, the latter padded
    to an array of [n] bytes. *)
Definition lit (s : string) : list Z :=
  (fun a => Z.of_N (Ascii.N_of_ascii a)) <$> String.list_ascii_of_string s.
Definition clit (n : Z) (s : string) : list Z :=
  lit s ++ zeros (n - len (lit s)).

Create HintDb ruf.
Create Rewrite HintDb ruf.

(** ** Shared lemmas *)

Lemma len_nonneg l : 0 <= len l.
Proof. unfold len; lia. Qed.

Lemma len_nil : len [] = 0.
Proof. reflexivity. Qed.

Lemma len_cons c l : len (c :: l) = 1 + len l.
Proof. unfold len; cbn [length]; lia. Qed.

Lemma len_app l1 l2 : len (l1 ++ l2) = len l1 + len l2.
Proof. unfold len; rewrite length_app; lia. Qed.

Lemma len_zeros n : 0 <= n -> len (zeros n) = n.
Proof. intros; unfold len, zeros; rewrite length_replicate; lia. Qed.

Lemma len_ztake n l : 0 <= n <= len l -> len (ztake n l) = n.
Proof. unfold len, ztake; intros; rewrite length_take; lia. Qed.

Lemma len_zdrop n l : 0 <= n <= len l -> len (zdrop n l) = len l - n.
Proof. unfold len, zdrop; intros; rewrite length_drop; lia. Qed.

#[export] Hint Rewrite len_nil len_cons len_app : ruf.

(** [len_pos] records that every length in sight is non-negative; [len_lia] is
    [lia] with these facts, and [len_simpl] normalises the lengths of
    concatenations and pieces. *)
Ltac len_pos :=
  repeat match goal with
  | |- context [len ?l] =>
      lazymatch goal with
      | _ : 0 <= len l |- _ => fail
      | _ => pose proof (len_nonneg l)
      end
  | _ : context [len ?l] |- _ =>
      lazymatch goal with
      | _ : 0 <= len l |- _ => fail
      | _ => pose proof (len_nonneg l)
      end
  end.
Ltac len_lia := len_pos; lia.
Ltac len_simpl :=
  repeat first
    [ progress autorewrite with ruf
    | rewrite len_ztake by (rewrite ?len_zdrop by len_lia; len_lia)
    | rewrite len_zdrop by len_lia
    | rewrite len_zeros by len_lia ].

(** Membership in a list written out. *)
Ltac in_list := solve [repeat first [apply list_elem_of_here|apply list_elem_of_further]].

Lemma ztake_app n l1 l2 : n = len l1 -> ztake n (l1 ++ l2) = l1.
Proof. intros ->; unfold ztake, len; apply take_app_length'; lia. Qed.

Lemma zdrop_app n l1 l2 : n = len l1 -> zdrop n (l1 ++ l2) = l2.
Proof. intros ->; unfold zdrop, len; apply drop_app_length'; lia. Qed.

Lemma ztake_all n l : len l <= n -> ztake n l = l.
Proof. unfold ztake, len; intros; apply take_ge; lia. Qed.

Lemma zdrop_all n l : len l <= n -> zdrop n l = [].
Proof. unfold zdrop, len; intros; apply drop_ge; lia. Qed.

Lemma ztake_zdrop n l : ztake n l ++ zdrop n l = l.
Proof. apply take_drop. Qed.

Lemma zdrop_0 l : zdrop 0 l = l.
Proof. reflexivity. Qed.

Lemma zdrop_zdrop a b l : 0 <= a -> 0 <= b -> zdrop a (zdrop b l) = zdrop (b + a) l.
Proof. intros; unfold zdrop; rewrite drop_drop; f_equal; lia. Qed.

Lemma ztake_ztake_zdrop a b l :
  0 <= a -> 0 <= b -> ztake a l ++ ztake b (zdrop a l) = ztake (a + b) l.
Proof.
  intros; unfold ztake, zdrop.
  rewrite Z2Nat.inj_add by lia. apply take_take_drop.
Qed.

Lemma ztake_app_le n l1 l2 : n <= len l1 -> ztake n (l1 ++ l2) = ztake n l1.
Proof. intros; unfold ztake, len in *; apply take_app_le; lia. Qed.

Lemma zdrop_app_ge n l1 l2 : len l1 <= n -> zdrop n (l1 ++ l2) = zdrop (n - len l1) l2.
Proof. intros; unfold zdrop, len in *; rewrite drop_app_ge by lia; f_equal; lia. Qed.

Lemma ztake_ztake a b l : a <= b -> ztake a (ztake b l) = ztake a l.
Proof. intros; unfold ztake; rewrite take_take; f_equal; lia. Qed.

Lemma zdrop_ztake a b l : 0 <= a <= b -> zdrop a (ztake b l) = ztake (b - a) (zdrop a l).
Proof. intros; unfold zdrop, ztake; rewrite skipn_firstn_comm; f_equal; lia. Qed.

Lemma ztake_min a l : ztake (Z.min a (len l)) l = ztake a l.
Proof. unfold ztake, len. destruct (Z.min_spec a (Z.of_nat (length l))) as [[? ->]|[? ->]]; [done|].
  rewrite !take_ge; (done || lia). Qed.

Lemma zdrop_min a l : zdrop (Z.min a (len l)) l = zdrop a l.
Proof. unfold zdrop, len. destruct (Z.min_spec a (Z.of_nat (length l))) as [[? ->]|[? ->]]; [done|].
  rewrite !drop_ge; (done || lia). Qed.

(** The middle of a buffer after a write, and its length. *)
Lemma mem_write_spec l off src :
  0 <= off -> off + len src <= len l ->
  mem_write l off src = Some (ztake off l ++ src ++ zdrop (off + len src) l).
Proof. intros; unfold mem_write; rewrite bool_decide_true by lia; reflexivity. Qed.

Lemma mem_write_len l off src l' : mem_write l off src = Some l' -> len l' = len l.
Proof.
  unfold mem_write; case_bool_decide; [|discriminate]. intros [= <-].
  len_simpl; len_lia.
Qed.

Lemma mem_write_0 dst src :
  len src <= len dst -> mem_write dst 0 src = Some (src ++ zdrop (len src) dst).
Proof. intros. rewrite mem_write_spec by len_lia. reflexivity. Qed.

Lemma mem_read_spec l off n :
  0 <= off -> 0 <= n -> off + n <= len l -> mem_read l off n = Some (ztake n (zdrop off l)).
Proof. intros; unfold mem_read; rewrite bool_decide_true by lia; reflexivity. Qed.

Lemma mem_read_all l n : n = len l -> mem_read l 0 n = Some l.
Proof.
  intros ->. pose proof (len_nonneg l). rewrite mem_read_spec, zdrop_0, ztake_all by lia. done.
Qed.

Lemma mem_read_len l off n d : mem_read l off n = Some d -> len d = n.
Proof.
  unfold mem_read; case_bool_decide; [|discriminate]. intros [= <-].
  len_simpl; lia.
Qed.

Lemma mem_read_write l off src l' :
  mem_write l off src = Some l' -> mem_read l' off (len src) = Some src.
Proof.
  intros Hw. pose proof (mem_write_len _ _ _ _ Hw) as Hl.
  revert Hw; unfold mem_write; case_bool_decide; [|discriminate]. intros [= <-].
  rewrite mem_read_spec by len_lia. f_equal.
  rewrite (zdrop_app off) by (len_simpl; len_lia). apply ztake_app; len_lia.
Qed.

Lemma mem_read_write_ne content off src content' off' n :
  mem_write content off src = Some content' ->
  off' + n <= off \/ off + len src <= off' ->
  mem_read content' off' n = mem_read content off' n.
Proof.
  intros Hw Hd. pose proof (mem_write_len _ _ _ _ Hw) as Hl.
  unfold mem_write in Hw. case_bool_decide as Hb; [|done]. injection Hw as <-.
  unfold mem_read. rewrite Hl. case_bool_decide as Hr; [|done]. f_equal.
  destruct Hd.
  - unfold ztake, zdrop. rewrite drop_app_le by (rewrite length_take; unfold len in *; lia).
    rewrite take_app_le by (rewrite length_drop, length_take; unfold len in *; lia).
    rewrite skipn_firstn_comm, take_take. f_equal. lia.
  - rewrite app_assoc, zdrop_app_ge by (len_simpl; len_lia). f_equal.
    rewrite zdrop_zdrop by (len_simpl; len_lia). f_equal. len_simpl; len_lia.
Qed.

Lemma cstr_no_nul l : no_nul l -> forall r, cstr (l ++ 0 :: r) = l.
Proof.
  induction 1 as [|c l Hc _ IH]; intros r; [reflexivity|].
  cbn [cstr app]. destruct (Z.eqb_spec c 0); [lia|]. by rewrite IH.
Qed.

Lemma no_nul_cstr l : no_nul (cstr l).
Proof.
  induction l as [|c l IH]; cbn [cstr]; [constructor|].
  destruct (Z.eqb_spec c 0); [constructor|]. by constructor.
Qed.

Lemma strlen_Some l n : strlen l = Some n -> n = len (cstr l) /\ exists r, l = cstr l ++ 0 :: r.
Proof.
  revert n; induction l as [|c l IH]; intros n; cbn [strlen cstr]; [discriminate|].
  destruct (Z.eqb_spec c 0) as [->|Hc].
  - intros [= <-]. split; [reflexivity|]. by exists l.
  - destruct (strlen l) as [m|]; [|discriminate]. intros [= <-].
    destruct (IH m eq_refl) as [-> [r Hr]]. split.
    + rewrite len_cons. lia.
    + exists r. cbn. by rewrite <- Hr.
Qed.

Lemma len_cstr_le l : len (cstr l) <= len l.
Proof.
  induction l as [|c l IH]; cbn [cstr]; [reflexivity|].
  destruct (c =? 0); rewrite ?len_cons, ?len_nil; pose proof (len_nonneg l); lia.
Qed.

Lemma wrap_width w z : 0 <= w -> in_width w (wrap w z).
Proof. unfold wrap, in_width; intros; apply Z.mod_pos_bound; lia. Qed.

Lemma zeros_app a b : 0 <= a -> 0 <= b -> zeros (a + b) = zeros a ++ zeros b.
Proof. intros; unfold zeros; rewrite Z2Nat.inj_add, replicate_add by lia; done. Qed.

(** *** Strings of bytes *)

Lemma bytes_ok_app a b : bytes_ok a -> bytes_ok b -> bytes_ok (a ++ b).
Proof. intros. by apply Forall_app. Qed.
Lemma bytes_ok_cons z l : byte_ok z -> bytes_ok l -> bytes_ok (z :: l).
Proof. by constructor. Qed.
Lemma bytes_ok_nil : bytes_ok [].
Proof. constructor. Qed.
Lemma bytes_ok_take n l : bytes_ok l -> bytes_ok (ztake n l).
Proof. apply Forall_take. Qed.
Lemma bytes_ok_drop n l : bytes_ok l -> bytes_ok (zdrop n l).
Proof. apply Forall_drop. Qed.
Lemma bytes_ok_zeros n : bytes_ok (zeros n).
Proof. apply Forall_replicate. unfold byte_ok. lia. Qed.
Lemma bytes_ok_concat ls : Forall bytes_ok ls -> bytes_ok (concat ls).
Proof. induction 1; cbn; [constructor|by apply bytes_ok_app]. Qed.
Lemma byte_ok_mod z : byte_ok (z mod 256).
Proof. apply Z.mod_pos_bound. lia. Qed.
#[export] Hint Resolve bytes_ok_app bytes_ok_cons bytes_ok_nil bytes_ok_take bytes_ok_drop bytes_ok_zeros
  bytes_ok_concat byte_ok_mod : ruf.
