(* ===== verification/Protocol.v ===== *)
(** * The wire protocol (include/protocol/protocol.h)

    The four packed structs, the [pack_RUFShare_*] constructors, which leave the
    fields in network byte order, and the [convert_*_byteorder] functions that
    bring a received struct to host byte order.  The byte order of the host is a
    parameter ([Host]), and the memory image of each struct (what the [memcpy]s
    of the senders put in a buffer and the receivers' [recv] fill) is written
    out: the structs have no padding. *)
From S2P Require Import Prelude.

Definition CAST : Z := 0x11.
Definition FLOW : Z := 0x22.
Definition SEND : Z := 0x33.
Definition RECV : Z := 0x44.

(** The byte order of the machine the code runs on. *)
Class Host := { little_endian : bool }.

Definition le_host : Host := {| little_endian := true |}.
Definition be_host : Host := {| little_endian := false |}.

Record CastPacket := {
  cast_type : Z;
  cast_pad0 : Z;
  cast_crc : Z
}.

Record FlowPacket := {
  flow_type : Z;
  flow_pad0 : Z;
  flow_chunk_size : Z;
  flow_sequence : Z;
  flow_crc : Z
}.

Record SendPacket := {
  send_type : Z;
  send_pad0 : Z;
  send_chunk_size : Z;
  send_chunk_count : Z;
  send_partial_chunk_size : Z;
  send_crc : Z
}.

Record RecvPacket := {
  recv_type : Z;
  recv_ack : Z;
  recv_crc : Z;
  recv_sequence : Z
}.

Definition sizeof_CastPacket : Z := 4.
Definition sizeof_FlowPacket : Z := 12.
Definition sizeof_SendPacket : Z := 12.
Definition sizeof_RecvPacket : Z := 8.
Definition sizeof_RUFShareType : Z := 1.

(** Big-endian byte lists: what the protocol's figures show. *)
Definition be16 (v : Z) : list Z := [v / 256 mod 256; v mod 256].
Definition be32 (v : Z) : list Z :=
  [v / 16777216 mod 256; v / 65536 mod 256; v / 256 mod 256; v mod 256].

Section with_host.
Context {H : Host}.

(** A field's bytes in memory. *)
Definition store16 (v : Z) : list Z :=
  if little_endian then [v mod 256; v / 256 mod 256] else [v / 256 mod 256; v mod 256].
Definition store32 (v : Z) : list Z :=
  if little_endian
  then [v mod 256; v / 256 mod 256; v / 65536 mod 256; v / 16777216 mod 256]
  else [v / 16777216 mod 256; v / 65536 mod 256; v / 256 mod 256; v mod 256].
Definition load16 (b0 b1 : Z) : Z :=
  if little_endian then b0 + 256 * b1 else 256 * b0 + b1.
Definition load32 (b0 b1 b2 b3 : Z) : Z :=
  if little_endian
  then b0 + 256 * b1 + 65536 * b2 + 16777216 * b3
  else 16777216 * b0 + 65536 * b1 + 256 * b2 + b3.

(** [htons], [htonl] and their inverses: a byte swap on a little-endian host. *)
Definition htons (v : Z) : Z :=
  if little_endian then 256 * (v mod 256) + v / 256 mod 256 else v mod 65536.
Definition htonl (v : Z) : Z :=
  if little_endian
  then 16777216 * (v mod 256) + 65536 * (v / 256 mod 256)
       + 256 * (v / 65536 mod 256) + v / 16777216 mod 256
  else v mod 4294967296.
Definition ntohs : Z -> Z := htons.
Definition ntohl : Z -> Z := htonl.

Definition pack_RUFShare_CastPacket (crc : Z) : CastPacket :=
  {| cast_type := CAST; cast_pad0 := 0; cast_crc := htons crc |}.

Definition pack_RUFShare_FlowPacket (chunk_size sequence crc : Z) : FlowPacket :=
  {| flow_type := FLOW; flow_pad0 := 0; flow_chunk_size := htons chunk_size;
     flow_sequence := htonl sequence; flow_crc := htonl crc |}.

Definition pack_RUFShare_SendPacket (chunk_size chunk_count partial_chunk_size crc : Z) : SendPacket :=
  {| send_type := SEND; send_pad0 := 0; send_chunk_size := htons chunk_size;
     send_chunk_count := htonl chunk_count;
     send_partial_chunk_size := htons partial_chunk_size; send_crc := htons crc |}.

Definition pack_RUFShare_RecvPacket (ack crc sequence : Z) : RecvPacket :=
  {| recv_type := RECV; recv_ack := ack; recv_crc := htons crc;
     recv_sequence := htonl sequence |}.

Definition convert_CastPacket_byteorder (packet : CastPacket) : CastPacket :=
  {| cast_type := cast_type packet; cast_pad0 := 0; cast_crc := ntohs (cast_crc packet) |}.

Definition convert_FlowPacket_byteorder (packet : FlowPacket) : FlowPacket :=
  {| flow_type := flow_type packet; flow_pad0 := 0;
     flow_chunk_size := ntohs (flow_chunk_size packet);
     flow_sequence := ntohl (flow_sequence packet);
     flow_crc := ntohl (flow_crc packet) |}.

Definition convert_SendPacket_byteorder (packet : SendPacket) : SendPacket :=
  {| send_type := send_type packet; send_pad0 := 0;
     send_chunk_size := ntohs (send_chunk_size packet);
     send_chunk_count := ntohl (send_chunk_count packet);
     send_partial_chunk_size := ntohs (send_partial_chunk_size packet);
     send_crc := ntohs (send_crc packet) |}.

Definition convert_RecvPacket_byteorder (packet : RecvPacket) : RecvPacket :=
  {| recv_type := recv_type packet; recv_ack := recv_ack packet;
     recv_crc := ntohs (recv_crc packet);
     recv_sequence := ntohl (recv_sequence packet) |}.

(** Memory images of the structs. *)
Definition CastPacket_mem (p : CastPacket) : list Z :=
  [cast_type p mod 256; cast_pad0 p mod 256] ++ store16 (cast_crc p).
Definition FlowPacket_mem (p : FlowPacket) : list Z :=
  [flow_type p mod 256; flow_pad0 p mod 256] ++ store16 (flow_chunk_size p)
  ++ store32 (flow_sequence p) ++ store32 (flow_crc p).
Definition SendPacket_mem (p : SendPacket) : list Z :=
  [send_type p mod 256; send_pad0 p mod 256] ++ store16 (send_chunk_size p)
  ++ store32 (send_chunk_count p) ++ store16 (send_partial_chunk_size p)
  ++ store16 (send_crc p).
Definition RecvPacket_mem (p : RecvPacket) : list Z :=
  [recv_type p mod 256; recv_ack p mod 256] ++ store16 (recv_crc p)
  ++ store32 (recv_sequence p).

(** The struct a buffer of its size holds; [None] for another size. *)
Definition CastPacket_of_mem (m : list Z) : option CastPacket :=
  match m with
  | [t; p; c0; c1] => Some {| cast_type := t; cast_pad0 := p; cast_crc := load16 c0 c1 |}
  | _ => None
  end.
Definition FlowPacket_of_mem (m : list Z) : option FlowPacket :=
  match m with
  | [t; p; z0; z1; s0; s1; s2; s3; c0; c1; c2; c3] =>
      Some {| flow_type := t; flow_pad0 := p; flow_chunk_size := load16 z0 z1;
              flow_sequence := load32 s0 s1 s2 s3; flow_crc := load32 c0 c1 c2 c3 |}
  | _ => None
  end.
Definition SendPacket_of_mem (m : list Z) : option SendPacket :=
  match m with
  | [t; p; z0; z1; n0; n1; n2; n3; q0; q1; c0; c1] =>
      Some {| send_type := t; send_pad0 := p; send_chunk_size := load16 z0 z1;
              send_chunk_count := load32 n0 n1 n2 n3;
              send_partial_chunk_size := load16 q0 q1; send_crc := load16 c0 c1 |}
  | _ => None
  end.
Definition RecvPacket_of_mem (m : list Z) : option RecvPacket :=
  match m with
  | [t; a; c0; c1; s0; s1; s2; s3] =>
      Some {| recv_type := t; recv_ack := a; recv_crc := load16 c0 c1;
              recv_sequence := load32 s0 s1 s2 s3 |}
  | _ => None
  end.

End with_host.

(** The sending side of each packet: what a host puts on the wire. *)
Definition encode_CastPacket (H : Host) (crc : Z) : list Z :=
  CastPacket_mem (pack_RUFShare_CastPacket crc).
Definition encode_FlowPacket (H : Host) (cs sq crc : Z) : list Z :=
  FlowPacket_mem (pack_RUFShare_FlowPacket cs sq crc).
Definition encode_SendPacket (H : Host) (cs cc ps crc : Z) : list Z :=
  SendPacket_mem (pack_RUFShare_SendPacket cs cc ps crc).
Definition encode_RecvPacket (H : Host) (ack crc sq : Z) : list Z :=
  RecvPacket_mem (pack_RUFShare_RecvPacket ack crc sq).

(** The receiving side of each packet: a host fills a struct with the bytes of
    the wire and converts it. *)
Definition decode_CastPacket (H : Host) (wire : list Z) : option CastPacket :=
  convert_CastPacket_byteorder <$> CastPacket_of_mem wire.
Definition decode_FlowPacket (H : Host) (wire : list Z) : option FlowPacket :=
  convert_FlowPacket_byteorder <$> FlowPacket_of_mem wire.
Definition decode_SendPacket (H : Host) (wire : list Z) : option SendPacket :=
  convert_SendPacket_byteorder <$> SendPacket_of_mem wire.
Definition decode_RecvPacket (H : Host) (wire : list Z) : option RecvPacket :=
  convert_RecvPacket_byteorder <$> RecvPacket_of_mem wire.

(** ** Byte-order lemmas *)

(** A network-order field has big-endian bytes in memory, on either host. *)
Lemma bytes_ok_be16 v : bytes_ok (be16 v).
Proof. repeat constructor; apply Z.mod_pos_bound; lia. Qed.
Lemma bytes_ok_be32 v : bytes_ok (be32 v).
Proof. repeat constructor; apply Z.mod_pos_bound; lia. Qed.
#[export] Hint Resolve bytes_ok_be16 bytes_ok_be32 : ruf.

Lemma store16_htons (H : Host) v : store16 (htons v) = be16 v.
Proof.
  unfold store16, htons, be16. destruct little_endian.
  - f_equal; [|f_equal]; Z.div_mod_to_equations; lia.
  - f_equal; [|f_equal]; Z.div_mod_to_equations; lia.
Qed.

Lemma store32_htonl (H : Host) v : store32 (htonl v) = be32 v.
Proof.
  unfold store32, htonl, be32. destruct little_endian.
  - repeat (f_equal; [Z.div_mod_to_equations; lia|]). f_equal. Z.div_mod_to_equations; lia.
  - repeat (f_equal; [Z.div_mod_to_equations; lia|]). f_equal. Z.div_mod_to_equations; lia.
Qed.

Lemma ntohs_load16 (H : Host) v :
  in_width 16 v -> ntohs (load16 (v / 256 mod 256) (v mod 256)) = v.
Proof.
  unfold in_width, ntohs, htons, load16. intros Hv. change (2 ^ 16) with 65536 in Hv.
  destruct little_endian; Z.div_mod_to_equations; lia.
Qed.

Lemma ntohl_load32 (H : Host) v :
  in_width 32 v ->
  ntohl (load32 (v / 16777216 mod 256) (v / 65536 mod 256) (v / 256 mod 256) (v mod 256)) = v.
Proof.
  unfold in_width, ntohl, htonl, load32. intros Hv. change (2 ^ 32) with 4294967296 in Hv.
  destruct little_endian; Z.div_mod_to_equations; lia.
Qed.

#[export] Hint Rewrite @store16_htons @store32_htonl : ruf.

Lemma cast_wire (H : Host) crc :
  CastPacket_mem (pack_RUFShare_CastPacket crc) = [CAST; 0] ++ be16 crc.
Proof. unfold CastPacket_mem; cbn -[be16]. by rewrite store16_htons. Qed.

Lemma flow_wire (H : Host) cs sq crc :
  FlowPacket_mem (pack_RUFShare_FlowPacket cs sq crc)
  = [FLOW; 0] ++ be16 cs ++ be32 sq ++ be32 crc.
Proof. unfold FlowPacket_mem; cbn -[be16 be32]. by autorewrite with ruf. Qed.

Lemma send_wire (H : Host) cs cc ps crc :
  SendPacket_mem (pack_RUFShare_SendPacket cs cc ps crc)
  = [SEND; 0] ++ be16 cs ++ be32 cc ++ be16 ps ++ be16 crc.
Proof. unfold SendPacket_mem; cbn -[be16 be32]. by autorewrite with ruf. Qed.

Lemma recv_wire (H : Host) ack crc sq :
  RecvPacket_mem (pack_RUFShare_RecvPacket ack crc sq)
  = [RECV; ack mod 256] ++ be16 crc ++ be32 sq.
Proof. unfold RecvPacket_mem; cbn -[be16 be32]. by autorewrite with ruf. Qed.

Lemma decode_cast_wire (H : Host) crc :
  in_width 16 crc ->
  decode_CastPacket H ([CAST; 0] ++ be16 crc)
  = Some {| cast_type := CAST; cast_pad0 := 0; cast_crc := crc |}.
Proof.
  intros. unfold decode_CastPacket, convert_CastPacket_byteorder; cbn -[load16 ntohs].
  by rewrite ntohs_load16.
Qed.

Lemma decode_flow_wire (H : Host) cs sq crc :
  in_width 16 cs -> in_width 32 sq -> in_width 32 crc ->
  decode_FlowPacket H ([FLOW; 0] ++ be16 cs ++ be32 sq ++ be32 crc)
  = Some {| flow_type := FLOW; flow_pad0 := 0; flow_chunk_size := cs;
            flow_sequence := sq; flow_crc := crc |}.
Proof.
  intros. unfold decode_FlowPacket, convert_FlowPacket_byteorder;
    cbn -[load16 load32 ntohs ntohl].
  by rewrite ntohs_load16, !ntohl_load32.
Qed.

Lemma decode_send_wire (H : Host) cs cc ps crc :
  in_width 16 cs -> in_width 32 cc -> in_width 16 ps -> in_width 16 crc ->
  decode_SendPacket H ([SEND; 0] ++ be16 cs ++ be32 cc ++ be16 ps ++ be16 crc)
  = Some {| send_type := SEND; send_pad0 := 0; send_chunk_size := cs;
            send_chunk_count := cc; send_partial_chunk_size := ps; send_crc := crc |}.
Proof.
  intros. unfold decode_SendPacket, convert_SendPacket_byteorder;
    cbn -[load16 load32 ntohs ntohl].
  by rewrite !ntohs_load16, ntohl_load32.
Qed.

Lemma decode_recv_wire (H : Host) ack crc sq :
  in_width 8 ack -> in_width 16 crc -> in_width 32 sq ->
  decode_RecvPacket H ([RECV; ack mod 256] ++ be16 crc ++ be32 sq)
  = Some {| recv_type := RECV; recv_ack := ack; recv_crc := crc; recv_sequence := sq |}.
Proof.
  intros Ha ? ?. unfold decode_RecvPacket, convert_RecvPacket_byteorder;
    cbn -[load16 load32 ntohs ntohl Z.modulo].
  rewrite ntohs_load16, ntohl_load32 by done.
  by rewrite (Z.mod_small ack) by apply Ha.
Qed.

(** ** The theorems *)

(** C19: the bytes of every packet are the ones of the protocol's figures, in
    network byte order, whatever the byte order of the host that packs it, and
    each packet has the size its receiver reads. *)
Theorem wire_format (H : Host) cs cc ps crc ack sq :
  encode_CastPacket H crc = [CAST; 0] ++ be16 crc /\
  encode_FlowPacket H cs sq crc = [FLOW; 0] ++ be16 cs ++ be32 sq ++ be32 crc /\
  encode_SendPacket H cs cc ps crc
  = [SEND; 0] ++ be16 cs ++ be32 cc ++ be16 ps ++ be16 crc /\
  encode_RecvPacket H ack crc sq = [RECV; ack mod 256] ++ be16 crc ++ be32 sq /\
  (len (encode_CastPacket H crc) = sizeof_CastPacket /\
   len (encode_FlowPacket H cs sq crc) = sizeof_FlowPacket /\
   len (encode_SendPacket H cs cc ps crc) = sizeof_SendPacket /\
   len (encode_RecvPacket H ack crc sq) = sizeof_RecvPacket).
Proof.
  unfold encode_CastPacket, encode_FlowPacket, encode_SendPacket, encode_RecvPacket.
  by rewrite cast_wire, flow_wire, send_wire, recv_wire.
Qed.

(** C18: what one host packs another decodes, between hosts of any two byte
    orders, for all fields within their widths. *)
Theorem packets_roundtrip (H1 H2 : Host) cs cc ps crc16 crc32 ack sq :
  in_width 16 cs -> in_width 32 cc -> in_width 16 ps -> in_width 16 crc16 ->
  in_width 32 crc32 -> in_width 8 ack -> in_width 32 sq ->
  decode_CastPacket H2 (encode_CastPacket H1 crc16)
  = Some {| cast_type := CAST; cast_pad0 := 0; cast_crc := crc16 |} /\
  decode_FlowPacket H2 (encode_FlowPacket H1 cs sq crc32)
  = Some {| flow_type := FLOW; flow_pad0 := 0; flow_chunk_size := cs;
            flow_sequence := sq; flow_crc := crc32 |} /\
  decode_SendPacket H2 (encode_SendPacket H1 cs cc ps crc16)
  = Some {| send_type := SEND; send_pad0 := 0; send_chunk_size := cs; send_chunk_count := cc;
            send_partial_chunk_size := ps; send_crc := crc16 |} /\
  decode_RecvPacket H2 (encode_RecvPacket H1 ack crc16 sq)
  = Some {| recv_type := RECV; recv_ack := ack; recv_crc := crc16; recv_sequence := sq |}.
Proof.
  intros. unfold encode_CastPacket, encode_FlowPacket, encode_SendPacket, encode_RecvPacket.
  rewrite cast_wire, flow_wire, send_wire, recv_wire.
  by rewrite decode_cast_wire, decode_flow_wire, decode_send_wire, decode_recv_wire.
Qed.

Lemma packets_roundtrip_witness :
  decode_CastPacket be_host (encode_CastPacket le_host 0xBEEF)
  = Some {| cast_type := CAST; cast_pad0 := 0; cast_crc := 0xBEEF |}.
Proof.
  refine (proj1 (packets_roundtrip le_host be_host 1 2 3 0xBEEF 5 1 7 _ _ _ _ _ _ _));
    unfold in_width; lia.
Defined.
