(* ===== verification/Types.v ===== *)
(** * Types shared by the modules (include/types.h)

    Status codes, constants and the structs of include/types.h.  A [char] array
    is the list of its bytes; the integer fields are [Z]s; the memory a file is
    mapped at is a [mapping] (its address and its bytes), and a NULL pointer is
    [None].  The setters write one field of a struct. *)
From S2P Require Import Prelude Protocol.

Definition FOREVER_TIMEOUT : Z := -1.
Definition MAXFILENAMESIZE : Z := 256.
Definition MAXNAMESIZE : Z := 32.
Definition MAXIPV4SIZE : Z := 16.

Inductive status_t :=
| SUCCESS
| FAILURE
| TIMEOUT
| LOWSIZE
| EXPTRY0
| EXPTRY1
| ZEROACK
| ZEROSEQ
| FAILSET
| FAILCRC
| FAILLOG
| BADCONF
| BADFLOW
| BADARGS
| BADINET
| BADTYPE
| BADIPV4
| BADPORT
| NOMFILE
| NOFSTAT
| NOAVAIL
| NOCREAT
| NOTRUNC
| NOCLOSE
| ERRBIND
| ERRCONN
| ERRRECV
| ERRSEND
| ERRLSTN
| ERRPOLL
| ERRTIME
| EMFSEEK
| EMFSYNC
| EMALLOC
| ETHREAD
| INVSOCK
| INVPATH.

#[export] Instance status_t_eq_dec : EqDecision status_t.
Proof. solve_decision. Defined.

(** The value of the C enumerator. *)
Definition status_code (s : status_t) : Z :=
  match s with
  | SUCCESS => 0
  | FAILURE => 1
  | TIMEOUT => 2
  | LOWSIZE => 3
  | EXPTRY0 => 4
  | EXPTRY1 => 5
  | ZEROACK => 6
  | ZEROSEQ => 7
  | FAILSET => 8
  | FAILCRC => 9
  | FAILLOG => 10
  | BADCONF => 11
  | BADFLOW => 12
  | BADARGS => 13
  | BADINET => 14
  | BADTYPE => 15
  | BADIPV4 => 16
  | BADPORT => 17
  | NOMFILE => 18
  | NOFSTAT => 19
  | NOAVAIL => 20
  | NOCREAT => 21
  | NOTRUNC => 22
  | NOCLOSE => 23
  | ERRBIND => 24
  | ERRCONN => 25
  | ERRRECV => 26
  | ERRSEND => 27
  | ERRLSTN => 28
  | ERRPOLL => 29
  | ERRTIME => 30
  | EMFSEEK => 31
  | EMFSYNC => 32
  | EMALLOC => 33
  | ETHREAD => 34
  | INVSOCK => 35
  | INVPATH => 36
  end.

(** [fmode_t] *)
Inductive fmode_t := MWR | MRD.

Record CntlAddrs := {
  addrs_filename : list Z;
  addrs_name : list Z;
  addrs_local_ip : list Z;
  addrs_remote_ip : list Z;
  addrs_local_port : Z;
  addrs_remote_port : Z
}.

(** The members of the union [HeaderArgs]; each function of cntl.c uses the one
    member its name says. *)
Record CastArgs := { cast_packet : CastPacket; cast_info : CntlAddrs }.
Record FlowArgs := { flow_packet : FlowPacket }.
Record SendArgs := { send_packet : SendPacket; send_info : CntlAddrs }.
Record RecvArgs := { recv_packet : RecvPacket }.

(** The memory a file is mapped at: what a non-NULL [void *buf] points to. *)
Record mapping := { map_addr : Z; map_bytes : list Z }.

Record MFILE := {
  mf_file : option Z;
  mf_open : Z;
  mf_size : Z;
  mf_pos : Z;
  mf_buf : option mapping
}.

Record FileContext := {
  fc_mfile : MFILE;
  fc_size : Z;
  fc_name : list Z
}.

Record ChunkContext := {
  cc_start_pos : Z;
  cc_chunk_size : Z
}.

Record PairInfo := {
  pi_name : list Z;
  pi_ip : list Z;
  pi_port : Z
}.

Record InitConfig := {
  conf_chsize : Z;
  conf_pchsize : Z;
  conf_chcount : Z;
  conf_seq : Z;
  conf_cntl_sock : Z;
  conf_data_sock : Z;
  conf_conn_sock : Z;
  conf_cast_sock : Z;
  conf_filec : FileContext;
  conf_addrs : CntlAddrs;
  conf_segsize : Z;
  conf_hst_send : Z;
  conf_hst_recv : Z;
  conf_vft_send : Z;
  conf_vft_recv : Z;
  conf_tft_flow : Z;
  conf_tft_recv : Z;
  conf_tft_data : Z;
  conf_bct_cast : Z;
  conf_spt_cast : Z;
  conf_bc_interval : Z;
  conf_sp_interval : Z;
  conf_tf_trycount : Z;
  conf_bc_trycount : Z;
  conf_sp_trycount : Z
}.

(** ** Field updates *)

Definition set_addrs_filename (v : list Z) (a : CntlAddrs) : CntlAddrs :=
  {| addrs_filename := v;
     addrs_name := addrs_name a;
     addrs_local_ip := addrs_local_ip a;
     addrs_remote_ip := addrs_remote_ip a;
     addrs_local_port := addrs_local_port a;
     addrs_remote_port := addrs_remote_port a |}.

Definition set_addrs_name (v : list Z) (a : CntlAddrs) : CntlAddrs :=
  {| addrs_filename := addrs_filename a;
     addrs_name := v;
     addrs_local_ip := addrs_local_ip a;
     addrs_remote_ip := addrs_remote_ip a;
     addrs_local_port := addrs_local_port a;
     addrs_remote_port := addrs_remote_port a |}.

Definition set_addrs_remote_ip (v : list Z) (a : CntlAddrs) : CntlAddrs :=
  {| addrs_filename := addrs_filename a;
     addrs_name := addrs_name a;
     addrs_local_ip := addrs_local_ip a;
     addrs_remote_ip := v;
     addrs_local_port := addrs_local_port a;
     addrs_remote_port := addrs_remote_port a |}.

Definition set_addrs_remote_port (v : Z) (a : CntlAddrs) : CntlAddrs :=
  {| addrs_filename := addrs_filename a;
     addrs_name := addrs_name a;
     addrs_local_ip := addrs_local_ip a;
     addrs_remote_ip := addrs_remote_ip a;
     addrs_local_port := addrs_local_port a;
     addrs_remote_port := v |}.

Definition set_mf_pos (v : Z) (m : MFILE) : MFILE :=
  {| mf_file := mf_file m;
     mf_open := mf_open m;
     mf_size := mf_size m;
     mf_pos := v;
     mf_buf := mf_buf m |}.

Definition set_mf_buf (v : option mapping) (m : MFILE) : MFILE :=
  {| mf_file := mf_file m;
     mf_open := mf_open m;
     mf_size := mf_size m;
     mf_pos := mf_pos m;
     mf_buf := v |}.

Definition set_fc_mfile (v : MFILE) (f : FileContext) : FileContext :=
  {| fc_mfile := v;
     fc_size := fc_size f;
     fc_name := fc_name f |}.

Definition set_fc_size (v : Z) (f : FileContext) : FileContext :=
  {| fc_mfile := fc_mfile f;
     fc_size := v;
     fc_name := fc_name f |}.

Definition set_fc_name (v : list Z) (f : FileContext) : FileContext :=
  {| fc_mfile := fc_mfile f;
     fc_size := fc_size f;
     fc_name := v |}.

Definition set_conf_chsize (v : Z) (c : InitConfig) : InitConfig :=
  {| conf_chsize := v;
     conf_pchsize := conf_pchsize c;
     conf_chcount := conf_chcount c;
     conf_seq := conf_seq c;
     conf_cntl_sock := conf_cntl_sock c;
     conf_data_sock := conf_data_sock c;
     conf_conn_sock := conf_conn_sock c;
     conf_cast_sock := conf_cast_sock c;
     conf_filec := conf_filec c;
     conf_addrs := conf_addrs c;
     conf_segsize := conf_segsize c;
     conf_hst_send := conf_hst_send c;
     conf_hst_recv := conf_hst_recv c;
     conf_vft_send := conf_vft_send c;
     conf_vft_recv := conf_vft_recv c;
     conf_tft_flow := conf_tft_flow c;
     conf_tft_recv := conf_tft_recv c;
     conf_tft_data := conf_tft_data c;
     conf_bct_cast := conf_bct_cast c;
     conf_spt_cast := conf_spt_cast c;
     conf_bc_interval := conf_bc_interval c;
     conf_sp_interval := conf_sp_interval c;
     conf_tf_trycount := conf_tf_trycount c;
     conf_bc_trycount := conf_bc_trycount c;
     conf_sp_trycount := conf_sp_trycount c |}.

Definition set_conf_pchsize (v : Z) (c : InitConfig) : InitConfig :=
  {| conf_chsize := conf_chsize c;
     conf_pchsize := v;
     conf_chcount := conf_chcount c;
     conf_seq := conf_seq c;
     conf_cntl_sock := conf_cntl_sock c;
     conf_data_sock := conf_data_sock c;
     conf_conn_sock := conf_conn_sock c;
     conf_cast_sock := conf_cast_sock c;
     conf_filec := conf_filec c;
     conf_addrs := conf_addrs c;
     conf_segsize := conf_segsize c;
     conf_hst_send := conf_hst_send c;
     conf_hst_recv := conf_hst_recv c;
     conf_vft_send := conf_vft_send c;
     conf_vft_recv := conf_vft_recv c;
     conf_tft_flow := conf_tft_flow c;
     conf_tft_recv := conf_tft_recv c;
     conf_tft_data := conf_tft_data c;
     conf_bct_cast := conf_bct_cast c;
     conf_spt_cast := conf_spt_cast c;
     conf_bc_interval := conf_bc_interval c;
     conf_sp_interval := conf_sp_interval c;
     conf_tf_trycount := conf_tf_trycount c;
     conf_bc_trycount := conf_bc_trycount c;
     conf_sp_trycount := conf_sp_trycount c |}.

Definition set_conf_chcount (v : Z) (c : InitConfig) : InitConfig :=
  {| conf_chsize := conf_chsize c;
     conf_pchsize := conf_pchsize c;
     conf_chcount := v;
     conf_seq := conf_seq c;
     conf_cntl_sock := conf_cntl_sock c;
     conf_data_sock := conf_data_sock c;
     conf_conn_sock := conf_conn_sock c;
     conf_cast_sock := conf_cast_sock c;
     conf_filec := conf_filec c;
     conf_addrs := conf_addrs c;
     conf_segsize := conf_segsize c;
     conf_hst_send := conf_hst_send c;
     conf_hst_recv := conf_hst_recv c;
     conf_vft_send := conf_vft_send c;
     conf_vft_recv := conf_vft_recv c;
     conf_tft_flow := conf_tft_flow c;
     conf_tft_recv := conf_tft_recv c;
     conf_tft_data := conf_tft_data c;
     conf_bct_cast := conf_bct_cast c;
     conf_spt_cast := conf_spt_cast c;
     conf_bc_interval := conf_bc_interval c;
     conf_sp_interval := conf_sp_interval c;
     conf_tf_trycount := conf_tf_trycount c;
     conf_bc_trycount := conf_bc_trycount c;
     conf_sp_trycount := conf_sp_trycount c |}.

Definition set_conf_seq (v : Z) (c : InitConfig) : InitConfig :=
  {| conf_chsize := conf_chsize c;
     conf_pchsize := conf_pchsize c;
     conf_chcount := conf_chcount c;
     conf_seq := v;
     conf_cntl_sock := conf_cntl_sock c;
     conf_data_sock := conf_data_sock c;
     conf_conn_sock := conf_conn_sock c;
     conf_cast_sock := conf_cast_sock c;
     conf_filec := conf_filec c;
     conf_addrs := conf_addrs c;
     conf_segsize := conf_segsize c;
     conf_hst_send := conf_hst_send c;
     conf_hst_recv := conf_hst_recv c;
     conf_vft_send := conf_vft_send c;
     conf_vft_recv := conf_vft_recv c;
     conf_tft_flow := conf_tft_flow c;
     conf_tft_recv := conf_tft_recv c;
     conf_tft_data := conf_tft_data c;
     conf_bct_cast := conf_bct_cast c;
     conf_spt_cast := conf_spt_cast c;
     conf_bc_interval := conf_bc_interval c;
     conf_sp_interval := conf_sp_interval c;
     conf_tf_trycount := conf_tf_trycount c;
     conf_bc_trycount := conf_bc_trycount c;
     conf_sp_trycount := conf_sp_trycount c |}.

Definition set_conf_cntl_sock (v : Z) (c : InitConfig) : InitConfig :=
  {| conf_chsize := conf_chsize c;
     conf_pchsize := conf_pchsize c;
     conf_chcount := conf_chcount c;
     conf_seq := conf_seq c;
     conf_cntl_sock := v;
     conf_data_sock := conf_data_sock c;
     conf_conn_sock := conf_conn_sock c;
     conf_cast_sock := conf_cast_sock c;
     conf_filec := conf_filec c;
     conf_addrs := conf_addrs c;
     conf_segsize := conf_segsize c;
     conf_hst_send := conf_hst_send c;
     conf_hst_recv := conf_hst_recv c;
     conf_vft_send := conf_vft_send c;
     conf_vft_recv := conf_vft_recv c;
     conf_tft_flow := conf_tft_flow c;
     conf_tft_recv := conf_tft_recv c;
     conf_tft_data := conf_tft_data c;
     conf_bct_cast := conf_bct_cast c;
     conf_spt_cast := conf_spt_cast c;
     conf_bc_interval := conf_bc_interval c;
     conf_sp_interval := conf_sp_interval c;
     conf_tf_trycount := conf_tf_trycount c;
     conf_bc_trycount := conf_bc_trycount c;
     conf_sp_trycount := conf_sp_trycount c |}.

Definition set_conf_data_sock (v : Z) (c : InitConfig) : InitConfig :=
  {| conf_chsize := conf_chsize c;
     conf_pchsize := conf_pchsize c;
     conf_chcount := conf_chcount c;
     conf_seq := conf_seq c;
     conf_cntl_sock := conf_cntl_sock c;
     conf_data_sock := v;
     conf_conn_sock := conf_conn_sock c;
     conf_cast_sock := conf_cast_sock c;
     conf_filec := conf_filec c;
     conf_addrs := conf_addrs c;
     conf_segsize := conf_segsize c;
     conf_hst_send := conf_hst_send c;
     conf_hst_recv := conf_hst_recv c;
     conf_vft_send := conf_vft_send c;
     conf_vft_recv := conf_vft_recv c;
     conf_tft_flow := conf_tft_flow c;
     conf_tft_recv := conf_tft_recv c;
     conf_tft_data := conf_tft_data c;
     conf_bct_cast := conf_bct_cast c;
     conf_spt_cast := conf_spt_cast c;
     conf_bc_interval := conf_bc_interval c;
     conf_sp_interval := conf_sp_interval c;
     conf_tf_trycount := conf_tf_trycount c;
     conf_bc_trycount := conf_bc_trycount c;
     conf_sp_trycount := conf_sp_trycount c |}.

Definition set_conf_conn_sock (v : Z) (c : InitConfig) : InitConfig :=
  {| conf_chsize := conf_chsize c;
     conf_pchsize := conf_pchsize c;
     conf_chcount := conf_chcount c;
     conf_seq := conf_seq c;
     conf_cntl_sock := conf_cntl_sock c;
     conf_data_sock := conf_data_sock c;
     conf_conn_sock := v;
     conf_cast_sock := conf_cast_sock c;
     conf_filec := conf_filec c;
     conf_addrs := conf_addrs c;
     conf_segsize := conf_segsize c;
     conf_hst_send := conf_hst_send c;
     conf_hst_recv := conf_hst_recv c;
     conf_vft_send := conf_vft_send c;
     conf_vft_recv := conf_vft_recv c;
     conf_tft_flow := conf_tft_flow c;
     conf_tft_recv := conf_tft_recv c;
     conf_tft_data := conf_tft_data c;
     conf_bct_cast := conf_bct_cast c;
     conf_spt_cast := conf_spt_cast c;
     conf_bc_interval := conf_bc_interval c;
     conf_sp_interval := conf_sp_interval c;
     conf_tf_trycount := conf_tf_trycount c;
     conf_bc_trycount := conf_bc_trycount c;
     conf_sp_trycount := conf_sp_trycount c |}.

Definition set_conf_cast_sock (v : Z) (c : InitConfig) : InitConfig :=
  {| conf_chsize := conf_chsize c;
     conf_pchsize := conf_pchsize c;
     conf_chcount := conf_chcount c;
     conf_seq := conf_seq c;
     conf_cntl_sock := conf_cntl_sock c;
     conf_data_sock := conf_data_sock c;
     conf_conn_sock := conf_conn_sock c;
     conf_cast_sock := v;
     conf_filec := conf_filec c;
     conf_addrs := conf_addrs c;
     conf_segsize := conf_segsize c;
     conf_hst_send := conf_hst_send c;
     conf_hst_recv := conf_hst_recv c;
     conf_vft_send := conf_vft_send c;
     conf_vft_recv := conf_vft_recv c;
     conf_tft_flow := conf_tft_flow c;
     conf_tft_recv := conf_tft_recv c;
     conf_tft_data := conf_tft_data c;
     conf_bct_cast := conf_bct_cast c;
     conf_spt_cast := conf_spt_cast c;
     conf_bc_interval := conf_bc_interval c;
     conf_sp_interval := conf_sp_interval c;
     conf_tf_trycount := conf_tf_trycount c;
     conf_bc_trycount := conf_bc_trycount c;
     conf_sp_trycount := conf_sp_trycount c |}.

Definition set_conf_filec (v : FileContext) (c : InitConfig) : InitConfig :=
  {| conf_chsize := conf_chsize c;
     conf_pchsize := conf_pchsize c;
     conf_chcount := conf_chcount c;
     conf_seq := conf_seq c;
     conf_cntl_sock := conf_cntl_sock c;
     conf_data_sock := conf_data_sock c;
     conf_conn_sock := conf_conn_sock c;
     conf_cast_sock := conf_cast_sock c;
     conf_filec := v;
     conf_addrs := conf_addrs c;
     conf_segsize := conf_segsize c;
     conf_hst_send := conf_hst_send c;
     conf_hst_recv := conf_hst_recv c;
     conf_vft_send := conf_vft_send c;
     conf_vft_recv := conf_vft_recv c;
     conf_tft_flow := conf_tft_flow c;
     conf_tft_recv := conf_tft_recv c;
     conf_tft_data := conf_tft_data c;
     conf_bct_cast := conf_bct_cast c;
     conf_spt_cast := conf_spt_cast c;
     conf_bc_interval := conf_bc_interval c;
     conf_sp_interval := conf_sp_interval c;
     conf_tf_trycount := conf_tf_trycount c;
     conf_bc_trycount := conf_bc_trycount c;
     conf_sp_trycount := conf_sp_trycount c |}.

Definition set_conf_addrs (v : CntlAddrs) (c : InitConfig) : InitConfig :=
  {| conf_chsize := conf_chsize c;
     conf_pchsize := conf_pchsize c;
     conf_chcount := conf_chcount c;
     conf_seq := conf_seq c;
     conf_cntl_sock := conf_cntl_sock c;
     conf_data_sock := conf_data_sock c;
     conf_conn_sock := conf_conn_sock c;
     conf_cast_sock := conf_cast_sock c;
     conf_filec := conf_filec c;
     conf_addrs := v;
     conf_segsize := conf_segsize c;
     conf_hst_send := conf_hst_send c;
     conf_hst_recv := conf_hst_recv c;
     conf_vft_send := conf_vft_send c;
     conf_vft_recv := conf_vft_recv c;
     conf_tft_flow := conf_tft_flow c;
     conf_tft_recv := conf_tft_recv c;
     conf_tft_data := conf_tft_data c;
     conf_bct_cast := conf_bct_cast c;
     conf_spt_cast := conf_spt_cast c;
     conf_bc_interval := conf_bc_interval c;
     conf_sp_interval := conf_sp_interval c;
     conf_tf_trycount := conf_tf_trycount c;
     conf_bc_trycount := conf_bc_trycount c;
     conf_sp_trycount := conf_sp_trycount c |}.

Definition set_conf_segsize (v : Z) (c : InitConfig) : InitConfig :=
  {| conf_chsize := conf_chsize c;
     conf_pchsize := conf_pchsize c;
     conf_chcount := conf_chcount c;
     conf_seq := conf_seq c;
     conf_cntl_sock := conf_cntl_sock c;
     conf_data_sock := conf_data_sock c;
     conf_conn_sock := conf_conn_sock c;
     conf_cast_sock := conf_cast_sock c;
     conf_filec := conf_filec c;
     conf_addrs := conf_addrs c;
     conf_segsize := v;
     conf_hst_send := conf_hst_send c;
     conf_hst_recv := conf_hst_recv c;
     conf_vft_send := conf_vft_send c;
     conf_vft_recv := conf_vft_recv c;
     conf_tft_flow := conf_tft_flow c;
     conf_tft_recv := conf_tft_recv c;
     conf_tft_data := conf_tft_data c;
     conf_bct_cast := conf_bct_cast c;
     conf_spt_cast := conf_spt_cast c;
     conf_bc_interval := conf_bc_interval c;
     conf_sp_interval := conf_sp_interval c;
     conf_tf_trycount := conf_tf_trycount c;
     conf_bc_trycount := conf_bc_trycount c;
     conf_sp_trycount := conf_sp_trycount c |}.

(** The socket fields of the configuration, as the pointers [sockfd_t *sock]
    that the modules pass around. *)
Inductive sockref := cntl_sock | data_sock | conn_sock | cast_sock.

Definition get_sock (r : sockref) (c : InitConfig) : Z :=
  match r with
  | cntl_sock => conf_cntl_sock c
  | data_sock => conf_data_sock c
  | conn_sock => conf_conn_sock c
  | cast_sock => conf_cast_sock c
  end.

Definition set_sock (r : sockref) (fd : Z) (c : InitConfig) : InitConfig :=
  match r with
  | cntl_sock => set_conf_cntl_sock fd c
  | data_sock => set_conf_data_sock fd c
  | conn_sock => set_conf_conn_sock fd c
  | cast_sock => set_conf_cast_sock fd c
  end.

Definition set_mfile (m : MFILE) (c : InitConfig) : InitConfig :=
  set_conf_filec (set_fc_mfile m (conf_filec c)) c.
Definition conf_mfile (c : InitConfig) : MFILE := fc_mfile (conf_filec c).
