(* ===== verification/Sys.v ===== *)
(** * Programs, system calls and their logic

    The C functions are interaction trees over one event type, [sysE]: the calls
    the code makes to the operating system, the allocator and the thread
    library, and its reads and writes of the shared structure [*conf].  A result
    is an [outcome]: a value, a status the [CHECK_*] macros return early with, a
    call of [exit], or undefined behaviour.

    [wp R Q t s] is total correctness: from state [s], whatever replies the
    environment [R] allows, [t] comes to an end, and in an outcome and state that
    satisfy [Q].  [posix] is the environment of the theorems about one process:
    every documented reply of every call is possible, and the calls made are
    recorded.  [run] executes a tree against a function that answers the calls. *)
From Stdlib Require Import Eqdep.
From ITree Require Export ITree ITreeFacts.
From S2P Require Export Prelude Protocol Types.

(** ** System calls *)

Definition POLLIN : Z := 1.
Definition POLLOUT : Z := 4.
Definition POLLNVAL : Z := 32.
Definition MSG_PEEK : Z := 2.
Definition MSG_NOSIGNAL : Z := 0x4000.
Definition SOCK_STREAM : Z := 1.
Definition SOCK_DGRAM : Z := 2.
Definition AF_INET : Z := 2.
Definition PROT_READ : Z := 1.
Definition PROT_WRITE : Z := 2.
Definition MAP_SHARED : Z := 1.
Definition MS_SYNC : Z := 4.

Inductive sockopt := SO_REUSEADDR | SO_BROADCAST | SO_RCVLOWAT | SO_SNDLOWAT
  | SO_RCVBUF | SO_SNDBUF | SO_RCVTIMEO | SO_SNDTIMEO.

#[export] Instance sockopt_eq_dec : EqDecision sockopt.
Proof. solve_decision. Defined.

(** [struct sockaddr_in]: the port and the address in network byte order, the
    address as the four bytes [inet_pton] writes. *)
Record sockaddr_in := { sin_family : Z; sin_port : Z; sin_addr : list Z }.

(** The start routines handed to [pthread_create]. *)
Inductive thread := thread_broadcast | thread_calc_file_crc16.

Variant sysE : Type -> Type :=
| GetConf : sysE InitConfig
| SetConf (f : InitConfig -> InitConfig) : sysE unit
| Malloc (size : Z) : sysE bool
| Realloc (old_null : bool) (size : Z) : sysE bool
| Free : sysE unit
| Poll (fd events timeout : Z) : sysE (Z * Z)
| SendTo (fd : Z) (buf : list Z) (flags : Z) : sysE Z
| RecvFrom (fd size flags : Z) : sysE (Z * list Z)
| Socket (type : Z) : sysE Z
| Setsockopt (fd : Z) (opt : sockopt) (val : Z) : sysE Z
| Bind (fd : Z) (addr : sockaddr_in) : sysE Z
| Connect (fd : Z) (addr : sockaddr_in) : sysE Z
| Listen (fd backlog : Z) : sysE Z
| Accept (fd : Z) : sysE (Z * sockaddr_in)
| Close (fd : Z) : sysE Z
| Fopen (path : list Z) (mode : string) : sysE (option Z)
| Fclose (file : Z) : sysE Z
| Fstat (file : Z) : sysE (Z * Z)
| Stat (path : list Z) : sysE (Z * Z)
| Fstatvfs (file : Z) : sysE (Z * (Z * Z))
| Ftruncate (file size : Z) : sysE Z
| Mmap (size prot flags file : Z) : sysE (option mapping)
| Munmap (m : mapping) (size : Z) : sysE Z
| Msync (m : mapping) (off size flags : Z) : sysE Z
| Sysconf_pagesize : sysE Z
| Time : sysE Z
| Sleep (seconds : Z) : sysE unit
| PrintError (stat text func : string) : sysE unit
| PthreadCreate (routine : thread) : sysE Z
| PthreadJoin (routine : thread) : sysE Z.

(** ** Outcomes and the program monad *)

Variant outcome (A : Type) :=
| Val (a : A)
| Fail (st : status_t)
| Exited (code : Z)
| Undef.
Arguments Val {A} a.
Arguments Fail {A} st.
Arguments Exited {A} code.
Arguments Undef {A}.

Definition M (A : Type) : Type := itree sysE (outcome A).

(** What follows an outcome: the continuation of a value, or nothing. *)
Definition after {A B} (k : A -> M B) (o : outcome A) : M B :=
  match o with
  | Val a => k a
  | Fail st => Ret (Fail st)
  | Exited c => Ret (Exited c)
  | Undef => Ret Undef
  end.

#[export] Instance M_ret : MRet M := fun A a => Ret (Val a).
#[export] Instance M_bind : MBind M := fun A B k m => ITree.bind m (after k).

Definition fail {A} (st : status_t) : M A := Ret (Fail st).
Definition exit {A} (code : Z) : M A := Ret (Exited code).
Definition undef {A} : M A := Ret Undef.
Definition sys {X} (e : sysE X) : M X := ITree.bind (ITree.trigger e) (fun x => Ret (Val x)).

(** The status a call returns, as a value. *)
Definition status_of (m : M unit) : M status_t :=
  ITree.bind m (fun o =>
    match o with
    | Val _ => Ret (Val SUCCESS)
    | Fail st => Ret (Val st)
    | Exited c => Ret (Exited c)
    | Undef => Ret Undef
    end).

(** [CHECK_SSTAT] around a call that also gives a value: its failure frees the
    buffer before the function returns. *)
Definition free_on_fail {A} (m : M A) : M A :=
  ITree.bind m (fun o =>
    match o with
    | Fail st => sys Free;; fail st
    | o => Ret o
    end).

(** A pure computation that may leave its buffers. *)
Definition defined {A} (o : option A) : M A :=
  match o with Some a => mret a | None => undef end.

(** [while (true) body]: the body says whether to go on. *)
Definition loop_step {St A} (o : outcome (St + A)) : itree sysE (St + outcome A) :=
  match o with
  | Val (inl x) => Ret (inl x)
  | Val (inr a) => Ret (inr (Val a))
  | Fail st => Ret (inr (Fail st))
  | Exited c => Ret (inr (Exited c))
  | Undef => Ret (inr Undef)
  end.
Definition loop {St A} (body : St -> M (St + A)) : St -> M A :=
  ITree.iter (fun x => ITree.bind (body x) loop_step).

(** ** The [CHECK_*] macros of include/types.h *)

Definition CHECK_STAT (val : status_t) : M unit :=
  if decide (val = SUCCESS) then mret tt else fail val.
Definition CHECK_SSTAT (val : status_t) : M unit :=
  if decide (val = SUCCESS) then mret tt else sys Free;; fail val.
Definition CHECK_EQUAL (val0 val1 : Z) (err : status_t) : M unit :=
  if val0 =? val1 then mret tt else fail err.
Definition CHECK_NOTEQUAL (val0 val1 : Z) (err : status_t) : M unit :=
  if val0 =? val1 then fail err else mret tt.
Definition CHECK_INT (val : Z) (err : status_t) : M unit :=
  if val =? -1 then fail err else mret tt.
Definition CHECK_PTR {A} (val : option A) (err : status_t) : M A :=
  match val with None => fail err | Some a => mret a end.
Definition CHECK_SIZE (val size : Z) : M unit :=
  if val <? size then fail LOWSIZE else mret tt.
Definition CHECK_IPV4 (well_formed : bool) : M unit :=
  if well_formed then mret tt else fail BADIPV4.
Definition CHECK_PORT (port : Z) : M unit :=
  if port =? 0 then fail BADPORT else mret tt.
Definition CHECK_MFILE (m : MFILE) : M unit :=
  if mf_open m =? 0 then fail NOMFILE else mret tt.
Definition CHECK_THREAD (val : Z) : M unit :=
  if negb (val =? 0) then fail ETHREAD else mret tt.

(** ** Total correctness *)

Definition env (S : Type) : Type := forall X, sysE X -> S -> X -> S -> Prop.

Section wp.
Context {S : Type} (R : env S).

Inductive wp {A} (Q : A -> S -> Prop) (t : itree sysE A) (s : S) : Prop :=
| wp_done a (Hob : observe t = RetF a) (HQ : Q a s)
| wp_tau u (Hob : observe t = TauF u) (Hw : wp Q u s)
| wp_vis X (e : sysE X) k (Hob : observe t = VisF e k)
    (Hk : forall x s', R X e s x s' -> wp Q (k x) s').
End wp.

(** ** Execution against a function that answers the calls *)

Definition handler (W : Type) : Type := forall X, sysE X -> W -> X * W.

Fixpoint run {W A} (h : handler W) (fuel : nat) (t : itree sysE A) (w : W) : option (A * W) :=
  match fuel with
  | O => None
  | S fuel =>
      match observe t with
      | RetF a => Some (a, w)
      | TauF u => run h fuel u w
      | VisF e k => let '(x, w') := h _ e w in run h fuel (k x) w'
      end
  end.

(** ** The environment of a process *)

Record obs := Obs { ob_type : Type; ob_call : sysE ob_type; ob_reply : ob_type }.
Arguments Obs {ob_type} ob_call ob_reply.

Record pstate := { p_conf : InitConfig; p_trace : list obs }.

(** The documented replies. *)
Definition minus_one_or_zero (r : Z) : Prop := r = -1 \/ r = 0.
Definition reply_ok {X} (e : sysE X) : X -> Prop :=
  match e in sysE X return X -> Prop with
  | Poll _ _ _ => fun r => (fst r = -1 \/ fst r = 0) \/ (fst r = 1 /\ 0 < snd r < 2 ^ 15)
  | SendTo _ buf _ => fun r => -1 <= r <= len buf
  | RecvFrom _ size _ => fun r =>
      fst r = -1 \/ (0 <= fst r <= size /\ len (snd r) = fst r /\ bytes_ok (snd r))
  | Socket _ => fun r => -1 <= r
  | Setsockopt _ _ _ => minus_one_or_zero
  | Bind _ _ => minus_one_or_zero
  | Connect _ _ => minus_one_or_zero
  | Listen _ _ => minus_one_or_zero
  | Accept _ => fun r =>
      -1 <= fst r /\ len (sin_addr (snd r)) = 4 /\ bytes_ok (sin_addr (snd r))
      /\ in_width 16 (sin_port (snd r))
  | Close _ => minus_one_or_zero
  | Fclose _ => minus_one_or_zero
  | Fstat _ => fun r => minus_one_or_zero (fst r) /\ 0 <= snd r < 2 ^ 63
  | Stat _ => fun r => minus_one_or_zero (fst r) /\ 0 <= snd r < 2 ^ 63
  | Fstatvfs _ => fun r =>
      minus_one_or_zero (fst r) /\ in_width 64 (fst (snd r)) /\ in_width 64 (snd (snd r))
  | Ftruncate _ _ => minus_one_or_zero
  | Mmap size _ _ _ => fun r =>
      match r with
      | Some m => 0 < size /\ len (map_bytes m) = size /\ bytes_ok (map_bytes m)
      | None => True
      end
  | Munmap _ _ => minus_one_or_zero
  | Msync _ _ _ _ => minus_one_or_zero
  | Sysconf_pagesize => fun r => r = -1 \/ 0 < r
  | Time => fun r => -1 <= r
  | PthreadCreate _ => fun r => 0 <= r
  | PthreadJoin _ => fun r => 0 <= r
  | _ => fun _ => True
  end.

Definition logged {X} (e : sysE X) (x : X) (s : pstate) : pstate :=
  {| p_conf := p_conf s; p_trace := p_trace s ++ [Obs e x] |}.
Definition with_conf (f : InitConfig -> InitConfig) (s : pstate) : pstate :=
  {| p_conf := f (p_conf s); p_trace := p_trace s |}.

Definition posix : env pstate := fun X e =>
  match e in sysE X return pstate -> X -> pstate -> Prop with
  | GetConf => fun s x s' => x = p_conf s /\ s' = s
  | SetConf f => fun s _ s' => s' = with_conf f s
  | e => fun s x s' => reply_ok e x /\ s' = logged e x s
  end.

(** ** Resources held, counted along a trace *)

Definition tally (d : forall X, sysE X -> X -> Z) (tr : list obs) : Z :=
  fold_right (fun o n => d _ (ob_call o) (ob_reply o) + n) 0 tr.

(** Blocks of memory allocated and not freed. *)
Definition heap_delta X (e : sysE X) : X -> Z :=
  match e in sysE X return X -> Z with
  | Malloc _ => fun ok => if ok then 1 else 0
  | Realloc old_null _ => fun ok => if old_null && ok then 1 else 0
  | Free => fun _ => -1
  | _ => fun _ => 0
  end.

(** Streams opened and not closed. *)
Definition file_delta X (e : sysE X) : X -> Z :=
  match e in sysE X return X -> Z with
  | Fopen _ _ => fun f => match f with Some _ => 1 | None => 0 end
  | Fclose _ => fun _ => -1
  | _ => fun _ => 0
  end.

(** Descriptors of sockets opened and not closed. *)
Definition sock_delta X (e : sysE X) : X -> Z :=
  match e in sysE X return X -> Z with
  | Socket _ => fun fd => if fd =? -1 then 0 else 1
  | Accept _ => fun r => if fst r =? -1 then 0 else 1
  | Close _ => fun r => if r =? 0 then -1 else 0
  | _ => fun _ => 0
  end.

(** What the calls of a trace say, in order. *)
Definition gather {A} (ev : forall X, sysE X -> X -> list A) (tr : list obs) : list A :=
  concat ((fun o => ev _ (ob_call o) (ob_reply o)) <$> tr).

(** The descriptors of the sockets opened along a trace. *)
Definition socket_event X (e : sysE X) : X -> list Z :=
  match e in sysE X return X -> list Z with
  | Socket _ => fun fd => if fd =? -1 then [] else [fd]
  | Accept _ => fun r => if fst r =? -1 then [] else [fst r]
  | _ => fun _ => []
  end.
Definition sockets : list obs -> list Z := gather socket_event.

(** What a call that goes wrong is reported as: the statuses the code has for the
    reply.  The expected reply has none, nor has any reply to a call that cannot go
    well: polling for nothing, reading less than nothing, mapping nothing. *)
Definition when (b : bool) (st : status_t) : list status_t := if b then [st] else [].
Definition complaint X (e : sysE X) : X -> list status_t :=
  match e in sysE X return X -> list status_t with
  | Malloc _ => fun ok => when (negb ok) EMALLOC
  | Realloc _ _ => fun ok => when (negb ok) EMALLOC
  | Poll _ events _ => fun r =>
      if negb ((events =? POLLIN) || (events =? POLLOUT)) then []
      else if fst r =? -1 then [FAILURE] else if fst r =? 0 then [TIMEOUT]
      else when (Z.land (snd r) events =? 0) ERRPOLL
  | SendTo _ buf _ => fun r => if r =? -1 then [ERRSEND] else when (r <? len buf) LOWSIZE
  | RecvFrom _ size _ => fun r =>
      if size <? 0 then [] else if fst r =? -1 then [ERRRECV] else when (fst r <? size) LOWSIZE
  | Socket _ => fun fd => when (fd =? -1) INVSOCK
  | Setsockopt _ _ _ => fun r => when (r =? -1) FAILSET
  | Bind _ _ => fun r => when (r =? -1) ERRBIND
  | Connect _ _ => fun r => when (r =? -1) ERRCONN
  | Listen _ _ => fun r => when (r =? -1) ERRLSTN
  | Accept _ => fun r =>
      if fst r =? -1 then [INVSOCK] else when (negb (sin_family (snd r) =? AF_INET)) BADINET
  | Close _ => fun r => when (r =? -1) FAILURE
  | Fopen _ mode => fun f =>
      match f with Some _ => [] | None => [if decide (mode = "w+"%string) then NOCREAT else NOMFILE] end
  | Fclose _ => fun r => when (r =? -1) FAILURE
  | Fstat _ => fun r => when (fst r =? -1) NOMFILE
  | Stat _ => fun r => when (fst r =? -1) NOFSTAT
  | Fstatvfs _ => fun r => when (fst r =? -1) NOFSTAT
  | Ftruncate _ _ => fun r => when (r =? -1) NOTRUNC
  | Mmap size _ _ _ => fun m => match m with Some _ => [] | None => when (0 <? size) NOMFILE end
  | Munmap _ _ => fun r => when (r =? -1) FAILURE
  | Msync _ _ _ _ => fun r => when (r =? -1) EMFSYNC
  | Sysconf_pagesize => fun r => when (r =? -1) EMFSYNC
  | Time => fun r => when (r =? -1) ERRTIME
  | PthreadCreate _ => fun r => when (negb (r =? 0)) ETHREAD
  | PthreadJoin _ => fun r => when (negb (r =? 0)) ETHREAD
  | _ => fun _ => []
  end.
Definition complaints : list obs -> list status_t := gather complaint.

(** The sizes files were given, and the sizes they were found to have. *)
Definition truncated_event X (e : sysE X) : X -> list Z :=
  match e in sysE X return X -> list Z with
  | Ftruncate _ n => fun r => if r =? 0 then [n] else []
  | _ => fun _ => []
  end.
Definition fstat_event X (e : sysE X) : X -> list Z :=
  match e in sysE X return X -> list Z with
  | Fstat _ => fun r => [snd r]
  | _ => fun _ => []
  end.
(** A process with one file, which has the size it was given. *)
Definition keeps_size (tr : list obs) : Prop :=
  forall n z, n ∈ gather truncated_event tr -> z ∈ gather fstat_event tr -> z = n.

(** ** Executions

    [exec R t s a s']: with replies [R] allows, [t] started in [s] ends with [a]
    in [s']. *)
Inductive exec {S A} (R : env S) : itree sysE A -> S -> A -> S -> Prop :=
| exec_ret t s a : observe t = RetF a -> exec R t s a s
| exec_tau t u s a s' : observe t = TauF u -> exec R u s a s' -> exec R t s a s'
| exec_vis X (e : sysE X) k x t s s1 a s' :
    observe t = VisF e k -> R X e s x s1 -> exec R (k x) s1 a s' -> exec R t s a s'.

(** The postcondition a bind leaves to its first part. *)
Definition seq_post {S A B} (R : env S) (Q : outcome B -> S -> Prop) (k : A -> M B)
    (o : outcome A) (s : S) : Prop :=
  match o with
  | Val a => wp R Q (k a) s
  | Fail st => Q (Fail st) s
  | Exited c => Q (Exited c) s
  | Undef => Q Undef s
  end.

(** The postcondition a loop leaves to its body: go on with a smaller measure in
    the invariant, or establish the loop's postcondition. *)
Definition loop_post {S St A} (Inv : St -> S -> Prop) (measure : St -> S -> nat)
    (Q : outcome A -> S -> Prop) (x : St) (s : S) (o : outcome (St + A)) (s' : S) : Prop :=
  match o with
  | Val (inl x') => Inv x' s' /\ (measure x' s' < measure x s)%nat
  | Val (inr a) => Q (Val a) s'
  | Fail st => Q (Fail st) s'
  | Exited c => Q (Exited c) s'
  | Undef => Q Undef s'
  end.

(** ** Rules *)

Lemma observe_bind {E A B} (t : itree E A) (k : A -> itree E B) :
  observe (ITree.bind t k)
  = match observe t with
    | RetF a => observe (k a)
    | TauF u => TauF (ITree.bind u k)
    | VisF e h => VisF e (fun x => ITree.bind (h x) k)
    end.
Proof. unfold observe at 1. cbn. unfold observe. destruct (_observe t); reflexivity. Qed.

Section wp_rules.
Context {S : Type} (R : env S).

Lemma wp_ret {A} (Q : A -> S -> Prop) a s : Q a s -> wp R Q (Ret a) s.
Proof. intros; by eapply wp_done. Qed.

Lemma wp_observe {A} (Q : A -> S -> Prop) t u s :
  observe t = observe u -> wp R Q t s -> wp R Q u s.
Proof.
  intros Ho [a Hob HQ|v Hob Hw|X e k Hob Hk]; rewrite Ho in Hob.
  - by eapply wp_done.
  - by eapply wp_tau.
  - by eapply wp_vis.
Qed.

Lemma wp_mono {A} (Q Q' : A -> S -> Prop) t s :
  wp R Q t s -> (forall a s', Q a s' -> Q' a s') -> wp R Q' t s.
Proof.
  intros Hw HQ. induction Hw as [t s a Hob Ha|t s u Hob _ IH|t s X e k Hob _ IH].
  - eapply wp_done; eauto.
  - eapply wp_tau; eauto.
  - eapply wp_vis; eauto.
Qed.

Lemma wp_bind {A B} (Q : B -> S -> Prop) (t : itree sysE A) (k : A -> itree sysE B) s :
  wp R (fun a s' => wp R Q (k a) s') t s -> wp R Q (ITree.bind t k) s.
Proof.
  induction 1 as [t s a Hob HQ|t s u Hob _ IH|t s X e h Hob _ IH].
  - eapply wp_observe, HQ. by rewrite observe_bind, Hob.
  - eapply wp_tau, IH. by rewrite observe_bind, Hob.
  - eapply wp_vis, IH. by rewrite observe_bind, Hob.
Qed.

Lemma wp_mret {A} (Q : outcome A -> S -> Prop) a s : Q (Val a) s -> wp R Q (mret a : M A) s.
Proof. apply wp_ret. Qed.

Lemma wp_fail {A} (Q : outcome A -> S -> Prop) st s : Q (Fail st) s -> wp R Q (fail st : M A) s.
Proof. apply wp_ret. Qed.

Lemma wp_exit {A} (Q : outcome A -> S -> Prop) c s : Q (Exited c) s -> wp R Q (exit c : M A) s.
Proof. apply wp_ret. Qed.

Lemma wp_undef {A} (Q : outcome A -> S -> Prop) s : Q Undef s -> wp R Q (undef : M A) s.
Proof. apply wp_ret. Qed.

Lemma wp_sys {X} (Q : outcome X -> S -> Prop) (e : sysE X) s :
  (forall x s', R X e s x s' -> Q (Val x) s') -> wp R Q (sys e) s.
Proof.
  intros HQ. eapply wp_vis.
  - unfold sys. rewrite observe_bind. reflexivity.
  - intros x s' Hx. apply wp_bind, wp_ret, wp_ret. eauto.
Qed.

Lemma wp_mbind {A B} (Q : outcome B -> S -> Prop) (m : M A) (k : A -> M B) s :
  wp R (seq_post R Q k) m s -> wp R Q (m ≫= k) s.
Proof.
  intros Hw. apply wp_bind. eapply wp_mono; [exact Hw|].
  intros [a|st|c|] s' HQ; [exact HQ|by apply wp_ret..].
Qed.

Lemma wp_status_of (Q : outcome status_t -> S -> Prop) (m : M unit) s :
  wp R (fun o => match o with
                 | Val _ => Q (Val SUCCESS)
                 | Fail st => Q (Val st)
                 | Exited c => Q (Exited c)
                 | Undef => Q Undef
                 end) m s ->
  wp R Q (status_of m) s.
Proof.
  intros Hw. apply wp_bind. eapply wp_mono; [exact Hw|].
  intros [a|st|c|] s' HQ; by apply wp_ret.
Qed.

Lemma wp_free_on_fail {A} (Q : outcome A -> S -> Prop) (m : M A) s :
  wp R (fun o s' => match o with
                    | Fail st => wp R Q (sys Free;; fail st) s'
                    | o => Q o s'
                    end) m s ->
  wp R Q (free_on_fail m) s.
Proof.
  intros Hw. apply wp_bind. eapply wp_mono; [exact Hw|].
  intros [a|st|c|] s' HQ; [by apply wp_ret|exact HQ|by apply wp_ret|by apply wp_ret].
Qed.

Lemma wp_defined {A} (Q : outcome A -> S -> Prop) (o : option A) s :
  match o with Some a => Q (Val a) s | None => Q Undef s end -> wp R Q (defined o) s.
Proof. destruct o; [apply wp_mret|apply wp_undef]. Qed.

Lemma wp_loop {St A} (Inv : St -> S -> Prop) (measure : St -> S -> nat)
    (Q : outcome A -> S -> Prop) (body : St -> M (St + A)) x s :
  Inv x s ->
  (forall x s, Inv x s -> wp R (loop_post Inv measure Q x s) (body x) s) ->
  wp R Q (loop body x) s.
Proof.
  intros HI Hbody. remember (measure x s) as n eqn:Hn. revert x s HI Hn.
  induction (lt_wf n) as [n _ IH]; intros x s HI ->.
  assert (Hob : observe (loop body x) = observe (ITree.bind (ITree.bind (body x) loop_step)
    (fun lr => match lr with inl l => Tau (loop body l) | inr r => Ret r end))) by reflexivity.
  eapply wp_observe; [symmetry; exact Hob|].
  apply wp_bind, wp_bind. eapply wp_mono; [by apply Hbody|].
  intros [[x'|a]|st|c|] s' HQ; cbn in HQ; apply wp_ret.
  - destruct HQ as [HI' Hlt]. eapply wp_tau; [reflexivity|]. eapply IH; eauto.
  - by apply wp_ret.
  - by apply wp_ret.
  - by apply wp_ret.
  - by apply wp_ret.
Qed.

(** Adequacy: against any function that answers as [R] allows, the run ends,
    with enough fuel, in the postcondition. *)
Lemma wp_run {A W} (Q : A -> S -> Prop) (t : itree sysE A) s
    (h : handler W) (rel : W -> S -> Prop) w :
  (forall X (e : sysE X) w s, rel w s ->
     exists s', R X e s (fst (h X e w)) s' /\ rel (snd (h X e w)) s') ->
  rel w s -> wp R Q t s ->
  exists fuel a w' s', run h fuel t w = Some (a, w') /\ rel w' s' /\ Q a s'.
Proof.
  intros Hh Hrel Hw. revert w Hrel.
  induction Hw as [t s a Hob Ha|t s u Hob _ IH|t s X e k Hob _ IH]; intros w Hrel.
  - exists 1%nat, a, w, s. cbn. by rewrite Hob.
  - destruct (IH w Hrel) as (n & a & w' & s' & Hr & ? & ?).
    exists (Datatypes.S n), a, w', s'. cbn. by rewrite Hob.
  - destruct (Hh X e w s Hrel) as (s1 & Hs1 & Hrel1).
    destruct (IH _ _ Hs1 _ Hrel1) as (n & a & w' & s' & Hr & ? & ?).
    exists (Datatypes.S n), a, w', s'. cbn. rewrite Hob.
    destruct (h X e w); by split_and!.
Qed.

End wp_rules.

(** ** Executions satisfy what [wp] promises *)

Lemma wp_exec {S A} (R : env S) (Q : A -> S -> Prop) t s a s' :
  wp R Q t s -> exec R t s a s' -> Q a s'.
Proof.
  intros Hw He. revert Hw. induction He as [t s a Hob|t u s a s' Hob _ IH|X e k x t s s1 a s' Hob Hx _ IH];
    intros [b Hb HQ|u' Hb Hw|X' e' k' Hb Hk]; rewrite Hob in Hb; try discriminate.
  - by injection Hb as ->.
  - injection Hb as ->. by apply IH.
  - inversion Hb; subst. apply IH.
    repeat match goal with E : existT _ _ = existT _ _ |- _ => apply inj_pair2 in E end. subst.
    by apply Hk.
Qed.

(** ** Runs that do not end *)

(** A function that answers every call as [R] allows. *)
Definition answers {S} (R : env S) (h : handler S) : Prop :=
  forall X (e : sysE X) s, R X e s (fst (h X e s)) (snd (h X e s)).

Lemma run_wp {S A} (R : env S) (h : handler S) (Q : A -> S -> Prop) t s fuel a s' :
  answers R h -> wp R Q t s -> run h fuel t s = Some (a, s') -> Q a s'.
Proof.
  intros Hh Hw. revert fuel. induction Hw as [t s b Hob HQ|t s u Hob _ IH|t s X e k Hob _ IH];
    intros [|fuel]; cbn [run]; try discriminate; rewrite Hob.
  - by intros [= <- <-].
  - apply IH.
  - specialize (Hh X e s). destruct (h X e s) as [x s1]. by apply IH.
Qed.

(** The same against a function on states of its own. *)
Lemma run_wp_rel {S A W} (R : env S) (Q : A -> S -> Prop) t s (h : handler W) (rel : W -> S -> Prop) w fuel a w' :
  (forall X (e : sysE X) w s, rel w s ->
     exists s', R X e s (fst (h X e w)) s' /\ rel (snd (h X e w)) s') ->
  rel w s -> wp R Q t s -> run h fuel t w = Some (a, w') -> exists s', rel w' s' /\ Q a s'.
Proof.
  intros Hh Hrel Hw. revert w fuel Hrel.
  induction Hw as [t s b Hob HQ|t s u Hob _ IH|t s X e k Hob _ IH]; intros w [|fuel] Hrel; cbn [run];
    try discriminate; rewrite Hob.
  - intros [= <- <-]. by exists s.
  - by apply IH.
  - destruct (Hh X e w s Hrel) as (s1 & Hs1 & Hrel1). destruct (h X e w) as [x w1]. by apply (IH _ s1).
Qed.

(** A run is an execution. *)
Lemma run_exec_rel {S A W} (R : env S) t s (h : handler W) (rel : W -> S -> Prop) w fuel (a : A) w' :
  (forall X (e : sysE X) w s, rel w s ->
     exists s', R X e s (fst (h X e w)) s' /\ rel (snd (h X e w)) s') ->
  rel w s -> run h fuel t w = Some (a, w') -> exists s', rel w' s' /\ exec R t s a s'.
Proof.
  intros Hh. revert t s w. induction fuel as [|fuel IH]; intros t s w Hrel; cbn [run]; [discriminate|].
  destruct (observe t) as [b|u|X e k] eqn:Hob.
  - intros [= <- <-]. exists s. split; [done|by constructor].
  - intros Hr. destruct (IH _ _ _ Hrel Hr) as (s' & Hs' & He). exists s'. split; [done|by eapply exec_tau].
  - destruct (Hh X e w s Hrel) as (s1 & Hs1 & Hrel1). destruct (h X e w) as [x w1]. intros Hr.
    destruct (IH _ _ _ Hrel1 Hr) as (s' & Hs' & He). exists s'. split; [done|by eapply exec_vis].
Qed.

Lemma run_bind_inv {S A B} (h : handler S) fuel (t : itree sysE A) (k : A -> itree sysE B) s r :
  run h fuel (ITree.bind t k) s = Some r ->
  exists a s' fuel', run h fuel t s = Some (a, s') /\ (fuel' <= fuel)%nat /\ run h fuel' (k a) s' = Some r.
Proof.
  revert t s. induction fuel as [|fuel IH]; intros t s; cbn [run]; [discriminate|].
  rewrite observe_bind. destruct (observe t) as [a|u|X e g] eqn:Hob.
  - intros Hr. exists a, s, (Datatypes.S fuel). by split_and!.
  - intros Hr. destruct (IH _ _ Hr) as (a & s' & f' & H1 & H2 & H3). exists a, s', f'. split_and!; [done|lia|done].
  - destruct (h X e s) as [x s1]. intros Hr. destruct (IH _ _ Hr) as (a & s' & f' & H1 & H2 & H3).
    exists a, s', f'. split_and!; [done|lia|done].
Qed.

(** A loop whose body always says to go on gives no result, with any fuel. *)
Lemma loop_never_ends {S St A} (R : env S) (h : handler S) (Inv : St -> S -> Prop) (body : St -> M (St + A)) :
  answers R h ->
  (forall x s, Inv x s -> wp R (fun o s' => exists x', o = Val (inl x') /\ Inv x' s') (body x) s) ->
  forall fuel x s, Inv x s -> run h fuel (loop body x) s = None.
Proof.
  intros Hh Hbody fuel. induction (lt_wf fuel) as [fuel _ IH]. intros x s HI.
  destruct (run h fuel (loop body x) s) as [r|] eqn:Hr; [exfalso|done].
  assert (Hr' : run h fuel (ITree.bind (ITree.bind (body x) loop_step)
    (fun lr => match lr with inl l => Tau (loop body l) | inr r => Ret r end)) s = Some r)
    by (destruct fuel; [done|exact Hr]).
  destruct (run_bind_inv _ _ _ _ _ _ Hr') as (lr & s1 & f1 & H1 & Hf1 & H2).
  destruct (run_bind_inv _ _ _ _ _ _ H1) as (o & s2 & f2 & H3 & _ & H4).
  destruct (run_wp _ _ _ _ _ _ _ _ Hh (Hbody x s HI) H3) as (x' & -> & HI').
  destruct f2 as [|f2]; [done|]. cbn in H4. injection H4 as <- <-.
  destruct f1 as [|f1]; [done|]. cbn in H2. rewrite IH in H2; [done|lia|done].
Qed.

(** ** Rules of the process environment *)

Definition is_conf {X} (e : sysE X) : bool :=
  match e with GetConf => true | SetConf _ => true | _ => false end.

Lemma wp_get (Q : outcome InitConfig -> pstate -> Prop) s :
  Q (Val (p_conf s)) s -> wp posix Q (sys GetConf) s.
Proof. intros HQ. apply wp_sys. by intros x s' [-> ->]. Qed.

Lemma wp_set (Q : outcome unit -> pstate -> Prop) f s :
  Q (Val tt) (with_conf f s) -> wp posix Q (sys (SetConf f)) s.
Proof. intros HQ. apply wp_sys. by intros [] s' ->. Qed.

Lemma wp_call {X} (Q : outcome X -> pstate -> Prop) (e : sysE X) s :
  is_conf e = false ->
  (forall x, reply_ok e x -> Q (Val x) (logged e x s)) -> wp posix Q (sys e) s.
Proof.
  intros Hc HQ. apply wp_sys. intros x s' Hx.
  destruct e; try discriminate Hc; destruct Hx as [Hr ->]; by apply HQ.
Qed.

Lemma wp_check_stat (Q : outcome unit -> pstate -> Prop) st s :
  (st = SUCCESS -> Q (Val tt) s) -> (st <> SUCCESS -> Q (Fail st) s) ->
  wp posix Q (CHECK_STAT st) s.
Proof. intros. unfold CHECK_STAT. destruct (decide _); [apply wp_mret|apply wp_fail]; auto. Qed.

Lemma wp_check_sstat (Q : outcome unit -> pstate -> Prop) st s :
  (st = SUCCESS -> Q (Val tt) s) -> (st <> SUCCESS -> Q (Fail st) (logged Free tt s)) ->
  wp posix Q (CHECK_SSTAT st) s.
Proof.
  intros. unfold CHECK_SSTAT. destruct (decide _); [apply wp_mret; auto|].
  apply wp_mbind, wp_call; [done|]. intros [] _. apply wp_fail. auto.
Qed.

Lemma tally_app d tr tr' : tally d (tr ++ tr') = tally d tr + tally d tr'.
Proof. unfold tally. induction tr as [|o tr IH]; cbn [fold_right app]; lia. Qed.

Lemma tally_cons d {X} (e : sysE X) x tr : tally d (Obs e x :: tr) = d _ e x + tally d tr.
Proof. reflexivity. Qed.

Lemma gather_app {A} (ev : forall X, sysE X -> X -> list A) tr tr' :
  gather ev (tr ++ tr') = gather ev tr ++ gather ev tr'.
Proof. unfold gather. by rewrite fmap_app, concat_app. Qed.

Lemma gather_in {A X} (ev : forall X, sysE X -> X -> list A) (e : sysE X) x a tr :
  Obs e x ∈ tr -> a ∈ ev _ e x -> a ∈ gather ev tr.
Proof.
  intros Hin Ha. apply list_elem_of_split in Hin as (t1 & t2 & ->). rewrite gather_app.
  apply elem_of_app. right. apply elem_of_app. by left.
Qed.

Lemma keeps_size_fstat tr file file' n r z :
  keeps_size tr -> Obs (Ftruncate file n) 0 ∈ tr -> Obs (Fstat file') (r, z) ∈ tr -> z = n.
Proof.
  intros Hk Hn Hz. apply Hk.
  - eapply gather_in; [exact Hn|]. apply list_elem_of_here.
  - eapply gather_in; [exact Hz|]. apply list_elem_of_here.
Qed.

Lemma keeps_size_nil tr : gather truncated_event tr = [] -> keeps_size tr.
Proof. intros Hn n z Hin. rewrite Hn in Hin. by apply elem_of_nil in Hin. Qed.

Lemma sockets_app tr tr' : sockets (tr ++ tr') = sockets tr ++ sockets tr'.
Proof. apply gather_app. Qed.

Lemma complaints_app tr tr' : complaints (tr ++ tr') = complaints tr ++ complaints tr'.
Proof. apply gather_app. Qed.

Lemma complaints_l st tr tr' : st ∈ complaints tr -> st ∈ complaints (tr ++ tr').
Proof. rewrite complaints_app, elem_of_app. by left. Qed.
Lemma complaints_r st tr tr' : st ∈ complaints tr' -> st ∈ complaints (tr ++ tr').
Proof. rewrite complaints_app, elem_of_app. by right. Qed.
#[export] Hint Resolve complaints_l complaints_r : ruf.

Lemma socket_in type fd tr : 0 <= fd -> Obs (Socket type) fd ∈ tr -> fd ∈ sockets tr.
Proof.
  intros Hfd Hin. eapply gather_in; [exact Hin|]. cbn. destruct (Z.eqb_spec fd (-1)); [lia|]. in_list.
Qed.

Lemma accept_in l fd sa tr : 0 <= fd -> Obs (Accept l) (fd, sa) ∈ tr -> fd ∈ sockets tr.
Proof.
  intros Hfd Hin. eapply gather_in; [exact Hin|]. cbn. destruct (Z.eqb_spec fd (-1)); [lia|]. in_list.
Qed.

(** Sockets opened in different parts of a trace differ while no descriptor is
    used twice. *)
Lemma sockets_differ tr tr1 tr2 tr3 tr4 fd fd' :
  NoDup (sockets tr) -> tr = tr1 ++ tr2 ++ tr3 ++ tr4 -> fd ∈ sockets tr1 -> fd' ∈ sockets tr3 -> fd <> fd'.
Proof.
  intros Hnd -> Hin Hin' ->. rewrite !sockets_app in Hnd. apply NoDup_app in Hnd as (_ & Hdis & _).
  apply (Hdis fd' Hin). rewrite !elem_of_app. auto.
Qed.

(** Postconditions of the form "the calls made are those". *)
Definition calls {A} (P : outcome A -> list obs -> Prop) (s : pstate) (o : outcome A) (s' : pstate) : Prop :=
  exists tr, p_conf s' = p_conf s /\ p_trace s' = p_trace s ++ tr /\ P o tr.

(** The state after calls that leave the configuration alone. *)
Definition after_calls (tr : list obs) (s : pstate) : pstate :=
  {| p_conf := p_conf s; p_trace := p_trace s ++ tr |}.

Lemma wp_calls {A} (P : outcome A -> list obs -> Prop) (Q : outcome A -> pstate -> Prop) m s :
  wp posix (calls P s) m s -> (forall o tr, P o tr -> Q o (after_calls tr s)) -> wp posix Q m s.
Proof.
  intros Hw HQ. eapply wp_mono; [exact Hw|]. intros o [c t] (tr & Hc & Ht & HP).
  cbn in Hc, Ht. subst. by apply HQ.
Qed.

(** Postconditions on the calls made and the configuration they leave. *)
Definition does {A} (P : outcome A -> list obs -> InitConfig -> Prop) (s : pstate)
    (o : outcome A) (s' : pstate) : Prop :=
  exists tr, p_trace s' = p_trace s ++ tr /\ P o tr (p_conf s').

Definition after_does (tr : list obs) (c : InitConfig) (s : pstate) : pstate :=
  {| p_conf := c; p_trace := p_trace s ++ tr |}.

Lemma wp_does {A} (R : env pstate) (P : outcome A -> list obs -> InitConfig -> Prop)
    (Q : outcome A -> pstate -> Prop) m s :
  wp R (does P s) m s -> (forall o tr c, P o tr c -> Q o (after_does tr c s)) -> wp R Q m s.
Proof.
  intros Hw HQ. eapply wp_mono; [exact Hw|]. intros o [c t] (tr & Ht & HP).
  cbn in Ht, HP. subst. by apply HQ.
Qed.

Lemma does_calls {A} (P : outcome A -> list obs -> Prop) s o s' :
  calls P s o s' -> does (fun o tr c => P o tr /\ c = p_conf s) s o s'.
Proof. intros (tr & Hc & Ht & HP). by exists tr. Qed.

(** ** Environments that promise more

    [posix_if ok] has the replies of [posix] that satisfy [ok]; what holds in the
    one holds in the other. *)
Definition posix_if (ok : obs -> Prop) : env pstate :=
  fun X e s x s' => posix X e s x s' /\ (is_conf e = false -> ok (Obs e x)).

(** A program is as correct where fewer replies are possible. *)
Lemma wp_fewer {S A} (R R' : env S) (Q : A -> S -> Prop) t s :
  (forall X (e : sysE X) s x s', R' X e s x s' -> R X e s x s') -> wp R Q t s -> wp R' Q t s.
Proof.
  intros HR. induction 1 as [t s a Hob HQ|t s u Hob _ IH|t s X e k Hob _ IH].
  - by eapply wp_done.
  - by eapply wp_tau.
  - eapply wp_vis; [done|]. intros x s' Hx. by apply IH, HR.
Qed.

Lemma wp_restrict_from {A} (R : env pstate) (ok : obs -> Prop) (Q : A -> pstate -> Prop) t s :
  (forall X (e : sysE X) s x s', posix_if ok X e s x s' -> R X e s x s') -> wp R Q t s ->
  wp (posix_if ok) (fun a s' => Q a s' /\ exists tr, p_trace s' = p_trace s ++ tr /\ Forall ok tr) t s.
Proof.
  intros HR. induction 1 as [t s a Hob HQ|t s u Hob _ IH|t s X e k Hob _ IH].
  - eapply wp_done; [done|]. split; [done|]. exists []. by rewrite app_nil_r.
  - by eapply wp_tau.
  - eapply wp_vis; [done|]. intros x s' [Hx Hok]. eapply wp_mono; [by apply IH, HR|].
    intros a s'' (HQ & tr & Ht & Hall). split; [done|].
    destruct (is_conf e) eqn:E.
    + exists tr. split; [|done]. rewrite Ht. f_equal.
      destruct e; try discriminate E; [destruct Hx as [_ ->]|rewrite Hx]; done.
    + exists (Obs e x :: tr). split; [|by constructor; [apply Hok|]]. rewrite Ht.
      assert (p_trace s' = p_trace s ++ [Obs e x]) as ->; [|by rewrite <- app_assoc].
      by destruct e; try discriminate E; destruct Hx as [_ ->].
Qed.

Lemma wp_restrict {A} (ok : obs -> Prop) (Q : A -> pstate -> Prop) t s :
  wp posix Q t s ->
  wp (posix_if ok) (fun a s' => Q a s' /\ exists tr, p_trace s' = p_trace s ++ tr /\ Forall ok tr) t s.
Proof. apply wp_restrict_from. by intros X e s' x s'' [Hp _]. Qed.

(** A process only ever adds to its trace. *)
Lemma wp_traced {A} (Q : A -> pstate -> Prop) t s :
  wp posix Q t s -> wp posix (fun a s' => Q a s' /\ exists tr, p_trace s' = p_trace s ++ tr) t s.
Proof.
  intros Hw. apply (wp_fewer (posix_if (fun _ => True)) posix); [done|].
  eapply wp_mono; [by apply wp_restrict|]. intros a s' (HQ & tr & Ht & _). split; [done|by exists tr].
Qed.

Lemma wp_restrict_does {A} ok (P : outcome A -> list obs -> InitConfig -> Prop) m s :
  wp posix (does P s) m s ->
  wp (posix_if ok) (does (fun o tr c => P o tr c /\ Forall ok tr) s) m s.
Proof.
  intros Hw. eapply wp_mono; [by apply wp_restrict|].
  intros o s' ((tr & Ht & HP) & tr' & Ht' & Hall). exists tr. split; [done|]. split; [done|].
  rewrite Ht in Ht'. by apply app_inv_head in Ht' as ->.
Qed.

Lemma wp_use {A} ok (P : outcome A -> list obs -> InitConfig -> Prop) (Q : outcome A -> pstate -> Prop) m s :
  wp posix (does P s) m s ->
  (forall o tr c, P o tr c -> Forall ok tr -> Q o (after_does tr c s)) -> wp (posix_if ok) Q m s.
Proof.
  intros Hw HQ. eapply wp_does; [by apply wp_restrict_does|]. intros o tr c [HP Hall]. by apply HQ.
Qed.

(** [posix_while P] has the replies of [posix] after which the trace satisfies
    [P]: what it says of the outside world may depend on what happened before. *)
Definition posix_while (P : list obs -> Prop) : env pstate :=
  fun X e s x s' => posix X e s x s' /\ P (p_trace s').

Lemma wp_while {A} (P : list obs -> Prop) (Q : A -> pstate -> Prop) t s :
  P (p_trace s) -> wp posix Q t s ->
  wp (posix_while P) (fun a s' => Q a s' /\ P (p_trace s')) t s.
Proof.
  intros HP Hw. induction Hw as [t s a Hob HQ|t s u Hob _ IH|t s X e k Hob _ IH].
  - by eapply wp_done.
  - eapply wp_tau; [done|]. by apply IH.
  - eapply wp_vis; [done|]. intros x s' [Hx HP']. by apply IH.
Qed.

Lemma wp_if_while {A} (ok : obs -> Prop) (P : list obs -> Prop) (Q : A -> pstate -> Prop) t s :
  (forall tr, P tr -> Forall ok tr) -> P (p_trace s) -> wp (posix_if ok) Q t s ->
  wp (posix_while P) (fun a s' => Q a s' /\ P (p_trace s')) t s.
Proof.
  intros Hok HP Hw. induction Hw as [t s a Hob HQ|t s u Hob _ IH|t s X e k Hob _ IH].
  - by eapply wp_done.
  - eapply wp_tau; [done|]. by apply IH.
  - eapply wp_vis; [done|]. intros x s' [Hx HP']. apply IH; [|done]. split; [done|]. intros He.
    destruct e; try discriminate He; destruct Hx as [_ ->]; apply Hok, Forall_app in HP' as [_ HP'];
      by apply Forall_cons in HP' as [? _].
Qed.

(** More is assumed of the outside world, and holds of the trace. *)
Lemma wp_while_and {A} (P P' : list obs -> Prop) (Q : A -> pstate -> Prop) t s :
  P' (p_trace s) -> wp (posix_while P) Q t s ->
  wp (posix_while (fun tr => P tr /\ P' tr)) (fun a s' => Q a s' /\ P' (p_trace s')) t s.
Proof.
  intros HP Hw. induction Hw as [t s a Hob HQ|t s u Hob _ IH|t s X e k Hob _ IH].
  - by eapply wp_done.
  - eapply wp_tau; [done|]. by apply IH.
  - eapply wp_vis; [done|]. intros x s' [Hx [HP1 HP2]]. by apply IH.
Qed.

Lemma wp_while_use {A} P (P' : outcome A -> list obs -> InitConfig -> Prop)
    (Q : outcome A -> pstate -> Prop) m s :
  P (p_trace s) -> wp posix (does P' s) m s ->
  (forall o tr c, P' o tr c -> P (p_trace s ++ tr) -> Q o (after_does tr c s)) ->
  wp (posix_while P) Q m s.
Proof.
  intros HP Hw HQ. eapply wp_mono; [by apply wp_while|]. intros o [c t] ((tr & Ht & HP') & HPt).
  cbn in Ht, HP', HPt. subst t. by apply HQ.
Qed.

Lemma wp_while_calls {A} P (P' : outcome A -> list obs -> Prop) (Q : outcome A -> pstate -> Prop) m s :
  P (p_trace s) -> wp posix (calls P' s) m s ->
  (forall o tr, P' o tr -> P (p_trace s ++ tr) -> Q o (after_calls tr s)) ->
  wp (posix_while P) Q m s.
Proof.
  intros HP Hw HQ. eapply wp_while_use; [done| |].
  - eapply wp_mono; [exact Hw|]. intros o s' Ho. exact (does_calls _ _ _ _ Ho).
  - intros o tr c [HP' ->]. by apply HQ.
Qed.

Lemma wp_while_get P (Q : outcome InitConfig -> pstate -> Prop) s :
  P (p_trace s) -> Q (Val (p_conf s)) s -> wp (posix_while P) Q (sys GetConf) s.
Proof. intros HP HQ. apply wp_sys. by intros x s' [[-> ->] _]. Qed.

(** *** Executions of a process *)

Lemma posix_trace X (e : sysE X) s x s1 :
  posix X e s x s1 -> exists tr, p_trace s1 = p_trace s ++ tr /\ (is_conf e = false -> tr = [Obs e x]).
Proof.
  destruct e; cbn [posix].
  1: { intros [_ ->]. exists []. by rewrite app_nil_r. }
  1: { intros ->. exists []. by rewrite app_nil_r. }
  all: intros [_ ->]; eexists; by split.
Qed.

Lemma exec_trace {A} t s (a : A) s' : exec posix t s a s' -> exists tr, p_trace s' = p_trace s ++ tr.
Proof.
  induction 1 as [t s a Hob|t u s a s' Hob _ IH|X e k x t s s1 a s' Hob Hx _ (tr & Ht)]; [|done|].
  - exists []. by rewrite app_nil_r.
  - destruct (posix_trace _ _ _ _ _ Hx) as (tr1 & Ht1 & _). exists (tr1 ++ tr). by rewrite Ht, Ht1, app_assoc.
Qed.

(** What holds of a whole execution's trace restricts the environment it ran in. *)
Lemma exec_while {A} (P : list obs -> Prop) t s (a : A) s' :
  exec posix t s a s' -> (forall tr1 tr2, p_trace s' = p_trace s ++ tr1 ++ tr2 -> P (p_trace s ++ tr1)) ->
  exec (posix_while P) t s a s'.
Proof.
  induction 1 as [t s a Hob|t u s a s' Hob _ IH|X e k x t s s1 a s' Hob Hx He IH]; intros HP.
  - by constructor.
  - eapply exec_tau; [done|]. by apply IH.
  - destruct (posix_trace _ _ _ _ _ Hx) as (tr1 & Ht1 & _). destruct (exec_trace _ _ _ _ He) as (tr & Ht).
    eapply exec_vis; [done| |apply IH].
    + split; [done|]. rewrite Ht1. apply (HP tr1 tr). by rewrite Ht, Ht1, app_assoc.
    + intros tr2 tr3 Ht3. rewrite Ht1, <- app_assoc. apply (HP _ tr3). by rewrite Ht3, Ht1, <- !app_assoc.
Qed.

Lemma exec_if {A} (ok : obs -> Prop) t s (a : A) s' tr :
  exec posix t s a s' -> p_trace s' = p_trace s ++ tr -> Forall ok tr -> exec (posix_if ok) t s a s'.
Proof.
  intros He. revert tr.
  induction He as [t s a Hob|t u s a s' Hob _ IH|X e k x t s s1 a s' Hob Hx He IH]; intros tr Ht Hall.
  - by constructor.
  - eapply exec_tau; [done|]. by eapply IH.
  - destruct (posix_trace _ _ _ _ _ Hx) as (tr1 & Ht1 & Hone). destruct (exec_trace _ _ _ _ He) as (tr2 & Ht2).
    assert (tr = tr1 ++ tr2) as -> by (rewrite Ht2, Ht1, <- app_assoc in Ht; by apply app_inv_head in Ht).
    apply Forall_app in Hall as [Hall1 Hall2].
    eapply exec_vis; [done| |by eapply IH].
    split; [done|]. intros Hc. rewrite (Hone Hc) in Hall1. by inversion Hall1.
Qed.

Lemma exec_if_inv {A} (ok : obs -> Prop) t s (a : A) s' :
  exec (posix_if ok) t s a s' -> exec posix t s a s' /\ exists tr, p_trace s' = p_trace s ++ tr /\ Forall ok tr.
Proof.
  induction 1 as [t s a Hob|t u s a s' Hob _ [IH1 IH2]|X e k x t s s1 a s' Hob [Hx Hok] _ [IH1 (tr & Ht & Hall)]].
  - split; [by constructor|]. exists []. by rewrite app_nil_r.
  - split; [by eapply exec_tau|done].
  - split; [by eapply exec_vis|]. destruct (posix_trace _ _ _ _ _ Hx) as (tr1 & Ht1 & _).
    destruct (is_conf e) eqn:E.
    + exists tr. split; [|done]. rewrite Ht.
      destruct e; try discriminate E; [destruct Hx as [_ ->]|rewrite Hx]; done.
    + exists (Obs e x :: tr). split; [|by constructor; [apply Hok|]]. rewrite Ht.
      by destruct e; try discriminate E; destruct Hx as [_ ->]; cbn; rewrite <- app_assoc.
Qed.

Lemma posix_if_posix ok X (e : sysE X) s x s' : posix_if ok X e s x s' -> posix X e s x s'.
Proof. by intros [Hp _]. Qed.
Lemma posix_while_posix P X (e : sysE X) s x s' : posix_while P X e s x s' -> posix X e s x s'.
Proof. by intros [Hp _]. Qed.

Lemma wp_get_if ok (Q : outcome InitConfig -> pstate -> Prop) s :
  Q (Val (p_conf s)) s -> wp (posix_if ok) Q (sys GetConf) s.
Proof. intros HQ. apply wp_sys. by intros x s' [[-> ->] _]. Qed.

Lemma wp_call_if {X} ok (Q : outcome X -> pstate -> Prop) (e : sysE X) s :
  is_conf e = false ->
  (forall x, reply_ok e x -> ok (Obs e x) -> Q (Val x) (logged e x s)) -> wp (posix_if ok) Q (sys e) s.
Proof.
  intros Hc HQ. apply wp_sys. intros x s' [Hx Hok]. specialize (Hok Hc).
  destruct e; try discriminate Hc; destruct Hx as [Hr ->]; by apply HQ.
Qed.

Lemma wp_set_if ok (Q : outcome unit -> pstate -> Prop) f s :
  Q (Val tt) (with_conf f s) -> wp (posix_if ok) Q (sys (SetConf f)) s.
Proof. intros HQ. apply wp_sys. by intros [] s' [-> _]. Qed.

(** [wp_step] runs one construct of a program in the process environment;
    [wp_go] runs it to the next case distinction or loop. *)
Ltac wp_step :=
  match goal with
  | |- wp _ _ (_ ≫= _) _ => apply wp_mbind
  | |- wp _ _ (mret _) _ => apply wp_mret
  | |- wp _ _ (fail _) _ => apply wp_fail
  | |- wp _ _ (exit _) _ => apply wp_exit
  | |- wp _ _ undef _ => apply wp_undef
  | |- wp _ _ (defined _) _ => apply wp_defined
  | |- wp posix _ (sys GetConf) _ => apply wp_get
  | |- wp posix _ (sys (SetConf _)) _ => apply wp_set
  | |- wp posix _ (sys _) _ =>
      let x := fresh "r" in let Hx := fresh "Hr" in
      apply wp_call; [reflexivity|intros x Hx; cbn [reply_ok] in Hx]
  | |- seq_post _ _ _ _ _ => cbn [seq_post]
  | |- loop_post _ _ _ _ _ _ _ => progress cbn [loop_post]
  | |- wp _ _ (let '(_, _) := ?p in _) _ => destruct p
  | |- wp _ _ (status_of _) _ => apply wp_status_of
  | |- wp _ _ (free_on_fail _) _ => apply wp_free_on_fail
  | |- wp _ _ (CHECK_EQUAL _ _ _) _ => unfold CHECK_EQUAL
  | |- wp _ _ (CHECK_NOTEQUAL _ _ _) _ => unfold CHECK_NOTEQUAL
  | |- wp _ _ (CHECK_INT _ _) _ => unfold CHECK_INT
  | |- wp _ _ (CHECK_SIZE _ _) _ => unfold CHECK_SIZE
  | |- wp posix _ (CHECK_STAT _) _ =>
      let E := fresh "Est" in apply wp_check_stat; intros E; try discriminate E; try done
  | |- wp posix _ (CHECK_SSTAT (if ?a =? ?b then _ else _)) _ => destruct (Z.eqb_spec a b)
  | |- wp posix _ (CHECK_SSTAT _) _ =>
      let E := fresh "Est" in apply wp_check_sstat; intros E; try discriminate E; try done
  | |- wp _ _ (CHECK_PORT _) _ => unfold CHECK_PORT
  | |- wp _ _ (CHECK_IPV4 _) _ => unfold CHECK_IPV4
  | |- wp _ _ (CHECK_MFILE _) _ => unfold CHECK_MFILE
  | |- wp _ _ (CHECK_THREAD _) _ => unfold CHECK_THREAD
  end.
Ltac wp_go := repeat wp_step.

(** The case distinctions of the checks. *)
Ltac wp_case :=
  match goal with
  | |- wp _ _ (if negb ?b then _ else _) _ => is_var b; destruct b; cbn [negb]
  | |- wp _ _ (if decide ?P then _ else _) _ => destruct (decide P)
  | |- wp _ _ (if bool_decide ?P then _ else _) _ => destruct (bool_decide_reflect P)
  | |- wp _ _ (if ?a =? ?b then _ else _) _ => destruct (Z.eqb_spec a b)
  | |- wp _ _ (if ?a <? ?b then _ else _) _ => destruct (Z.ltb_spec a b)
  | |- wp _ _ (if ?b then _ else _) _ => let E := fresh "E" in destruct b eqn:E
  | |- wp _ _ (match ?o with Some _ => _ | None => _ end) _ =>
      first [is_var o; destruct o|let E := fresh "E" in destruct o eqn:E]
  end.

(** [complains] finds a status among the complaints of a list of calls whose
    replies the context decides. *)
Ltac complains :=
  subst; rewrite ?complaints_app, ?elem_of_app;
  unfold complaints, gather, when;
  cbn [fmap list_fmap concat app complaint ob_call ob_reply fst snd negb orb];
  repeat match goal with
    | |- context [?a =? ?b] => destruct (Z.eqb_spec a b); try lia; try congruence; cbn [app negb orb]
    | |- context [?a <? ?b] => destruct (Z.ltb_spec a b); try lia; cbn [app negb]
    end;
  cbn; first [in_list|left; in_list|right; in_list].

(** [calls_go] closes the bookkeeping part of a [calls] postcondition. *)
Ltac calls_go :=
  eexists; split; [reflexivity|]; split;
  [cbn [logged after_calls after_does with_conf p_trace p_conf]; rewrite <- ?app_assoc; cbn [app];
   first [reflexivity|symmetry; apply app_nil_r]|].

Ltac does_go :=
  eexists; split;
  [cbn [logged after_calls after_does with_conf p_trace p_conf]; rewrite <- ?app_assoc; cbn [app];
   first [reflexivity|symmetry; apply app_nil_r]|cbn [logged after_calls after_does with_conf p_conf]].
(** The same, from a state whose trace [Ht] gives. *)
Ltac does_from Ht :=
  eexists; split;
  [cbn [logged after_calls after_does with_conf p_trace p_conf]; rewrite Ht, <- ?app_assoc; cbn [app];
   first [reflexivity|symmetry; apply app_nil_r]|cbn [logged after_calls after_does with_conf p_conf]].
