(* ===== verification/Prefix.v ===== *)
(** * Executions cut short

    What a total-correctness theorem says of whole executions, it says of the
    beginnings of executions too: where the environment can always answer as it
    promises to, a beginning that keeps the promise can be completed to a whole
    execution that does.  So the calls of an execution up to any point at which
    the environment has kept its promise are the beginning of the calls of a good
    execution, whatever comes after that point.  A beginning is a sequence of steps
    ([reaches]); and there is no endless one. *)
From Stdlib Require Import Eqdep.
From stdpp Require Import relations.
From S2P Require Import Prelude Protocol Types Sys.

(** ** Steps *)

Inductive moves {S A} (R : env S) : itree sysE A * S -> itree sysE A * S -> Prop :=
| moves_tau t u s : observe t = TauF u -> moves R (t, s) (u, s)
| moves_vis t s X (e : sysE X) k x s' : observe t = VisF e k -> R X e s x s' -> moves R (t, s) (k x, s').

#[warnings="-notation-for-abbreviation"] Notation reaches R := (rtc (moves R)) (only parsing).

(** Two views of what a program does next. *)
Ltac same_next :=
  repeat match goal with
  | H : @observe _ _ ?t = _, H' : @observe _ _ ?t = _ |- _ =>
      rewrite H in H'; first [discriminate H'|inversion H'; subst; clear H']
  | E : existT _ _ = existT _ _ |- _ => apply inj_pair2 in E; subst
  end.

Section steps.
Context {S A : Type} (R : env S) (Q : A -> S -> Prop).

Lemma wp_moves t s t' s' : wp R Q t s -> moves R (t, s) (t', s') -> wp R Q t' s'.
Proof.
  intros Hw Hm. inversion Hm as [? ? ? Hob|? ? X e k x ? Hob Hx]; subst;
    destruct Hw as [a Hb HQ|u' Hb Hw|X' e' k' Hb Hk]; same_next; [done|by apply Hk].
Qed.

Lemma wp_reaches p q : wp R Q p.1 p.2 -> reaches R p q -> wp R Q q.1 q.2.
Proof.
  intros Hw Hr. induction Hr as [|[t s] [u s1] q Hm _ IH]; [done|]. apply IH. by eapply wp_moves.
Qed.

Lemma wp_returned t s a : wp R Q t s -> observe t = RetF a -> Q a s.
Proof. intros Hw Ho. destruct Hw; same_next; done. Qed.

(** No sequence of steps is endless. *)
Lemma wp_acc t s : wp R Q t s -> Acc (flip (moves R)) (t, s).
Proof.
  induction 1 as [t s a Hob HQ|t s u Hob _ IH|t s X e k Hob _ IH]; constructor; intros [t' s'] Hm;
    inversion Hm; subst; same_next; [done|by eapply IH].
Qed.

Lemma exec_steps t s (a : A) s' : exec R t s a s' -> exists t' : itree sysE A, reaches R (t, s) (t', s') /\ observe t' = RetF a.
Proof.
  induction 1 as [t s a Hob|t u s a s' Hob _ (t' & Hr & Ho)|X e k x t s s1 a s' Hob Hx _ (t' & Hr & Ho)].
  - by exists t.
  - exists t'. split; [|done]. eapply rtc_l; [by apply moves_tau|exact Hr].
  - exists t'. split; [|done]. eapply rtc_l; [by eapply moves_vis|exact Hr].
Qed.

Lemma steps_exec p q (a : A) s' : reaches R p q -> exec R q.1 q.2 a s' -> exec R p.1 p.2 a s'.
Proof.
  intros Hr He. induction Hr as [|p q r Hm _ IH]; [done|]. specialize (IH He).
  inversion Hm; subst; [by eapply exec_tau|by eapply exec_vis].
Qed.
End steps.

Lemma moves_fewer {S A} (R R' : env S) (p q : itree sysE A * S) :
  (forall X (e : sysE X) s x s', R X e s x s' -> R' X e s x s') -> moves R p q -> moves R' p q.
Proof. intros HR. inversion 1; subst; [by apply moves_tau|by eapply moves_vis; [|apply HR]]. Qed.

Lemma exec_fewer {S A} (R R' : env S) t s (a : A) s' :
  (forall X (e : sysE X) s x s', R X e s x s' -> R' X e s x s') -> exec R t s a s' -> exec R' t s a s'.
Proof.
  intros HR. induction 1; [by constructor|by eapply exec_tau|by eapply exec_vis; [|apply HR|]].
Qed.

(** ** Completion

    From a state that satisfies [I], [R] has an answer for every call, and leads to
    such states. *)
Section completion.
Context {S : Type} (R : env S).
Context (I : S -> Prop) (Hkeeps : forall X (e : sysE X) s x s', I s -> R X e s x s' -> I s').
Context (Hanswers : forall X (e : sysE X) s, I s -> exists x s', R X e s x s').

Lemma wp_completes {A} (Q : A -> S -> Prop) t s : wp R Q t s -> I s -> exists a s', exec R t s a s'.
Proof using Hkeeps Hanswers.
  induction 1 as [t s a Hob _|t s u Hob _ IH|t s X e k Hob _ IH]; intros HI.
  - exists a, s. by constructor.
  - destruct (IH HI) as (a & s' & He). exists a, s'. by eapply exec_tau.
  - destruct (Hanswers X e s HI) as (x & s1 & Hx). destruct (IH x s1 Hx) as (a & s' & He); [by eapply Hkeeps|].
    exists a, s'. by eapply exec_vis.
Qed.
End completion.

(** A call that is not a use of [*conf] is recorded. *)
Lemma posix_call X (e : sysE X) s x s' :
  is_conf e = false -> posix X e s x s' <-> reply_ok e x /\ s' = logged e x s.
Proof. by destruct e. Qed.

Lemma posix_conf X (e : sysE X) s :
  is_conf e = true -> exists x s', posix X e s x s' /\ p_trace s' = p_trace s.
Proof. destruct e; try discriminate; intros _; [by exists (p_conf s), s|by exists tt, (with_conf f s)]. Qed.

Lemma posix_conf_trace X (e : sysE X) s x s' : is_conf e = true -> posix X e s x s' -> p_trace s' = p_trace s.
Proof. destruct e; try discriminate; intros _; [by intros [_ ->]|by intros ->]. Qed.

(** ** The trace of a beginning *)

Definition state_trace {A} (p : itree sysE A * pstate) : list obs := p_trace p.2.

Lemma moves_trace {A} (p q : itree sysE A * pstate) :
  moves posix p q -> state_trace q = state_trace p \/ exists o, state_trace q = state_trace p ++ [o].
Proof.
  inversion 1 as [|t s X e k x s' Hob Hx]; subst; [by left|]. destruct (is_conf e) eqn:Hc.
  - left. by eapply posix_conf_trace.
  - right. apply posix_call in Hx as [_ ->]; [|done]. by exists (Obs e x).
Qed.

Lemma reaches_trace {A} (p q : itree sysE A * pstate) :
  reaches posix p q -> exists tr, state_trace q = state_trace p ++ tr.
Proof.
  induction 1 as [p|p q r Hm _ (tr & Ht)]; [exists []; by rewrite app_nil_r|].
  destruct (moves_trace _ _ Hm) as [Hq|[o Hq]]; rewrite Hq in Ht; [by exists tr|].
  exists (o :: tr). by rewrite Ht, <- app_assoc.
Qed.

(** A beginning has beginnings of its own, one for each beginning of its calls. *)
Lemma reaches_split {A} (p q : itree sysE A * pstate) pre post :
  reaches posix p q -> state_trace q = state_trace p ++ pre ++ post ->
  exists r, reaches posix p r /\ state_trace r = state_trace p ++ pre.
Proof.
  intros Hr. revert pre. induction Hr as [p|p q r Hm Hr IH]; intros pre Ht.
  - exists p. split; [done|]. rewrite <- (app_nil_r (state_trace p)) in Ht at 1. apply app_inv_head in Ht.
    symmetry in Ht. apply app_nil in Ht as [-> _]. by rewrite app_nil_r.
  - destruct (moves_trace _ _ Hm) as [Hq|[o Hq]].
    + rewrite <- Hq in Ht. destruct (IH pre Ht) as (r' & Hr' & Ht'). exists r'. split; [by eapply rtc_l|by rewrite Ht', Hq].
    + destruct pre as [|o' pre]; [by exists p; rewrite app_nil_r|].
      destruct (reaches_trace _ _ Hr) as [tr Htr]. assert (o' = o) as ->.
      { rewrite Ht, Hq, <- !app_assoc in Htr. apply app_inv_head in Htr. by injection Htr. }
      destruct (IH pre) as (r' & Hr' & Ht'); [rewrite Ht, Hq, <- !app_assoc; done|].
      exists r'. split; [by eapply rtc_l|]. by rewrite Ht', Hq, <- app_assoc.
Qed.

(** A beginning along which the trace always satisfies [P]. *)
Lemma reaches_while {A} (P : list obs -> Prop) (p q : itree sysE A * pstate) :
  reaches posix p q -> (forall tr1 tr2, state_trace q = state_trace p ++ tr1 ++ tr2 -> P (state_trace p ++ tr1)) ->
  reaches (posix_while P) p q.
Proof.
  induction 1 as [p|p q r Hm Hr IH]; intros HP; [done|].
  assert (Hq : exists tr0, state_trace q = state_trace p ++ tr0)
    by (destruct (moves_trace _ _ Hm) as [->|[o ->]]; [exists []; by rewrite app_nil_r|by exists [o]]).
  destruct Hq as [tr0 Hq]. eapply rtc_l; [|apply IH].
  - destruct (reaches_trace _ _ Hr) as [tr Ht]. assert (HPq : P (state_trace q))
      by (rewrite Hq; apply (HP tr0 tr); by rewrite Ht, Hq, app_assoc).
    inversion Hm; subst; [by apply moves_tau|by eapply moves_vis].
  - intros tr1 tr2 Ht. rewrite Hq, <- app_assoc. apply (HP _ tr2). by rewrite Ht, Hq, <- !app_assoc.
Qed.

Lemma exec_kept {A} (P : list obs -> Prop) t s (a : A) s' :
  exec (posix_while P) t s a s' -> P (p_trace s) -> P (p_trace s').
Proof. induction 1 as [|t u s a s' Hob _ IH|X e k x t s s1 a s' Hob [_ HP] _ IH]; auto. Qed.

(** Where a call that satisfies [P] can always get a reply that keeps it, a
    beginning whose trace satisfies [P] can be completed. *)
Lemma while_completes {A} (P : list obs -> Prop) (Q : A -> pstate -> Prop) t s :
  (forall X (e : sysE X) tr, is_conf e = false -> P tr -> exists x, reply_ok e x /\ P (tr ++ [Obs e x])) ->
  P (p_trace s) -> wp (posix_while P) Q t s -> exists a s', exec (posix_while P) t s a s' /\ Q a s' /\ P (p_trace s').
Proof.
  intros Hok HP Hw. destruct (wp_completes (posix_while P) (fun s => P (p_trace s))) with (Q := Q) (t := t) (s := s)
    as (a & s' & He); [| |done|done|].
  - by intros X e s0 x s1 _ [_ ?].
  - intros X e s0 HP0. destruct (is_conf e) eqn:Ec.
    + destruct (posix_conf X e s0 Ec) as (x & s1 & Hx & Hs1). exists x, s1. split; [done|by rewrite Hs1].
    + destruct (Hok X e _ Ec HP0) as (x & Hx & HPx). exists x, (logged e x s0). split; [by apply posix_call|done].
  - exists a, s'. split_and!; [done|by eapply wp_exec|by eapply exec_kept].
Qed.

Lemma exec_returned {A} (t : M A) s o (a : A) s' :
  observe t = RetF o -> exec posix t s (Val a) s' -> o = Val a /\ s' = s.
Proof. intros Ho He. inversion He; subst; same_next; done. Qed.

Lemma trace_here (s : pstate) (post : list obs) : p_trace s = p_trace s ++ post -> post = [].
Proof. intros He. rewrite <- (app_nil_r (p_trace s)) in He at 1. by apply app_inv_head in He. Qed.
