(* ===== verification/Wire.v ===== *)
(** * What a process sends and receives

    The messages along the calls of a process, and the shapes the theorems about
    the protocol give them: a header pushed ([pushes]), a header pulled
    ([pulls]), and a chunk cut into segments ([segments]). *)
From S2P Require Import Prelude Protocol Types Sys.

(** A message left on, or taken from, a socket. *)
Variant wev := Out (fd : Z) (data : list Z) | In (fd : Z) (data : list Z).

Definition wire_event X (e : sysE X) : X -> list wev :=
  match e in sysE X return X -> list wev with
  | SendTo fd buf _ => fun r => if r =? -1 then [] else [Out fd (ztake r buf)]
  | RecvFrom fd _ flags => fun r =>
      if (fst r =? -1) || (flags =? MSG_PEEK) then [] else [In fd (snd r)]
  | _ => fun _ => []
  end.

Fixpoint wire (tr : list obs) : list wev :=
  match tr with
  | [] => []
  | o :: tr => wire_event _ (ob_call o) (ob_reply o) ++ wire tr
  end.

(** The bytes left on, and taken from, one socket. *)
Definition out_bytes (fd : Z) (w : list wev) : list Z :=
  concat (map (fun e => match e with Out fd' d => if fd' =? fd then d else [] | In _ _ => [] end) w).
Definition in_bytes (fd : Z) (w : list wev) : list Z :=
  concat (map (fun e => match e with In fd' d => if fd' =? fd then d else [] | Out _ _ => [] end) w).

(** ** A header pushed *)

(** What the wait for the socket and the send that follows it may come to. *)
Inductive polled_out (sock : Z) (bytes : list Z) (flags timeout : Z) : outcome unit -> list obs -> Prop :=
| out_failure rev :
    polled_out sock bytes flags timeout (Fail FAILURE) [Obs (Poll sock POLLOUT timeout) (-1, rev)]
| out_timeout rev :
    polled_out sock bytes flags timeout (Fail TIMEOUT) [Obs (Poll sock POLLOUT timeout) (0, rev)]
| out_errpoll rev :
    Z.land rev POLLOUT = 0 ->
    polled_out sock bytes flags timeout (Fail ERRPOLL) [Obs (Poll sock POLLOUT timeout) (1, rev)]
| out_errsend rev :
    Z.land rev POLLOUT <> 0 ->
    polled_out sock bytes flags timeout (Fail ERRSEND)
      [Obs (Poll sock POLLOUT timeout) (1, rev); Obs (SendTo sock bytes flags) (-1)]
| out_lowsize rev n :
    Z.land rev POLLOUT <> 0 -> 0 <= n < len bytes ->
    polled_out sock bytes flags timeout (Fail LOWSIZE)
      [Obs (Poll sock POLLOUT timeout) (1, rev); Obs (SendTo sock bytes flags) n]
| out_sent rev :
    Z.land rev POLLOUT <> 0 ->
    polled_out sock bytes flags timeout (Val tt)
      [Obs (Poll sock POLLOUT timeout) (1, rev); Obs (SendTo sock bytes flags) (len bytes)].

(** A header is built in a buffer that every path but a failed allocation
    frees. *)
Inductive pushes (sock : Z) (bytes : list Z) (flags timeout : Z) : outcome unit -> list obs -> Prop :=
| pushes_nomem : pushes sock bytes flags timeout (Fail EMALLOC) [Obs (Malloc (len bytes)) false]
| pushes_io o tr :
    polled_out sock bytes flags timeout o tr ->
    pushes sock bytes flags timeout o ([Obs (Malloc (len bytes)) true] ++ tr ++ [Obs Free tt]).

(** ** A header pulled *)

(** Successive receives of given sizes. *)
Inductive reads (sock : Z) : list Z -> status_t + list (list Z) -> list obs -> Prop :=
| reads_nil : reads sock [] (inr []) []
| reads_errrecv size sizes d :
    reads sock (size :: sizes) (inl ERRRECV) [Obs (RecvFrom sock size 0) (-1, d)]
| reads_lowsize size sizes n d :
    0 <= n < size -> len d = n ->
    reads sock (size :: sizes) (inl LOWSIZE) [Obs (RecvFrom sock size 0) (n, d)]
| reads_stop size sizes d st tr :
    len d = size -> bytes_ok d -> reads sock sizes (inl st) tr ->
    reads sock (size :: sizes) (inl st) (Obs (RecvFrom sock size 0) (size, d) :: tr)
| reads_more size sizes d ds tr :
    len d = size -> bytes_ok d -> reads sock sizes (inr ds) tr ->
    reads sock (size :: sizes) (inr (d :: ds)) (Obs (RecvFrom sock size 0) (size, d) :: tr).

(** The type byte is peeked at; only a packet of the expected type is taken. *)
Inductive pulls (sock type : Z) (sizes : list Z) (timeout : Z) :
    status_t + list (list Z) -> list obs -> Prop :=
| pulls_failure rev :
    pulls sock type sizes timeout (inl FAILURE) [Obs (Poll sock POLLIN timeout) (-1, rev)]
| pulls_timeout rev :
    pulls sock type sizes timeout (inl TIMEOUT) [Obs (Poll sock POLLIN timeout) (0, rev)]
| pulls_errpoll rev :
    Z.land rev POLLIN = 0 ->
    pulls sock type sizes timeout (inl ERRPOLL) [Obs (Poll sock POLLIN timeout) (1, rev)]
| pulls_errrecv rev d :
    Z.land rev POLLIN <> 0 ->
    pulls sock type sizes timeout (inl ERRRECV)
      [Obs (Poll sock POLLIN timeout) (1, rev); Obs (RecvFrom sock 1 MSG_PEEK) (-1, d)]
| pulls_closed rev :
    Z.land rev POLLIN <> 0 ->
    pulls sock type sizes timeout (inl LOWSIZE)
      [Obs (Poll sock POLLIN timeout) (1, rev); Obs (RecvFrom sock 1 MSG_PEEK) (0, [])]
| pulls_badtype rev b :
    Z.land rev POLLIN <> 0 -> b <> type ->
    pulls sock type sizes timeout (inl BADTYPE)
      [Obs (Poll sock POLLIN timeout) (1, rev); Obs (RecvFrom sock 1 MSG_PEEK) (1, [b])]
| pulls_packet rev res tr :
    Z.land rev POLLIN <> 0 -> reads sock sizes res tr ->
    pulls sock type sizes timeout res
      ([Obs (Poll sock POLLIN timeout) (1, rev); Obs (RecvFrom sock 1 MSG_PEEK) (1, [type])] ++ tr).

(** The statuses of a failed push, and of a failed pull. *)
Definition send_errors : list status_t := [EMALLOC; FAILURE; TIMEOUT; ERRPOLL; ERRSEND; LOWSIZE].
Definition recv_errors : list status_t := [FAILURE; TIMEOUT; ERRPOLL; ERRRECV; LOWSIZE; BADTYPE].

#[export] Hint Constructors polled_out pushes reads pulls : ruf.

(** ** Retries

    At most [n] tries, up to the first that succeeds; the flag says whether one
    did. *)
Inductive tries (good bad : list wev -> Prop) : nat -> bool -> list wev -> Prop :=
| tries_out : tries good bad 0 false []
| tries_good n w : good w -> tries good bad (S n) true w
| tries_bad n b w w' : bad w -> tries good bad n b w' -> tries good bad (S n) b (w ++ w').

(** ** A chunk cut into segments *)

(** [n] bounds the number of segments; the length of the data is enough when the
    segment size is positive. *)
Fixpoint segments_fuel (n : nat) (segsize : Z) (data : list Z) : list (list Z) :=
  match n, data with
  | S n, _ :: _ => ztake segsize data :: segments_fuel n segsize (zdrop segsize data)
  | _, _ => []
  end.
Definition segments (segsize : Z) (data : list Z) : list (list Z) :=
  segments_fuel (length data) segsize data.

(** ** Lemmas *)

Lemma wire_app tr tr' : wire (tr ++ tr') = wire tr ++ wire tr'.
Proof. induction tr as [|o tr IH]; cbn [wire app]; [done|]. by rewrite IH, app_assoc. Qed.

Lemma wire_cons {X} (e : sysE X) x tr : wire (Obs e x :: tr) = wire_event _ e x ++ wire tr.
Proof. reflexivity. Qed.

Lemma out_bytes_app fd w w' : out_bytes fd (w ++ w') = out_bytes fd w ++ out_bytes fd w'.
Proof. unfold out_bytes. by rewrite map_app, concat_app. Qed.

Lemma in_bytes_app fd w w' : in_bytes fd (w ++ w') = in_bytes fd w ++ in_bytes fd w'.
Proof. unfold in_bytes. by rewrite map_app, concat_app. Qed.

Lemma out_bytes_outs fd ds : out_bytes fd (Out fd <$> ds) = concat ds.
Proof.
  induction ds as [|d ds IH]; [done|]. cbn [fmap list_fmap]. unfold out_bytes in *. cbn [map concat].
  by rewrite Z.eqb_refl, IH.
Qed.

Lemma in_bytes_ins fd ds : in_bytes fd (In fd <$> ds) = concat ds.
Proof.
  induction ds as [|d ds IH]; [done|]. cbn [fmap list_fmap]. unfold in_bytes in *. cbn [map concat].
  by rewrite Z.eqb_refl, IH.
Qed.

Lemma out_here fd d w : out_bytes fd (Out fd d :: w) = d ++ out_bytes fd w.
Proof. unfold out_bytes. cbn. by rewrite Z.eqb_refl. Qed.
Lemma in_here fd d w : in_bytes fd (In fd d :: w) = d ++ in_bytes fd w.
Proof. unfold in_bytes. cbn. by rewrite Z.eqb_refl. Qed.
Lemma out_in fd fd' d w : out_bytes fd (In fd' d :: w) = out_bytes fd w.
Proof. reflexivity. Qed.
Lemma in_out fd fd' d w : in_bytes fd (Out fd' d :: w) = in_bytes fd w.
Proof. reflexivity. Qed.

Lemma out_one fd d : out_bytes fd [Out fd d] = d.
Proof. by rewrite out_here, app_nil_r. Qed.
Lemma in_one fd d : in_bytes fd [In fd d] = d.
Proof. by rewrite in_here, app_nil_r. Qed.

Lemma out_elsewhere fd fd' ds : fd' <> fd -> out_bytes fd (Out fd' <$> ds) = [].
Proof.
  intros Hne. induction ds as [|d ds IH]; [done|]. unfold out_bytes in *. cbn.
  by destruct (Z.eqb_spec fd' fd).
Qed.
Lemma in_elsewhere fd fd' ds : fd' <> fd -> in_bytes fd (In fd' <$> ds) = [].
Proof.
  intros Hne. induction ds as [|d ds IH]; [done|]. unfold in_bytes in *. cbn.
  by destruct (Z.eqb_spec fd' fd).
Qed.
Lemma in_outs fd fd' ds : in_bytes fd (Out fd' <$> ds) = [].
Proof. induction ds as [|d ds IH]; [done|]. exact IH. Qed.
Lemma out_ins fd fd' ds : out_bytes fd (In fd' <$> ds) = [].
Proof. induction ds as [|d ds IH]; [done|]. exact IH. Qed.

Lemma out_nil fd : out_bytes fd [] = [].
Proof. reflexivity. Qed.
Lemma in_nil fd : in_bytes fd [] = [].
Proof. reflexivity. Qed.

#[export] Hint Rewrite out_nil in_nil out_here in_here out_in in_out in_outs out_ins out_bytes_app in_bytes_app app_nil_r : ruf.

Lemma ztake_full l : ztake (len l) l = l.
Proof. apply ztake_all; lia. Qed.

Lemma wire_sent sock bytes flags : wire [Obs (SendTo sock bytes flags) (len bytes)] = [Out sock bytes].
Proof.
  cbn [wire wire_event ob_call ob_reply]. destruct (Z.eqb_spec (len bytes) (-1)); [len_lia|].
  by rewrite ztake_full.
Qed.

Lemma polled_out_wire sock bytes flags timeout tr :
  polled_out sock bytes flags timeout (Val tt) tr -> wire tr = [Out sock bytes].
Proof. inversion 1. apply (wire_sent sock bytes flags). Qed.

(** A header pushed leaves its bytes on the wire, and no path leaks the buffer. *)
Lemma pushes_wire sock bytes flags timeout tr :
  pushes sock bytes flags timeout (Val tt) tr -> wire tr = [Out sock bytes].
Proof.
  inversion 1 as [|o tr' Hp]; subst. rewrite !wire_app, (polled_out_wire _ _ _ _ _ Hp). done.
Qed.

Lemma pushes_heap sock bytes flags timeout o tr :
  pushes sock bytes flags timeout o tr -> tally heap_delta tr = 0.
Proof. intros [|o' tr' Hp]; [done|]. by destruct Hp. Qed.

Lemma pushes_outcome sock bytes flags timeout o tr :
  pushes sock bytes flags timeout o tr ->
  match o with Val _ => True | Fail st => st ∈ send_errors | _ => False end.
Proof. intros [|o' tr' Hp]; [in_list|]. destruct Hp; try done; in_list. Qed.

Lemma pushes_complaint sock bytes flags timeout st tr :
  pushes sock bytes flags timeout (Fail st) tr -> st ∈ complaints tr.
Proof.
  inversion 1 as [|o tr' Hp]; subst; [complains|].
  apply complaints_r, complaints_l. inversion Hp; subst; complains.
Qed.

Lemma reads_complaint sock sizes st tr :
  Forall (Z.le 0) sizes -> reads sock sizes (inl st) tr -> st ∈ complaints tr.
Proof.
  remember (inl st) as res eqn:E. intros Hs Hr. revert Hs.
  induction Hr as [| | |size sizes d st' tr Hl Hok Hr IH|]; intros Hs; simplify_eq;
    apply Forall_cons in Hs as [Hs Hss].
  - complains.
  - complains.
  - apply (complaints_r _ [_]). by apply IH.
Qed.

Lemma reads_outcome sock sizes st tr : reads sock sizes (inl st) tr -> st ∈ recv_errors.
Proof.
  remember (inl st) as res eqn:E. induction 1; simplify_eq; [in_list|in_list|auto].
Qed.

Lemma reads_wire sock sizes ds tr :
  reads sock sizes (inr ds) tr -> wire tr = In sock <$> ds.
Proof.
  remember (inr ds) as res eqn:E. intros Hr. revert ds E.
  induction Hr as [| | | |size sizes d ds' tr Hl Hok Hr IH]; intros ds0 E; simplify_eq; [done|].
  cbn [wire wire_event ob_call ob_reply fst snd].
  destruct (Z.eqb_spec (len d) (-1)); [len_lia|]. cbn. by rewrite (IH ds').
Qed.

Lemma reads_lens sock sizes ds tr :
  reads sock sizes (inr ds) tr -> Forall2 (fun size d => len d = size /\ bytes_ok d) sizes ds.
Proof.
  remember (inr ds) as res eqn:E. intros Hr. revert ds E.
  induction Hr as [| | | |size sizes d ds' tr Hl Hok Hr IH]; intros ds0 E; simplify_eq; by constructor; auto.
Qed.

(** One receive, and the others after it. *)
Lemma reads_one_fail sock size sizes st tr :
  reads sock [size] (inl st) tr -> reads sock (size :: sizes) (inl st) tr.
Proof.
  intros Hr. inversion Hr as [| | |? ? ? ? ? ? ? Hr'|]; subst; [by constructor..|]. inversion Hr'.
Qed.

Lemma reads_one_more sock size sizes d res tr tr' :
  reads sock [size] (inr [d]) tr -> reads sock sizes res tr' ->
  reads sock (size :: sizes) (match res with inl st => inl st | inr ds => inr (d :: ds) end) (tr ++ tr').
Proof.
  intros Hr Hr'. inversion Hr as [| | | |? ? ? ? ? ? ? Hr'']; subst. inversion Hr''; subst.
  by destruct res; constructor.
Qed.

Lemma reads_one_inv sock size ds tr :
  reads sock [size] (inr ds) tr -> exists d, ds = [d] /\ len d = size /\ bytes_ok d.
Proof.
  intros Hr. apply reads_lens in Hr. apply Forall2_cons_inv_l in Hr as (d & ds' & Hd & Hn & ->).
  apply Forall2_nil_inv_l in Hn as ->. by exists d.
Qed.

Lemma reads_heap sock sizes res tr : reads sock sizes res tr -> tally heap_delta tr = 0.
Proof. induction 1; done. Qed.

Lemma pulls_wire sock type sizes timeout ds tr :
  pulls sock type sizes timeout (inr ds) tr -> wire tr = In sock <$> ds.
Proof.
  inversion 1 as [| | | | | |rev res tr' Hrev Hr]; subst. rewrite wire_app, (reads_wire _ _ _ _ Hr). done.
Qed.

Lemma pulls_outcome sock type sizes timeout st tr :
  pulls sock type sizes timeout (inl st) tr -> st ∈ recv_errors.
Proof. inversion 1; subst; try in_list. by eapply reads_outcome. Qed.

(** A pull fails for a call that went wrong, or for a byte of another type peeked
    at, with nothing taken. *)
Definition mistyped (sock type : Z) (tr : list obs) : Prop :=
  exists b tr', b <> type /\ wire tr' = [] /\ tr = tr' ++ [Obs (RecvFrom sock 1 MSG_PEEK) (1, [b])].
Lemma pulls_complaint sock type sizes timeout st tr :
  pulls sock type sizes timeout (inl st) tr -> Forall (Z.le 0) sizes -> st ∈ complaints tr \/ (st = BADTYPE /\ mistyped sock type tr).
Proof.
  inversion 1; subst; intros Hs.
  1-5: left; complains.
  - right. split; [done|]. eexists _, [_]. split_and!; [| |reflexivity]; done.
  - left. apply complaints_r. by eapply reads_complaint.
Qed.

Lemma mistyped_app sock type tr tr' : wire tr = [] -> mistyped sock type tr' -> mistyped sock type (tr ++ tr').
Proof.
  intros Hw (b & tr0 & Hb & Hw0 & ->). exists b, (tr ++ tr0). by rewrite wire_app, Hw, Hw0, app_assoc.
Qed.

Lemma pulls_lens sock type sizes timeout ds tr :
  pulls sock type sizes timeout (inr ds) tr ->
  Forall2 (fun size d => len d = size /\ bytes_ok d) sizes ds.
Proof. inversion 1 as [| | | | | |rev res tr' Hrev Hr]; subst. by eapply reads_lens. Qed.

Lemma pulls_heap sock type sizes timeout res tr :
  pulls sock type sizes timeout res tr -> tally heap_delta tr = 0.
Proof. destruct 1; try done. by rewrite tally_app, (reads_heap _ _ _ _ H0). Qed.

(** A header pushed is at most one message, and a header pulled at most as many as
    there are receives. *)
Lemma pushes_length sock bytes flags timeout o tr :
  pushes sock bytes flags timeout o tr -> (length (wire tr) <= 1)%nat.
Proof.
  destruct 1 as [|o' tr' Hp]; [cbn; lia|]. rewrite !wire_app. destruct Hp; cbn; try lia.
  all: match goal with |- context [if ?b then _ else _] => destruct b end; cbn; lia.
Qed.

Lemma reads_length sock sizes res tr : reads sock sizes res tr -> (length (wire tr) <= length sizes)%nat.
Proof.
  induction 1; cbn; try lia.
  all: match goal with |- context [if ?b then _ else _] => destruct b end; cbn; lia.
Qed.

Lemma pulls_length sock type sizes timeout res tr :
  pulls sock type sizes timeout res tr -> (length (wire tr) <= length sizes)%nat.
Proof.
  destruct 1 as [| | | | | |rev res tr' _ Hr]; cbn; try lia. by apply (reads_length _ _ _ _ Hr).
Qed.

Lemma segments_fuel_concat n segsize data :
  0 < segsize -> (length data <= n)%nat -> concat (segments_fuel n segsize data) = data.
Proof.
  intros Hs. revert data; induction n as [|n IH]; intros data Hn.
  - by destruct data; cbn in *; [|lia].
  - destruct data as [|b data]; [done|]. cbn [segments_fuel concat].
    rewrite IH; [apply ztake_zdrop|]. unfold zdrop. rewrite length_drop. cbn [length] in *. lia.
Qed.

(** The segments of a chunk make up the chunk. *)
Lemma segments_concat segsize data : 0 < segsize -> concat (segments segsize data) = data.
Proof. intros. by apply segments_fuel_concat. Qed.

(** No segment is empty. *)
Lemma segments_some segsize data : 0 < segsize -> Forall (fun d => 0 < len d) (segments segsize data).
Proof.
  intros Hs. unfold segments. generalize (length data) as n. intros n. revert data.
  induction n as [|n IH]; intros [|b data]; cbn [segments_fuel]; try constructor; [|apply IH].
  unfold ztake, len. rewrite length_take. cbn [length]. lia.
Qed.

Lemma segments_fuel_enough n m segsize data :
  0 < segsize -> (length data <= n)%nat -> (length data <= m)%nat ->
  segments_fuel n segsize data = segments_fuel m segsize data.
Proof.
  intros Hs. revert m data; induction n as [|n IH]; intros m data Hn Hm.
  - destruct data; cbn in *; [|lia]. by destruct m.
  - destruct data as [|b data]; [by destruct m|]. destruct m as [|m]; [cbn in Hm; lia|].
    cbn [segments_fuel]. f_equal. apply IH; unfold zdrop; rewrite length_drop; cbn [length] in *; lia.
Qed.

Lemma segments_step segsize data :
  0 < segsize -> data <> [] ->
  segments segsize data = ztake segsize data :: segments segsize (zdrop segsize data).
Proof.
  intros Hs Hd. unfold segments. destruct data as [|b data]; [done|]. cbn [length segments_fuel].
  f_equal. apply segments_fuel_enough; [done| |]; unfold zdrop; rewrite length_drop; cbn [length]; lia.
Qed.

(** The success of a sequence of tries is the one of its last. *)
Lemma tries_pick {G} (P : G -> Prop) (good : G -> list wev -> Prop) bad n w :
  tries (fun w => exists g, P g /\ good g w) bad n true w ->
  exists g, P g /\ tries (good g) bad n true w.
Proof.
  remember true as b eqn:E. induction 1 as [|n w (g & HP & Hg)|n b w w' Hb _ IH]; [done| |].
  - exists g. split; [done|]. by apply tries_good.
  - destruct (IH E) as (g & HP & Hg). exists g. split; [done|]. by apply tries_bad.
Qed.

(** A retry loop: [K] holds of the configuration throughout, and a turn with
    tries left ends it or takes one of them; the try that succeeds may say what it
    leaves in the configuration. *)
Lemma retry_ok (K : InitConfig -> Prop) (good : InitConfig -> list wev -> Prop) bad errors (body : Z -> M (Z + Z)) t s :
  (forall (Q : outcome (Z + Z) -> pstate -> Prop) s, Q (Val (inr 0)) s -> wp posix Q (body 0) s) ->
  (forall t s, 0 < t -> K (p_conf s) ->
     wp posix (does (fun o tr c' => K c' /\
       match o with
       | Val (inr t') => t' = t /\ good c' (wire tr) /\ tally heap_delta tr = 0
       | Val (inl t') => t' = t - 1 /\ bad (wire tr) /\ tally heap_delta tr = 0
       | Fail st => errors st tr
       | _ => False
       end) s) (body t) s) ->
  (forall st tr tr', tally heap_delta tr = 0 -> errors st tr' -> errors st (tr ++ tr')) ->
  0 <= t -> K (p_conf s) ->
  wp posix (does (fun o tr c' => K c' /\
      match o with
      | Val t' => 0 <= t' /\ tries (good c') bad (Z.to_nat t) (0 <? t') (wire tr) /\ tally heap_delta tr = 0
      | Fail st => errors st tr
      | _ => False
      end) s) (loop body t) s.
Proof.
  intros H0 Hbody Herr Ht HK.
  apply (wp_loop _ (fun x s' => 0 <= x /\ K (p_conf s') /\ exists tr, p_trace s' = p_trace s ++ tr /\
    tally heap_delta tr = 0 /\
    forall c b w, tries (good c) bad (Z.to_nat x) b w -> tries (good c) bad (Z.to_nat t) b (wire tr ++ w))
    (fun x _ => Z.to_nat x)).
  { split_and!; [done|done|]. exists []. by rewrite app_nil_r. }
  intros x s' (Hx & HK' & tr0 & Htr & Hh & Hw).
  destruct (Z.eq_dec x 0) as [->|Hne].
  { apply H0. cbn [loop_post]. does_from Htr. split_and!; [done|lia| |done].
    rewrite <- (app_nil_r (wire tr0)). apply Hw. constructor. }
  eapply wp_does; [apply Hbody; [lia|done]|]. intros o tr c' (HKc & Ho).
  destruct o as [[t'|t']|st|?|]; [| | |done|done]; cbn [loop_post].
  - destruct Ho as (-> & Hb & Hht). split; [|lia]. split_and!; [lia|done|].
    exists (tr0 ++ tr). cbn. rewrite Htr, app_assoc. split_and!; [done|by rewrite tally_app, Hh, Hht|].
    intros c b w Hbw. rewrite wire_app, <- app_assoc. apply Hw.
    replace (Z.to_nat x) with (S (Z.to_nat (x - 1))) by lia. by apply tries_bad.
  - destruct Ho as (-> & Hg & Hht). does_from Htr. split_and!; [done|lia| |by rewrite tally_app, Hh, Hht].
    rewrite wire_app. apply Hw. destruct (Z.ltb_spec 0 x); [|lia].
    replace (Z.to_nat x) with (S (Z.to_nat (x - 1))) by lia. by apply tries_good.
  - does_from Htr. by auto.
Qed.
