(* ===== verification/Turns.v ===== *)
(** * Messages in turns

    A conversation in which one side sends something and the other answers: what
    each side's sockets carry, turn by turn, and where in it a side is that waits. *)
From S2P Require Import Prelude Protocol Types Sys Wire.

(** A turn: the messages of the side that asks, as one of the two sides sees them,
    and the answer. *)
Definition turn : Type := list wev * list Z.

(** The messages of the side that asks, and of the one that answers, on the socket
    of the answers. *)
Definition asking (fd : Z) (ts : list turn) : list wev := concat ((fun t => t.1 ++ [In fd t.2]) <$> ts).
Definition answering (fd : Z) (ts : list turn) : list wev := concat ((fun t => t.1 ++ [Out fd t.2]) <$> ts).

Definition is_out (e : wev) : Prop := match e with Out _ _ => True | In _ _ => False end.
Definition is_in (e : wev) : Prop := match e with Out _ _ => False | In _ _ => True end.
Definition asks (t : turn) : Prop := Forall is_out t.1.
Definition is_asked (t : turn) : Prop := Forall is_in t.1.

Lemma asks_one fd d r : asks ([Out fd d], r).
Proof. by apply Forall_singleton. Qed.

Lemma asking_app fd ts ts' : asking fd (ts ++ ts') = asking fd ts ++ asking fd ts'.
Proof. unfold asking. by rewrite fmap_app, concat_app. Qed.
Lemma answering_app fd ts ts' : answering fd (ts ++ ts') = answering fd ts ++ answering fd ts'.
Proof. unfold answering. by rewrite fmap_app, concat_app. Qed.
Lemma asking_cons fd t ts : asking fd (t :: ts) = t.1 ++ In fd t.2 :: asking fd ts.
Proof. unfold asking. cbn. by rewrite <- app_assoc. Qed.
Lemma answering_cons fd t ts : answering fd (t :: ts) = t.1 ++ Out fd t.2 :: answering fd ts.
Proof. unfold answering. cbn. by rewrite <- app_assoc. Qed.

(** ** Bytes *)

Lemma outs_in fd w : Forall is_out w -> in_bytes fd w = [].
Proof. induction 1 as [|[fd' d|fd' d] w He _ IH]; done. Qed.
Lemma ins_out fd w : Forall is_in w -> out_bytes fd w = [].
Proof. induction 1 as [|[fd' d|fd' d] w He _ IH]; done. Qed.

Lemma asking_in fd ts : Forall asks ts -> in_bytes fd (asking fd ts) = concat (snd <$> ts).
Proof.
  induction 1 as [|t ts Ht _ IH]; [done|]. rewrite asking_cons, in_bytes_app, outs_in, in_here, IH by done. done.
Qed.
Lemma asking_out fd fd' ts : out_bytes fd (asking fd' ts) = concat ((fun t => out_bytes fd t.1) <$> ts).
Proof.
  induction ts as [|t ts IH]; [done|]. rewrite asking_cons, out_bytes_app, out_in, IH. done.
Qed.
Lemma answering_out fd ts : Forall is_asked ts -> out_bytes fd (answering fd ts) = concat (snd <$> ts).
Proof.
  induction 1 as [|t ts Ht _ IH]; [done|]. rewrite answering_cons, out_bytes_app, ins_out, out_here, IH by done. done.
Qed.
Lemma answering_in fd fd' ts : in_bytes fd (answering fd' ts) = concat ((fun t => in_bytes fd t.1) <$> ts).
Proof.
  induction ts as [|t ts IH]; [done|]. rewrite answering_cons, in_bytes_app, in_out, IH. done.
Qed.

(** ** Waiting

    A side about to read has made whole turns, and its part of the next one up to
    what it reads. *)
Lemma asking_waits fd ts w fd' d w' :
  Forall asks ts -> w ++ In fd' d :: w' = asking fd ts ->
  exists k t, ts !! k = Some t /\ w = asking fd (take k ts) ++ t.1 /\ d = t.2.
Proof.
  intros Hts. revert w. induction Hts as [|t ts Ht _ IH]; intros w Hw; [by destruct w|].
  rewrite asking_cons in Hw. destruct (app_eq_inv _ _ _ _ Hw) as [(k & -> & Hk)|(k & Hk & Hw')].
  - destruct k as [|e k]; cbn in Hk.
    + injection Hk as <- <- _. exists O, t. by rewrite app_nil_r.
    + injection Hk as <- Hk. destruct (IH k (eq_sym Hk)) as (i & t' & Hi & -> & Hd).
      exists (S i), t'. split_and!; [done| |done]. cbn [take]. by rewrite asking_cons, <- app_assoc.
  - destruct k as [|e k]; cbn in Hw'.
    + injection Hw' as -> -> _. rewrite app_nil_r in Hk. exists O, t. by rewrite Hk.
    + injection Hw' as <- _. unfold asks in Ht. rewrite Hk in Ht. apply Forall_app in Ht as [_ Ht]. by inversion Ht.
Qed.

Lemma answering_waits fd ts w fd' d w' :
  w ++ In fd' d :: w' = answering fd ts ->
  exists k t w1 w2, ts !! k = Some t /\ t.1 = w1 ++ In fd' d :: w2 /\ w = answering fd (take k ts) ++ w1.
Proof.
  revert w. induction ts as [|t ts IH]; intros w Hw; [by destruct w|].
  rewrite answering_cons in Hw. destruct (app_eq_inv _ _ _ _ Hw) as [(k & -> & Hk)|(k & Hk & Hw')].
  - destruct k as [|e k]; cbn in Hk; [done|]. injection Hk as <- Hk.
    destruct (IH k (eq_sym Hk)) as (i & t' & w1 & w2 & Hi & Ht & ->).
    exists (S i), t', w1, w2. split_and!; [done|done|]. cbn [take]. by rewrite answering_cons, <- app_assoc.
  - destruct k as [|e k]; cbn in Hw'; [done|]. injection Hw' as <- _. by exists O, t, w, k.
Qed.
