(* ===== verification/Utils.v ===== *)
(** * Helper headers (include/utils/*.h)

    calc.h (chunk arithmetic and checksums), sstr.h (bounded string copy),
    fname.h (file names), infostr.h (the [name@ip:port] string of the packets)
    and ipcheck.h.  The conversions of the C library the headers call
    ([snprintf], [sscanf], [inet_pton], [inet_ntop]) are written out for the
    formats used.  [None] is an access outside an object. *)
From S2P Require Import Prelude Protocol Types.

(** ** calc.h *)

(** libcrc, whose source is not part of the program. *)
Class Crc := { crc_16 : list Z -> Z; crc_32 : list Z -> Z }.

Definition SEGMENT_SIZE0 : Z := 1024.
Definition SEGMENT_SIZE1 : Z := 2048.
Definition SEGMENT_SIZE2 : Z := 4096.
Definition SEGMENT_SIZE3 : Z := 8192.

(** The count and [*partial_chunk_size]; [None] is the division by zero. *)
Definition calc_chunk_count (file_size chunk_size : Z) : option (Z * Z) :=
  if chunk_size =? 0 then None else
  let val := u32 (file_size / chunk_size) in
  let partial_chunk_size := u16 (size_t (file_size - size_t (val * chunk_size))) in
  Some (u32 (val + 1), partial_chunk_size).

Definition calc_file_size (chunk_count chunk_size partial_chunk_size : Z) : Z :=
  size_t (size_t (size_t (chunk_count - 1) * chunk_size) + partial_chunk_size).

Definition calc_segment_size (size : Z) : Z :=
  if SEGMENT_SIZE3 <? size then SEGMENT_SIZE3
  else if SEGMENT_SIZE2 <? size then SEGMENT_SIZE2
  else if SEGMENT_SIZE1 <? size then SEGMENT_SIZE1
  else if SEGMENT_SIZE0 <? size then SEGMENT_SIZE0
  else size.

(** [n] bytes from [buf + off]; a NULL buffer has none. *)
Definition buf_read (buf : option mapping) (off n : Z) : option (list Z) :=
  m ← buf; mem_read (map_bytes m) off n.

Definition calc_file_crc16 `{Crc} (filec : FileContext) : option Z :=
  data ← buf_read (mf_buf (fc_mfile filec)) 0 (fc_size filec);
  Some (u16 (crc_16 data)).

Definition calc_chunk_crc32 `{Crc} (filec : FileContext) (chunk : ChunkContext) : option Z :=
  data ← buf_read (mf_buf (fc_mfile filec)) (cc_start_pos chunk) (cc_chunk_size chunk);
  Some (u32 (crc_32 data)).

(** ** sstr.h *)

(** The loop [for (dlen = 0; (dlen < dsize) && (src[dlen] != 0); dlen++);] *)
Fixpoint sstr_dlen (src : list Z) (dsize : Z) : option Z :=
  match src with
  | [] => if 0 <? dsize then None else Some 0
  | c :: src' =>
      if 0 <? dsize
      then if c =? 0 then Some 0 else Z.succ <$> sstr_dlen src' (dsize - 1)
      else Some 0
  end.

Definition sstrncpy (dst src : list Z) (dsize : Z) : option (list Z) :=
  dlen ← sstr_dlen src dsize;
  data ← mem_read src 0 dlen;
  dst ← mem_write dst 0 data;
  mem_write dst (if dsize =? dlen then size_t (dsize - 1) else dlen) [0].

(** ** fname.h *)

Definition slash : Z := 47.

(** The value of [(int) size]. *)
Definition to_int (size : Z) : Z := (size + 2 ^ 31) mod 2 ^ 32 - 2 ^ 31.

(** The loop from [i] down: the offset of [dst], [None] when [src[i - 1]] is
    outside the object. *)
Fixpoint extract_loop (src : list Z) (i : nat) : option Z :=
  match i with
  | O => Some 0
  | S j =>
      c ← src !! j;
      if c =? slash then Some (Z.of_nat i) else extract_loop src j
  end.

(** The bytes from the returned pointer on; the inner [None] is NULL. *)
Definition extract_file_name (src : list Z) (size : Z) : option (option (list Z)) :=
  if 0 <=? to_int size - 1
  then off ← extract_loop src (Z.to_nat (to_int size - 1)); Some (Some (zdrop off src))
  else Some None.

(** ** Decimal conversions of the C library *)

Fixpoint dec_digits (fuel : nat) (z : Z) : list Z :=
  match fuel with
  | O => []
  | S fuel => (if z <? 10 then [] else dec_digits fuel (z / 10)) ++ [48 + z mod 10]
  end.

(** [%u]: an unsigned value has at most twenty digits. *)
Definition dec (z : Z) : list Z := dec_digits 20 z.

Definition is_digit (c : Z) : bool := (48 <=? c) && (c <=? 57).
Definition is_space (c : Z) : bool := (c =? 32) || ((9 <=? c) && (c <=? 13)).

(** The value of the leading digits, on top of [acc], and what follows them. *)
Fixpoint scan_digits (acc : Z) (s : list Z) : Z * list Z :=
  match s with
  | c :: s' => if is_digit c then scan_digits (acc * 10 + (c - 48)) s' else (acc, s)
  | [] => (acc, [])
  end.

Fixpoint skip_spaces (s : list Z) : list Z :=
  match s with
  | c :: s' => if is_space c then skip_spaces s' else s
  | [] => []
  end.

(** [strtoul] clamps to [ULONG_MAX]; the value is stored as an unsigned short. *)
Definition store_hu (negative : bool) (v : Z) : Z :=
  let ul := if 2 ^ 64 <=? v then 2 ^ 64 - 1 else if negative then size_t (- v) else v in
  u16 ul.

(** The directive [%hu]; [None] is a matching failure. *)
Definition scan_hu (s : list Z) : option Z :=
  let s := skip_spaces s in
  let '(negative, s) :=
    match s with
    | c :: s' => if c =? 45 then (true, s') else if c =? 43 then (false, s') else (false, s)
    | [] => (false, s)
    end in
  match s with
  | c :: _ => if is_digit c then Some (store_hu negative (fst (scan_digits 0 s))) else None
  | [] => None
  end.

(** The directive [%n[^c]]: the matched characters and the rest; [None] when
    nothing matches. *)
Fixpoint scan_until (n : nat) (stop : Z) (s : list Z) : list Z * list Z :=
  match n, s with
  | S n, c :: s' =>
      if c =? stop then ([], s)
      else let '(a, r) := scan_until n stop s' in (c :: a, r)
  | _, _ => ([], s)
  end.

Definition scan_set (n : nat) (stop : Z) (s : list Z) : option (list Z * list Z) :=
  match scan_until n stop s with
  | ([], _) => None
  | p => Some p
  end.

(** A literal character of the format. *)
Definition scan_char (c : Z) (s : list Z) : option (list Z) :=
  match s with
  | d :: s' => if d =? c then Some s' else None
  | [] => None
  end.

(** The directive [%.ns]: the string of an array, at most [n] bytes of it. *)
Definition fmt_s (n : Z) (arr : list Z) : option (list Z) :=
  match strlen arr with
  | None => if n <=? len arr then Some (ztake n arr) else None
  | Some _ => Some (ztake n (cstr arr))
  end.

(** What [snprintf] leaves of [text] in an array: it is cut to [size] bytes with its
    terminator, and nothing is written when [size] is zero. *)
Definition snprintf (arr : list Z) (size : Z) (text : list Z) : option (list Z) :=
  if size =? 0 then Some arr else mem_write arr 0 (ztake (size - 1) text ++ [0]).

(** fname.h again: [r] is what [rand] draws. *)
Definition make_random_filename (filename : list Z) (size : Z) (keyword : list Z) (r : Z) : option (list Z) :=
  _ ← strlen keyword;
  snprintf filename size (cstr keyword ++ lit "_" ++ dec r ++ lit ".tmp").

(** ** infostr.h *)

Definition INFOSTRSIZE : Z := 320.
Definition colon : Z := 58.
Definition at_sign : Z := 64.
Definition dot : Z := 46.

(** What [snprintf] formats. *)
Definition infostring (info : CntlAddrs) : option (list Z) :=
  filename ← fmt_s 255 (addrs_filename info);
  name ← fmt_s 31 (addrs_name info);
  ip ← fmt_s 15 (addrs_local_ip info);
  Some (filename ++ [colon] ++ name ++ [at_sign] ++ ip ++ [colon] ++ dec (addrs_local_port info)).

Definition pack_into_infostring (infostr : list Z) (info : CntlAddrs) : option (list Z) :=
  s ← infostring info;
  mem_write infostr 0 (ztake (INFOSTRSIZE - 1) s ++ [0]).

(** A conversion of [sscanf]: store the matched bytes and a NUL. *)
Definition store_str (arr s : list Z) : option (list Z) := mem_write arr 0 (s ++ [0]).

(** [sscanf] goes on only while the directives match; the fields after the first
    failure keep their contents. *)
Definition unpack_from_infostring (infostr : list Z) (info : CntlAddrs) : option CntlAddrs :=
  _ ← strlen infostr;
  match scan_set 255 colon (cstr infostr) with
  | None => Some info
  | Some (f, r) =>
      filename ← store_str (addrs_filename info) f;
      let info := set_addrs_filename filename info in
      match r ← scan_char colon r; scan_set 31 at_sign r with
      | None => Some info
      | Some (n, r) =>
          name ← store_str (addrs_name info) n;
          let info := set_addrs_name name info in
          match r ← scan_char at_sign r; scan_set 15 colon r with
          | None => Some info
          | Some (i, r) =>
              ip ← store_str (addrs_remote_ip info) i;
              let info := set_addrs_remote_ip ip info in
              match r ← scan_char colon r; scan_hu r with
              | None => Some info
              | Some port => Some (set_addrs_remote_port port info)
              end
          end
      end
  end.

(** ** IPv4 addresses: [inet_pton], [inet_ntop], ipcheck.h *)

(** The scan of [inet_pton]: the octets before the current one, the current one,
    and whether it has a digit yet. *)
Fixpoint pton_loop (s : list Z) (done : list Z) (cur : Z) (saw_digit : bool) : option (list Z) :=
  match s with
  | [] => if saw_digit && (length done =? 3)%nat then Some (done ++ [cur]) else None
  | c :: s' =>
      if is_digit c then
        let new := cur * 10 + (c - 48) in
        if saw_digit && (cur =? 0) then None
        else if 255 <? new then None
        else pton_loop s' done new true
      else if (c =? dot) && saw_digit then
        if (length done =? 3)%nat then None
        else pton_loop s' (done ++ [cur]) 0 false
      else None
  end.

(** The four bytes of the address in network order, of the string an object
    holds; [None] when it is not in dotted-decimal form. *)
Definition inet_pton (ip : list Z) : option (list Z) := pton_loop (cstr ip) [] 0 false.

Definition inet_ntop (addr : list Z) : list Z :=
  match addr with
  | [a; b; c; d] => dec a ++ [dot] ++ dec b ++ [dot] ++ dec c ++ [dot] ++ dec d
  | _ => []
  end.

Definition check_ipv4_format (ip : list Z) : bool :=
  match inet_pton ip with Some _ => true | None => false end.

(** The arrays of a [CntlAddrs] have the sizes of include/types.h. *)
Record addrs_wf (a : CntlAddrs) : Prop := {
  wf_filename : len (addrs_filename a) = MAXFILENAMESIZE;
  wf_name : len (addrs_name a) = MAXNAMESIZE;
  wf_local_ip : len (addrs_local_ip a) = MAXIPV4SIZE;
  wf_remote_ip : len (addrs_remote_ip a) = MAXIPV4SIZE;
  wf_local_port : in_width 16 (addrs_local_port a);
  wf_remote_port : in_width 16 (addrs_remote_port a)
}.

(** The last component of a path. *)
Inductive basename (path : list Z) : list Z -> Prop :=
| basename_whole : slash ∉ path -> basename path path
| basename_after dir base :
    path = dir ++ [slash] ++ base -> slash ∉ base -> basename path base.

(** A field of the information string: non-empty, free of the separator that
    ends it, and within the width of its directive. *)
Definition field_ok (n : Z) (stop : Z) (s : list Z) : Prop :=
  s <> [] /\ len s <= n /\ stop ∉ s.

(** ** Chunk arithmetic *)

Lemma div_bounds a b : 0 <= a -> 0 < b -> 0 <= a / b /\ b * (a / b) <= a < b * (a / b) + b.
Proof. intros. Z.div_mod_to_equations; nia. Qed.

(** C31: [calc_file_size] recovers exactly the size that [calc_chunk_count]
    split, with a partial chunk shorter than a chunk, when and only when the
    chunk count fits its 32 bits. *)
Theorem calc_roundtrip_iff fs cs :
  0 < cs < 2 ^ 16 -> 0 <= fs < 2 ^ 63 ->
  exists cc ps, calc_chunk_count fs cs = Some (cc, ps) /\
    (calc_file_size cc cs ps = fs <-> fs / cs + 1 < 2 ^ 32) /\
    (fs / cs + 1 < 2 ^ 32 -> cc = fs / cs + 1 /\ 0 <= ps < cs).
Proof.
  intros Hcs Hfs. unfold calc_chunk_count, calc_file_size, wrap.
  destruct (Z.eqb_spec cs 0); [lia|]. do 2 eexists; split; [reflexivity|].
  destruct (div_bounds fs cs) as [Hq Hb]; [lia..|].
  set (q := fs / cs) in *. clearbody q.
  change (2 ^ 16) with 65536 in *. change (2 ^ 32) with 4294967296.
  change (2 ^ 63) with 9223372036854775808 in *. change (2 ^ 64) with 18446744073709551616.
  destruct (Z.lt_ge_cases (q + 1) 4294967296) as [Hlt|Hge].
  - rewrite (Z.mod_small q), (Z.mod_small (q * cs)), (Z.mod_small (fs - q * cs)),
      (Z.mod_small (fs - q * cs)), (Z.mod_small (q + 1)), (Z.mod_small (q + 1 - 1)),
      (Z.mod_small ((q + 1 - 1) * cs)), Z.mod_small by nia.
    split; [|intros _; nia]. split; [done|]. intros _. nia.
  - split; [|lia]. split; [|lia]. intros Heq. exfalso. revert Heq.
    pose proof (Z.mod_pos_bound q 4294967296 ltac:(lia)) as Hr.
    pose proof (Z.mod_le q 4294967296 ltac:(lia) ltac:(lia)) as Hle.
    assert (Hfar : q mod 4294967296 = 4294967295 \/ q mod 4294967296 + 4294967296 <= q).
    { pose proof (Z.div_mod q 4294967296 ltac:(lia)) as Hdm.
      destruct (Z.eq_dec (q / 4294967296) 0); [|nia]. left. nia. }
    set (v := q mod 4294967296) in *. clearbody v.
    set (ps := ((fs - (v * cs) mod 18446744073709551616) mod 18446744073709551616) mod 65536).
    assert (Hps : 0 <= ps < 65536) by (apply Z.mod_pos_bound; lia). clearbody ps.
    destruct (Z.eq_dec v 4294967295) as [->|Hv].
    + change ((4294967295 + 1) mod 4294967296) with 0.
      replace (((0 - 1) mod 18446744073709551616 * cs) mod 18446744073709551616)
        with (18446744073709551616 - cs)
        by (change ((0 - 1) mod 18446744073709551616) with 18446744073709551615;
            apply (Z.mod_unique_pos _ _ (cs - 1)); lia).
      assert (4294967295 <= fs) by nia.
      destruct (Z.lt_ge_cases ps cs).
      * rewrite Z.mod_small by lia. lia.
      * replace (18446744073709551616 - cs + ps) with (ps - cs + 1 * 18446744073709551616) by lia.
        rewrite Z.mod_add, Z.mod_small by lia. lia.
    + rewrite (Z.mod_small (v + 1)), (Z.mod_small (v + 1 - 1)),
        (Z.mod_small ((v + 1 - 1) * cs)), Z.mod_small by nia. nia.
Qed.

(** The segment size never exceeds the chunk or 8192 bytes, is zero only for an
    empty chunk, and cuts a 16-bit chunk into at most eight segments. *)
Lemma calc_segment_size_bounds size :
  0 <= size ->
  0 <= calc_segment_size size <= Z.min size SEGMENT_SIZE3 /\
  (calc_segment_size size = 0 <-> size = 0) /\
  (size < 2 ^ 16 -> size <= 8 * calc_segment_size size).
Proof.
  intros Hs. unfold calc_segment_size, SEGMENT_SIZE0, SEGMENT_SIZE1, SEGMENT_SIZE2, SEGMENT_SIZE3.
  change (2 ^ 16) with 65536.
  repeat match goal with |- context [?a <? ?b] => destruct (Z.ltb_spec a b) end; lia.
Qed.

(** ** Bounded copies *)

Lemma sstr_dlen_spec src dsize :
  0 <= dsize -> strlen src <> None \/ dsize <= len src ->
  sstr_dlen src dsize = Some (Z.min dsize (len (cstr src))).
Proof.
  revert dsize; induction src as [|c src IH]; intros dsize Hd Hs; cbn [sstr_dlen strlen cstr] in *.
  - destruct (Z.ltb_spec 0 dsize); rewrite len_nil in *; [destruct Hs; [done|lia]|]. f_equal; lia.
  - destruct (Z.ltb_spec 0 dsize).
    + destruct (Z.eqb_spec c 0); [by rewrite len_nil, Z.min_r by lia|].
      rewrite IH; [|lia|].
      * cbn. f_equal. rewrite len_cons. lia.
      * rewrite len_cons in Hs. destruct (strlen src); [by left|right].
        destruct Hs as [[]|]; [done|lia].
    + f_equal. destruct (c =? 0); rewrite ?len_cons, ?len_nil; len_lia.
Qed.

Lemma ztake_cstr_app n src : n <= len (cstr src) -> ztake n src = ztake n (cstr src).
Proof.
  intros Hn. assert (Hp : exists r, src = cstr src ++ r).
  { clear Hn. induction src as [|c src [r IH]]; [by exists []|]. cbn [cstr].
    destruct (c =? 0); [by exists (c :: src)|]. exists r. cbn. by rewrite <- IH. }
  destruct Hp as [r Hr]. rewrite Hr at 1. unfold ztake. rewrite take_app_le; [done|].
  unfold len in Hn. lia.
Qed.

(** The copied prefix, the terminator, and the rest of the buffer. *)
Lemma sstrncpy_eq dst src dsize :
  1 <= dsize <= len dst -> dsize < 2 ^ 64 ->
  strlen src <> None \/ dsize <= len src ->
  let k := Z.min (dsize - 1) (len (cstr src)) in
  sstrncpy dst src dsize = Some (ztake k (cstr src) ++ [0] ++ zdrop (k + 1) dst).
Proof.
  intros Hd Hw Hs k. unfold sstrncpy. rewrite sstr_dlen_spec by (done || lia). cbn [mbind option_bind].
  pose proof (len_cstr_le src). pose proof (len_nonneg (cstr src)).
  set (n := Z.min dsize (len (cstr src))).
  rewrite mem_read_spec by lia. cbn [mbind option_bind].
  rewrite zdrop_0, ztake_cstr_app by lia.
  assert (Hl : len (ztake n (cstr src)) = n) by (apply len_ztake; lia).
  rewrite mem_write_0 by lia. cbn [mbind option_bind]. rewrite Hl.
  replace (if dsize =? n then size_t (dsize - 1) else n) with k
    by (unfold wrap; destruct (Z.eqb_spec dsize n); [rewrite Z.mod_small by lia|]; lia).
  change (len [0]) with 1.
  rewrite mem_write_spec by (change (len [0]) with 1; len_simpl; lia).
  change (len [0]) with 1. do 2 f_equal.
  - rewrite ztake_app_le, ztake_ztake by lia. done.
  - f_equal. destruct (Z.lt_ge_cases k n).
    + replace k with (n - 1) by lia. replace (n - 1 + 1) with n by lia. apply zdrop_app; lia.
    + rewrite zdrop_app_ge, zdrop_zdrop by lia. f_equal. lia.
Qed.

(** [sstrncpy] into a buffer of at least [dsize > 0] bytes stays within it
    and within the source object, keeps the size of the buffer, and leaves the
    string truncated to [dsize - 1] bytes with its terminator; the bytes from
    [dsize] on are untouched. *)
Lemma sstrncpy_ok dst src dsize :
  1 <= dsize <= len dst -> dsize < 2 ^ 64 ->
  strlen src <> None \/ dsize <= len src ->
  exists dst', sstrncpy dst src dsize = Some dst' /\ len dst' = len dst /\
    cstr dst' = ztake (dsize - 1) (cstr src) /\ zdrop dsize dst' = zdrop dsize dst.
Proof.
  intros Hd Hw Hs. rewrite sstrncpy_eq by done.
  pose proof (len_nonneg (cstr src)). set (k := Z.min (dsize - 1) (len (cstr src))).
  assert (Hlk : len (ztake k (cstr src)) = k) by (apply len_ztake; lia).
  eexists; split; [reflexivity|]. split_and!.
  - rewrite !len_app, Hlk, len_zdrop by lia. change (len [0]) with 1. lia.
  - cbn [app]. rewrite cstr_no_nul by (apply Forall_take, no_nul_cstr).
    destruct (Z.le_gt_cases (dsize - 1) (len (cstr src))); [by unfold k; rewrite Z.min_l|].
    by rewrite !ztake_all by lia.
  - rewrite app_assoc, zdrop_app_ge by (rewrite len_app, Hlk; change (len [0]) with 1; lia).
    rewrite len_app, Hlk, zdrop_zdrop by (change (len [0]) with 1; lia).
    f_equal. change (len [0]) with 1. lia.
Qed.

(** ** File names *)

Lemma extract_loop_spec src i :
  (i <= length src)%nat ->
  exists off, extract_loop src i = Some (Z.of_nat off) /\ (off <= i)%nat /\
    (slash ∉ drop off (take i src)) /\
    (off = 0%nat \/ (src !! pred off) = Some slash).
Proof.
  induction i as [|i IH]; intros Hi; cbn [extract_loop].
  { exists 0%nat. split_and!; [done|lia| |by left]. rewrite take_0. by apply not_elem_of_nil. }
  destruct (lookup_lt_is_Some_2 src i) as [c Hc]; [lia|]. rewrite Hc. cbn [mbind option_bind].
  destruct (Z.eqb_spec c slash) as [->|Hne].
  - exists (S i). split_and!; [done|lia| |by right].
    rewrite drop_ge by (rewrite length_take; lia). by apply not_elem_of_nil.
  - destruct IH as (off & -> & Hle & Hns & Hoff); [lia|].
    exists off. split_and!; [done|lia| |done].
    rewrite (take_S_r _ _ _ Hc), drop_app_le by (rewrite length_take; lia).
    rewrite not_elem_of_app, list_elem_of_singleton. by split; [|congruence].
Qed.

Lemma extract_file_name_ok path rest :
  len path + 1 < 2 ^ 31 ->
  exists base, extract_file_name (path ++ 0 :: rest) (len path + 1) = Some (Some (base ++ 0 :: rest))
    /\ basename path base.
Proof.
  intros Hp. unfold extract_file_name.
  replace (to_int (len path + 1)) with (len path + 1)
    by (unfold to_int; pose proof (len_nonneg path); rewrite Z.mod_small; lia).
  destruct (Z.leb_spec 0 (len path + 1 - 1)); [|len_lia].
  replace (len path + 1 - 1) with (len path) by lia. unfold len at 1. rewrite Nat2Z.id.
  destruct (extract_loop_spec (path ++ 0 :: rest) (length path)) as (off & -> & Hle & Hns & Hoff).
  { rewrite length_app. cbn. lia. }
  cbn [mbind option_bind]. unfold zdrop. rewrite Nat2Z.id, drop_app_le by lia.
  rewrite take_app_length in Hns. eexists; split; [reflexivity|].
  destruct Hoff as [->|Hs]; [by apply basename_whole|].
  destruct off as [|off]; [by apply basename_whole|]. cbn [pred] in Hs.
  rewrite lookup_app_l in Hs by lia.
  apply (basename_after path (take off path)); [|done].
  by rewrite <- (take_drop_middle _ _ _ Hs) at 1.
Qed.

Lemma basename_no_nul path base : basename path base -> no_nul path -> no_nul base.
Proof.
  intros [|dir b -> _] Hp; [done|]. unfold no_nul in *. rewrite !Forall_app in Hp. tauto.
Qed.

(** For every path, [extract_file_name] returns a pointer to its last
    component: what follows the last slash, or the whole path when there is none. *)
Theorem extract_file_name_basename path rest :
  len path + 1 < 2 ^ 31 ->
  exists base, extract_file_name (path ++ 0 :: rest) (len path + 1) = Some (Some (base ++ 0 :: rest))
    /\ basename path base.
Proof. apply extract_file_name_ok. Qed.

(** ** Decimal conversions *)

Lemma dec_digits_bound f z : (length (dec_digits f z) <= f)%nat.
Proof.
  revert z; induction f as [|f IH]; intros z; cbn [dec_digits]; [reflexivity|].
  rewrite length_app. cbn [length]. destruct (z <? 10); cbn [length]; [lia|].
  specialize (IH (z / 10)). lia.
Qed.

Lemma dec_digits_len f k z : 0 <= z < 10 ^ Z.of_nat (S k) -> (length (dec_digits f z) <= S k)%nat.
Proof.
  revert f z; induction k as [|k IH]; intros f z Hz; destruct f as [|f]; cbn [dec_digits length]; try lia.
  - destruct (Z.ltb_spec z 10); cbn; [lia|]. change (10 ^ Z.of_nat 1) with 10 in Hz. lia.
  - rewrite length_app. cbn [length]. destruct (Z.ltb_spec z 10); cbn [length]; [lia|].
    specialize (IH f (z / 10)). enough (length (dec_digits f (z / 10)) <= S k)%nat by lia.
    apply IH. rewrite Nat2Z.inj_succ, Z.pow_succ_r in Hz by lia.
    split; [apply Z.div_pos; lia|apply Z.div_lt_upper_bound; lia].
Qed.

Lemma dec_len k z : 0 <= z < 10 ^ Z.of_nat (S k) -> len (dec z) <= Z.of_nat (S k).
Proof. intros Hz. unfold len, dec. pose proof (dec_digits_len 20 k z Hz). lia. Qed.

Lemma dec_digits_all f z : 0 <= z -> Forall (fun c => 48 <= c <= 57) (dec_digits f z).
Proof.
  revert z; induction f as [|f IH]; intros z Hz; cbn [dec_digits]; [constructor|].
  apply Forall_app; split.
  - destruct (Z.ltb_spec z 10); [constructor|]. apply IH, Z.div_pos; lia.
  - repeat constructor; pose proof (Z.mod_pos_bound z 10 ltac:(lia)); lia.
Qed.

Lemma is_digit_true c : 48 <= c <= 57 -> is_digit c = true.
Proof. intros. unfold is_digit. rewrite andb_true_iff, !Z.leb_le. lia. Qed.

(** Reading back what [%u] printed. *)
Lemma scan_dec_digits f z r :
  0 <= z < 10 ^ Z.of_nat f ->
  fst (scan_digits 0 (dec_digits f z ++ r)) = fst (scan_digits z r).
Proof.
  revert z r; induction f as [|f IH]; intros z r Hz; cbn [dec_digits].
  { change (10 ^ Z.of_nat 0) with 1 in Hz. by replace z with 0 by lia. }
  rewrite <- app_assoc. pose proof (Z.mod_pos_bound z 10 ltac:(lia)).
  destruct (Z.ltb_spec z 10).
  - cbn [app scan_digits]. rewrite is_digit_true by lia.
    rewrite Z.mod_small by lia. by replace (0 * 10 + (48 + z - 48)) with z by lia.
  - rewrite Nat2Z.inj_succ, Z.pow_succ_r in Hz by lia.
    rewrite IH by (split; [apply Z.div_pos|apply Z.div_lt_upper_bound]; lia).
    cbn [app scan_digits]. rewrite is_digit_true by lia.
    do 2 f_equal. pose proof (Z.div_mod z 10 ltac:(lia)). lia.
Qed.

Lemma dec_nonempty z : dec z <> [].
Proof. unfold dec. cbn [dec_digits]. intros H; apply app_eq_nil in H. destruct H; discriminate. Qed.

Lemma dec_digits_only z : 0 <= z -> Forall (fun c => 48 <= c <= 57) (dec z).
Proof. apply dec_digits_all. Qed.

Lemma dec_no_nul z : 0 <= z -> no_nul (dec z).
Proof. intros Hz. eapply Forall_impl; [by apply dec_digits_only|]. cbn; lia. Qed.

Lemma scan_hu_dec z r : in_width 16 z -> scan_hu (dec z ++ 0 :: r) = Some z /\ scan_hu (dec z) = Some z.
Proof.
  unfold in_width. intros Hz.
  assert (Hsc : forall t, (t = [] \/ exists u, t = 0 :: u) -> scan_hu (dec z ++ t) = Some z).
  { intros t Ht. pose proof (dec_digits_only z ltac:(lia)) as Hd.
    assert (Hv : fst (scan_digits 0 (dec z ++ t)) = z).
    { unfold dec. rewrite scan_dec_digits by (change (10 ^ Z.of_nat 20) with 100000000000000000000; lia).
      by destruct Ht as [->|[u ->]]. }
    unfold scan_hu. destruct (dec z) as [|c s] eqn:E; [by destruct (dec_nonempty z)|].
    apply Forall_cons in Hd as [Hc _]. cbn [app skip_spaces] in *.
    assert (is_space c = false) as ->.
    { unfold is_space. rewrite orb_false_iff, andb_false_iff, Z.eqb_neq, !Z.leb_gt. lia. }
    destruct (Z.eqb_spec c 45); [lia|]. destruct (Z.eqb_spec c 43); [lia|].
    rewrite is_digit_true by done. rewrite Hv. unfold store_hu, wrap.
    destruct (Z.leb_spec (2 ^ 64) z); [lia|]. f_equal. by apply Z.mod_small. }
  split; [apply Hsc; right; by eexists|]. rewrite <- (app_nil_r (dec z)). apply Hsc. by left.
Qed.

(** ** The information string *)

Lemma strlen_None l : strlen l = None -> cstr l = l.
Proof.
  induction l as [|c l IH]; cbn [strlen cstr]; [done|].
  destruct (c =? 0); [done|]. destruct (strlen l); [done|]. intros _. by rewrite IH.
Qed.

Lemma strlen_app_nul s r : no_nul s -> strlen (s ++ 0 :: r) = Some (len s).
Proof.
  induction 1 as [|c s Hc _ IH]; [reflexivity|]. cbn [strlen app].
  destruct (Z.eqb_spec c 0); [lia|]. rewrite IH, len_cons. cbn. f_equal. lia.
Qed.

Lemma fmt_s_eq n arr : n <= len arr -> fmt_s n arr = Some (ztake n (cstr arr)).
Proof.
  intros Hn. unfold fmt_s. destruct (strlen arr) eqn:E; [done|].
  rewrite strlen_None by done. by destruct (Z.leb_spec n (len arr)); [|lia].
Qed.

Lemma infostring_eq a :
  addrs_wf a ->
  infostring a = Some (ztake 255 (cstr (addrs_filename a)) ++ [colon]
    ++ ztake 31 (cstr (addrs_name a)) ++ [at_sign]
    ++ ztake 15 (cstr (addrs_local_ip a)) ++ [colon] ++ dec (addrs_local_port a)).
Proof.
  intros [Hf Hn Hl _ _ _]. unfold infostring, MAXFILENAMESIZE, MAXNAMESIZE, MAXIPV4SIZE in *.
  by rewrite !fmt_s_eq by lia.
Qed.

Lemma bytes_ok_dec z : 0 <= z -> bytes_ok (dec z).
Proof. intros Hz. eapply Forall_impl; [by apply dec_digits_only|]. unfold byte_ok. cbn. lia. Qed.
Lemma bytes_ok_cstr l : bytes_ok l -> bytes_ok (cstr l).
Proof. unfold cstr. induction 1 as [|z l Hz _ IH]; cbn; [constructor|]. destruct (z =? 0); [constructor|by constructor]. Qed.
#[export] Hint Resolve bytes_ok_dec bytes_ok_cstr : ruf.

Lemma len_ztake_max n l : 0 <= n -> len (ztake n l) <= n.
Proof. intros; unfold len, ztake; rewrite length_take; lia. Qed.

Lemma pack_into_infostring_ok buf a :
  addrs_wf a -> len buf = INFOSTRSIZE ->
  exists s, infostring a = Some s /\ len s <= 309 /\ no_nul s /\
    pack_into_infostring buf a = Some (s ++ [0] ++ zdrop (len s + 1) buf).
Proof.
  intros Ha Hb. eexists. split; [by apply infostring_eq|].
  pose proof (wf_local_port _ Ha) as Hp. unfold in_width in Hp.
  pose proof (dec_len 4 (addrs_local_port a) ltac:(change (10 ^ Z.of_nat 5) with 100000; lia)).
  pose proof (len_ztake_max 255 (cstr (addrs_filename a)) ltac:(lia)).
  pose proof (len_ztake_max 31 (cstr (addrs_name a)) ltac:(lia)).
  pose proof (len_ztake_max 15 (cstr (addrs_local_ip a)) ltac:(lia)).
  match goal with |- len ?s <= _ /\ _ => set (s0 := s) end.
  assert (Hs : len s0 <= 309) by (unfold s0; rewrite !len_app; change (len [colon]) with 1;
    change (len [at_sign]) with 1; lia).
  split_and!; [done| |].
  - unfold s0, no_nul. rewrite !Forall_app. unfold colon, at_sign.
    split_and!; try (apply Forall_take, no_nul_cstr); try by repeat constructor.
    apply dec_no_nul; lia.
  - unfold pack_into_infostring. rewrite infostring_eq by done.
    fold s0. cbn [mbind option_bind]. unfold INFOSTRSIZE in *.
    rewrite ztake_all by lia. rewrite mem_write_0 by (rewrite len_app; change (len [0]) with 1; lia).
    by rewrite len_app, <- app_assoc.
Qed.

(** The information string fits its buffer with its terminator: for
    well-formed addresses [snprintf] never truncates it (it has at most 309
    bytes of the 320), so what is packed is the whole of
    [filename:name@ip:port]. *)
Lemma pack_into_infostring_fits buf a :
  addrs_wf a -> len buf = INFOSTRSIZE ->
  exists s, infostring a = Some s /\ len s <= 309 /\ no_nul s /\
    pack_into_infostring buf a = Some (s ++ [0] ++ zdrop (len s + 1) buf).
Proof. apply pack_into_infostring_ok. Qed.

Lemma scan_until_spec n stop f r :
  stop ∉ f -> (length f <= n)%nat -> scan_until n stop (f ++ stop :: r) = (f, stop :: r).
Proof.
  revert n; induction f as [|c f IH]; intros n Hs Hn; cbn [app].
  - destruct n; cbn [scan_until]; [done|]. by rewrite Z.eqb_refl.
  - destruct n as [|n]; cbn [length] in Hn; [lia|]. cbn [scan_until].
    rewrite not_elem_of_cons in Hs. destruct Hs as [Hc Hs].
    destruct (Z.eqb_spec c stop); [congruence|]. by rewrite IH by (done || lia).
Qed.

Lemma scan_set_field n stop f r :
  field_ok (Z.of_nat n) stop f -> scan_set n stop (f ++ stop :: r) = Some (f, stop :: r).
Proof.
  intros (Hne & Hl & Hs). unfold scan_set. rewrite scan_until_spec by (done || unfold len in Hl; lia).
  by destruct f.
Qed.

Lemma scan_set_bound n stop s f r :
  scan_set n stop s = Some (f, r) -> s = f ++ r /\ len f <= Z.of_nat n.
Proof.
  unfold scan_set. assert (H : forall f r, scan_until n stop s = (f, r) ->
    s = f ++ r /\ (length f <= n)%nat).
  { revert s; induction n as [|n IH]; intros s f0 r0; cbn [scan_until].
    { intros [= <- <-]. by split. }
    destruct s as [|c s]; [intros [= <- <-]; split; [done|cbn; lia]|].
    destruct (c =? stop); [intros [= <- <-]; split; [done|cbn; lia]|].
    destruct (scan_until n stop s) as [a b] eqn:E. intros [= <- <-].
    destruct (IH _ _ _ E) as [-> ?]. split; [done|cbn; lia]. }
  destruct (scan_until n stop s) as [a b] eqn:E. destruct (H _ _ eq_refl) as [Hs Hl].
  destruct a; [discriminate|]. intros [= <- <-]. split; [done|]. unfold len. lia.
Qed.

Lemma store_str_spec arr s :
  len s + 1 <= len arr -> no_nul s ->
  exists arr', store_str arr s = Some arr' /\ len arr' = len arr /\ cstr arr' = s.
Proof.
  intros Hl Hs. unfold store_str. rewrite mem_write_0 by (rewrite len_app; exact Hl).
  eexists; split; [reflexivity|]. split.
  - len_simpl; len_lia.
  - rewrite <- app_assoc. by apply cstr_no_nul.
Qed.

Lemma scan_char_no_nul c s r : no_nul s -> scan_char c s = Some r -> no_nul r.
Proof.
  destruct s as [|d s]; cbn; [discriminate|]. intros Hs.
  destruct (d =? c); [|discriminate]. intros [= <-]. by apply Forall_cons in Hs as [_ ?].
Qed.

(** One string conversion: what it matches fits an array wider than its width. *)
Lemma scan_store n stop s f r arr :
  no_nul s -> scan_set n stop s = Some (f, r) -> Z.of_nat n + 1 <= len arr ->
  exists arr', store_str arr f = Some arr' /\ len arr' = len arr /\ no_nul r.
Proof.
  intros Hs Hsc Hl. destruct (scan_set_bound _ _ _ _ _ Hsc) as [-> Hf].
  apply Forall_app in Hs as [Hnf Hnr].
  destruct (store_str_spec arr f) as (arr' & ? & ? & _); [lia|done|]. by exists arr'.
Qed.

(** Closes the goals "this structure is well formed and its local fields are
    unchanged". *)
Ltac wf_addrs :=
  eexists; split; [reflexivity|]; split;
  [constructor; cbn; unfold MAXFILENAMESIZE, MAXNAMESIZE, MAXIPV4SIZE; (assumption || lia)|done].

Lemma store_hu_width b v : in_width 16 (store_hu b v).
Proof. apply wrap_width. lia. Qed.

Lemma scan_hu_width s p : scan_hu s = Some p -> in_width 16 p.
Proof.
  unfold scan_hu. destruct (match skip_spaces s with [] => _ | _ => _ end) as [b [|c r]]; [done|].
  destruct (is_digit c); [|done]. intros [= <-]. apply store_hu_width.
Qed.

Lemma unpack_ok infostr a :
  strlen infostr <> None -> addrs_wf a ->
  exists a', unpack_from_infostring infostr a = Some a' /\ addrs_wf a' /\
    addrs_local_ip a' = addrs_local_ip a /\ addrs_local_port a' = addrs_local_port a.
Proof.
  intros Hs Ha. unfold unpack_from_infostring.
  destruct (strlen infostr); [|done]. cbn [mbind option_bind].
  pose proof (no_nul_cstr infostr) as Hn. pose proof Ha as [Wf Wn Wl Wr Wlp Wrp].
  unfold MAXFILENAMESIZE, MAXNAMESIZE, MAXIPV4SIZE in *.
  destruct (scan_set 255 colon (cstr infostr)) as [[f r]|] eqn:E1; [|by exists a].
  destruct (scan_store _ _ _ _ _ (addrs_filename a) Hn E1) as (fn & -> & Hfn & Hr); [lia|].
  cbn [mbind option_bind].
  destruct (scan_char colon r) as [r1|] eqn:C1; cbn [mbind option_bind]; [|wf_addrs].
  pose proof (scan_char_no_nul _ _ _ Hr C1) as Hr1.
  destruct (scan_set 31 at_sign r1) as [[n r2]|] eqn:E2; [|wf_addrs].
  destruct (scan_store _ _ _ _ _ (addrs_name a) Hr1 E2) as (nn & Hst & Hnn & Hr2); [lia|].
  cbn [set_addrs_filename addrs_name]. rewrite Hst. cbn [mbind option_bind].
  destruct (scan_char at_sign r2) as [r3|] eqn:C2; cbn [mbind option_bind]; [|wf_addrs].
  pose proof (scan_char_no_nul _ _ _ Hr2 C2) as Hr3.
  destruct (scan_set 15 colon r3) as [[i r4]|] eqn:E3; [|wf_addrs].
  destruct (scan_store _ _ _ _ _ (addrs_remote_ip a) Hr3 E3) as (ni & Hst' & Hni & _); [lia|].
  cbn [set_addrs_name set_addrs_filename addrs_remote_ip]. rewrite Hst'. cbn [mbind option_bind].
  destruct (scan_char colon r4) as [r5|] eqn:C3; cbn [mbind option_bind]; [|wf_addrs].
  destruct (scan_hu r5) as [p|] eqn:E4; [|wf_addrs].
  pose proof (scan_hu_width _ _ E4). wf_addrs.
Qed.

(** C35: every string the wire can carry that has a terminator in its 320 bytes
    is unpacked within the arrays of the structure (no overflow, whatever a peer
    sends), whose sizes and local address stay what they were. *)
Theorem unpack_memory_safe infostr a :
  strlen infostr <> None -> addrs_wf a ->
  exists a', unpack_from_infostring infostr a = Some a' /\ addrs_wf a' /\
    addrs_local_ip a' = addrs_local_ip a /\ addrs_local_port a' = addrs_local_port a.
Proof. apply unpack_ok. Qed.

(** Unpacking a string of the protocol's form, field by field. *)
Lemma unpack_eq infostr f n i p tail a :
  addrs_wf a -> no_nul (f ++ n ++ i) -> in_width 16 p ->
  field_ok 255 colon f -> field_ok 31 at_sign n -> field_ok 15 colon i ->
  infostr = (f ++ [colon] ++ n ++ [at_sign] ++ i ++ [colon] ++ dec p) ++ 0 :: tail ->
  exists a', unpack_from_infostring infostr a = Some a' /\
    cstr (addrs_filename a') = f /\ cstr (addrs_name a') = n /\
    cstr (addrs_remote_ip a') = i /\ addrs_remote_port a' = p.
Proof.
  intros [Wf Wn Wl Wr _ _] Hnn Hp Hf Hn Hi ->. unfold no_nul in Hnn. rewrite !Forall_app in Hnn.
  unfold MAXFILENAMESIZE, MAXNAMESIZE, MAXIPV4SIZE in *.
  destruct Hnn as (Hnf & Hnm & Hni). pose proof (dec_no_nul p (proj1 Hp)) as Hnd.
  assert (Hnul : no_nul (f ++ [colon] ++ n ++ [at_sign] ++ i ++ [colon] ++ dec p)).
  { unfold no_nul. rewrite !Forall_app. split_and!; try done; by repeat constructor. }
  unfold unpack_from_infostring. rewrite strlen_app_nul, cstr_no_nul by done. cbn [mbind option_bind].
  pose proof Hf as (_ & Hfl & _). pose proof Hn as (_ & Hnl & _). pose proof Hi as (_ & Hil & _).
  cbn [app]. rewrite (scan_set_field 255) by done.
  destruct (store_str_spec (addrs_filename a) f) as (fn & -> & _ & Hfn); [lia|done|].
  cbn [mbind option_bind]. unfold scan_char at 1. rewrite Z.eqb_refl. cbn [mbind option_bind].
  rewrite (scan_set_field 31) by done. cbn [set_addrs_filename addrs_name].
  destruct (store_str_spec (addrs_name a) n) as (nn & -> & _ & Hnn'); [lia|done|].
  cbn [mbind option_bind]. unfold scan_char at 1. rewrite Z.eqb_refl. cbn [mbind option_bind].
  rewrite (scan_set_field 15) by done. cbn [set_addrs_name set_addrs_filename addrs_remote_ip].
  destruct (store_str_spec (addrs_remote_ip a) i) as (ii & -> & _ & Hii); [lia|done|].
  cbn [mbind option_bind]. unfold scan_char. rewrite Z.eqb_refl. cbn [mbind option_bind].
  destruct (scan_hu_dec p [] Hp) as [_ ->]. by eexists.
Qed.

Lemma infostring_exchange buf a a0 :
  addrs_wf a -> addrs_wf a0 -> len buf = INFOSTRSIZE ->
  field_ok 255 colon (cstr (addrs_filename a)) ->
  field_ok 31 at_sign (cstr (addrs_name a)) ->
  field_ok 15 colon (cstr (addrs_local_ip a)) ->
  exists buf' a', pack_into_infostring buf a = Some buf' /\ len buf' = INFOSTRSIZE /\
    unpack_from_infostring buf' a0 = Some a' /\
    cstr (addrs_filename a') = cstr (addrs_filename a) /\
    cstr (addrs_name a') = cstr (addrs_name a) /\
    cstr (addrs_remote_ip a') = cstr (addrs_local_ip a) /\
    addrs_remote_port a' = addrs_local_port a.
Proof.
  intros Ha Ha0 Hb Hf Hn Hi.
  destruct (pack_into_infostring_ok buf a Ha Hb) as (s & Hs & Hsl & Hnn & Hp).
  unfold INFOSTRSIZE in *.
  assert (Hlen : len (s ++ [0] ++ zdrop (len s + 1) buf) = 320) by (len_simpl; len_lia).
  rewrite infostring_eq in Hs by done. rewrite !ztake_all in Hs by first [apply Hf|apply Hn|apply Hi]. injection Hs as <-.
  edestruct unpack_eq as (a' & Hu & Hrest);
    [exact Ha0| |by apply (wf_local_port a)|exact Hf|exact Hn|exact Hi|reflexivity|].
  { unfold no_nul. rewrite !Forall_app. split_and!; apply no_nul_cstr. }
  eexists _, a'. split_and!; [exact Hp|exact Hlen|exact Hu|apply Hrest..].
Qed.

(** Later directives leave the filename alone. *)
Lemma unpack_filename infostr a a' f r :
  unpack_from_infostring infostr a = Some a' -> scan_set 255 colon (cstr infostr) = Some (f, r) ->
  addrs_wf a -> cstr (addrs_filename a') = f.
Proof.
  unfold unpack_from_infostring. intros Hu Hsc Ha. destruct (strlen infostr); [|done].
  cbn [mbind option_bind] in Hu. rewrite Hsc in Hu.
  pose proof (no_nul_cstr infostr) as Hn. destruct (scan_set_bound _ _ _ _ _ Hsc) as [He Hl].
  rewrite He in Hn. apply Forall_app in Hn as [Hn _].
  destruct (store_str_spec (addrs_filename a) f) as (fn & Hst & _ & <-);
    [rewrite (wf_filename a Ha); unfold MAXFILENAMESIZE; lia|done|].
  rewrite Hst in Hu. cbn [mbind option_bind] in Hu.
  repeat match type of Hu with
  | Some _ = Some _ => injection Hu as <-; reflexivity
  | None = _ => discriminate
  | mbind _ ?o = _ => destruct o; cbn [mbind option_bind] in Hu
  | context [match ?x with _ => _ end] => destruct x; cbn [mbind option_bind] in Hu
  end.
Qed.

(** ** Formatted names *)

Lemma snprintf_ok arr size text :
  0 < size <= len arr -> no_nul text ->
  exists arr', snprintf arr size text = Some arr' /\ len arr' = len arr /\ cstr arr' = ztake (size - 1) text.
Proof.
  intros Hs Hn. unfold snprintf. destruct (Z.eqb_spec size 0); [lia|].
  assert (Hl : len (ztake (size - 1) text ++ [0]) <= size).
  { rewrite len_app, <- ztake_min, len_ztake; [change (len [0]) with 1; lia|]. pose proof (len_nonneg text). lia. }
  destruct (mem_write arr 0 (ztake (size - 1) text ++ [0])) as [arr'|] eqn:Hw; [|rewrite mem_write_spec in Hw by lia; done].
  exists arr'. split; [done|]. split; [by rewrite (mem_write_len _ _ _ _ Hw)|].
  rewrite mem_write_spec in Hw by lia. injection Hw as <-. rewrite <- app_assoc. apply cstr_no_nul. by apply Forall_take.
Qed.

(** The name is the keyword, an underscore, the number drawn and [.tmp], cut to the
    array. *)
Lemma make_random_filename_ok filename size keyword r :
  0 < size <= len filename -> strlen keyword <> None -> 0 <= r ->
  exists name, make_random_filename filename size keyword r = Some name /\ len name = len filename /\
    cstr name = ztake (size - 1) (cstr keyword ++ lit "_" ++ dec r ++ lit ".tmp").
Proof.
  intros Hs Hk Hr. unfold make_random_filename. destruct (strlen keyword) as [k|]; [|done]. cbn [mbind option_bind].
  apply snprintf_ok; [done|]. unfold no_nul. rewrite !Forall_app.
  split_and!; [apply no_nul_cstr|by repeat constructor|by apply dec_no_nul|by repeat constructor].
Qed.

(** C40: a filename with a colon in it does not survive: the receiver keeps the
    part before the first colon. *)
Theorem infostring_colon_truncates buf a a0 f g :
  addrs_wf a -> addrs_wf a0 -> len buf = INFOSTRSIZE ->
  cstr (addrs_filename a) = f ++ [colon] ++ g -> len (f ++ [colon] ++ g) <= 255 ->
  f <> [] -> colon ∉ f ->
  exists buf' a', pack_into_infostring buf a = Some buf' /\
    unpack_from_infostring buf' a0 = Some a' /\ cstr (addrs_filename a') = f.
Proof.
  intros Ha Ha0 Hb Hfn Hl Hf Hc.
  destruct (pack_into_infostring_ok buf a Ha Hb) as (s & Hs & Hsl & Hnn & Hp).
  assert (Hst : strlen (s ++ [0] ++ zdrop (len s + 1) buf) <> None)
    by (cbn [app]; rewrite strlen_app_nul by done; discriminate).
  destruct (unpack_ok _ a0 Hst Ha0) as (a' & Hu & _).
  eexists _, a'. split_and!; [exact Hp|exact Hu|]. eapply unpack_filename; [exact Hu| |done].
  cbn [app]. rewrite cstr_no_nul by done.
  rewrite infostring_eq, Hfn, (ztake_all 255) in Hs by done. injection Hs as <-.
  rewrite <- app_assoc. cbn [app]. apply (scan_set_field 255).
  rewrite !len_app in Hl. split_and!; [done| |done]. len_lia.
Qed.

(** A string that does not start with a filename leaves the structure as it
    was: the caller goes on with the previous contents. *)
Lemma unpack_stale infostr a :
  strlen infostr <> None -> (cstr infostr = [] \/ exists r, cstr infostr = colon :: r) ->
  unpack_from_infostring infostr a = Some a.
Proof.
  intros Hs He. unfold unpack_from_infostring. destruct (strlen infostr); [|done].
  cbn [mbind option_bind]. by destruct He as [->|[r ->]].
Qed.

(** ** IPv4 addresses *)

Lemma pton_octet_dec v s dn :
  byte_ok v -> (length dn <= 3)%nat ->
  (s = [] \/ exists r, s = dot :: r) ->
  pton_loop (dec v ++ s) dn 0 false = pton_loop s dn v true.
Proof.
  intros Hv Hd Hs.
  assert (Hall : Forall (fun v => forall s dn, (s = [] \/ exists r, s = dot :: r) ->
    pton_loop (dec v ++ s) dn 0 false = pton_loop s dn v true) (seqZ 0 256)).
  { clear. cbv -[pton_loop app dec]. repeat constructor; intros s dn Hs;
      (destruct Hs as [->|[r ->]]; reflexivity). }
  rewrite Forall_forall in Hall. apply Hall; [|done]. apply elem_of_seqZ. unfold byte_ok in Hv. lia.
Qed.

Lemma addr_inv addr : len addr = 4 -> exists a b c d, addr = [a; b; c; d].
Proof.
  unfold len. destruct addr as [|a [|b [|c [|d [|e l]]]]]; cbn [length]; intros; try lia.
  by eexists _, _, _, _.
Qed.

Lemma inet_ntop_shape addr :
  len addr = 4 -> bytes_ok addr -> no_nul (inet_ntop addr) /\ len (inet_ntop addr) <= 15.
Proof.
  intros Hl Hok. destruct (addr_inv _ Hl) as (a & b & c & d & ->).
  unfold bytes_ok in Hok. rewrite !Forall_cons in Hok. unfold byte_ok in Hok.
  destruct Hok as (Ha & Hb & Hc & Hd & _). cbn [inet_ntop]. split.
  - unfold no_nul. rewrite !Forall_app. unfold dot.
    split_and!; try (apply dec_no_nul; lia); by repeat constructor.
  - rewrite !len_app. change (len [dot]) with 1.
    pose proof (dec_len 2 a ltac:(change (10 ^ Z.of_nat 3) with 1000; lia)).
    pose proof (dec_len 2 b ltac:(change (10 ^ Z.of_nat 3) with 1000; lia)).
    pose proof (dec_len 2 c ltac:(change (10 ^ Z.of_nat 3) with 1000; lia)).
    pose proof (dec_len 2 d ltac:(change (10 ^ Z.of_nat 3) with 1000; lia)). lia.
Qed.

Lemma inet_ntop_pton addr rest :
  len addr = 4 -> bytes_ok addr ->
  len (inet_ntop addr) < MAXIPV4SIZE /\
  inet_pton (inet_ntop addr ++ 0 :: rest) = Some addr /\
  check_ipv4_format (inet_ntop addr ++ 0 :: rest) = true.
Proof.
  intros Hl Hok. destruct (inet_ntop_shape _ Hl Hok) as [Hn Hlen].
  assert (Hp : inet_pton (inet_ntop addr ++ 0 :: rest) = Some addr).
  { unfold inet_pton. rewrite cstr_no_nul by done.
    destruct (addr_inv _ Hl) as (a & b & c & d & ->).
    unfold bytes_ok in Hok. rewrite !Forall_cons in Hok. destruct Hok as (Ha & Hb & Hc & Hd & _).
    cbn [inet_ntop].
    rewrite pton_octet_dec by (done || (cbn; lia) || (right; by eexists)). cbn [app pton_loop].
    change (is_digit dot) with false. change (dot =? dot) with true. cbn [andb length Nat.eqb].
    rewrite pton_octet_dec by (done || (cbn; lia) || (right; by eexists)). cbn [app pton_loop].
    change (is_digit dot) with false. change (dot =? dot) with true. cbn [andb length Nat.eqb].
    rewrite pton_octet_dec by (done || (cbn; lia) || (right; by eexists)). cbn [app pton_loop].
    change (is_digit dot) with false. change (dot =? dot) with true. cbn [andb length Nat.eqb].
    rewrite <- (app_nil_r (dec d)), pton_octet_dec by (done || (cbn; lia) || by left). done. }
  split_and!; [unfold MAXIPV4SIZE; lia|done|]. unfold check_ipv4_format. by rewrite Hp.
Qed.
