(* ===== verification/Mfile.v ===== *)
(** * Memory-mapped files (source/mfile.c)

    [MFILE] is a stream over a mapped file: [mfread] and [mfwrite] copy between
    the caller's buffer and the mapping at the current position, and never past
    its end.  The functions that only touch memory are pure, with [None] for an
    access outside an object; the others make system calls. *)
From S2P Require Import Prelude Protocol Types Sys Wire Utils.

Definition mfile_closed : MFILE :=
  {| mf_file := None; mf_open := 0; mf_size := 0; mf_pos := 0; mf_buf := None |}.

Definition mfopen (pathname : list Z) (mode : string) (prot flags : Z) : M MFILE :=
  let mfile := mfile_closed in
  file ← sys (Fopen pathname mode);
  match file with
  | None => mret mfile
  | Some file =>
      '(r, st_size) ← sys (Fstat file);
      if r =? -1 then sys (Fclose file);; mret mfile else
      let size := size_t st_size in
      let mfile := {| mf_file := None; mf_open := 0; mf_size := size; mf_pos := 0; mf_buf := None |} in
      buf ← sys (Mmap size prot flags file);
      match buf with
      | None => sys (Fclose file);; mret mfile
      | Some buf =>
          mret {| mf_file := Some file; mf_open := 1; mf_size := size; mf_pos := 0;
                  mf_buf := Some buf |}
      end
  end.

(** The buffer after the call, the value returned and the stream. *)
Definition mfread (ptr : list Z) (size nmemb : Z) (stream : MFILE) : option (list Z * Z * MFILE) :=
  if mf_open stream =? 0 then Some (ptr, 0, stream) else
  let tsize := size_t (size * nmemb) in
  let rsize := size_t (mf_size stream - mf_pos stream) in
  let fsize := if tsize <? rsize then tsize else rsize in
  data ← buf_read (mf_buf stream) (mf_pos stream) fsize;
  ptr ← mem_write ptr 0 data;
  Some (ptr, fsize, set_mf_pos (size_t (mf_pos stream + fsize)) stream).

Definition mfwrite (ptr : list Z) (size nmemb : Z) (stream : MFILE) : option (Z * MFILE) :=
  if mf_open stream =? 0 then Some (0, stream) else
  let tsize := size_t (size * nmemb) in
  let wsize := size_t (mf_size stream - mf_pos stream) in
  let fsize := if tsize <? wsize then tsize else wsize in
  data ← mem_read ptr 0 fsize;
  m ← mf_buf stream;
  content ← mem_write (map_bytes m) (mf_pos stream) data;
  let stream := set_mf_buf (Some {| map_addr := map_addr m; map_bytes := content |}) stream in
  Some (fsize, set_mf_pos (size_t (mf_pos stream + fsize)) stream).

Definition mfseek (stream : MFILE) (pos : Z) : Z * MFILE :=
  if negb (mf_open stream =? 0) && (pos <? mf_size stream)
  then (pos, set_mf_pos pos stream) else (0, stream).

Definition mftell (stream : MFILE) : Z :=
  if negb (mf_open stream =? 0) then mf_pos stream else 0.

Definition mfsync (stream : MFILE) (flags : Z) : M Z :=
  pagesize ← sys Sysconf_pagesize;
  if pagesize =? -1 then mret (-1) else
  let offset := mf_pos stream - mf_pos stream mod pagesize in
  buf ← defined (mf_buf stream);
  sys (Msync buf offset (size_t (mf_size stream - offset)) flags).

Definition mfclose (stream : MFILE) : M Z :=
  munmap_stat ← match mf_buf stream with
                | Some buf => sys (Munmap buf (mf_size stream))
                | None => mret (-1)
                end;
  fclose_stat ← match mf_file stream with
                | Some file => sys (Fclose file)
                | None => mret (-1)
                end;
  mret (Z.lor munmap_stat fclose_stat).

(** The bytes of the mapping. *)
Definition mf_bytes (m : MFILE) : list Z :=
  match mf_buf m with Some b => map_bytes b | None => [] end.

(** The same stream on other content. *)
Definition mf_content (content : list Z) (m : MFILE) : MFILE :=
  set_mf_buf ((fun b => {| map_addr := map_addr b; map_bytes := content |}) <$> mf_buf m) m.

(** A well-formed stream: an open one has its file and a mapping of its size, and
    the position is in it. *)
Record mfile_ok (m : MFILE) : Prop := {
  ok_buf : mf_open m <> 0 -> exists b, mf_buf m = Some b /\ len (map_bytes b) = mf_size m;
  ok_file : mf_open m <> 0 -> mf_file m <> None;
  ok_pos : 0 <= mf_pos m <= mf_size m;
  ok_size : mf_size m < 2 ^ 63
}.

(** ** The stream operations *)

Lemma mfread_ok ptr size nmemb m :
  mfile_ok m -> mf_open m <> 0 -> 0 <= size * nmemb < 2 ^ 64 -> size * nmemb <= len ptr ->
  let n := Z.min (size * nmemb) (mf_size m - mf_pos m) in
  exists ptr', mfread ptr size nmemb m = Some (ptr', n, set_mf_pos (mf_pos m + n) m) /\
    ptr' = ztake n (zdrop (mf_pos m) (mf_bytes m)) ++ zdrop n ptr /\
    mfile_ok (set_mf_pos (mf_pos m + n) m).
Proof.
  intros Hok Ho Ht Hp n. destruct (ok_buf m Hok Ho) as (b & Hb & Hlb).
  pose proof (ok_pos m Hok). pose proof (ok_size m Hok).
  assert (Hn : 0 <= n <= mf_size m - mf_pos m) by (unfold n; lia).
  unfold mfread, wrap. destruct (Z.eqb_spec (mf_open m) 0); [done|].
  rewrite (Z.mod_small (size * nmemb)), (Z.mod_small (mf_size m - mf_pos m)) by lia.
  replace (if size * nmemb <? mf_size m - mf_pos m then _ else _) with n
    by (unfold n; destruct (Z.ltb_spec (size * nmemb) (mf_size m - mf_pos m)); lia).
  unfold buf_read, mf_bytes. rewrite Hb. cbn [mbind option_bind].
  rewrite mem_read_spec by lia. cbn [mbind option_bind].
  assert (Hl : len (ztake n (zdrop (mf_pos m) (map_bytes b))) = n) by (len_simpl; lia).
  rewrite mem_write_0 by lia. cbn [mbind option_bind]. rewrite Hl, Z.mod_small by lia.
  eexists; split; [reflexivity|]. split; [done|].
  constructor; cbn; [by eauto|by apply ok_file|lia|done].
Qed.

(** On a well-formed open stream, a read into a large enough buffer is within
    bounds: it yields the next bytes of the file, as many as asked for or as are
    left, and moves the position past them; the stream stays well formed. *)
Lemma mfread_spec ptr size nmemb m :
  mfile_ok m -> mf_open m <> 0 -> 0 <= size * nmemb < 2 ^ 64 -> size * nmemb <= len ptr ->
  let n := Z.min (size * nmemb) (mf_size m - mf_pos m) in
  exists ptr', mfread ptr size nmemb m = Some (ptr', n, set_mf_pos (mf_pos m + n) m) /\
    ptr' = ztake n (zdrop (mf_pos m) (mf_bytes m)) ++ zdrop n ptr /\
    mfile_ok (set_mf_pos (mf_pos m + n) m).
Proof. apply mfread_ok. Qed.

Lemma mfwrite_ok ptr size nmemb m :
  mfile_ok m -> mf_open m <> 0 -> 0 <= size * nmemb < 2 ^ 64 -> size * nmemb <= len ptr ->
  let n := Z.min (size * nmemb) (mf_size m - mf_pos m) in
  exists m', mfwrite ptr size nmemb m = Some (n, m') /\
    mf_pos m' = mf_pos m + n /\ mf_open m' = mf_open m /\ mf_size m' = mf_size m /\
    mf_bytes m' = ztake (mf_pos m) (mf_bytes m) ++ ztake n ptr
                  ++ zdrop (mf_pos m + n) (mf_bytes m) /\
    mfile_ok m'.
Proof.
  intros Hok Ho Ht Hp n. destruct (ok_buf m Hok Ho) as (b & Hb & Hlb).
  pose proof (ok_pos m Hok). pose proof (ok_size m Hok).
  assert (Hn : 0 <= n <= mf_size m - mf_pos m) by (unfold n; lia).
  unfold mfwrite, wrap. destruct (Z.eqb_spec (mf_open m) 0); [done|].
  rewrite (Z.mod_small (size * nmemb)), (Z.mod_small (mf_size m - mf_pos m)) by lia.
  replace (if size * nmemb <? mf_size m - mf_pos m then _ else _) with n
    by (unfold n; destruct (Z.ltb_spec (size * nmemb) (mf_size m - mf_pos m)); lia).
  rewrite mem_read_spec by lia. cbn [mbind option_bind]. rewrite zdrop_0.
  unfold mf_bytes. rewrite Hb. cbn [mbind option_bind].
  assert (Hl : len (ztake n ptr) = n) by (apply len_ztake; lia).
  rewrite mem_write_spec by lia. cbn [mbind option_bind]. rewrite Hl.
  eexists; split; [reflexivity|]. cbn [set_mf_pos set_mf_buf mf_pos mf_open mf_size mf_buf map_bytes].
  rewrite Z.mod_small by lia. split_and!; try done.
  constructor; cbn; [|by apply ok_file|lia|done].
  intros _. eexists; split; [done|]. cbn. len_simpl; lia.
Qed.

(** C27: a write on a well-formed open stream stays within the mapping: it
    replaces the bytes at the position, as many as given or as are left, leaves
    every other byte of the file alone, and moves the position past them; the
    stream stays well formed. *)
Theorem mfwrite_spec ptr size nmemb m :
  mfile_ok m -> mf_open m <> 0 -> 0 <= size * nmemb < 2 ^ 64 -> size * nmemb <= len ptr ->
  let n := Z.min (size * nmemb) (mf_size m - mf_pos m) in
  exists m', mfwrite ptr size nmemb m = Some (n, m') /\
    mf_pos m' = mf_pos m + n /\ mf_open m' = mf_open m /\ mf_size m' = mf_size m /\
    mf_bytes m' = ztake (mf_pos m) (mf_bytes m) ++ ztake n ptr
                  ++ zdrop (mf_pos m + n) (mf_bytes m) /\
    mfile_ok m'.
Proof. apply mfwrite_ok. Qed.

(** [mfseek] moves an open stream to any position inside the file and returns
    it; otherwise the stream is unchanged and the result is 0, so that a caller
    comparing the result with the position it asked for sees the failure exactly
    for the positions other than 0. *)
Lemma mfseek_ok m pos :
  0 <= pos ->
  mfseek m pos = (if bool_decide (mf_open m <> 0 /\ pos < mf_size m)
                  then (pos, set_mf_pos pos m) else (0, m)) /\
  (fst (mfseek m pos) = pos <-> pos = 0 \/ (mf_open m <> 0 /\ pos < mf_size m)) /\
  (mfile_ok m -> mfile_ok (snd (mfseek m pos))).
Proof.
  intros Hp. unfold mfseek. destruct (Z.eqb_spec (mf_open m) 0) as [E|E]; cbn [negb andb].
  { rewrite bool_decide_false by tauto. cbn [fst snd]. split_and!; [done|lia|done]. }
  destruct (Z.ltb_spec pos (mf_size m)).
  - rewrite bool_decide_true by done. cbn [fst snd]. split_and!; [done|tauto|].
    intros [Hb Hf Hpos Hs]. constructor; cbn; [done|done|lia|done].
  - rewrite bool_decide_false by lia. cbn [fst snd]. split_and!; [done|lia|done].
Qed.

(** The stream after a write inside the file. *)
Lemma mfwrite_inside ptr data n m :
  mfile_ok m -> mf_open m <> 0 -> 0 <= n -> mem_read ptr 0 n = Some data -> mf_pos m + n <= mf_size m ->
  mfwrite ptr n 1 m
  = Some (n, set_mf_pos (mf_pos m + n)
               (mf_content (ztake (mf_pos m) (mf_bytes m) ++ data ++ zdrop (mf_pos m + n) (mf_bytes m)) m)).
Proof.
  intros Hok Ho Hn Hr Hp. destruct (ok_buf m Hok Ho) as (b & Hb & Hlb).
  pose proof (ok_pos m Hok). pose proof (ok_size m Hok). pose proof (mem_read_len _ _ _ _ Hr) as Hl.
  unfold mfwrite, wrap, mf_content, mf_bytes. destruct (Z.eqb_spec (mf_open m) 0); [done|].
  rewrite Z.mul_1_r, (Z.mod_small n), (Z.mod_small (mf_size m - mf_pos m)) by lia.
  replace (if n <? mf_size m - mf_pos m then n else mf_size m - mf_pos m) with n
    by (destruct (Z.ltb_spec n (mf_size m - mf_pos m)); lia).
  rewrite Hr, Hb. cbn [mbind option_bind fmap option_fmap option_map].
  rewrite mem_write_spec by lia. cbn [mbind option_bind]. cbn [mf_pos set_mf_buf].
  rewrite Hl, Z.mod_small by lia. done.
Qed.

Lemma mfseek_inside m pos :
  mf_open m <> 0 -> pos < mf_size m -> mfseek m pos = (pos, set_mf_pos pos m).
Proof.
  intros Ho Hp. unfold mfseek. destruct (Z.eqb_spec (mf_open m) 0); [done|].
  by destruct (Z.ltb_spec pos (mf_size m)); [|lia].
Qed.

Lemma mfseek_outside m pos : mf_size m <= pos -> mfseek m pos = (0, m).
Proof.
  intros Hp. unfold mfseek. destruct (Z.ltb_spec pos (mf_size m)); [lia|]. by rewrite andb_false_r.
Qed.

(** C26: what is written at a position inside the file is read back from it: seek,
    write, seek and read restore the data, whatever the position was before. *)
Theorem mfwrite_mfread data ptr pos m :
  mfile_ok m -> mf_open m <> 0 -> 0 <= pos < mf_size m -> pos + len data <= mf_size m ->
  len data <= len ptr ->
  exists m1 m2, mfwrite data (len data) 1 (snd (mfseek m pos)) = Some (len data, m1) /\
    mfread ptr (len data) 1 (snd (mfseek m1 pos))
    = Some (data ++ zdrop (len data) ptr, len data, m2).
Proof.
  intros Hok Ho Hp Hl Hpl. pose proof (ok_size m Hok). pose proof (len_nonneg data).
  destruct (mfseek_ok m pos) as (Hs & _ & Hs'); [lia|]. specialize (Hs' Hok).
  rewrite bool_decide_true in Hs by (split; [done|lia]). rewrite Hs in *. cbn [fst snd] in *.
  destruct (mfwrite_ok data (len data) 1 _ Hs') as (m1 & Hw & Hpos & Hopen & Hsize & Hbytes & Hok1);
    [done|lia..|].
  cbn [set_mf_pos mf_size mf_pos mf_open] in *. rewrite Z.min_l in Hw, Hbytes by lia.
  destruct (mfseek_ok m1 pos) as (Hs1 & _ & Hs1'); [lia|]. specialize (Hs1' Hok1).
  rewrite bool_decide_true in Hs1 by (rewrite Hopen, Hsize; cbn; split; [done|lia]).
  rewrite Hs1 in *. cbn [fst snd] in *.
  destruct (mfread_ok ptr (len data) 1 _ Hs1') as (p & Hr & Hp' & _);
    [cbn; by rewrite Hopen|lia..|].
  cbn [set_mf_pos mf_size mf_pos mf_open] in *. rewrite Z.min_l in Hr, Hp' by lia.
  exists m1. eexists. split; [rewrite Hw; do 2 f_equal; lia|]. rewrite Hs1. cbn [snd]. rewrite Hr. do 2 f_equal.
  rewrite Z.mul_1_r in *. f_equal. rewrite Hp'. f_equal.
  change (mf_bytes (set_mf_pos pos m1)) with (mf_bytes m1). rewrite Hbytes.
  change (mf_bytes (set_mf_pos pos m)) with (mf_bytes m).
  destruct (ok_buf m Hok Ho) as (b & Hb & Hlb).
  assert (Hm : len (mf_bytes m) = mf_size m) by (unfold mf_bytes; by rewrite Hb).
  rewrite (ztake_all (len data) data) by lia.
  rewrite (zdrop_app pos) by (len_simpl; lia). by apply ztake_app.
Qed.

(** A file mapped along a trace. *)
Definition mapped (content : list Z) (tr : list obs) : Prop :=
  exists size prot flags file b, Obs (Mmap size prot flags file) (Some b) ∈ tr /\ map_bytes b = content.

Lemma mapped_r content tr tr' : mapped content tr' -> mapped content (tr ++ tr').
Proof. intros (n & p & f & fd & b & Hin & Hb). exists n, p, f, fd, b. split; [apply elem_of_app; by right|done]. Qed.

(** What [mfopen] promises: a stream over a non-empty file of the size [fstat]
    told, or a closed stream. *)
Definition opened (o : outcome MFILE) (tr : list obs) : Prop :=
  exists m, o = Val m /\
    ((mf_open m = 0 /\ tally file_delta tr = 0) \/
     (mf_open m = 1 /\ mfile_ok m /\ mf_pos m = 0 /\ 0 < mf_size m /\ tally file_delta tr = 1 /\
      (exists file r, Obs (Fstat file) (r, mf_size m) ∈ tr) /\ bytes_ok (mf_bytes m) /\ mapped (mf_bytes m) tr)).


(** A file that was found to be empty, which cannot be mapped. *)
Definition found_empty (tr : list obs) : Prop := exists file r, Obs (Fstat file) (r, 0) ∈ tr.

Lemma found_empty_r tr tr' : found_empty tr' -> found_empty (tr ++ tr').
Proof. intros (f & r & Hin). exists f, r. apply elem_of_app. by right. Qed.
#[export] Hint Resolve found_empty_r : ruf.

Lemma mfopen_ok pathname mode prot flags s :
  wp posix (calls (fun o tr => opened o tr /\ tally heap_delta tr = 0 /\ wire tr = [] /\
      forall m, o = Val m -> mf_open m = 0 -> mode <> "w+"%string -> NOMFILE ∈ complaints tr \/ found_empty tr) s)
    (mfopen pathname mode prot flags) s.
Proof.
  unfold mfopen. wp_go.
  assert (Hclosed : forall m tr, mf_open m = 0 -> tally file_delta tr = 0 -> opened (Val m) tr)
    by (intros m tr Hm Ht; exists m; split; [done|by left]).
  wp_case; wp_go.
  2:{ calls_go. split_and!; [by apply Hclosed|done|done|]. intros ? _ _ Hm. left. unfold complaints, gather. cbn.
      rewrite decide_False by done. in_list. }
  wp_case; wp_go; [calls_go; split_and!; [by apply Hclosed|done|done|intros; left; complains]|].
  wp_case; wp_go.
  2:{ calls_go. split_and!; [by apply Hclosed|done|done|intros _ _ _ _]. cbn [fst snd] in *. destruct Hr0 as [_ Hz].
      match type of Hz with _ <= ?z < _ => destruct (Z.eq_dec z 0) end.
      { subst. right. eexists _, _. in_list. }
      match goal with |- context [wrap 64 ?z] => replace (wrap 64 z) with z by (unfold wrap; rewrite Z.mod_small; lia) end.
      left. complains. }
  calls_go. split_and!; [|done|done|by intros ? [= <-]]. eexists; split; [done|]; right. cbn [fst snd] in *.
  destruct Hr0 as [_ Hz]. destruct Hr1 as (Hpos & Hlen & Hbytes).
  match type of Hz with _ <= ?z < _ =>
    assert (Hw : wrap 64 z = z) by (unfold wrap; rewrite Z.mod_small; lia) end.
  rewrite Hw in *.
  cbn [mf_open mf_pos mf_size]. split_and!; try done.
  - constructor; cbn; try done; [by eexists|lia|lia].
  - eexists _, _. apply list_elem_of_further, list_elem_of_here.
  - eexists _, _, _, _, _. split; [do 2 apply list_elem_of_further; apply list_elem_of_here|done].
Qed.

(** [mfopen] succeeds with a well-formed stream at position 0 over the whole
    of a non-empty file, or fails with a closed stream and no file left open;
    in particular it never opens an empty file. *)
Theorem mfopen_spec pathname mode prot flags s :
  wp posix (calls (fun o tr =>
      exists m, o = Val m /\
        ((mf_open m = 0 /\ tally file_delta tr = 0) \/
         (mf_open m = 1 /\ mfile_ok m /\ mf_pos m = 0 /\ 0 < mf_size m /\ tally file_delta tr = 1 /\
          (exists file r, Obs (Fstat file) (r, mf_size m) ∈ tr) /\ bytes_ok (mf_bytes m) /\ mapped (mf_bytes m) tr))) s)
    (mfopen pathname mode prot flags) s.
Proof. eapply wp_calls; [apply mfopen_ok|]. intros o tr (Ho & _). calls_go. exact Ho. Qed.

(** On a well-formed open stream, [mfsync] asks for the synchronisation of a
    page-aligned range that starts at or before the position, less than a page
    before it, and ends with the mapping, when the position is not negative. *)
Lemma mfsync_range m flags s :
  mfile_ok m -> mf_open m <> 0 ->
  wp posix (calls (fun o tr =>
      (o = Val (-1) /\ tr = [Obs Sysconf_pagesize (-1)]) \/
      exists pagesize b off n r, o = Val r /\ minus_one_or_zero r /\ mf_buf m = Some b /\
        tr = [Obs Sysconf_pagesize pagesize; Obs (Msync b off n flags) r] /\
        (pagesize | off) /\ 0 <= off <= mf_pos m /\ mf_pos m < off + pagesize /\
        off + n = len (map_bytes b)) s)
    (mfsync m flags) s.
Proof.
  intros Hok Ho. destruct (ok_buf m Hok Ho) as (b & Hb & Hlb).
  pose proof (ok_pos m Hok). pose proof (ok_size m Hok). unfold mfsync. wp_go.
  wp_case; wp_go; [subst; calls_go; by left|]. rewrite Hb. wp_go. calls_go. right.
  destruct Hr as [|Hr]; [done|].
  pose proof (Z.mod_pos_bound (mf_pos m) r Hr). pose proof (Z.mod_le (mf_pos m) r ltac:(lia) Hr).
  eexists r, b, _, _, _. split_and!; try done; try lia.
  - exists (mf_pos m / r). pose proof (Z.div_mod (mf_pos m) r ltac:(lia)). lia.
  - unfold wrap. rewrite (Z.mod_small (mf_size m - _)) by lia. lia.
Qed.

(** [mfclose] of an open stream unmaps it and closes its file, in that order, and
    fails when either fails. *)
Lemma mfclose_spec m b f s :
  mf_buf m = Some b -> mf_file m = Some f ->
  wp posix (calls (fun o tr => exists r1 r2,
      minus_one_or_zero r1 /\ minus_one_or_zero r2 /\
      tr = [Obs (Munmap b (mf_size m)) r1; Obs (Fclose f) r2] /\
      o = Val (if bool_decide (r1 = 0 /\ r2 = 0) then 0 else -1)) s)
    (mfclose m) s.
Proof.
  intros Hb Hf. unfold mfclose. rewrite Hb, Hf. wp_go. calls_go.
  eexists _, _. split_and!; [exact Hr|exact Hr0|done|].
  destruct Hr as [-> | ->], Hr0 as [-> | ->]; reflexivity.
Qed.

Lemma mfclose_quiet m s :
  wp posix (calls (fun o tr => wire tr = [] /\ tally heap_delta tr = 0 /\
      exists r, o = Val r /\
        (r <> 0 -> mf_buf m <> None -> mf_file m <> None -> FAILURE ∈ complaints tr)) s)
    (mfclose m) s.
Proof.
  unfold mfclose. destruct (mf_buf m), (mf_file m); wp_go; calls_go; (split; [done|]; split; [done|]);
    eexists; (split; [done|]); intros Hne Hb Hf; try done.
  destruct Hr as [-> | ->], Hr0 as [-> | ->]; try (by destruct Hne); complains.
Qed.
