(* ===== verification/Error.v ===== *)
(** * Ending the process (include/error.h, include/tryexec.h)

    A [raise_*_error] function prints the status, its text and the caller's name and
    ends the process; [tryexec] calls the one of its status.  [report] is the table
    that they implement. *)
From S2P Require Import Prelude Types Sys.

Definition EXIT_FAILURE : Z := 1.

Section texts.
Local Open Scope string_scope.

Definition FAILURE_ERROR_TEXT : string := "process failed".
Definition TIMEOUT_ERROR_TEXT : string := "process timed out".
Definition LOWSIZE_ERROR_TEXT : string := "process received size that is lower than expected".
Definition EXPTRY0_ERROR_TEXT : string := "try count reached zero".
Definition EXPTRY1_ERROR_TEXT : string := "try count reached zero".
Definition ZEROACK_ERROR_TEXT : string := "process received RECV-NACK".
Definition ZEROSEQ_ERROR_TEXT : string := "transfer function received sequence = 0".
Definition FAILSET_ERROR_TEXT : string := "process failed to set socket option".
Definition FAILCRC_ERROR_TEXT : string := "file crc does not match".
Definition FAILLOG_ERROR_TEXT : string := "init_logd() failed".
Definition BADCONF_ERROR_TEXT : string := "bad config to initiate the process".
Definition BADFLOW_ERROR_TEXT : string := "process received bad flow packet".
Definition BADARGS_ERROR_TEXT : string := "process received bad argument".
Definition BADINET_ERROR_TEXT : string := "process received invalid address family".
Definition BADTYPE_ERROR_TEXT : string := "process received invalid header type".
Definition BADIPV4_ERROR_TEXT : string := "process received invalid ipv4 address format".
Definition BADPORT_ERROR_TEXT : string := "process received invalid port number".
Definition NOMFILE_ERROR_TEXT : string := "invalid mfile".
Definition NOFSTAT_ERROR_TEXT : string := "fstat() function failed".
Definition NOAVAIL_ERROR_TEXT : string := "there is no enough space on disk".
Definition NOCREAT_ERROR_TEXT : string := "process can not create file".
Definition NOTRUNC_ERROR_TEXT : string := "ftruncate() function failed".
Definition NOCLOSE_ERROR_TEXT : string := "fclose() function failed".
Definition EMFSEEK_ERROR_TEXT : string := "mfseek() function failed".
Definition EMFSYNC_ERROR_TEXT : string := "mfsync() function failed".
Definition ERRBIND_ERROR_TEXT : string := "bind() function failed".
Definition ERRCONN_ERROR_TEXT : string := "connect() function failed".
Definition ERRRECV_ERROR_TEXT : string := "recv() function failed".
Definition ERRSEND_ERROR_TEXT : string := "send() function failed".
Definition ERRPOLL_ERROR_TEXT : string := "poll() function failed".
Definition ERRTIME_ERROR_TEXT : string := "time() function failed".
Definition EMALLOC_ERROR_TEXT : string := "malloc() function failed".
Definition ERRLSTN_ERROR_TEXT : string := "listen() function failed".
Definition ETHREAD_ERROR_TEXT : string := "pthread's function failed".
Definition INVSOCK_ERROR_TEXT : string := "invalid socket fd".
Definition INVPATH_ERROR_TEXT : string := "invalid file path".
Definition TESTVAL_ERROR_TEXT : string := "testval".
Definition UNKNOWN_ERROR_TEXT : string := "unknown error".

(** The body of all of them: [GLOBAL_ERROR_TEXT] gives the name of the status.  The
    same text goes to the logger ([LOGE]), which reaches no state of the program. *)
Definition raise (stat text func : string) : M unit :=
  sys (PrintError stat text func);;
  exit EXIT_FAILURE.

Definition raise_failure_error (func : string) : M unit := raise "FAILURE" FAILURE_ERROR_TEXT func.
Definition raise_timeout_error (func : string) : M unit := raise "TIMEOUT" TIMEOUT_ERROR_TEXT func.
Definition raise_lowsize_error (func : string) : M unit := raise "LOWSIZE" LOWSIZE_ERROR_TEXT func.
Definition raise_exptry0_error (func : string) : M unit := raise "EXPTRY0" EXPTRY0_ERROR_TEXT func.
Definition raise_exptry1_error (func : string) : M unit := raise "EXPTRY1" EXPTRY1_ERROR_TEXT func.
Definition raise_zeroack_error (func : string) : M unit := raise "ZEROACK" ZEROACK_ERROR_TEXT func.
Definition raise_zeroseq_error (func : string) : M unit := raise "ZEROSEQ" ZEROSEQ_ERROR_TEXT func.
Definition raise_failset_error (func : string) : M unit := raise "FAILSET" FAILSET_ERROR_TEXT func.
Definition raise_failcrc_error (func : string) : M unit := raise "FAILCRC" FAILCRC_ERROR_TEXT func.
Definition raise_faillog_error (func : string) : M unit := raise "FAILLOG" FAILLOG_ERROR_TEXT func.
Definition raise_badconf_error (func : string) : M unit := raise "BADCONF" BADCONF_ERROR_TEXT func.
Definition raise_badflow_error (func : string) : M unit := raise "BADFLOW" BADFLOW_ERROR_TEXT func.
Definition raise_badargs_error (func : string) : M unit := raise "BADARGS" BADARGS_ERROR_TEXT func.
Definition raise_badinet_error (func : string) : M unit := raise "BADINET" BADINET_ERROR_TEXT func.
Definition raise_badtype_error (func : string) : M unit := raise "BADTYPE" BADTYPE_ERROR_TEXT func.
Definition raise_badipv4_error (func : string) : M unit := raise "BADIPV4" BADIPV4_ERROR_TEXT func.
Definition raise_badport_error (func : string) : M unit := raise "BADPORT" BADPORT_ERROR_TEXT func.
Definition raise_nomfile_error (func : string) : M unit := raise "NOMFILE" NOMFILE_ERROR_TEXT func.
Definition raise_nofstat_error (func : string) : M unit := raise "NOFSTAT" NOFSTAT_ERROR_TEXT func.
Definition raise_noavail_error (func : string) : M unit := raise "NOAVAIL" NOAVAIL_ERROR_TEXT func.
Definition raise_nocreat_error (func : string) : M unit := raise "NOCREAT" NOCREAT_ERROR_TEXT func.
Definition raise_notrunc_error (func : string) : M unit := raise "NOTRUNC" NOTRUNC_ERROR_TEXT func.
Definition raise_noclose_error (func : string) : M unit := raise "NOCLOSE" NOCLOSE_ERROR_TEXT func.
Definition raise_errbind_error (func : string) : M unit := raise "ERRBIND" ERRBIND_ERROR_TEXT func.
Definition raise_errconn_error (func : string) : M unit := raise "ERRCONN" ERRCONN_ERROR_TEXT func.
Definition raise_errrecv_error (func : string) : M unit := raise "ERRRECV" ERRRECV_ERROR_TEXT func.
Definition raise_errsend_error (func : string) : M unit := raise "ERRSEND" ERRSEND_ERROR_TEXT func.
Definition raise_errlstn_error (func : string) : M unit := raise "ERRLSTN" ERRLSTN_ERROR_TEXT func.
Definition raise_errpoll_error (func : string) : M unit := raise "ERRPOLL" ERRPOLL_ERROR_TEXT func.
Definition raise_errtime_error (func : string) : M unit := raise "ERRTIME" ERRTIME_ERROR_TEXT func.
Definition raise_emfseek_error (func : string) : M unit := raise "EMFSEEK" EMFSEEK_ERROR_TEXT func.
Definition raise_emfsync_error (func : string) : M unit := raise "EMFSYNC" EMFSYNC_ERROR_TEXT func.
Definition raise_emalloc_error (func : string) : M unit := raise "EMALLOC" EMALLOC_ERROR_TEXT func.
Definition raise_ethread_error (func : string) : M unit := raise "ETHREAD" ETHREAD_ERROR_TEXT func.
Definition raise_invsock_error (func : string) : M unit := raise "INVSOCK" INVSOCK_ERROR_TEXT func.
Definition raise_invpath_error (func : string) : M unit := raise "INVPATH" INVPATH_ERROR_TEXT func.
Definition raise_testval_error (func : string) : M unit := raise "TESTVAL" TESTVAL_ERROR_TEXT func.
Definition raise_unknown_error (func : string) : M unit := raise "UNKNOWN" UNKNOWN_ERROR_TEXT func.

Definition tryexec (st : status_t) : M unit :=
  let func := "tryexec" in
  match st with
  | SUCCESS => mret tt
  | FAILURE => raise_failure_error func
  | TIMEOUT => raise_timeout_error func
  | LOWSIZE => raise_lowsize_error func
  | EXPTRY0 => raise_exptry0_error func
  | EXPTRY1 => raise_exptry1_error func
  | ZEROACK => raise_zeroack_error func
  | ZEROSEQ => raise_zeroseq_error func
  | FAILSET => raise_failset_error func
  | FAILCRC => raise_failcrc_error func
  | FAILLOG => raise_faillog_error func
  | BADCONF => raise_badconf_error func
  | BADFLOW => raise_badflow_error func
  | BADARGS => raise_badargs_error func
  | BADINET => raise_badinet_error func
  | BADTYPE => raise_badtype_error func
  | BADIPV4 => raise_badipv4_error func
  | BADPORT => raise_badport_error func
  | NOMFILE => raise_nomfile_error func
  | NOFSTAT => raise_nofstat_error func
  | NOAVAIL => raise_noavail_error func
  | NOCREAT => raise_nocreat_error func
  | NOTRUNC => raise_notrunc_error func
  | NOCLOSE => raise_noclose_error func
  | ERRBIND => raise_errbind_error func
  | ERRCONN => raise_errconn_error func
  | ERRRECV => raise_errrecv_error func
  | ERRSEND => raise_errsend_error func
  | ERRLSTN => raise_errlstn_error func
  | ERRPOLL => raise_errpoll_error func
  | ERRTIME => raise_errtime_error func
  | EMFSEEK => raise_emfseek_error func
  | EMFSYNC => raise_emfsync_error func
  | EMALLOC => raise_emalloc_error func
  | ETHREAD => raise_ethread_error func
  | INVSOCK => raise_invsock_error func
  | INVPATH => raise_invpath_error func
  end.
End texts.

(** [tryexec(call)]. *)
Definition tryexec_call (m : M unit) : M unit :=
  st ← status_of m;
  tryexec st.

(** ** Specification *)

(** The name and the text of a status. *)
Definition error_text (st : status_t) : string * string :=
  match st with
  | SUCCESS => (EmptyString, EmptyString)
  | FAILURE => ("FAILURE"%string, "process failed"%string)
  | TIMEOUT => ("TIMEOUT"%string, "process timed out"%string)
  | LOWSIZE => ("LOWSIZE"%string, "process received size that is lower than expected"%string)
  | EXPTRY0 => ("EXPTRY0"%string, "try count reached zero"%string)
  | EXPTRY1 => ("EXPTRY1"%string, "try count reached zero"%string)
  | ZEROACK => ("ZEROACK"%string, "process received RECV-NACK"%string)
  | ZEROSEQ => ("ZEROSEQ"%string, "transfer function received sequence = 0"%string)
  | FAILSET => ("FAILSET"%string, "process failed to set socket option"%string)
  | FAILCRC => ("FAILCRC"%string, "file crc does not match"%string)
  | FAILLOG => ("FAILLOG"%string, "init_logd() failed"%string)
  | BADCONF => ("BADCONF"%string, "bad config to initiate the process"%string)
  | BADFLOW => ("BADFLOW"%string, "process received bad flow packet"%string)
  | BADARGS => ("BADARGS"%string, "process received bad argument"%string)
  | BADINET => ("BADINET"%string, "process received invalid address family"%string)
  | BADTYPE => ("BADTYPE"%string, "process received invalid header type"%string)
  | BADIPV4 => ("BADIPV4"%string, "process received invalid ipv4 address format"%string)
  | BADPORT => ("BADPORT"%string, "process received invalid port number"%string)
  | NOMFILE => ("NOMFILE"%string, "invalid mfile"%string)
  | NOFSTAT => ("NOFSTAT"%string, "fstat() function failed"%string)
  | NOAVAIL => ("NOAVAIL"%string, "there is no enough space on disk"%string)
  | NOCREAT => ("NOCREAT"%string, "process can not create file"%string)
  | NOTRUNC => ("NOTRUNC"%string, "ftruncate() function failed"%string)
  | NOCLOSE => ("NOCLOSE"%string, "fclose() function failed"%string)
  | ERRBIND => ("ERRBIND"%string, "bind() function failed"%string)
  | ERRCONN => ("ERRCONN"%string, "connect() function failed"%string)
  | ERRRECV => ("ERRRECV"%string, "recv() function failed"%string)
  | ERRSEND => ("ERRSEND"%string, "send() function failed"%string)
  | ERRLSTN => ("ERRLSTN"%string, "listen() function failed"%string)
  | ERRPOLL => ("ERRPOLL"%string, "poll() function failed"%string)
  | ERRTIME => ("ERRTIME"%string, "time() function failed"%string)
  | EMFSEEK => ("EMFSEEK"%string, "mfseek() function failed"%string)
  | EMFSYNC => ("EMFSYNC"%string, "mfsync() function failed"%string)
  | EMALLOC => ("EMALLOC"%string, "malloc() function failed"%string)
  | ETHREAD => ("ETHREAD"%string, "pthread's function failed"%string)
  | INVSOCK => ("INVSOCK"%string, "invalid socket fd"%string)
  | INVPATH => ("INVPATH"%string, "invalid file path"%string)
  end.

(** What the library prints of a status before it ends the process. *)
Definition report (st : status_t) : obs := Obs (PrintError (error_text st).1 (error_text st).2 "tryexec") tt.

(** [tryexec] implements the table: on each status its own function, and every one
    of them ends the process. *)
Lemma tryexec_reports st :
  tryexec st = if decide (st = SUCCESS) then mret tt
    else raise (error_text st).1 (error_text st).2 "tryexec".
Proof. by destruct st. Qed.

Lemma tryexec_fails (Q : outcome unit -> pstate -> Prop) st s :
  st <> SUCCESS -> Q (Exited EXIT_FAILURE) (after_calls [report st] s) -> wp posix Q (tryexec st) s.
Proof.
  intros Hst HQ. rewrite tryexec_reports, decide_False by done. unfold raise, after_calls, report in *. wp_go.
  match goal with r : unit |- _ => by destruct r end.
Qed.

(** A status can be told from its report: [EXPTRY0] and [EXPTRY1] have one text, and
    different names. *)
Lemma report_inj st st' : report st = report st' -> st = st'.
Proof. intros [= Hn]. destruct st, st'; (reflexivity || discriminate Hn). Qed.
