(* ===== verification/Logd.v ===== *)
(** * The log ring (source/logging/logd.c, include/logging/logd.h)

    The logger writes fixed-size records into a file mapped in memory and starts
    over at its beginning when it is full.  [logc] is the state of the module.  The
    broken-down time [localtime] gives and the text [vsnprintf] formats are
    arguments. *)
From S2P Require Import Prelude Protocol Types Sys Utils.

Definition LEVELSIZE : Z := 6.
Definition DATESIZE : Z := 11.
Definition CLOCKSIZE : Z := 9.
Definition MODSIZE : Z := 32.
Definition POSSIZE : Z := 32.
Definition MSGSIZE : Z := 512.
Definition LOGFILE_NAMESIZE : Z := 32.

Record LogMsg := {
  lm_level : list Z;
  lm_date : list Z;
  lm_clock : list Z;
  lm_mod : list Z;
  lm_pos : list Z;
  lm_msg : list Z
}.

Definition sizeof_LogMsg : Z := LEVELSIZE + DATESIZE + CLOCKSIZE + MODSIZE + POSSIZE + MSGSIZE.

(** The bytes of the struct: [char] arrays only, so no padding. *)
Definition LogMsg_mem (m : LogMsg) : list Z :=
  lm_level m ++ lm_date m ++ lm_clock m ++ lm_mod m ++ lm_pos m ++ lm_msg m.

Record LogContext := {
  lc_logfile : option Z;
  lc_buffer : option mapping;
  lc_pos : Z;
  lc_size : Z;
  lc_logcount : Z
}.

Definition set_lc_logfile (f : option Z) (c : LogContext) : LogContext :=
  {| lc_logfile := f; lc_buffer := lc_buffer c; lc_pos := lc_pos c;
     lc_size := lc_size c; lc_logcount := lc_logcount c |}.
Definition set_lc_size (n : Z) (c : LogContext) : LogContext :=
  {| lc_logfile := lc_logfile c; lc_buffer := lc_buffer c; lc_pos := lc_pos c;
     lc_size := n; lc_logcount := lc_logcount c |}.

Definition count_log (c : LogContext) : LogContext :=
  {| lc_logfile := lc_logfile c; lc_buffer := lc_buffer c; lc_pos := lc_pos c;
     lc_size := lc_size c; lc_logcount := size_t (lc_logcount c + 1) |}.

(** The name [snprintf] appends to the directory. *)
Definition logfile_name (logtime : Z) : list Z :=
  lit "logfile_" ++ dec (u32 logtime) ++ lit ".log".

(** The status and the module state. *)
Definition create_logfile (path : list Z) (logc : LogContext) : M (Z * LogContext) :=
  pathlen ← defined (strlen path);
  logfile_path ← sys (Malloc (pathlen + LOGFILE_NAMESIZE + 1));
  logtime ← sys Time;
  if (logtime =? -1) || negb logfile_path then mret (-1, logc) else
  copy ← defined (sstrncpy (zeros (pathlen + LOGFILE_NAMESIZE + 1)) path (pathlen + 1));
  full ← defined (mem_write copy pathlen (ztake (LOGFILE_NAMESIZE - 1) (logfile_name logtime) ++ [0]));
  logfile ← sys (Fopen (cstr full) "w+");
  let logc := set_lc_logfile logfile logc in
  match logfile with
  | None => sys Free;; mret (-1, logc)
  | Some file =>
      r ← sys (Ftruncate file (lc_size logc));
      if r =? -1 then sys (Fclose file);; sys Free;; mret (-1, logc)
      else sys Free;; mret (0, logc)
  end.

Definition map_logfile (logc : LogContext) : M (Z * LogContext) :=
  file ← defined (lc_logfile logc);
  buffer ← sys (Mmap (lc_size logc) (Z.lor PROT_WRITE PROT_READ) MAP_SHARED file);
  match buffer with
  | None =>
      sys (Fclose file);;
      mret (-1, {| lc_logfile := Some file; lc_buffer := None; lc_pos := lc_pos logc;
                   lc_size := lc_size logc; lc_logcount := lc_logcount logc |})
  | Some b =>
      mret (0, {| lc_logfile := Some file; lc_buffer := Some b; lc_pos := 0;
                  lc_size := lc_size logc; lc_logcount := 0 |})
  end.

Definition init_logd (path : list Z) (count : Z) (logc : LogContext) : M (Z * LogContext) :=
  let logc := set_lc_size (size_t (count * sizeof_LogMsg)) logc in
  '(r, logc) ← create_logfile path logc;
  if r =? -1 then mret (-1, logc) else
  '(r, logc) ← map_logfile logc;
  if r =? -1 then mret (-1, logc) else
  mret (0, logc).

Definition deinit_logd (logc : LogContext) : M Z :=
  file ← defined (lc_logfile logc);
  r1 ← sys (Fclose file);
  b ← defined (lc_buffer logc);
  r2 ← sys (Munmap b (lc_size logc));
  mret (if r1 + r2 =? 0 then 0 else -1).

(** [append_log]: the state after it and whether it synchronised the file; [None]
    is a copy outside the mapping. *)
Definition append_log (log : list Z) (logc : LogContext) : option (LogContext * bool) :=
  let full := lc_pos logc =? lc_size logc in
  let pos := if full then 0 else lc_pos logc in
  b ← lc_buffer logc;
  content ← mem_write (map_bytes b) pos log;
  Some ({| lc_logfile := lc_logfile logc;
           lc_buffer := Some {| map_addr := map_addr b; map_bytes := content |};
           lc_pos := size_t (pos + sizeof_LogMsg);
           lc_size := lc_size logc; lc_logcount := lc_logcount logc |}, full).

(** The broken-down time, as far as the logger prints it. *)
Record tm := { tm_sec : Z; tm_min : Z; tm_hour : Z; tm_mday : Z; tm_mon : Z; tm_year : Z }.

(** [%d], [%m], [%H], [%M] and [%S]: two digits.  [%Y]: the year as a number. *)
Definition two_digits (z : Z) : list Z := [48 + z / 10 mod 10; 48 + z mod 10].
Definition full_year (year : Z) : list Z :=
  if year + 1900 <? 0 then lit "-" ++ dec (- (year + 1900)) else dec (year + 1900).
Definition log_date (t : tm) : list Z :=
  full_year (tm_year t) ++ lit "-" ++ two_digits (tm_mon t + 1) ++ lit "-" ++ two_digits (tm_mday t).
Definition log_clock (t : tm) : list Z :=
  two_digits (tm_hour t) ++ lit ":" ++ two_digits (tm_min t) ++ lit ":" ++ two_digits (tm_sec t).

(** [strftime] writes a text that fits with its terminator; else what the array
    holds is unspecified, as it was in the local variable before. *)
Definition strftime (s : list Z) (max : Z) (text : list Z) : option (list Z) :=
  if len text <? max then mem_write s 0 (text ++ [0]) else Some s.

(** [ltime]: what [localtime] gives; [text]: the formatted message; [stack]: what the
    local variable holds before the call. *)
Definition logging (level mod_ pos text : list Z) (ltime : option tm)
    (stack : LogMsg) (logc : LogContext) : option (LogContext * bool) :=
  match ltime with
  | None => Some (logc, false)
  | Some ltime =>
      level ← sstrncpy (lm_level stack) level LEVELSIZE;
      date ← strftime (lm_date stack) DATESIZE (log_date ltime);
      clock ← strftime (lm_clock stack) CLOCKSIZE (log_clock ltime);
      mod_ ← sstrncpy (lm_mod stack) mod_ MODSIZE;
      pos ← sstrncpy (lm_pos stack) pos POSSIZE;
      msg ← sstrncpy (lm_msg stack) (ztake (MSGSIZE - 1) text ++ [0]) MSGSIZE;
      let logmsg := {| lm_level := level; lm_date := date; lm_clock := clock;
                       lm_mod := mod_; lm_pos := pos; lm_msg := msg |} in
      append_log (LogMsg_mem logmsg) (count_log logc)
  end.

(** Calls of [logging] that follow one another. *)
Record log_call := {
  lg_level : list Z; lg_mod : list Z; lg_pos : list Z; lg_text : list Z;
  lg_time : option tm; lg_stack : LogMsg
}.

Fixpoint log_all (calls : list log_call) (logc : LogContext) : option LogContext :=
  match calls with
  | [] => Some logc
  | g :: calls =>
      '(logc, _) ← logging (lg_level g) (lg_mod g) (lg_pos g) (lg_text g) (lg_time g) (lg_stack g) logc;
      log_all calls logc
  end.

(** A sequence of records appended. *)
Fixpoint append_all (logs : list (list Z)) (logc : LogContext) : option LogContext :=
  match logs with
  | [] => Some logc
  | l :: logs => '(logc, _) ← append_log l logc; append_all logs logc
  end.

(** ** What the ring promises

    With room for [count] records, after [logs] the record [i] lies in slot
    [i mod count] for the last [count] of them. *)
Definition ring_holds (count : Z) (logs : list (list Z)) (content : list Z) : Prop :=
  forall i l, logs !! i = Some l -> Z.of_nat (length logs) <= Z.of_nat i + count ->
    mem_read content (sizeof_LogMsg * (Z.of_nat i mod count)) sizeof_LogMsg = Some l.

Record ring_inv (count : Z) (logs : list (list Z)) (c : LogContext) : Prop := {
  ri_size : lc_size c = count * sizeof_LogMsg;
  ri_buffer : exists b, lc_buffer c = Some b /\ len (map_bytes b) = lc_size c /\
                ring_holds count logs (map_bytes b);
  ri_pos : lc_pos c = 0 /\ logs = [] \/
           lc_pos c = sizeof_LogMsg * ((Z.of_nat (length logs) - 1) mod count + 1) /\ logs <> []
}.

Lemma mod_succ n k :
  0 < k -> (n + 1) mod k = if n mod k + 1 =? k then 0 else n mod k + 1.
Proof.
  intros Hk. pose proof (Z.div_mod n k ltac:(lia)). pose proof (Z.mod_pos_bound n k Hk).
  destruct (Z.eqb_spec (n mod k + 1) k) as [E|E].
  - symmetry. apply (Z.mod_unique_pos _ _ (n / k + 1)); nia.
  - symmetry. apply (Z.mod_unique_pos _ _ (n / k)); lia.
Qed.

Lemma mod_distinct i n k : 0 < k -> i < n < i + k -> i mod k <> n mod k.
Proof.
  intros Hk Hin E. pose proof (Z.div_mod n k ltac:(lia)). pose proof (Z.div_mod i k ltac:(lia)).
  rewrite <- E in *. assert (k * (n / k - i / k) = n - i) by lia.
  assert (0 < n / k - i / k < 1) by nia. lia.
Qed.

(** Where the next record goes: the next slot, or the first one after the last. *)
Lemma next_slot count logs c :
  0 < count -> ring_inv count logs c ->
  (if lc_pos c =? lc_size c then 0 else lc_pos c)
  = sizeof_LogMsg * (Z.of_nat (length logs) mod count).
Proof.
  intros Hc [Hs _ Hp]. rewrite Hs. unfold sizeof_LogMsg, LEVELSIZE, DATESIZE, CLOCKSIZE,
    MODSIZE, POSSIZE, MSGSIZE in *.
  destruct Hp as [[-> ->]|[-> Hne]].
  - cbn [length]. rewrite Z.mod_0_l by lia. by destruct (Z.eqb_spec 0 (count * (6 + 11 + 9 + 32 + 32 + 512))).
  - replace (Z.of_nat (length logs)) with (Z.of_nat (length logs) - 1 + 1) at 3 by lia.
    rewrite mod_succ by done. set (r := (Z.of_nat (length logs) - 1) mod count).
    destruct (Z.eqb_spec (r + 1) count), (Z.eqb_spec ((6 + 11 + 9 + 32 + 32 + 512) * (r + 1))
      (count * (6 + 11 + 9 + 32 + 32 + 512))); lia.
Qed.

Lemma append_log_inv count logs c l :
  0 < count -> count * sizeof_LogMsg < 2 ^ 63 -> ring_inv count logs c -> len l = sizeof_LogMsg ->
  exists c', append_log l c = Some (c', lc_pos c =? lc_size c) /\ ring_inv count (logs ++ [l]) c'.
Proof.
  intros Hc Hov Hinv Hl. pose proof (next_slot _ _ _ Hc Hinv) as Hslot.
  destruct Hinv as [Hs (b & Hb & Hlb & Hr) _].
  unfold append_log. rewrite Hslot, Hb. cbn [mbind option_bind].
  pose proof (Z.mod_pos_bound (Z.of_nat (length logs)) count Hc) as Hm.
  set (m := Z.of_nat (length logs) mod count) in *.
  assert (Hfit : sizeof_LogMsg * m + sizeof_LogMsg <= count * sizeof_LogMsg)
    by (change sizeof_LogMsg with 602; lia).
  change sizeof_LogMsg with 602 in *.
  destruct (mem_write (map_bytes b) (602 * m) l) as [content|] eqn:Hw;
    [|rewrite mem_write_spec in Hw by lia; done].
  cbn [mbind option_bind]. eexists; split; [done|]. constructor; cbn; [done| |].
  - eexists; split; [done|]. cbn. split; [rewrite (mem_write_len _ _ _ _ Hw); lia|].
    intros i l' Hi Hrecent. rewrite length_app in Hrecent. cbn [length] in Hrecent.
    apply lookup_app_Some in Hi. destruct Hi as [Hi|[Hge Hi]].
    + pose proof (lookup_lt_Some _ _ _ Hi). rewrite (mem_read_write_ne _ _ _ _ _ _ Hw).
      * apply Hr; [done|lia].
      * pose proof (mod_distinct (Z.of_nat i) (Z.of_nat (length logs)) count Hc ltac:(lia)).
        change sizeof_LogMsg with 602. fold m in H. lia.
    + apply list_lookup_singleton_Some in Hi as [Hz <-].
      replace (Z.of_nat i) with (Z.of_nat (length logs)) by lia. fold m.
      change sizeof_LogMsg with 602. rewrite <- Hl at 2. eapply mem_read_write, Hw.
  - right. split; [|by destruct logs]. rewrite length_app. cbn [length]. unfold wrap.
    replace (Z.of_nat (length logs + 1) - 1) with (Z.of_nat (length logs)) by lia.
    fold m. change sizeof_LogMsg with 602. rewrite Z.mod_small; lia.
Qed.

(** ** What a call logs *)

(** A time [localtime] gives, before the year 10000. *)
Record tm_ok (t : tm) : Prop := {
  tm_sec_ok : 0 <= tm_sec t <= 60;
  tm_min_ok : 0 <= tm_min t <= 59;
  tm_hour_ok : 0 <= tm_hour t <= 23;
  tm_mday_ok : 1 <= tm_mday t <= 31;
  tm_mon_ok : 0 <= tm_mon t <= 11;
  tm_year_ok : 0 <= tm_year t + 1900 < 10000
}.

Record log_call_ok (g : log_call) : Prop := {
  lg_level_ok : strlen (lg_level g) <> None;
  lg_mod_ok : strlen (lg_mod g) <> None;
  lg_pos_ok : strlen (lg_pos g) <> None;
  lg_text_ok : no_nul (lg_text g);
  lg_time_ok : forall t, lg_time g = Some t -> tm_ok t;
  lg_stack_ok : len (lm_level (lg_stack g)) = LEVELSIZE /\ len (lm_date (lg_stack g)) = DATESIZE /\
    len (lm_clock (lg_stack g)) = CLOCKSIZE /\ len (lm_mod (lg_stack g)) = MODSIZE /\
    len (lm_pos (lg_stack g)) = POSSIZE /\ len (lm_msg (lg_stack g)) = MSGSIZE
}.

(** The bytes of the record of a call: every text is cut to its field, and the date
    and the clock are whole. *)
Definition records (g : log_call) (log : list Z) : Prop :=
  len log = sizeof_LogMsg /\
  exists t m, lg_time g = Some t /\ log = LogMsg_mem m /\
    cstr (lm_level m) = ztake (LEVELSIZE - 1) (cstr (lg_level g)) /\
    cstr (lm_date m) = log_date t /\ cstr (lm_clock m) = log_clock t /\
    cstr (lm_mod m) = ztake (MODSIZE - 1) (cstr (lg_mod g)) /\
    cstr (lm_pos m) = ztake (POSSIZE - 1) (cstr (lg_pos g)) /\
    cstr (lm_msg m) = ztake (MSGSIZE - 1) (lg_text g).

Lemma two_digits_no_nul z : 0 <= z -> no_nul (two_digits z).
Proof. intros Hz. repeat constructor; [pose proof (Z.mod_pos_bound (z / 10) 10)|pose proof (Z.mod_pos_bound z 10)]; lia. Qed.

Lemma strftime_ok s max text :
  len s = max -> len text < max -> no_nul text ->
  exists s', strftime s max text = Some s' /\ len s' = max /\ cstr s' = text.
Proof.
  intros Hs Ht Hn. pose proof (len_nonneg text).
  assert (Hl : len (text ++ [0]) = len text + 1) by by rewrite len_app. unfold strftime. destruct (Z.ltb_spec (len text) max); [|lia].
  destruct (mem_write s 0 (text ++ [0])) as [s'|] eqn:Hw; [|rewrite mem_write_spec in Hw; [done|lia|lia]].
  exists s'. split; [done|]. split; [by rewrite (mem_write_len _ _ _ _ Hw)|].
  rewrite mem_write_spec in Hw by lia. injection Hw as <-. rewrite <- app_assoc. by apply cstr_no_nul.
Qed.

Lemma log_date_fits t : tm_ok t -> len (log_date t) < DATESIZE /\ no_nul (log_date t).
Proof.
  intros []. unfold log_date, full_year, DATESIZE. destruct (Z.ltb_spec (tm_year t + 1900) 0); [lia|].
  assert (Hy : len (dec (tm_year t + 1900)) <= 4) by (apply (dec_len 3); change (10 ^ Z.of_nat 4) with 10000; lia).
  split; [rewrite !len_app; change (len (two_digits ?z)) with 2; change (len (lit "-")) with 1; lia|].
  unfold no_nul. rewrite !Forall_app. split_and!; try (by apply two_digits_no_nul; lia); [by apply dec_no_nul|by repeat constructor..].
Qed.

Lemma log_clock_fits t : tm_ok t -> len (log_clock t) < CLOCKSIZE /\ no_nul (log_clock t).
Proof.
  intros []. split; [done|]. unfold no_nul, log_clock. rewrite !Forall_app.
  split_and!; try (by apply two_digits_no_nul; lia); by repeat constructor.
Qed.

(** A call of [logging] appends one record, or nothing when there is no time. *)
Lemma logging_ok g c :
  log_call_ok g ->
  (lg_time g = None /\
   logging (lg_level g) (lg_mod g) (lg_pos g) (lg_text g) (lg_time g) (lg_stack g) c = Some (c, false)) \/
  exists log, records g log /\
    logging (lg_level g) (lg_mod g) (lg_pos g) (lg_text g) (lg_time g) (lg_stack g) c = append_log log (count_log c).
Proof.
  intros [Hl Hm Hp Ht Htm (S1 & S2 & S3 & S4 & S5 & S6)]. unfold logging.
  destruct (lg_time g) as [t|] eqn:Et; [right|by left].
  destruct (log_date_fits t (Htm _ eq_refl)) as [D1 D2]. destruct (log_clock_fits t (Htm _ eq_refl)) as [C1 C2].
  assert (Hcut : no_nul (ztake (MSGSIZE - 1) (lg_text g))) by by apply Forall_take.
  unfold LEVELSIZE, MODSIZE, POSSIZE, MSGSIZE in *.
  destruct (sstrncpy_ok (lm_level (lg_stack g)) (lg_level g) 6) as (v1 & -> & L1 & R1 & _); [lia|lia|by left|].
  destruct (strftime_ok (lm_date (lg_stack g)) DATESIZE (log_date t)) as (v2 & -> & L2 & R2); [done..|].
  destruct (strftime_ok (lm_clock (lg_stack g)) CLOCKSIZE (log_clock t)) as (v3 & -> & L3 & R3); [done..|].
  destruct (sstrncpy_ok (lm_mod (lg_stack g)) (lg_mod g) 32) as (v4 & -> & L4 & R4 & _); [lia|lia|by left|].
  destruct (sstrncpy_ok (lm_pos (lg_stack g)) (lg_pos g) 32) as (v5 & -> & L5 & R5 & _); [lia|lia|by left|].
  destruct (sstrncpy_ok (lm_msg (lg_stack g)) (ztake (512 - 1) (lg_text g) ++ [0]) 512) as (v6 & -> & L6 & R6 & _);
    [lia|lia|left; by rewrite strlen_app_nul|].
  cbn [mbind option_bind]. eexists; split; [|reflexivity]. split.
  - unfold LogMsg_mem. cbn [lm_level lm_date lm_clock lm_mod lm_pos lm_msg].
    rewrite !len_app, L1, L2, L3, L4, L5, L6, S1, S4, S5, S6. reflexivity.
  - eexists t, _. split_and!; [done|reflexivity|done..|]. cbn [lm_msg].
    rewrite R6, cstr_no_nul by done. unfold ztake. rewrite take_take. f_equal.
Qed.

(** The size the mapping is asked for wraps: a record count whose byte size
    exceeds [size_t] initialises the logger with a smaller file, which the first
    record already overflows. *)
Lemma init_logd_size_wraps :
  exists count, 0 < count < 2 ^ 64 /\ 0 < size_t (count * sizeof_LogMsg) < sizeof_LogMsg /\
    forall l c b, lc_size c = size_t (count * sizeof_LogMsg) -> lc_pos c = 0 ->
      lc_buffer c = Some b -> len (map_bytes b) = lc_size c -> len l = sizeof_LogMsg ->
      append_log l c = None.
Proof.
  exists (2 ^ 64 / 602 + 1). split; [done|]. split; [done|].
  intros l c b Hs Hp Hb Hlb Hl. unfold append_log. rewrite Hp, Hb. cbn [mbind option_bind].
  replace (if 0 =? lc_size c then 0 else 0) with 0 by by destruct (0 =? lc_size c).
  unfold mem_write. rewrite bool_decide_false; [done|]. rewrite Hl, Hlb, Hs. by intros [_ ?].
Qed.

Lemma ring_inv_count count logs c : ring_inv count logs c -> ring_inv count logs (count_log c).
Proof. by intros []. Qed.

(** Records that follow those there are. *)
Lemma log_all_ring count before calls c :
  0 < count -> count * sizeof_LogMsg < 2 ^ 63 -> ring_inv count before c -> Forall log_call_ok calls ->
  exists c' logs, log_all calls c = Some c' /\ ring_inv count (before ++ logs) c' /\
    Forall2 records (filter (fun g => is_Some (lg_time g)) calls) logs.
Proof.
  intros Hc Hov Hinv Hall. revert before c Hinv. induction Hall as [|g calls Hg _ IH]; intros before c Hinv; cbn [log_all].
  { exists c, []. by rewrite app_nil_r. }
  destruct (logging_ok g c Hg) as [(Hn & ->)|(log & Hr & ->)]; cbn [mbind option_bind].
  - rewrite filter_cons_False by (rewrite Hn; apply is_Some_None). by apply IH.
  - destruct (append_log_inv count before (count_log c) log) as (c1 & -> & Hinv1); [done|done|by apply ring_inv_count|apply Hr|].
    cbn [mbind option_bind]. destruct (IH _ _ Hinv1) as (c' & logs & Hl & Hi & Hf). rewrite <- app_assoc in Hi.
    exists c', (log :: logs). split; [done|]. split; [done|].
    pose proof Hr as (_ & t & m & Ht & _). rewrite filter_cons_True by (rewrite Ht; by eexists). by constructor.
Qed.

(** ** Opening the log *)

Lemma strlen_bound l n : strlen l = Some n -> 0 <= n < len l.
Proof.
  intros [-> [r Hl]]%strlen_Some. pose proof (len_nonneg (cstr l)). split; [lia|].
  rewrite Hl at 2. rewrite len_app, len_cons. pose proof (len_nonneg r). lia.
Qed.

(** The path of the log file fits in the memory allocated for it. *)
Lemma logfile_path_ok path pathlen logtime :
  strlen path = Some pathlen -> pathlen + 1 < 2 ^ 64 ->
  exists copy full, sstrncpy (zeros (pathlen + LOGFILE_NAMESIZE + 1)) path (pathlen + 1) = Some copy /\
    mem_write copy pathlen (ztake (LOGFILE_NAMESIZE - 1) (logfile_name logtime) ++ [0]) = Some full.
Proof.
  intros Hs Hl. pose proof (strlen_bound _ _ Hs) as Hb. unfold LOGFILE_NAMESIZE.
  destruct (sstrncpy_ok (zeros (pathlen + 32 + 1)) path (pathlen + 1)) as (copy & -> & Hlc & _);
    [rewrite len_zeros; lia|lia|left; by rewrite Hs|].
  exists copy. rewrite mem_write_spec; [by eexists|lia|].
  rewrite Hlc, len_app, len_zeros by lia. change (len [0]) with 1.
  pose proof (ztake_min (32 - 1) (logfile_name logtime)) as <-. pose proof (len_nonneg (logfile_name logtime)).
  rewrite len_ztake; lia.
Qed.

(** A log that was not opened leaves no stream open, and no memory but where there
    was no time. *)
Definition unopened (tr : list obs) : Prop :=
  tally file_delta tr = 0 /\ (tally heap_delta tr = 0 \/ (tally heap_delta tr = 1 /\ Obs Time (-1) ∈ tr)).

Ltac log_go := repeat first [wp_step|progress cbn beta iota|progress cbn [Z.eqb Pos.eqb]].

Lemma init_logd_ok path count logc s :
  strlen path <> None -> len path < 2 ^ 63 -> 0 < count -> count * sizeof_LogMsg < 2 ^ 63 ->
  wp posix (calls (fun o tr => exists r logc', o = Val (r, logc') /\
      ((r = -1 /\ unopened tr) \/
       (r = 0 /\ tally file_delta tr = 1 /\ tally heap_delta tr = 0 /\ lc_logfile logc' <> None /\ lc_logcount logc' = 0 /\
        ring_inv count [] logc'))) s) (init_logd path count logc) s.
Proof.
  intros Hp Hlp Hc Hov. destruct (strlen path) as [pathlen|] eqn:Hs; [|done]. pose proof (strlen_bound _ _ Hs) as Hb.
  assert (Hsize : size_t (count * sizeof_LogMsg) = count * sizeof_LogMsg)
    by (unfold wrap; apply Z.mod_small; change sizeof_LogMsg with 602 in *; lia).
  unfold init_logd, create_logfile. rewrite Hsize, Hs. log_go. rename r into got, r0 into logtime.
  destruct (Z.eqb_spec logtime (-1)) as [->|]; cbn [orb].
  { log_go; calls_go. eexists _, _. split; [done|]. left. split; [done|]. split; [by destruct got|].
    destruct got; [right; split; [done|in_list]|by left]. }
  destruct got; cbn [negb]; [|log_go; calls_go; eexists _, _; split; [done|]; left; split; [done|]; split; [done|by left]].
  destruct (logfile_path_ok path pathlen logtime Hs) as (copy & full & -> & Hw); [lia|]. log_go. rewrite Hw. log_go.
  destruct r as [file|]; log_go; [|calls_go; eexists _, _; split; [done|]; left; split; [done|]; split; [done|by left]].
  wp_case; log_go; [calls_go; eexists _, _; split; [done|]; left; split; [done|]; split; [done|by left]|].
  unfold map_logfile. cbn [lc_logfile set_lc_logfile lc_size set_lc_size]. log_go.
  destruct r1 as [b|]; log_go; calls_go; eexists _, _; (split; [done|]); [right|left; split; [done|]; split; [done|by left]].
  split_and!; try done. constructor; [done| |by left]. exists b. split_and!; [done|tauto|by intros i l Hi].
Qed.

(** C38: the logger is a ring: [init_logd] maps a file with room for [count] records,
    if their size fits, or fails and leaves no file open; and once it has succeeded,
    any sequence of calls of [logging] is written within the mapping; each call for
    which there is a time gives one record, with its texts cut to their fields, the
    date as year-month-day and the clock; and the record [i] lies in slot
    [i mod count] for the last [count] of them. *)
Theorem logging_ring path count calls logc s :
  strlen path <> None -> len path < 2 ^ 63 -> 0 < count -> count * sizeof_LogMsg < 2 ^ 63 -> Forall log_call_ok calls ->
  wp posix (Sys.calls (fun o tr => exists r logc', o = Val (r, logc') /\
      ((r = -1 /\ unopened tr) \/
       (r = 0 /\ tally file_delta tr = 1 /\ tally heap_delta tr = 0 /\
        exists c' logs, log_all calls logc' = Some c' /\ ring_inv count logs c' /\
          Forall2 records (filter (fun g => is_Some (lg_time g)) calls) logs))) s) (init_logd path count logc) s.
Proof.
  intros Hp Hl Hc Hov Hall. eapply wp_calls; [by apply init_logd_ok|]. intros o tr (r & logc' & -> & Ho).
  calls_go. exists r, logc'. split; [done|]. destruct Ho as [Ho|(-> & Hf & Hh & _ & _ & Hinv)]; [by left|right].
  split_and!; try done. by apply (log_all_ring count []).
Qed.
