(* ===== verification/Lograce.v ===== *)
(** * Threads that log at the same time

    [pull_file] starts a thread that broadcasts while it receives, and both log
    (the makefile defines [LOG_TRACE]); nothing keeps [append_log] in one thread
    from running between the steps of [append_log] in the other.  Here the macro is
    cut where it reads or writes [logc], and any number of threads take those steps
    in any order over the one [logc].  Each step is taken to be atomic, which is
    more than C gives: what goes wrong here goes wrong in spite of it. *)
From S2P Require Import Prelude Protocol Types Sys Utils Logd.

(** What a thread is about to do: compare [logc.pos] with [logc.size], synchronise
    the file, set [logc.pos] to zero, copy the record, advance [logc.pos]. *)
Inductive stage := Testing | Syncing | Rewinding | Copying | Advancing | Finished.

Definition set_lc_pos (n : Z) (c : LogContext) : LogContext :=
  {| lc_logfile := lc_logfile c; lc_buffer := lc_buffer c; lc_pos := n;
     lc_size := lc_size c; lc_logcount := lc_logcount c |}.

(** One step of [append_log]; [None] is a copy outside the mapping. *)
Definition append_step (log : list Z) (st : stage) (logc : LogContext) : option (stage * LogContext) :=
  match st with
  | Testing => Some (if lc_pos logc =? lc_size logc then Syncing else Copying, logc)
  | Syncing => Some (Rewinding, logc)
  | Rewinding => Some (Copying, set_lc_pos 0 logc)
  | Copying =>
      b ← lc_buffer logc;
      content ← mem_write (map_bytes b) (lc_pos logc) log;
      Some (Advancing,
        {| lc_logfile := lc_logfile logc;
           lc_buffer := Some {| map_addr := map_addr b; map_bytes := content |};
           lc_pos := lc_pos logc; lc_size := lc_size logc; lc_logcount := lc_logcount logc |})
  | Advancing => Some (Finished, set_lc_pos (size_t (lc_pos logc + sizeof_LogMsg)) logc)
  | Finished => Some (Finished, logc)
  end.

(** Each thread has its record and where it stands; a schedule names the thread that
    moves next. *)
Abbreviation appenders := (list (list Z * stage)).

Definition append_move (i : nat) (ts : appenders) (logc : LogContext) : option (appenders * LogContext) :=
  match ts !! i with
  | Some (log, st) => '(st', logc') ← append_step log st logc; Some (<[i := (log, st')]> ts, logc')
  | None => Some (ts, logc)
  end.

Fixpoint run_schedule (schedule : list nat) (ts : appenders) (logc : LogContext) : option (appenders * LogContext) :=
  match schedule with
  | [] => Some (ts, logc)
  | i :: schedule => '(ts, logc) ← append_move i ts logc; run_schedule schedule ts logc
  end.

(** All of them at the beginning of the macro. *)
Definition about_to_log (logs : list (list Z)) : appenders := (fun log => (log, Testing)) <$> logs.

(** The slots ahead of the position: all of them when the file is full. *)
Definition slots_ahead (logc : LogContext) : Z :=
  (if lc_pos logc =? lc_size logc then lc_size logc else lc_size logc - lc_pos logc) / sizeof_LogMsg.

Lemma run_schedule_app s1 s2 ts c :
  run_schedule (s1 ++ s2) ts c = '(ts, c) ← run_schedule s1 ts c; run_schedule s2 ts c.
Proof.
  revert ts c; induction s1 as [|i s1 IH]; intros ts c; [done|]. cbn [app run_schedule].
  destruct (append_move i ts c) as [[ts1 c1]|]; [|done]. apply IH.
Qed.

(** A thread moves. *)
Lemma run_schedule_move i s ts c log st :
  ts !! i = Some (log, st) ->
  run_schedule (i :: s) ts c = '(st', c') ← append_step log st c; run_schedule s (<[i := (log, st')]> ts) c'.
Proof.
  intros Hi. cbn [run_schedule]. unfold append_move. rewrite Hi. by destruct (append_step log st c) as [[st' c']|].
Qed.

(** ** One thread at a time

    The steps are those of [append_log]: a thread that is not interrupted does what
    the macro does, and threads that wait for one another do what [append_all]
    does. *)
Ltac moves_go := repeat first
  [ erewrite run_schedule_move by (first [eassumption | by (apply list_lookup_insert_eq; rewrite ?length_insert)])
  | progress cbn [append_step mbind option_bind set_lc_pos lc_buffer lc_pos lc_size lc_logfile lc_logcount] ].

Lemma append_steps log c i ts :
  ts !! i = Some (log, Testing) ->
  run_schedule (replicate 5 i) ts c = (fun r => (<[i := (log, Finished)]> ts, fst r)) <$> append_log log c.
Proof.
  intros Hi. pose proof (lookup_lt_Some _ _ _ Hi) as Hlt.
  cbn [replicate]. unfold append_log. destruct c as [f buf p sz n].
  moves_go. destruct (p =? sz) eqn:E; moves_go.
  all: destruct buf as [b|]; moves_go; [|done].
  all: match goal with |- context [mem_write ?a ?b ?c] => destruct (mem_write a b c) eqn:Ew end; moves_go; [|done].
  all: cbn [run_schedule fmap option_fmap option_map fst]; by rewrite !list_insert_insert_eq.
Qed.

Definition logged_all (logs : list (list Z)) : appenders := (fun log => (log, Finished)) <$> logs.
Definition in_turn (first count : nat) : list nat := concat (replicate 5 <$> seq first count).

Lemma one_at_a_time logs c :
  run_schedule (in_turn 0 (length logs)) (about_to_log logs) c
  = (fun c' => (logged_all logs, c')) <$> append_all logs c.
Proof.
  change (about_to_log logs) with (logged_all [] ++ about_to_log logs).
  change (logged_all logs) with (logged_all ([] ++ logs)). change O with (length (@nil (list Z))) at 1.
  generalize (@nil (list Z)) as before. revert c. induction logs as [|l logs IH]; intros c before.
  - cbn. by rewrite !app_nil_r.
  - unfold in_turn. cbn [length seq fmap list_fmap concat append_all]. rewrite run_schedule_app.
    change (about_to_log (l :: logs)) with ((l, Testing) :: about_to_log logs).
    assert (Hl : length (logged_all before) = length before) by apply length_fmap.
    rewrite append_steps with (log := l) by (apply list_lookup_middle; by rewrite Hl).
    destruct (append_log l c) as [[c1 full]|]; [|done]. cbn [fmap option_fmap option_map mbind option_bind fst].
    rewrite <- Hl, insert_app_r_alt, Nat.sub_diag, Hl by lia. cbn [insert list_insert].
    replace (logged_all before ++ (l, Finished) :: about_to_log logs)
      with (logged_all (before ++ [l]) ++ about_to_log logs)
      by (unfold logged_all; rewrite fmap_app, <- app_assoc; done).
    replace (S (length before)) with (length (before ++ [l])) by (rewrite length_app; cbn; lia).
    etransitivity; [apply IH|]. by rewrite <- app_assoc.
Qed.

(** ** Within the file

    What the unfinished threads still have to write, in bytes. *)
Definition due (st : stage) : Z := if st is Finished then 0 else sizeof_LogMsg.
Fixpoint pending (ts : appenders) : Z := match ts with [] => 0 | t :: ts => due t.2 + pending ts end.

(** A thread that has not passed the point where it starts the file over. *)
Definition is_early (st : stage) : bool := match st with Testing | Syncing | Rewinding => true | _ => false end.
Definition early (t : list Z * stage) : Prop := is_early t.2 = true.

Lemma pending_insert ts i log st st' :
  ts !! i = Some (log, st) -> pending (<[i := (log, st')]> ts) = pending ts - due st + due st'.
Proof.
  revert i; induction ts as [|t ts IH]; intros [|i] Hi; simplify_eq/=; [lia|].  rewrite (IH i Hi). lia.
Qed.

Lemma due_bounds st : 0 <= due st <= sizeof_LogMsg.
Proof. change sizeof_LogMsg with 602. destruct st; cbn; change sizeof_LogMsg with 602; lia. Qed.

Lemma pending_lookup ts i log st : ts !! i = Some (log, st) -> due st <= pending ts.
Proof.
  assert (Hp : forall ts, 0 <= pending ts).
  { intros l; induction l as [|t l IH]; cbn; [lia|]. pose proof (due_bounds t.2). lia. }
  revert i; induction ts as [|t ts IH]; intros [|i] Hi; simplify_eq/=.
  - pose proof (Hp ts). lia.
  - pose proof (IH i Hi). pose proof (due_bounds t.2). lia.
Qed.

Lemma pending_most ts : pending ts <= sizeof_LogMsg * Z.of_nat (length ts).
Proof.
  induction ts as [|t ts IH]; [done|]. cbn [pending length]. pose proof (due_bounds t.2).
  change sizeof_LogMsg with 602 in *. lia.
Qed.

(** What every step keeps: what is still to be written fits behind the position, or
    the file is full, nobody has started it over, and it is large enough for all. *)
Record in_bounds (ts : appenders) (c : LogContext) : Prop := {
  ib_buffer : exists b, lc_buffer c = Some b /\ len (map_bytes b) = lc_size c;
  ib_size : lc_size c < 2 ^ 63;
  ib_logs : Forall (fun t => len t.1 = sizeof_LogMsg) ts;
  ib_pos : 0 <= lc_pos c;
  ib_room : lc_pos c + pending ts <= lc_size c \/
    (lc_pos c = lc_size c /\ Forall early ts /\ sizeof_LogMsg * Z.of_nat (length ts) <= lc_size c)
}.

Lemma append_move_in_bounds i ts c :
  in_bounds ts c -> exists ts' c', append_move i ts c = Some (ts', c') /\ in_bounds ts' c'.
Proof.
  intros Hin. pose proof Hin as [(b & Hb & Hlb) Hsz Hlogs Hpos Hroom]. unfold append_move.
  destruct (ts !! i) as [[log st]|] eqn:Hi; [|by exists ts, c].
  pose proof (pending_lookup ts i log st Hi) as Hdue.
  pose proof (Forall_lookup_1 _ _ _ _ Hlogs Hi) as Hlen. cbn in Hlen.
  assert (Hok : forall st' c1 b1, lc_buffer c1 = Some b1 -> len (map_bytes b1) = lc_size c -> lc_size c1 = lc_size c ->
    0 <= lc_pos c1 ->
    lc_pos c1 + (pending ts - due st + due st') <= lc_size c \/
    (lc_pos c1 = lc_size c /\ Forall early ts /\ is_early st' = true /\
     sizeof_LogMsg * Z.of_nat (length ts) <= lc_size c) ->
    exists ts' c', Some (<[i := (log, st')]> ts, c1) = Some (ts', c') /\ in_bounds ts' c').
  { intros st' c1 b1 Hb1 Hl1 Hs1 Hp1 Hr1. eexists _, _. split; [done|].
    constructor; rewrite ?Hs1, ?length_insert; [by exists b1|done|by apply Forall_insert|done|].
    rewrite (pending_insert ts i log st st' Hi). destruct Hr1 as [?|(? & ? & ? & ?)]; [by left|right].
    split_and!; [done|by apply Forall_insert|done]. }
  assert (Hst : Forall early ts -> is_early st = true) by (intros He; exact (Forall_lookup_1 _ _ _ _ He Hi)).
  pose proof (pending_most ts) as Hmost.
  destruct st; cbn [append_step mbind option_bind due] in *.
  - destruct (Z.eqb_spec (lc_pos c) (lc_size c)); (eapply Hok; [exact Hb|done..|]); change sizeof_LogMsg with 602 in *; cbn [due];
      change sizeof_LogMsg with 602 in *.
    + right. destruct Hroom as [?|(? & ? & ?)]; [lia|]. by split_and!.
    + left. destruct Hroom as [?|(? & ? & ?)]; lia.
  - eapply Hok; [exact Hb|done..|]. destruct Hroom as [?|(? & ? & ?)]; [left; cbn [due]; lia|right].
    by split_and!.
  - eapply Hok; [exact Hb|done..|]. left. cbn [set_lc_pos lc_pos due]. destruct Hroom as [?|(? & ? & ?)]; lia.
  - destruct Hroom as [Hroom|(_ & He & _)]; [|discriminate (Hst He)].
    rewrite Hb. cbn [mbind option_bind]. destruct (mem_write (map_bytes b) (lc_pos c) log) as [content|] eqn:Hw;
      [|rewrite mem_write_spec in Hw by lia; done].
    cbn [mbind option_bind]. eapply Hok; [reflexivity|cbn; by rewrite (mem_write_len _ _ _ _ Hw)|done|done|].
    left. cbn [lc_pos due]. lia.
  - destruct Hroom as [Hroom|(_ & He & _)]; [|discriminate (Hst He)].
    change sizeof_LogMsg with 602 in *. assert (Hw : size_t (lc_pos c + 602) = lc_pos c + 602) by (apply Z.mod_small; lia).
    eapply Hok; [exact Hb|done..| |]; cbn [set_lc_pos lc_pos due]; rewrite Hw; [lia|left; lia].
  - destruct Hroom as [Hroom|(_ & He & _)]; [|discriminate (Hst He)].
    eapply Hok; [exact Hb|done..|]. left. cbn [due]. lia.
Qed.

Lemma run_schedule_in_bounds schedule ts c : in_bounds ts c -> run_schedule schedule ts c <> None.
Proof.
  revert ts c; induction schedule as [|i schedule IH]; intros ts c Hin; [done|]. cbn [run_schedule].
  destruct (append_move_in_bounds i ts c Hin) as (ts' & c' & -> & Hin'). by apply IH.
Qed.

(** ** Past the file

    All the threads pass the comparison before the first of them moves the
    position. *)
Definition at_stage (st : stage) (logs : list (list Z)) : appenders := (fun log => (log, st)) <$> logs.

Lemma at_stage_middle st before logs log : (before ++ at_stage st (log :: logs)) !! length before = Some (log, st).
Proof. by apply list_lookup_middle. Qed.

Lemma insert_middle (before : appenders) x y ts : <[length before := x]> (before ++ y :: ts) = (before ++ [x]) ++ ts.
Proof. rewrite insert_app_r_alt, Nat.sub_diag by lia. cbn. by rewrite <- app_assoc. Qed.

(** A step that leaves [logc] as it is, taken by one thread after the other. *)
Lemma all_step st st' c before logs :
  (forall log, append_step log st c = Some (st', c)) ->
  run_schedule (seq (length before) (length logs)) (at_stage st' before ++ at_stage st logs) c
  = Some (at_stage st' (before ++ logs), c).
Proof.
  intros Hst. revert before; induction logs as [|l logs IH]; intros before; [cbn; by rewrite !app_nil_r|].
  assert (Hl : length (at_stage st' before) = length before) by apply length_fmap.
  cbn [length seq]. rewrite <- Hl at 1. erewrite run_schedule_move by apply at_stage_middle.
  rewrite Hst. cbn [mbind option_bind]. change (at_stage st (l :: logs)) with ((l, st) :: at_stage st logs).
  rewrite insert_middle. change [(l, st')] with (at_stage st' [l]). unfold at_stage at 1 2. rewrite <- fmap_app.
  replace (S (length before)) with (length (before ++ [l])) by (rewrite length_app; cbn; lia).
  etransitivity; [apply IH|]. by rewrite <- app_assoc.
Qed.

Lemma all_from_start st st' c logs :
  (forall log, append_step log st c = Some (st', c)) ->
  run_schedule (seq 0 (length logs)) (at_stage st logs) c = Some (at_stage st' logs, c).
Proof. apply (all_step st st' c []). Qed.

Definition two_each (first count : nat) : list nat := concat (replicate 2 <$> seq first count).

(** Copies that follow one another, none of which looks at the size. *)
Lemma copies_overrun logs before c b :
  lc_buffer c = Some b -> len (map_bytes b) = lc_size c -> lc_size c < 2 ^ 63 -> 0 <= lc_pos c <= lc_size c ->
  Forall (fun log => len log = sizeof_LogMsg) logs ->
  lc_size c < lc_pos c + sizeof_LogMsg * Z.of_nat (length logs) ->
  run_schedule (two_each (length before) (length logs)) (before ++ at_stage Copying logs) c = None.
Proof.
  intros Hb Hlb Hsz Hp Hlogs. revert before c b Hb Hlb Hsz Hp.
  induction Hlogs as [|l logs Hl _ IH]; intros before c b Hb Hlb Hsz Hp Hover.
  { cbn [length] in Hover. lia. }
  unfold two_each. cbn [length seq fmap list_fmap concat replicate app].
  erewrite run_schedule_move by apply at_stage_middle. cbn [append_step]. rewrite Hb. cbn [mbind option_bind].
  destruct (mem_write (map_bytes b) (lc_pos c) l) as [content|] eqn:Hw; [|done]. cbn [mbind option_bind].
  assert (Hfit : lc_pos c + 602 <= lc_size c).
  { unfold mem_write in Hw. case_bool_decide; [|done]. change sizeof_LogMsg with 602 in Hl. lia. }
  change (at_stage Copying (l :: logs)) with ((l, Copying) :: at_stage Copying logs). rewrite insert_middle, <- app_assoc. cbn [app].
  erewrite run_schedule_move by by apply list_lookup_middle. cbn [append_step mbind option_bind].
  rewrite insert_middle. replace (S (length before)) with (length (before ++ [(l, Finished)])) by (rewrite length_app; cbn; lia).
  change sizeof_LogMsg with 602 in *.
  assert (Hpos : size_t (lc_pos c + 602) = lc_pos c + 602) by (apply Z.mod_small; lia).
  eapply IH; cbn [set_lc_pos lc_buffer lc_pos lc_size]; [reflexivity|cbn; by rewrite (mem_write_len _ _ _ _ Hw)|done| |]; rewrite Hpos; [lia|].
  cbn [length] in Hover. lia.
Qed.

(** The file started over, by each of the threads. *)
Lemma all_rewind c logs :
  logs <> [] ->
  run_schedule (seq 0 (length logs)) (at_stage Rewinding logs) c = Some (at_stage Copying logs, set_lc_pos 0 c).
Proof.
  intros Hne. destruct logs as [|l logs]; [done|]. cbn [length seq].
  erewrite run_schedule_move by done. cbn [append_step mbind option_bind].
  change 1%nat with (length [l]). apply (all_step Rewinding Copying (set_lc_pos 0 c) [l] logs). done.
Qed.

(** A logger in order: a mapping of whole records, and a position between two of
    them. *)
Record logger_ready (c : LogContext) : Prop := {
  lr_buffer : exists b, lc_buffer c = Some b /\ len (map_bytes b) = lc_size c;
  lr_size : 0 < lc_size c < 2 ^ 63;
  lr_whole : lc_size c mod sizeof_LogMsg = 0;
  lr_pos : 0 <= lc_pos c <= lc_size c /\ lc_pos c mod sizeof_LogMsg = 0
}.

Lemma overrun_schedule logs c :
  logger_ready c -> Forall (fun log => len log = sizeof_LogMsg) logs -> slots_ahead c < Z.of_nat (length logs) ->
  exists schedule, run_schedule schedule (about_to_log logs) c = None.
Proof.
  intros [(b & Hb & Hlb) Hsz Hwhole [Hp Hpw]] Hlogs Hroom. unfold slots_ahead in Hroom.
  assert (Hne : logs <> []).
  { intros ->. cbn [length] in Hroom. change sizeof_LogMsg with 602 in *.
    destruct (lc_pos c =? lc_size c); [pose proof (Z.div_pos (lc_size c) 602)|pose proof (Z.div_pos (lc_size c - lc_pos c) 602)]; lia. }
  destruct (Z.eqb_spec (lc_pos c) (lc_size c)) as [E|E].
  - exists (seq 0 (length logs) ++ seq 0 (length logs) ++ seq 0 (length logs) ++ two_each 0 (length logs)).
    rewrite run_schedule_app. unfold about_to_log. fold (at_stage Testing logs).
    rewrite (all_from_start Testing Syncing c logs); [cbn [mbind option_bind]|by intros; cbn; destruct (Z.eqb_spec (lc_pos c) (lc_size c))].
    rewrite run_schedule_app, (all_from_start Syncing Rewinding c logs) by done. cbn [mbind option_bind].
    rewrite run_schedule_app, all_rewind by done. cbn [mbind option_bind].
    apply (copies_overrun logs [] (set_lc_pos 0 c) b); cbn [set_lc_pos lc_pos lc_size lc_buffer]; [done|done|lia|lia|done|].
    change sizeof_LogMsg with 602 in *. pose proof (Z.div_mod (lc_size c) 602). lia.
  - exists (seq 0 (length logs) ++ two_each 0 (length logs)).
    rewrite run_schedule_app. unfold about_to_log. fold (at_stage Testing logs).
    rewrite (all_from_start Testing Copying c logs); [cbn [mbind option_bind]|by intros; cbn; destruct (Z.eqb_spec (lc_pos c) (lc_size c))].
    apply (copies_overrun logs [] c b); [done|done|lia|lia|done|].
    change sizeof_LogMsg with 602 in *. pose proof (Z.div_mod (lc_size c - lc_pos c) 602).
    pose proof (Z.mod_pos_bound (lc_size c - lc_pos c) 602). lia.
Qed.

Lemma ready_in_bounds logs c :
  logger_ready c -> Forall (fun log => len log = sizeof_LogMsg) logs -> Z.of_nat (length logs) <= slots_ahead c ->
  in_bounds (about_to_log logs) c.
Proof.
  intros [Hb Hsz Hwhole [Hp Hpw]] Hlogs Hroom. unfold slots_ahead in Hroom.
  assert (Hpend : pending (about_to_log logs) = sizeof_LogMsg * Z.of_nat (length logs)).
  { clear. induction logs as [|l logs IH]; [done|]. cbn [about_to_log fmap list_fmap pending]. fold (about_to_log logs).
    rewrite IH. cbn [due snd length]. lia. }
  constructor; [done|lia|by apply Forall_fmap|lia|]. rewrite Hpend. unfold about_to_log at 2. rewrite length_fmap.
  change sizeof_LogMsg with 602 in *. destruct (Z.eqb_spec (lc_pos c) (lc_size c)) as [E|E]; [right|left].
  - split_and!; [done|by apply Forall_fmap, Forall_true|]. pose proof (Z.div_mod (lc_size c) 602). lia.
  - pose proof (Z.div_mod (lc_size c - lc_pos c) 602). pose proof (Z.mod_pos_bound (lc_size c - lc_pos c) 602). lia.
Qed.

(** The states that records appended in turn lead to are in order. *)
Lemma ring_ready count logs c :
  0 < count -> count * sizeof_LogMsg < 2 ^ 63 -> ring_inv count logs c -> logger_ready c.
Proof.
  intros Hc Hov [Hs (b & Hb & Hl & _) Hp]. change sizeof_LogMsg with 602 in *.
  constructor; [by exists b|lia|rewrite Hs; apply Z.mod_mul; done|]. change sizeof_LogMsg with 602.
  destruct Hp as [[-> _]|[-> _]]; [by split; [lia|]|]. pose proof (Z.mod_pos_bound (Z.of_nat (length logs) - 1) count Hc).
  split; [lia|]. rewrite Z.mul_comm. by apply Z.mod_mul.
Qed.

(** C39: threads that log at the same time, with nothing that makes them wait: no
    interleaving of their steps writes outside the mapping exactly when the file
    has a slot ahead for each of them.  With one slot left, two threads that compare
    the position before either moves it write the second record past the end of
    the mapping. *)
Theorem interleavings_in_bounds logs c :
  logger_ready c -> Forall (fun log => len log = sizeof_LogMsg) logs ->
  (forall schedule, run_schedule schedule (about_to_log logs) c <> None) <-> Z.of_nat (length logs) <= slots_ahead c.
Proof.
  intros Hc Hlogs. split.
  - intros Hall. destruct (Z.le_gt_cases (Z.of_nat (length logs)) (slots_ahead c)) as [?|Hgt]; [done|].
    destruct (overrun_schedule logs c Hc Hlogs) as [schedule Hs]; [lia|]. by destruct (Hall schedule).
  - intros Hroom schedule. by apply run_schedule_in_bounds, ready_in_bounds.
Qed.
