(* ===== verification/NetStream.v ===== *)
(** * Sockets (source/net_stream.c)

    The wrappers of the socket calls: each maps the failure of a call to its
    status.  A [sockfd_t *sock] is a field of the shared configuration; the
    address [accept_new_connection] reports goes to the remote address of the
    configuration, as its only caller passes it. *)
From S2P Require Import Prelude Protocol Types Sys Wire Utils.

Definition BACKLOG : Z := 1.
Definition INET_ADDRSTRLEN : Z := 16.

(** Reading [*sock]. *)
Definition deref (sock : sockref) : M Z := c ← sys GetConf; mret (get_sock sock c).

(** [inet_pton] with [AF_INET] never returns -1. *)
Definition network_byteorder (ip : list Z) : M (list Z) :=
  match inet_pton ip with
  | None => fail BADIPV4
  | Some addr => mret addr
  end.

(** The buffer [ip] after the call; it is taken to have [INET_ADDRSTRLEN] bytes. *)
Definition host_ipstring (ip addr : list Z) : M (list Z) :=
  defined (mem_write ip 0 (inet_ntop addr ++ [0])).

Section with_host.
Context `{Host}.

Definition sockaddr (port : Z) (addr : list Z) : sockaddr_in :=
  {| sin_family := AF_INET; sin_port := htons port; sin_addr := addr |}.

Definition init_tcp_socket (sock : sockref) (src_ip : list Z) (src_port : Z)
    (dst_ip : list Z) (dst_port : Z) (conn : bool) : M unit :=
  src_ipnetorder ← network_byteorder src_ip;
  dst_ipnetorder ← network_byteorder dst_ip;
  let local_addr := sockaddr src_port src_ipnetorder in
  let remote_addr := sockaddr dst_port dst_ipnetorder in
  tmpsock ← sys (Socket SOCK_STREAM);
  CHECK_INT tmpsock INVSOCK;;
  sys (SetConf (set_sock sock tmpsock));;
  fd ← deref sock;
  r ← sys (Setsockopt fd SO_REUSEADDR 1);
  CHECK_INT r FAILSET;;
  fd ← deref sock;
  r ← sys (Bind fd local_addr);
  CHECK_INT r ERRBIND;;
  if conn
  then
    fd ← deref sock;
    r ← sys (Connect fd remote_addr);
    CHECK_INT r ERRCONN
  else mret tt.

Definition accept_new_connection (new_sock : sockref) (sock timeout : Z) : M unit :=
  r ← sys (Listen sock BACKLOG);
  CHECK_INT r ERRLSTN;;
  '(r, _) ← sys (Poll sock POLLIN timeout);
  (if r =? -1 then fail FAILURE else if r =? 0 then fail TIMEOUT else mret tt);;
  '(tmpsock, conn_addr) ← sys (Accept sock);
  CHECK_INT tmpsock INVSOCK;;
  CHECK_EQUAL AF_INET (sin_family conn_addr) BADINET;;
  sys (SetConf (set_sock new_sock tmpsock));;
  c ← sys GetConf;
  ip ← host_ipstring (addrs_remote_ip (conf_addrs c)) (sin_addr conn_addr);
  sys (SetConf (fun c => set_conf_addrs (set_addrs_remote_ip ip (conf_addrs c)) c));;
  sys (SetConf (fun c => set_conf_addrs
    (set_addrs_remote_port (ntohs (sin_port conn_addr)) (conf_addrs c)) c)).

Definition push_tcp_data (sock : Z) (buf : list Z) (size : Z) : M unit :=
  data ← defined (mem_read buf 0 size);
  send_size ← sys (SendTo sock data MSG_NOSIGNAL);
  CHECK_INT send_size ERRSEND;;
  CHECK_SIZE send_size size.

(** The receiving functions give the buffer as the call leaves it. *)
Definition pull_tcp_data (sock : Z) (buf : list Z) (size : Z) (peek_flag : bool) : M (list Z) :=
  '(recv_size, data) ← sys (RecvFrom sock size (if peek_flag then MSG_PEEK else 0));
  CHECK_INT recv_size ERRRECV;;
  buf ← defined (mem_write buf 0 data);
  CHECK_SIZE recv_size size;;
  mret buf.

Definition init_udp_socket (sock : sockref) (src_ip : list Z) (src_port : Z)
    (dst_ip : list Z) (dst_port : Z) (broadcast : bool) : M unit :=
  src_ipnetorder ← network_byteorder src_ip;
  dst_ipnetorder ← network_byteorder dst_ip;
  let local_addr := sockaddr src_port src_ipnetorder in
  let remote_addr := sockaddr dst_port dst_ipnetorder in
  tmpsock ← sys (Socket SOCK_DGRAM);
  CHECK_INT tmpsock INVSOCK;;
  sys (SetConf (set_sock sock tmpsock));;
  (if broadcast
   then
     fd ← deref sock;
     r ← sys (Setsockopt fd SO_BROADCAST 1);
     CHECK_INT r FAILSET
   else mret tt);;
  fd ← deref sock;
  r ← sys (Setsockopt fd SO_REUSEADDR 1);
  CHECK_INT r FAILSET;;
  fd ← deref sock;
  r ← sys (Bind fd local_addr);
  CHECK_INT r ERRBIND;;
  fd ← deref sock;
  r ← sys (Connect fd remote_addr);
  CHECK_INT r ERRCONN.

Definition push_udp_data (sock : Z) (buf : list Z) (size : Z) : M unit :=
  data ← defined (mem_read buf 0 size);
  send_size ← sys (SendTo sock data 0);
  CHECK_INT send_size ERRSEND;;
  CHECK_SIZE send_size size.

Definition pull_udp_data (sock : Z) (buf : list Z) (size : Z) : M (list Z) :=
  '(recv_size, data) ← sys (RecvFrom sock size 0);
  CHECK_INT recv_size ERRRECV;;
  buf ← defined (mem_write buf 0 data);
  CHECK_SIZE recv_size size;;
  mret buf.

(** The [int] that [setsockopt] reads from the first bytes of a [size_t]. *)
Definition optval_int (size : Z) : Z :=
  if little_endian then u32 size else u32 (size / 2 ^ 32).

Definition set_socket_rcvlowsize (sock size : Z) : M unit :=
  r ← sys (Setsockopt sock SO_RCVLOWAT (optval_int size));
  CHECK_INT r FAILSET.

Definition set_socket_sndlowsize (sock size : Z) : M unit :=
  r ← sys (Setsockopt sock SO_SNDLOWAT (optval_int size));
  CHECK_INT r FAILSET.

Definition set_socket_rcvbufsize (sock size : Z) : M unit :=
  r ← sys (Setsockopt sock SO_RCVBUF (optval_int size));
  CHECK_INT r FAILSET.

Definition set_socket_sndbufsize (sock size : Z) : M unit :=
  r ← sys (Setsockopt sock SO_SNDBUF (optval_int size));
  CHECK_INT r FAILSET.

Definition set_socket_timeout (sock second : Z) : M unit :=
  r ← sys (Setsockopt sock SO_RCVTIMEO second);
  CHECK_INT r FAILSET;;
  r ← sys (Setsockopt sock SO_SNDTIMEO second);
  CHECK_INT r FAILSET.

Definition close_socket (sock : Z) : M unit :=
  r ← sys (Close sock);
  CHECK_INT r FAILURE.

End with_host.

(** ** Specifications *)

(** A list of calls, each with the status its failure gives, made in order up to
    the first failure. *)
Inductive chain : list (sysE Z * status_t) -> outcome unit -> list obs -> Prop :=
| chain_done : chain [] (Val tt) []
| chain_fail e err rest : chain ((e, err) :: rest) (Fail err) [Obs e (-1)]
| chain_next e err rest r o tr :
    r <> -1 -> chain rest o tr -> chain ((e, err) :: rest) o (Obs e r :: tr).

(** Opening a socket and configuring it: the shared field is set as soon as the
    descriptor exists, and the descriptor is kept on a later failure. *)
Inductive opens (type : Z) (steps : Z -> list (sysE Z * status_t)) (c : InitConfig) (sock : sockref) :
    outcome unit -> list obs -> InitConfig -> Prop :=
| opens_nosock : opens type steps c sock (Fail INVSOCK) [Obs (Socket type) (-1)] c
| opens_sock fd o tr :
    0 <= fd -> chain (steps fd) o tr ->
    opens type steps c sock o (Obs (Socket type) fd :: tr) (set_sock sock fd c).

#[export] Hint Constructors chain opens : ruf.

Lemma get_set_sock r fd c : get_sock r (set_sock r fd c) = fd.
Proof. by destruct r. Qed.
#[export] Hint Rewrite get_set_sock : ruf.

(** The calls that follow [socket] in the two constructors. *)
Definition tcp_steps `{Host} (src : list Z) (src_port : Z) (dst : list Z) (dst_port : Z)
    (conn : bool) (fd : Z) : list (sysE Z * status_t) :=
  [(Setsockopt fd SO_REUSEADDR 1, FAILSET); (Bind fd (sockaddr src_port src), ERRBIND)]
  ++ (if conn then [(Connect fd (sockaddr dst_port dst), ERRCONN)] else []).

Definition udp_steps `{Host} (src : list Z) (src_port : Z) (dst : list Z) (dst_port : Z)
    (broadcast : bool) (fd : Z) : list (sysE Z * status_t) :=
  (if broadcast then [(Setsockopt fd SO_BROADCAST 1, FAILSET)] else [])
  ++ [(Setsockopt fd SO_REUSEADDR 1, FAILSET); (Bind fd (sockaddr src_port src), ERRBIND);
      (Connect fd (sockaddr dst_port dst), ERRCONN)].

(** The result of a socket constructor: bad addresses are refused before any
    call is made. *)
Definition socket_result (src_ip dst_ip : list Z) (type : Z)
    (steps : list Z -> list Z -> Z -> list (sysE Z * status_t)) (sock : sockref) (s : pstate)
    : outcome unit -> pstate -> Prop :=
  does (fun o tr c' =>
    match inet_pton src_ip, inet_pton dst_ip with
    | Some src, Some dst => opens type (steps src dst) (p_conf s) sock o tr c'
    | _, _ => o = Fail BADIPV4 /\ tr = [] /\ c' = p_conf s
    end) s.

(** Runs the calls of a constructor up to each failure. *)
Ltac chain_go :=
  repeat first
    [ progress (unfold deref; wp_go; cbn [logged with_conf p_conf p_trace get_sock];
                autorewrite with ruf)
    | wp_case; subst ].

Ltac opens_go :=
  first [apply opens_nosock
        |apply opens_sock; [lia|]; cbn [app];
         repeat first [apply chain_done|apply chain_fail|apply chain_next; [assumption|]]].

(** What every constructor of a socket promises: it sends nothing, and on success
    the field holds a descriptor.  With good addresses and ports, only a call that
    goes wrong makes it fail. *)
Definition socket_errors : list status_t := [BADIPV4; BADPORT; INVSOCK; FAILSET; ERRBIND; ERRCONN].
Definition dialable (a : CntlAddrs) : Prop :=
  check_ipv4_format (addrs_local_ip a) = true /\ check_ipv4_format (addrs_remote_ip a) = true /\
  addrs_local_port a <> 0 /\ addrs_remote_port a <> 0.
Definition socket_made (type : Z) (sock : sockref) (c : InitConfig) (o : outcome unit) (tr : list obs)
    (c' : InitConfig) : Prop :=
  wire tr = [] /\ tally heap_delta tr = 0 /\
  match o with
  | Val _ => exists fd, 0 <= fd /\ c' = set_sock sock fd c /\ Obs (Socket type) fd ∈ tr
  | Fail st => st ∈ socket_errors /\ (c' = c \/ exists fd, c' = set_sock sock fd c) /\
      (dialable (conf_addrs c) -> st ∈ complaints tr)
  | _ => False
  end.

(** A call that neither sends, receives nor allocates. *)
Definition quiet (e : sysE Z) : Prop := forall r, wire_event _ e r = [] /\ heap_delta _ e r = 0.
(** The status that reports the failure of a call. *)
Definition reports (e : sysE Z) (st : status_t) : Prop := complaint _ e (-1) = [st].

Lemma chain_quiet steps o tr :
  chain steps o tr -> Forall (fun p => quiet p.1) steps ->
  wire tr = [] /\ tally heap_delta tr = 0 /\
  match o with Val _ => True | Fail st => st ∈ steps.*2 | _ => False end.
Proof.
  induction 1 as [|e err rest|e err rest r o tr Hr _ IH]; intros Hq.
  - done.
  - apply Forall_cons in Hq as [Hq _]. destruct (Hq (-1)) as [Hw Hh]. cbn [fst] in Hw, Hh.
    rewrite wire_cons, tally_cons, Hw, Hh. split_and!; [done|done|apply list_elem_of_here].
  - apply Forall_cons in Hq as [Hq Hqs]. destruct (Hq r) as [Hw Hh]. cbn [fst] in Hw, Hh.
    destruct (IH Hqs) as (Hws & Hhs & Ho). rewrite wire_cons, tally_cons, Hw, Hh, Hws, Hhs. split_and!; [done|done|].
    destruct o; try done. by apply list_elem_of_further.
Qed.

Lemma chain_complaint steps st tr :
  chain steps (Fail st) tr -> Forall (fun p => reports p.1 p.2) steps -> st ∈ complaints tr.
Proof.
  remember (Fail st) as o eqn:E. induction 1 as [|e err rest|e err rest r o tr Hr _ IH]; intros Hst; simplify_eq.
  - apply Forall_cons in Hst as [He _]. apply (complaints_l _ [_] []). unfold complaints, gather. cbn in *.
    rewrite He. in_list.
  - apply Forall_cons in Hst as [_ Hst]. apply (complaints_r _ [_]). by apply IH.
Qed.

Lemma socket_result_made src_ip dst_ip type steps sock s o tr c' :
  (forall src dst fd, Forall (fun p => quiet p.1) (steps src dst fd) /\
     Forall (fun p => reports p.1 p.2) (steps src dst fd) /\
     forall st, st ∈ (steps src dst fd).*2 -> st ∈ socket_errors) ->
  (dialable (conf_addrs (p_conf s)) -> inet_pton src_ip <> None /\ inet_pton dst_ip <> None) ->
  match inet_pton src_ip, inet_pton dst_ip with
  | Some src, Some dst => opens type (steps src dst) (p_conf s) sock o tr c'
  | _, _ => o = Fail BADIPV4 /\ tr = [] /\ c' = p_conf s
  end ->
  socket_made type sock (p_conf s) o tr c'.
Proof.
  intros Hsteps Hdial Ho.
  destruct (inet_pton src_ip) as [src|]; [destruct (inet_pton dst_ip) as [dst|]|].
  2,3: destruct Ho as (-> & -> & ->); split_and!; first [done|in_list|by left|intros [? ?]%Hdial; done].
  destruct Ho as [|fd o tr Hfd Hch]; [split_and!; first [done|in_list|by left|intros _; complains]|].
  destruct (Hsteps src dst fd) as (Hq & Hrep & Hst). destruct (chain_quiet _ _ _ Hch Hq) as (Hw & Hh & Ho).
  split_and!; [by rewrite wire_cons, Hw|by rewrite tally_cons, Hh|].
  destruct o; try done;
    [|split_and!; [by apply Hst|right; by eexists|intros _; apply (complaints_r _ [_]); by eapply chain_complaint]].
  exists fd. split_and!; [done|done|in_list].
Qed.

Lemma init_tcp_socket_ok `{Host} sock src_ip src_port dst_ip dst_port conn s :
  wp posix (socket_result src_ip dst_ip SOCK_STREAM
      (fun src dst => tcp_steps src src_port dst dst_port conn) sock s)
    (init_tcp_socket sock src_ip src_port dst_ip dst_port conn) s.
Proof.
  unfold init_tcp_socket, network_byteorder, socket_result.
  destruct (inet_pton src_ip) as [src|]; [|wp_go; by does_go].
  destruct (inet_pton dst_ip) as [dst|]; [|wp_go; by does_go].
  chain_go; does_go; unfold tcp_steps; opens_go.
Qed.

Lemma init_udp_socket_ok `{Host} sock src_ip src_port dst_ip dst_port broadcast s :
  wp posix (socket_result src_ip dst_ip SOCK_DGRAM
      (fun src dst => udp_steps src src_port dst dst_port broadcast) sock s)
    (init_udp_socket sock src_ip src_port dst_ip dst_port broadcast) s.
Proof.
  unfold init_udp_socket, network_byteorder, socket_result.
  destruct (inet_pton src_ip) as [src|]; [|wp_go; by does_go].
  destruct (inet_pton dst_ip) as [dst|]; [|wp_go; by does_go].
  chain_go; does_go; unfold udp_steps; opens_go.
Qed.

(** [init_tcp_socket] and [init_udp_socket] refuse malformed addresses before
    they make any call; otherwise they create the socket, store it, set
    [SO_REUSEADDR] (after [SO_BROADCAST], when asked for), bind and connect (a TCP
    socket only when asked to), in that order and up to the first failure, whose
    status they return; a socket whose configuration fails stays open. *)
Theorem init_socket_spec `{Host} sock src_ip src_port dst_ip dst_port flag s :
  wp posix (socket_result src_ip dst_ip SOCK_STREAM
      (fun src dst => tcp_steps src src_port dst dst_port flag) sock s)
    (init_tcp_socket sock src_ip src_port dst_ip dst_port flag) s /\
  wp posix (socket_result src_ip dst_ip SOCK_DGRAM
      (fun src dst => udp_steps src src_port dst dst_port flag) sock s)
    (init_udp_socket sock src_ip src_port dst_ip dst_port flag) s.
Proof. split; [apply init_tcp_socket_ok|apply init_udp_socket_ok]. Qed.

Lemma set_sock_addrs r fd c : conf_addrs (set_sock r fd c) = conf_addrs c.
Proof. by destruct r. Qed.
#[export] Hint Rewrite set_sock_addrs : ruf.

(** Text of an address written into an array of the configuration. *)
Lemma host_ipstring_write ip addr :
  len ip = MAXIPV4SIZE -> len addr = 4 -> bytes_ok addr ->
  exists ip', mem_write ip 0 (inet_ntop addr ++ [0]) = Some ip' /\ len ip' = MAXIPV4SIZE /\
    inet_pton ip' = Some addr /\ check_ipv4_format ip' = true.
Proof.
  intros Hl Ha Hok. destruct (inet_ntop_pton addr
    (zdrop (len (inet_ntop addr ++ [0])) ip) Ha Hok) as (Hlen & Hp & Hc).
  rewrite mem_write_0 by (rewrite len_app; change (len [0]) with 1; lia).
  eexists; split; [done|]. rewrite <- app_assoc. split_and!; [|exact Hp|exact Hc].
  rewrite !len_app in *. change (len [0]) with 1 in *. len_simpl; len_lia.
Qed.

Definition accept_errors : list status_t := [ERRLSTN; FAILURE; TIMEOUT; INVSOCK; BADINET].

(** A connection accepted: its descriptor, and the peer's port and address. *)
Definition accepted `{Host} (new_sock : sockref) (c : InitConfig) (o : outcome unit) (tr : list obs)
    (c' : InitConfig) : Prop :=
  wire tr = [] /\ tally heap_delta tr = 0 /\
  match o with
  | Val _ => exists sock fd sa ip, Obs (Accept sock) (fd, sa) ∈ tr /\ 0 <= fd /\
      c' = set_conf_addrs
        (set_addrs_remote_port (ntohs (sin_port sa)) (set_addrs_remote_ip ip (conf_addrs c)))
        (set_sock new_sock fd c) /\
      inet_pton ip = Some (sin_addr sa) /\ check_ipv4_format ip = true /\
      len ip = MAXIPV4SIZE /\ in_width 16 (sin_port sa)
  | Fail st => st ∈ accept_errors /\ c' = c /\ st ∈ complaints tr
  | _ => False
  end.

Lemma accept_new_connection_ok `{Host} new_sock sock timeout s :
  len (addrs_remote_ip (conf_addrs (p_conf s))) = MAXIPV4SIZE ->
  wp posix (does (accepted new_sock (p_conf s)) s) (accept_new_connection new_sock sock timeout) s.
Proof.
  intros Hl. unfold accept_new_connection, host_ipstring.
  chain_go; cbn [fst snd] in *; try (does_go; split_and!; first [done|in_list|complains]).
  destruct Hr1 as (Hfd & Hla & Hba & Hport). cbn [fst snd] in *.
  destruct (host_ipstring_write _ _ Hl Hla Hba) as (ip & -> & Hip & Hp & Hc). chain_go.
  does_go. split; [done|]. split; [done|].
  match goal with _ : -1 <= ?fd, _ : len (sin_addr ?sa) = 4 |- _ => exists sock, fd, sa, ip end.
  split_and!; [in_list|lia|by destruct new_sock|done..].
Qed.

(** C34: [accept_new_connection] listens, waits and accepts; on success the new
    descriptor is stored and the configuration holds the peer's port and its
    address in text form, which passes the format check.  Every failure has the
    status of the call that went wrong, and none touches the configuration. *)
Theorem accept_new_connection_spec `{Host} new_sock sock timeout s :
  len (addrs_remote_ip (conf_addrs (p_conf s))) = MAXIPV4SIZE ->
  wp posix (does (accepted new_sock (p_conf s)) s) (accept_new_connection new_sock sock timeout) s.
Proof. apply accept_new_connection_ok. Qed.

(** A whole buffer handed to the sending functions. *)
Definition sent_whole (sock : Z) (bytes : list Z) (flags : Z) (o : outcome unit) (tr : list obs) : Prop :=
  exists n, -1 <= n <= len bytes /\ tr = [Obs (SendTo sock bytes flags) n] /\
    o = (if bool_decide (n = -1) then Fail ERRSEND
         else if bool_decide (n < len bytes) then Fail LOWSIZE else Val tt).

Ltac sent_whole_go :=
  match goal with Hm : mem_read _ _ _ = Some _ |- _ =>
    rewrite Hm; apply mem_read_len in Hm as <- end;
  chain_go; calls_go; (eexists; split; [|split; [reflexivity|]]);
  repeat case_bool_decide; first [done|len_lia].

Lemma push_tcp_data_ok sock buf bytes size s :
  mem_read buf 0 size = Some bytes ->
  wp posix (calls (sent_whole sock bytes MSG_NOSIGNAL) s) (push_tcp_data sock buf size) s.
Proof. intros Hm. unfold push_tcp_data. sent_whole_go. Qed.

Lemma push_udp_data_ok sock buf bytes size s :
  mem_read buf 0 size = Some bytes ->
  wp posix (calls (sent_whole sock bytes 0) s) (push_udp_data sock buf size) s.
Proof. intros Hm. unfold push_udp_data. sent_whole_go. Qed.

(** [push_tcp_data] and [push_udp_data] succeed exactly when the call takes
    the whole buffer; a short send is [LOWSIZE] and a failed one [ERRSEND]. *)
Lemma push_data_spec sock buf size (udp : bool) s :
  0 <= size <= len buf ->
  wp posix (calls (fun o tr => exists n,
      tr = [Obs (SendTo sock (ztake size buf) (if udp then 0 else MSG_NOSIGNAL)) n] /\
      o = (if bool_decide (n = -1) then Fail ERRSEND
           else if bool_decide (n < size) then Fail LOWSIZE else Val tt)) s)
    ((if udp then push_udp_data else push_tcp_data) sock buf size) s.
Proof.
  intros Hs. assert (Hr : mem_read buf 0 size = Some (ztake size buf))
    by (rewrite mem_read_spec by lia; done).
  destruct udp; unfold push_udp_data, push_tcp_data; rewrite Hr; chain_go; calls_go;
    eexists; (split; [reflexivity|]).
  all: repeat case_bool_decide; try lia; done.
Qed.

(** What a receiving function makes of its one call. *)
Definition received (sock size flags : Z) (buf : list Z) (o : outcome (list Z)) (tr : list obs) : Prop :=
  exists n data, tr = [Obs (RecvFrom sock size flags) (n, data)] /\
    ((n = -1 /\ o = Fail ERRRECV) \/
     (0 <= n < size /\ len data = n /\ o = Fail LOWSIZE) \/
     (n = size /\ len data = size /\ bytes_ok data /\ o = Val (data ++ zdrop size buf))).

Ltac received_go :=
  wp_go; cbn [fst snd] in *;
  wp_case; wp_go; [subst; calls_go; eexists _, _; split; [done|by left]|];
  match goal with Hr : _ \/ _ |- _ => destruct Hr as [|(Hn & Hl & Hok)]; [done|] end;
  rewrite mem_write_0 by lia; wp_go;
  wp_case; wp_go; calls_go; eexists _, _; (split; [done|]); right;
  [left; split_and!; (done || lia)|right];
  split_and!; try (done || lia); do 3 f_equal; lia.

Lemma pull_tcp_data_ok sock buf size peek s :
  0 <= size <= len buf ->
  wp posix (calls (received sock size (if peek : bool then MSG_PEEK else 0) buf) s)
    (pull_tcp_data sock buf size peek) s.
Proof. intros Hs. unfold pull_tcp_data. received_go. Qed.

Lemma pull_udp_data_ok sock buf size s :
  0 <= size <= len buf ->
  wp posix (calls (received sock size 0 buf) s) (pull_udp_data sock buf size) s.
Proof. intros Hs. unfold pull_udp_data. received_go. Qed.

(** [pull_tcp_data] and [pull_udp_data] receive into the buffer without
    leaving it, and succeed exactly when the call fills the size asked for. *)
Lemma pull_data_spec sock buf size (mode : option bool) s :
  0 <= size <= len buf ->
  wp posix (calls (fun o tr => exists n data,
      tr = [Obs (RecvFrom sock size (if mode is Some true then MSG_PEEK else 0)) (n, data)] /\
      o = (if bool_decide (n = -1) then Fail ERRRECV
           else if bool_decide (n < size) then Fail LOWSIZE else Val (data ++ zdrop size buf)) /\
      (n <> -1 -> len data = n /\ bytes_ok data)) s)
    (match mode with Some peek => pull_tcp_data sock buf size peek | None => pull_udp_data sock buf size end) s.
Proof.
  intros Hs. destruct mode as [[|]|]; unfold pull_udp_data, pull_tcp_data; wp_go; cbn [fst snd] in *;
    (wp_case; wp_go; [subst; calls_go; by eexists _, _|]);
    (destruct Hr as [|(Hn & Hl & Hok)]; [done|]); rewrite mem_write_0 by lia; chain_go; calls_go;
    eexists _, _; (split; [reflexivity|]); (split; [|done]);
    rewrite (bool_decide_false (_ = -1)) by done; case_bool_decide; try lia; try done.
  all: do 3 f_equal; lia.
Qed.

(** Addresses that pass the format check can be read. *)
Lemma dialable_pton a :
  dialable a -> inet_pton (addrs_local_ip a) <> None /\ inet_pton (addrs_remote_ip a) <> None.
Proof.
  unfold dialable, check_ipv4_format. intros (Hl & Hr & _). by destruct (inet_pton _), (inet_pton _).
Qed.

(** The checks in front of a constructor, then the constructor. *)
Ltac start_socket_go :=
  wp_go;
  repeat (wp_case; wp_go; [|does_go; split_and!; first [done|in_list|by left|intros (? & ? & _); congruence]]);
  repeat (wp_case; wp_go; [does_go; split_and!; first [done|in_list|by left|intros (_ & _ & ? & ?); congruence]|]).

Ltac steps_go :=
  intros; split_and!; [repeat (constructor; [by intros r|]); constructor
                      |repeat (constructor; [reflexivity|]); constructor|];
  cbn; intros st; rewrite !elem_of_cons; unfold socket_errors; rewrite !elem_of_cons; tauto.

Lemma init_tcp_socket_made `{Host} sock src_ip src_port dst_ip dst_port conn s :
  (dialable (conf_addrs (p_conf s)) -> inet_pton src_ip <> None /\ inet_pton dst_ip <> None) ->
  wp posix (does (socket_made SOCK_STREAM sock (p_conf s)) s)
    (init_tcp_socket sock src_ip src_port dst_ip dst_port conn) s.
Proof.
  intros Hd. eapply wp_does; [apply init_tcp_socket_ok|]. intros o tr c' Ho. does_go.
  eapply socket_result_made; [|exact Hd|exact Ho]. unfold tcp_steps. destruct conn; steps_go.
Qed.

Lemma init_udp_socket_made `{Host} sock src_ip src_port dst_ip dst_port broadcast s :
  (dialable (conf_addrs (p_conf s)) -> inet_pton src_ip <> None /\ inet_pton dst_ip <> None) ->
  wp posix (does (socket_made SOCK_DGRAM sock (p_conf s)) s)
    (init_udp_socket sock src_ip src_port dst_ip dst_port broadcast) s.
Proof.
  intros Hd. eapply wp_does; [apply init_udp_socket_ok|]. intros o tr c' Ho. does_go.
  eapply socket_result_made; [|exact Hd|exact Ho]. unfold udp_steps. destruct broadcast; steps_go.
Qed.

Lemma close_socket_ok sock s :
  wp posix (calls (fun o tr => wire tr = [] /\ tally heap_delta tr = 0 /\
      (o = Val tt \/ (o = Fail FAILURE /\ FAILURE ∈ complaints tr))) s) (close_socket sock) s.
Proof.
  unfold close_socket. wp_go. wp_case; wp_go; calls_go; (split_and!; [done|done|]); [right|by left].
  split; [done|complains].
Qed.
