(* ===== verification/FileStream.v ===== *)
(** * File streams (source/file_stream.c)

    Opening the file to send ([MRD]) or creating the file to receive ([MWR]) and
    mapping it.  [FileContext *filec] is the one of the shared configuration. *)
From S2P Require Import Prelude Protocol Types Sys Wire Utils Mfile.

(** The value of [(off_t) size]. *)
Definition to_off (size : Z) : Z := (size + 2 ^ 63) mod 2 ^ 64 - 2 ^ 63.

Definition create_file (path : list Z) (size : Z) : M unit :=
  file ← sys (Fopen (cstr path) "w+");
  file ← CHECK_PTR file NOCREAT;
  if size =? 0 then sys (Fclose file);; CHECK_STAT BADARGS else
  '(r, (f_bavail, f_bsize)) ← sys (Fstatvfs file);
  if r =? -1 then sys (Fclose file);; CHECK_STAT NOFSTAT else
  if size_t (f_bavail * f_bsize) <=? size then sys (Fclose file);; CHECK_STAT NOAVAIL else
  r ← sys (Ftruncate file (to_off size));
  if r =? -1 then sys (Fclose file);; CHECK_STAT NOTRUNC else
  mret tt.

(** Writing a field of [conf->filec]. *)
Definition set_filec (f : FileContext -> FileContext) : M unit :=
  sys (SetConf (fun c => set_conf_filec (f (conf_filec c)) c)).

Definition start_file_stream (path : list Z) (mode : fmode_t) : M unit :=
  (match mode with
   | MWR =>
       c ← sys GetConf;
       create_file path (fc_size (conf_filec c))
   | MRD =>
       '(r, st_size) ← sys (Stat (cstr path));
       CHECK_INT r NOFSTAT;;
       set_filec (set_fc_size (size_t st_size))
   end);;
  mfile ← mfopen (cstr path) "r+" (Z.lor PROT_READ PROT_WRITE) MAP_SHARED;
  CHECK_MFILE mfile;;
  set_filec (set_fc_mfile mfile);;
  pathlen ← defined (strlen path);
  filename ← defined (extract_file_name path (pathlen + 1));
  filename ← CHECK_PTR filename INVPATH;
  c ← sys GetConf;
  name ← defined (sstrncpy (fc_name (conf_filec c)) filename MAXFILENAMESIZE);
  set_filec (set_fc_name name).

Definition end_file_stream : M unit :=
  c ← sys GetConf;
  r ← mfclose (conf_mfile c);
  CHECK_EQUAL 0 r FAILURE.

(** ** Specifications *)

Lemma to_off_small size : 0 <= size < 2 ^ 63 -> to_off size = size.
Proof. intros Hs. unfold to_off. change (2 ^ 64) with (2 * 2 ^ 63). rewrite Z.mod_small; lia. Qed.

(** A bounded copy in a program. *)
Lemma wp_sstrncpy {S} (R : env S) (Q : outcome (list Z) -> S -> Prop) dst src n s :
  1 <= n <= len dst -> n < 2 ^ 64 -> n <= len src ->
  (forall dst', len dst' = len dst -> cstr dst' = ztake (n - 1) (cstr src) ->
     (exists rest, dst' = cstr dst' ++ 0 :: rest) -> Q (Val dst') s) ->
  wp R Q (defined (sstrncpy dst src n)) s.
Proof.
  intros Hd Hn Hs HQ. apply wp_defined.
  destruct (sstrncpy_ok dst src n) as (dst' & -> & Hl & Hc & _); [done|done|by right|].
  apply HQ; [done|done|]. destruct (strlen dst') as [k|] eqn:E.
  - by destruct (strlen_Some _ _ E) as [_ [r Hr]]; exists r.
  - apply strlen_None in E. rewrite E in Hc. exfalso.
    apply (f_equal len) in Hc. pose proof (len_ztake_max (n - 1) (cstr src) ltac:(lia)). lia.
Qed.

(** Creating a file: what it returns for each reply of the system, and which of
    the streams it opened it closes. *)
Inductive creates (path : list Z) (size : Z) : outcome unit -> list obs -> Prop :=
| creates_nocreat : creates path size (Fail NOCREAT) [Obs (Fopen (cstr path) "w+") None]
| creates_badargs f r :
    size = 0 ->
    creates path size (Fail BADARGS) [Obs (Fopen (cstr path) "w+") (Some f); Obs (Fclose f) r]
| creates_nofstat f b n r :
    size <> 0 ->
    creates path size (Fail NOFSTAT)
      [Obs (Fopen (cstr path) "w+") (Some f); Obs (Fstatvfs f) (-1, (b, n)); Obs (Fclose f) r]
| creates_noavail f b n r :
    size <> 0 -> size_t (b * n) <= size ->
    creates path size (Fail NOAVAIL)
      [Obs (Fopen (cstr path) "w+") (Some f); Obs (Fstatvfs f) (0, (b, n)); Obs (Fclose f) r]
| creates_notrunc f b n r :
    size <> 0 -> size < size_t (b * n) ->
    creates path size (Fail NOTRUNC)
      [Obs (Fopen (cstr path) "w+") (Some f); Obs (Fstatvfs f) (0, (b, n));
       Obs (Ftruncate f (to_off size)) (-1); Obs (Fclose f) r]
| creates_done f b n :
    size <> 0 -> size < size_t (b * n) ->
    creates path size (Val tt)
      [Obs (Fopen (cstr path) "w+") (Some f); Obs (Fstatvfs f) (0, (b, n));
       Obs (Ftruncate f (to_off size)) 0].

#[export] Hint Constructors creates : ruf.

Lemma create_file_ok path size s :
  wp posix (calls (creates path size) s) (create_file path size) s.
Proof.
  unfold create_file. wp_go. destruct r as [f|]; cbn [CHECK_PTR]; wp_go; [|calls_go; eauto with ruf].
  wp_case; wp_go; [subst; calls_go; eauto with ruf|].
  cbn [fst snd] in *. destruct Hr0 as (Hr0 & _).
  wp_case; wp_go; [subst; calls_go; eauto with ruf|]. destruct Hr0 as [->| ->]; [done|].
  destruct (Z.leb_spec (size_t (z0 * z1)) size); wp_go; [calls_go; eauto with ruf|].
  wp_case; wp_go; [subst; calls_go; eauto with ruf|]. calls_go.
  match goal with Hr : minus_one_or_zero _ |- _ => destruct Hr as [->| ->]; [done|] end. eauto with ruf.
Qed.

Definition create_errors : list status_t := [NOCREAT; BADARGS; NOFSTAT; NOAVAIL; NOTRUNC].
Definition stream_errors : list status_t := NOMFILE :: create_errors.

(** A file system without room for a file of that size. *)
Definition full_disk (size : Z) (tr : list obs) : Prop :=
  exists file b n, Obs (Fstatvfs file) (0, (b, n)) ∈ tr /\ size_t (b * n) <= size.

Lemma creates_outcome path size o tr :
  creates path size o tr ->
  tally heap_delta tr = 0 /\ wire tr = [] /\
  match o with
  | Val _ => tally file_delta tr = 1
  | Fail st => st ∈ create_errors /\ tally file_delta tr = 0 /\
      (st ∈ complaints tr \/ full_disk size tr \/ size = 0)
  | _ => False
  end.
Proof. destruct 1; split_and!; first [done|in_list|left; complains|by right; right|idtac].
  right; left. eexists _, _, _. split; [in_list|done].
Qed.

(** What [start_file_stream] promises: only [conf->filec] changes; on success it
    has an open stream over the whole file and the last component of the path,
    cut to the array. *)
Definition started (path : list Z) (mode : fmode_t) (c : InitConfig) (o : outcome unit) (tr : list obs)
    (c' : InitConfig) : Prop :=
  tally heap_delta tr = 0 /\ wire tr = [] /\
  exists f, c' = set_conf_filec f c /\
    match o with
    | Val _ =>
        mfile_ok (fc_mfile f) /\ mf_open (fc_mfile f) = 1 /\ mf_pos (fc_mfile f) = 0 /\
        0 < mf_size (fc_mfile f) /\
        (exists file r, Obs (Fstat file) (r, mf_size (fc_mfile f)) ∈ tr) /\
        (bytes_ok (mf_bytes (fc_mfile f)) /\ mapped (mf_bytes (fc_mfile f)) tr) /\
        match mode with
        | MRD => exists p r, Obs (Stat p) (r, fc_size f) ∈ tr
        | MWR => fc_size f = fc_size (conf_filec c) /\
            exists file, Obs (Ftruncate file (to_off (fc_size f))) 0 ∈ tr
        end /\
        (exists base, basename path base /\ cstr (fc_name f) = ztake (MAXFILENAMESIZE - 1) base) /\
        len (fc_name f) = MAXFILENAMESIZE
    | Fail st => st ∈ stream_errors /\ fc_mfile f = conf_mfile c /\
        (mode = MWR -> fc_size f = fc_size (conf_filec c)) /\
        (st ∈ complaints tr \/ found_empty tr \/
         (mode = MWR /\ (full_disk (fc_size (conf_filec c)) tr \/ fc_size (conf_filec c) = 0)))
    | _ => False
    end.

(** From the mapping on, after calls that left [f] in the configuration. *)
Lemma map_stream_ok path rest mode c f s0 s tr :
  no_nul path -> len path + 1 < 2 ^ 31 -> len (fc_name f) = MAXFILENAMESIZE ->
  p_trace s = p_trace s0 ++ tr -> p_conf s = set_conf_filec f c ->
  tally heap_delta tr = 0 -> wire tr = [] -> fc_mfile f = conf_mfile c ->
  match mode with
  | MRD => exists p r, Obs (Stat p) (r, fc_size f) ∈ tr
  | MWR => fc_size f = fc_size (conf_filec c) /\ exists file, Obs (Ftruncate file (to_off (fc_size f))) 0 ∈ tr
  end ->
  wp posix (does (started path mode c) s0)
    (mfile ← mfopen (cstr (path ++ 0 :: rest)) "r+" (Z.lor PROT_READ PROT_WRITE) MAP_SHARED;
     CHECK_MFILE mfile;;
     set_filec (set_fc_mfile mfile);;
     pathlen ← defined (strlen (path ++ 0 :: rest));
     filename ← defined (extract_file_name (path ++ 0 :: rest) (pathlen + 1));
     filename ← CHECK_PTR filename INVPATH;
     c ← sys GetConf;
     name ← defined (sstrncpy (fc_name (conf_filec c)) filename MAXFILENAMESIZE);
     set_filec (set_fc_name name)) s.
Proof.
  intros Hnn Hpl Hnl Ht Hs Hh Hw Hmf Hmode. wp_go.
  eapply wp_calls; [apply mfopen_ok|]. intros o tr' ((m & -> & Ho) & Hh' & Hw' & Hcl). wp_go.
  destruct Ho as [[Hz _]|(Ho & Hok & Hpos & Hsz & _ & Hfs & Hbytes & Hmap)].
  { rewrite Hz. cbn [Z.eqb]. wp_go. does_from Ht. rewrite Hs. split_and!;
      [by rewrite tally_app, Hh, Hh'|by rewrite wire_app, Hw, Hw'|].
    exists f. split_and!; [done|in_list|done|intros ->; apply Hmode|].
    destruct (Hcl m eq_refl) as [Hco|He]; [done|done|eauto with ruf..]. }
  rewrite Ho. cbn [Z.eqb]. unfold set_filec. wp_go. rewrite strlen_app_nul by done. wp_go.
  destruct (extract_file_name_ok path rest Hpl) as (base & -> & Hbase). wp_go. cbn [CHECK_PTR]. wp_go.
  cbn [with_conf p_conf after_calls]. rewrite Hs.
  change (fc_name (conf_filec (set_conf_filec (set_fc_mfile m (conf_filec (set_conf_filec f c))) (set_conf_filec f c))))
    with (fc_name f).
  pose proof (basename_no_nul _ _ Hbase Hnn) as Hbn.
  destruct (sstrncpy_ok (fc_name f) (base ++ 0 :: rest) MAXFILENAMESIZE) as (name & -> & Hln & Hcn & _);
    [rewrite Hnl; done|done|left; by rewrite strlen_app_nul|]. rewrite cstr_no_nul in Hcn by done.
  wp_go. does_from Ht. rewrite Hs. split_and!;
    [by rewrite tally_app, Hh, Hh'|by rewrite wire_app, Hw, Hw'|].
  eexists. split; [reflexivity|]. cbn. split_and!; try done.
  - destruct Hfs as (file & r & Hin). exists file, r. apply elem_of_app. by right.
  - by apply mapped_r.
  - destruct mode; [destruct Hmode as (Hsize & p & Hin); split; [done|exists p]
                   |destruct Hmode as (p & r & Hin); exists p, r]; apply elem_of_app; by left.
  - by exists base.
  - by rewrite Hln.
Qed.

Lemma start_file_stream_ok path rest mode c s :
  no_nul path -> len path + 1 < 2 ^ 31 -> len (fc_name (conf_filec c)) = MAXFILENAMESIZE ->
  p_conf s = c ->
  wp posix (does (started path mode c) s) (start_file_stream (path ++ 0 :: rest) mode) s.
Proof.
  intros Hnn Hpl Hnl Hs. unfold start_file_stream. apply wp_mbind. destruct mode.
  - wp_go. rewrite Hs. eapply wp_calls; [apply create_file_ok|]. intros o tr Hc.
    destruct (creates_outcome _ _ _ _ Hc) as (Hh & Hw & Ho).
    destruct o as [[]|st|?|]; [| |done|done]; cbn [seq_post].
    + eapply (map_stream_ok path rest MWR c (conf_filec c)); try done; [by cbn; rewrite Hs; destruct c|].
      split; [done|]. inversion Hc; subst. eexists. in_list.
    + does_go. split_and!; [done|done|]. exists (conf_filec c). split; [rewrite Hs; by destruct c|].
      destruct Ho as (Ho & _ & Hco). split_and!; [by apply list_elem_of_further|done|done|].
      tauto.
  - wp_go. cbn [fst snd] in *. wp_case; wp_go.
    + does_go. split_and!; [done|done|]. exists (conf_filec c). split; [rewrite Hs; by destruct c|].
      split_and!; [in_list|done|done|left; complains].
    + apply wp_set. cbn [seq_post].
      match goal with |- context [set_fc_size (wrap 64 ?z)] =>
        assert (Hz : wrap 64 z = z) by (unfold wrap; rewrite Z.mod_small; lia); rewrite Hz end.
      match goal with |- context [set_fc_size ?z] =>
        eapply (map_stream_ok path rest MRD c (set_fc_size z (conf_filec c))) end; try done.
      * cbn. by rewrite Hs.
      * eexists _, _. apply list_elem_of_here.
Qed.

Lemma end_file_stream_ok s :
  wp posix (calls (fun o tr => wire tr = [] /\ tally heap_delta tr = 0 /\
      (o = Val tt \/ (o = Fail FAILURE /\
         (mf_buf (conf_mfile (p_conf s)) <> None -> mf_file (conf_mfile (p_conf s)) <> None ->
          FAILURE ∈ complaints tr)))) s) end_file_stream s.
Proof.
  unfold end_file_stream. wp_go. eapply wp_calls; [apply mfclose_quiet|].
  intros o tr (Hw & Hh & r & -> & Hr). wp_go. wp_case; wp_go; calls_go; auto 10.
Qed.

(** ** The theorems *)

(** [create_file] refuses an empty file, a file system without room for the
    size, and a failure of each call with a status of its own, and closes the
    stream it opened on every one of these paths; on success it has set the size
    and leaves the stream open. *)
Lemma create_file_spec path size s :
  wp posix (calls (fun o tr => creates path size o tr /\
      tally file_delta tr = (if o is Val _ then 1 else 0)) s) (create_file path size) s.
Proof.
  eapply wp_calls; [apply create_file_ok|]. intros o tr Hc. calls_go. split; [done|].
  destruct (creates_outcome _ _ _ _ Hc) as (_ & _ & Ho). destruct o; try done. apply Ho.
Qed.

(** C28: [start_file_stream] changes nothing of the configuration but [filec].  On
    success [filec] is an open stream over the whole mapped file, at its beginning,
    with the last component of the path for a name; when sending, its size is the
    one the file system gives.  A failure leaves the old stream in place and, when
    receiving, the announced size. *)
Theorem start_file_stream_spec path rest mode c s :
  no_nul path -> len path + 1 < 2 ^ 31 -> len (fc_name (conf_filec c)) = MAXFILENAMESIZE ->
  p_conf s = c ->
  wp posix (does (started path mode c) s) (start_file_stream (path ++ 0 :: rest) mode) s.
Proof. apply start_file_stream_ok. Qed.
