(* ===== verification/Cntl.v ===== *)
(** * The control channel (source/cntl.c)

    Opening the TCP control connection and sending and receiving the four
    headers on it.  A [push_*] function builds the packet's bytes in an allocated
    buffer, waits for the socket and sends; a [pull_*] function waits, peeks the
    type byte, and only then takes the packet. *)
From S2P Require Import Prelude Protocol Types Sys Wire Utils NetStream.

Section with_host.
Context `{Host}.

(** [CntlAddrs *addrs] is the one of the shared configuration. *)
Definition start_cntl (sock : sockref) (conn : bool) : M unit :=
  c ← sys GetConf;
  let addrs := conf_addrs c in
  CHECK_IPV4 (check_ipv4_format (addrs_local_ip addrs));;
  CHECK_IPV4 (check_ipv4_format (addrs_remote_ip addrs));;
  CHECK_PORT (addrs_local_port addrs);;
  CHECK_PORT (addrs_remote_port addrs);;
  init_tcp_socket sock (addrs_local_ip addrs) (addrs_local_port addrs)
    (addrs_remote_ip addrs) (addrs_remote_port addrs) conn.

Definition accept_cntl (new_sock : sockref) (sock timeout : Z) : M unit :=
  accept_new_connection new_sock sock timeout.

Definition end_cntl (sock : Z) : M unit := close_socket sock.

(** The [switch (poll(...))] of the senders, around the sending function. *)
Definition poll_out (sock timeout : Z) (push : M unit) : M unit :=
  '(r, revents) ← sys (Poll sock POLLOUT timeout);
  if r =? -1 then CHECK_SSTAT FAILURE else
  if r =? 0 then CHECK_SSTAT TIMEOUT else
  _stat ← (if Z.land revents POLLOUT =? 0 then mret ERRPOLL else status_of push);
  CHECK_SSTAT _stat.

(** The [switch (poll(...))] of the receivers: the type byte is peeked at and
    checked. *)
Definition poll_in (sock timeout type : Z) : M unit :=
  '(r, revents) ← sys (Poll sock POLLIN timeout);
  if r =? -1 then CHECK_STAT FAILURE else
  if r =? 0 then CHECK_STAT TIMEOUT else
  tmp_type ← (if Z.land revents POLLIN =? 0 then fail ERRPOLL
              else pull_tcp_data sock (zeros sizeof_RUFShareType) sizeof_RUFShareType true);
  tmp_type ← defined (head tmp_type);
  CHECK_EQUAL type tmp_type BADTYPE.

Definition push_CAST_header (sock : Z) (args : CastArgs) (timeout : Z) : M unit :=
  let bufsize := sizeof_CastPacket + INFOSTRSIZE in
  buf ← sys (Malloc bufsize);
  if negb buf then fail EMALLOC else
  infostr ← defined (pack_into_infostring (zeros INFOSTRSIZE) (cast_info args));
  let buf := CastPacket_mem (cast_packet args) ++ infostr in
  poll_out sock timeout (push_tcp_data sock buf bufsize);;
  sys Free.

Definition push_FLOW_header (sock : Z) (args : FlowArgs) (timeout : Z) : M unit :=
  let bufsize := sizeof_FlowPacket in
  buf ← sys (Malloc bufsize);
  if negb buf then fail EMALLOC else
  let buf := FlowPacket_mem (flow_packet args) in
  poll_out sock timeout (push_tcp_data sock buf bufsize);;
  sys Free.

Definition push_SEND_header (sock : Z) (args : SendArgs) (timeout : Z) : M unit :=
  let bufsize := sizeof_SendPacket + INFOSTRSIZE in
  buf ← sys (Malloc bufsize);
  if negb buf then fail EMALLOC else
  infostr ← defined (pack_into_infostring (zeros INFOSTRSIZE) (send_info args));
  let buf := SendPacket_mem (send_packet args) ++ infostr in
  poll_out sock timeout (push_tcp_data sock buf bufsize);;
  sys Free.

Definition push_RECV_header (sock : Z) (args : RecvArgs) (timeout : Z) : M unit :=
  let bufsize := sizeof_RecvPacket in
  buf ← sys (Malloc bufsize);
  if negb buf then fail EMALLOC else
  let buf := RecvPacket_mem (recv_packet args) in
  poll_out sock timeout (push_tcp_data sock buf bufsize);;
  sys Free.

(** The [pull_*] functions take what [args] held before the call, for the fields
    a short information string leaves alone. *)
Definition pull_CAST_header (sock : Z) (args : CastArgs) (timeout : Z) : M CastArgs :=
  poll_in sock timeout CAST;;
  packet ← pull_tcp_data sock (zeros sizeof_CastPacket) sizeof_CastPacket false;
  infostr ← pull_tcp_data sock (zeros INFOSTRSIZE) INFOSTRSIZE false;
  packet ← defined (CastPacket_of_mem packet);
  info ← defined (unpack_from_infostring infostr (cast_info args));
  mret {| cast_packet := convert_CastPacket_byteorder packet; cast_info := info |}.

Definition pull_FLOW_header (sock : Z) (timeout : Z) : M FlowArgs :=
  poll_in sock timeout FLOW;;
  packet ← pull_tcp_data sock (zeros sizeof_FlowPacket) sizeof_FlowPacket false;
  packet ← defined (FlowPacket_of_mem packet);
  mret {| flow_packet := convert_FlowPacket_byteorder packet |}.

Definition pull_SEND_header (sock : Z) (args : SendArgs) (timeout : Z) : M SendArgs :=
  poll_in sock timeout SEND;;
  packet ← pull_tcp_data sock (zeros sizeof_SendPacket) sizeof_SendPacket false;
  infostr ← pull_tcp_data sock (zeros INFOSTRSIZE) INFOSTRSIZE false;
  packet ← defined (SendPacket_of_mem packet);
  info ← defined (unpack_from_infostring infostr (send_info args));
  mret {| send_packet := convert_SendPacket_byteorder packet; send_info := info |}.

Definition pull_RECV_header (sock : Z) (timeout : Z) : M RecvArgs :=
  poll_in sock timeout RECV;;
  packet ← pull_tcp_data sock (zeros sizeof_RecvPacket) sizeof_RecvPacket false;
  packet ← defined (RecvPacket_of_mem packet);
  mret {| recv_packet := convert_RecvPacket_byteorder packet |}.

End with_host.

(** ** The headers on the wire *)

(** The bytes of a header that carries an information string; [infostr] starts as
    zeros. *)
Definition with_info (packet : list Z) (info : CntlAddrs) : option (list Z) :=
  infostr ← pack_into_infostring (zeros INFOSTRSIZE) info; Some (packet ++ infostr).

(** The information string as it goes on the wire. *)
Definition infostr_of (a : CntlAddrs) : list Z :=
  match infostring a with Some s => s ++ zeros (INFOSTRSIZE - len s) | None => [] end.

Lemma zdrop_zeros k n : 0 <= k <= n -> zdrop k (zeros n) = zeros (n - k).
Proof. intros. unfold zdrop, zeros. rewrite drop_replicate. f_equal. lia. Qed.

Lemma with_info_ok packet a info :
  addrs_wf info -> infostring info = infostring a -> with_info packet info = Some (packet ++ infostr_of a).
Proof.
  intros Hi He. unfold with_info, infostr_of. rewrite <- He.
  destruct (pack_into_infostring_ok (zeros INFOSTRSIZE) info Hi) as (s & -> & Hl & _ & ->); [done|].
  cbn [mbind option_bind]. do 2 f_equal. unfold INFOSTRSIZE. pose proof (len_nonneg s).
  rewrite zdrop_zeros by lia. change [0] with (zeros 1). rewrite <- zeros_app by lia. do 2 f_equal. lia.
Qed.

Lemma infostr_terminated a : addrs_wf a -> len (infostr_of a) = INFOSTRSIZE /\ strlen (infostr_of a) <> None.
Proof.
  intros Ha. unfold infostr_of.
  destruct (pack_into_infostring_ok (zeros INFOSTRSIZE) a Ha) as (s & -> & Hl & Hn & _); [done|].
  pose proof (len_nonneg s). unfold INFOSTRSIZE in *. split; [len_simpl; lia|].
  match goal with |- context [zeros ?k] => replace k with (1 + (k - 1)) by lia end.
  rewrite zeros_app by lia. change (zeros 1) with [0]. cbn [app]. by rewrite strlen_app_nul.
Qed.

(** What a [pull_*] function makes of the bytes it took. *)
Definition pulled {A} (res : status_t + list (list Z)) (decode : list (list Z) -> option A) : outcome A :=
  match res with
  | inl st => Fail st
  | inr ds => match decode ds with Some a => Val a | None => Undef end
  end.

Definition decode_CAST `{Host} (stack : CastArgs) (ds : list (list Z)) : option CastArgs :=
  match ds with
  | [packet; infostr] =>
      packet ← decode_CastPacket _ packet;
      info ← unpack_from_infostring infostr (cast_info stack);
      Some {| cast_packet := packet; cast_info := info |}
  | _ => None
  end.
Definition decode_FLOW `{Host} (ds : list (list Z)) : option FlowArgs :=
  match ds with
  | [packet] => packet ← decode_FlowPacket _ packet; Some {| flow_packet := packet |}
  | _ => None
  end.
Definition decode_SEND `{Host} (stack : SendArgs) (ds : list (list Z)) : option SendArgs :=
  match ds with
  | [packet; infostr] =>
      packet ← decode_SendPacket _ packet;
      info ← unpack_from_infostring infostr (send_info stack);
      Some {| send_packet := packet; send_info := info |}
  | _ => None
  end.
Definition decode_RECV `{Host} (ds : list (list Z)) : option RecvArgs :=
  match ds with
  | [packet] => packet ← decode_RecvPacket _ packet; Some {| recv_packet := packet |}
  | _ => None
  end.

(** ** Specifications *)

Lemma len_CastPacket_mem `{Host} p : len (CastPacket_mem p) = sizeof_CastPacket.
Proof. unfold CastPacket_mem, store16. by destruct little_endian. Qed.
Lemma len_FlowPacket_mem `{Host} p : len (FlowPacket_mem p) = sizeof_FlowPacket.
Proof. unfold FlowPacket_mem, store16, store32. by destruct little_endian. Qed.
Lemma len_SendPacket_mem `{Host} p : len (SendPacket_mem p) = sizeof_SendPacket.
Proof. unfold SendPacket_mem, store16, store32. by destruct little_endian. Qed.
Lemma len_RecvPacket_mem `{Host} p : len (RecvPacket_mem p) = sizeof_RecvPacket.
Proof. unfold RecvPacket_mem, store16, store32. by destruct little_endian. Qed.

Lemma start_cntl_ok `{Host} sock conn s :
  wp posix (does (socket_made SOCK_STREAM sock (p_conf s)) s) (start_cntl sock conn) s.
Proof.
  unfold start_cntl. start_socket_go. apply init_tcp_socket_made, dialable_pton.
Qed.

(** The wait and the send of all the senders; the buffer is freed on a failure. *)
Lemma poll_out_ok sock timeout bytes flags (push : M unit) s :
  (forall s, wp posix (calls (sent_whole sock bytes flags) s) push s) ->
  wp posix (calls (fun o tr => exists tr', polled_out sock bytes flags timeout o tr' /\
      tr = tr' ++ (if o is Val _ then [] else [Obs Free tt])) s) (poll_out sock timeout push) s.
Proof.
  intros Hpush. unfold poll_out. wp_go. cbn [fst snd] in *.
  repeat (wp_case; subst; wp_go).
  - calls_go. by eexists [_]; eauto with ruf.
  - calls_go. by eexists [_]; eauto with ruf.
  - calls_go. eexists [_]; split; [|done]. replace z with 1 by lia. by constructor.
  - apply wp_calls with (1 := Hpush _). intros o tr (m & Hm & -> & ->).
    replace z with 1 by lia. repeat case_bool_decide; subst; cbn; wp_go; calls_go; eexists [_; _].
    + eauto with ruf.
    + split; [|done]. constructor; lia.
    + split; [|done]. replace m with (len bytes) by lia. by constructor.
Qed.

(** After the allocation: the buffer is freed on both paths. *)
Lemma push_buffer_ok sock timeout bytes flags (push : M unit) s :
  (forall s, wp posix (calls (sent_whole sock bytes flags) s) push s) ->
  wp posix (calls (fun o tr => pushes sock bytes flags timeout o (Obs (Malloc (len bytes)) true :: tr)) s)
    (poll_out sock timeout push;; sys Free) s.
Proof.
  intros Hpush. wp_go. eapply wp_calls; [by apply poll_out_ok|].
  intros o tr (tr' & Hp & ->). destruct o as [[]|st|c|]; try by inversion Hp.
  - wp_go. destruct r. calls_go. by apply pushes_io.
  - cbn. calls_go. by apply pushes_io.
Qed.

(** The header functions, up to the packing of the buffer and after it. *)
Ltac push_header_go :=
  apply wp_mbind, wp_call; [done|]; intros ? _; cbn [seq_post];
  wp_case; [|apply wp_fail; calls_go; constructor];
  try (apply wp_mbind, wp_defined; cbn [seq_post]).
Ltac push_buffer_go :=
  eapply wp_calls;
  [apply push_buffer_ok; intros; first [by apply push_tcp_data_ok, mem_read_all|by apply push_udp_data_ok, mem_read_all]|];
  intros; calls_go; assumption.

(** The image of a packet followed by the packed string. *)
Lemma with_info_inv packet size info bytes :
  len packet = size -> with_info packet info = Some bytes ->
  exists infostr, pack_into_infostring (zeros INFOSTRSIZE) info = Some infostr /\
    bytes = packet ++ infostr /\ len bytes = size + INFOSTRSIZE.
Proof.
  unfold with_info. intros <-. destruct (pack_into_infostring _ _) as [infostr|] eqn:E; [|done].
  intros [= <-]. exists infostr. split_and!; [done..|]. rewrite len_app. f_equal.
  revert E. unfold pack_into_infostring. destruct (infostring info); [|done]. cbn [mbind option_bind].
  intros Hw. by rewrite (mem_write_len _ _ _ _ Hw).
Qed.

Section specs.
Context `{Host}.

Lemma push_FLOW_header_ok sock args timeout s :
  wp posix (calls (pushes sock (FlowPacket_mem (flow_packet args)) MSG_NOSIGNAL timeout) s)
    (push_FLOW_header sock args timeout) s.
Proof.
  unfold push_FLOW_header. rewrite <- (len_FlowPacket_mem (flow_packet args)).
  push_header_go. push_buffer_go.
Qed.

Lemma push_RECV_header_ok sock args timeout s :
  wp posix (calls (pushes sock (RecvPacket_mem (recv_packet args)) MSG_NOSIGNAL timeout) s)
    (push_RECV_header sock args timeout) s.
Proof.
  unfold push_RECV_header. rewrite <- (len_RecvPacket_mem (recv_packet args)).
  push_header_go. push_buffer_go.
Qed.

Lemma push_SEND_header_ok sock args timeout bytes s :
  with_info (SendPacket_mem (send_packet args)) (send_info args) = Some bytes ->
  wp posix (calls (pushes sock bytes MSG_NOSIGNAL timeout) s) (push_SEND_header sock args timeout) s.
Proof.
  intros Hb. destruct (with_info_inv _ _ _ _ (len_SendPacket_mem _) Hb) as (infostr & Hi & -> & Hl).
  unfold push_SEND_header. rewrite Hi, <- Hl. push_header_go. push_buffer_go.
Qed.

Lemma push_CAST_header_ok sock args timeout bytes s :
  with_info (CastPacket_mem (cast_packet args)) (cast_info args) = Some bytes ->
  wp posix (calls (pushes sock bytes MSG_NOSIGNAL timeout) s) (push_CAST_header sock args timeout) s.
Proof.
  intros Hb. destruct (with_info_inv _ _ _ _ (len_CastPacket_mem _) Hb) as (infostr & Hi & -> & Hl).
  unfold push_CAST_header. rewrite Hi, <- Hl. push_header_go. push_buffer_go.
Qed.

(** ** Receiving *)

(** Into a buffer of the size asked for. *)
Lemma received_zeros sock size flags o tr :
  0 <= size -> received sock size flags (zeros size) o tr ->
  exists n data, tr = [Obs (RecvFrom sock size flags) (n, data)] /\
    ((n = -1 /\ o = Fail ERRRECV) \/ (0 <= n < size /\ len data = n /\ o = Fail LOWSIZE) \/
     (n = size /\ len data = size /\ bytes_ok data /\ o = Val data)).
Proof.
  intros Hs (n & d & -> & Ho). exists n, d. split; [done|].
  by rewrite zdrop_all, app_nil_r in Ho by (rewrite len_zeros; lia).
Qed.

Lemma reads_one sock size s :
  0 <= size ->
  wp posix (calls (fun o tr => exists res, reads sock [size] res tr /\
      o = match res with inl st => Fail st | inr ds => Val (hd [] ds) end) s)
    (pull_tcp_data sock (zeros size) size false) s.
Proof.
  intros Hs. eapply wp_calls; [by apply pull_tcp_data_ok; rewrite len_zeros; lia|].
  intros o tr Hrec. destruct (received_zeros _ _ _ _ _ Hs Hrec) as (n & d & -> & [(-> & ->)|[(Hn & Hl & ->)|(-> & Hl & Hok & ->)]]);
    calls_go; eexists; (split; [eauto with ruf|done]).
Qed.

(** The wait and the peek: either the packet's type is there, or one of the
    failures of [pulls]. *)
Lemma poll_in_ok sock type sizes timeout s :
  wp posix (calls (fun o tr =>
      match o with
      | Val _ => exists rev, Z.land rev POLLIN <> 0 /\
          tr = [Obs (Poll sock POLLIN timeout) (1, rev); Obs (RecvFrom sock 1 MSG_PEEK) (1, [type])]
      | Fail st => pulls sock type sizes timeout (inl st) tr
      | _ => False
      end) s)
    (poll_in sock timeout type) s.
Proof.
  unfold poll_in. wp_go. cbn [fst snd] in *. wp_case; subst; wp_go; [calls_go; eauto with ruf|].
  wp_case; subst; wp_go; [calls_go; eauto with ruf|]. replace z with 1 by lia.
  wp_case; wp_go; [calls_go; eauto with ruf|].
  eapply wp_calls; [by apply pull_tcp_data_ok|].
  intros o tr Hrec. destruct (received_zeros sock sizeof_RUFShareType MSG_PEEK o tr ltac:(done) Hrec) as (m & d & -> & [(-> & ->)|[(Hm & Hl & ->)|(-> & Hl & Hok & ->)]]); wp_go.
  - calls_go. eauto with ruf.
  - unfold sizeof_RUFShareType in Hm. replace m with 0 in * by lia. destruct d; [|rewrite len_cons in Hl; len_lia]. calls_go. eauto with ruf.
  - destruct d as [|b [|? ?]]; [done| |unfold sizeof_RUFShareType in Hl; rewrite !len_cons in Hl; len_lia]. wp_go. cbn [head]. wp_go.
    wp_case; wp_go; calls_go; [subst; eauto|]. eauto with ruf.
Qed.

(** A buffer of the size of a struct holds one. *)
Tactic Notation "of_mem_go" int_or_var(n) :=
  intros m Hm; do n (destruct m as [|? m]; [done|]); destruct m; [by eexists|];
  rewrite !len_cons in Hm;
  unfold sizeof_CastPacket, sizeof_FlowPacket, sizeof_SendPacket, sizeof_RecvPacket in Hm; len_lia.

Lemma CastPacket_of_mem_len : forall m, len m = sizeof_CastPacket -> is_Some (CastPacket_of_mem m).
Proof. of_mem_go 4. Qed.
Lemma FlowPacket_of_mem_len : forall m, len m = sizeof_FlowPacket -> is_Some (FlowPacket_of_mem m).
Proof. of_mem_go 12. Qed.
Lemma SendPacket_of_mem_len : forall m, len m = sizeof_SendPacket -> is_Some (SendPacket_of_mem m).
Proof. of_mem_go 12. Qed.
Lemma RecvPacket_of_mem_len : forall m, len m = sizeof_RecvPacket -> is_Some (RecvPacket_of_mem m).
Proof. of_mem_go 8. Qed.

(** The wait and the first receive of a [pull_*] function. *)
Ltac pull_start_go sizes :=
  apply wp_mbind; eapply wp_calls; [apply (poll_in_ok _ _ sizes)|];
  intros [[]|?st|?c|] ?tr; try done; cbn [seq_post]; [|intros; calls_go; by eexists];
  intros (rev & Hrev & ->); apply wp_mbind; eapply wp_calls; [by apply reads_one|];
  intros ?o ?tr (res & Hr & ->); destruct res as [?st|?ds]; cbn [seq_post];
  [calls_go; eexists;
   split; [apply (pulls_packet _ _ _ _ rev); [done|first [exact Hr|by apply reads_one_fail]]|done]|];
  destruct (reads_one_inv _ _ _ _ Hr) as (d & -> & Hd & Hok); cbn [hd].

Lemma pull_FLOW_header_ok sock timeout s :
  wp posix (calls (fun o tr => exists res, pulls sock FLOW [sizeof_FlowPacket] timeout res tr /\
      o = pulled res decode_FLOW) s)
    (pull_FLOW_header sock timeout) s.
Proof.
  unfold pull_FLOW_header. pull_start_go [sizeof_FlowPacket].
  destruct (FlowPacket_of_mem_len d Hd) as [p Hp]. rewrite Hp. wp_go. calls_go.
  eexists; split; [by apply (pulls_packet _ _ _ _ rev)|]. cbn. unfold decode_FlowPacket. by rewrite Hp.
Qed.

Lemma pull_RECV_header_ok sock timeout s :
  wp posix (calls (fun o tr => exists res, pulls sock RECV [sizeof_RecvPacket] timeout res tr /\
      o = pulled res decode_RECV) s)
    (pull_RECV_header sock timeout) s.
Proof.
  unfold pull_RECV_header. pull_start_go [sizeof_RecvPacket].
  destruct (RecvPacket_of_mem_len d Hd) as [p Hp]. rewrite Hp. wp_go. calls_go.
  eexists; split; [by apply (pulls_packet _ _ _ _ rev)|]. cbn. unfold decode_RecvPacket. by rewrite Hp.
Qed.

(** The second receive of a packet with an information string. *)
Ltac pull_info_go :=
  apply wp_mbind; eapply wp_calls; [by apply reads_one|];
  intros ?o ?tr (res & Hr2 & ->);
  match goal with Hr : reads _ [_] (inr [?d]) _, Hrev : Z.land ?rev POLLIN <> 0 |- _ =>
    pose proof (reads_one_more _ _ _ _ _ _ _ Hr Hr2) as Hrr;
    destruct res as [?st|?ds]; cbn [seq_post];
    [calls_go; eexists; split; [by apply (pulls_packet _ _ _ _ rev)|done]|]
  end;
  destruct (reads_one_inv _ _ _ _ Hr2) as (infostr & -> & Hd2 & Hok2); cbn [hd].

Lemma pull_SEND_header_ok sock args timeout s :
  wp posix (calls (fun o tr => exists res,
      pulls sock SEND [sizeof_SendPacket; INFOSTRSIZE] timeout res tr /\
      o = pulled res (decode_SEND args)) s)
    (pull_SEND_header sock args timeout) s.
Proof.
  unfold pull_SEND_header. pull_start_go [sizeof_SendPacket; INFOSTRSIZE]. pull_info_go.
  destruct (SendPacket_of_mem_len d Hd) as [p Hp]. rewrite Hp. wp_go.
  destruct (unpack_from_infostring infostr (send_info args)) eqn:Hu; wp_go; calls_go;
    (eexists; split; [by apply (pulls_packet _ _ _ _ rev)|]);
    cbn; unfold decode_SendPacket; by rewrite Hp; cbn; rewrite Hu.
Qed.

Lemma pull_CAST_header_ok sock args timeout s :
  wp posix (calls (fun o tr => exists res,
      pulls sock CAST [sizeof_CastPacket; INFOSTRSIZE] timeout res tr /\
      o = pulled res (decode_CAST args)) s)
    (pull_CAST_header sock args timeout) s.
Proof.
  unfold pull_CAST_header. pull_start_go [sizeof_CastPacket; INFOSTRSIZE]. pull_info_go.
  destruct (CastPacket_of_mem_len d Hd) as [p Hp]. rewrite Hp. wp_go.
  destruct (unpack_from_infostring infostr (cast_info args)) eqn:Hu; wp_go; calls_go;
    (eexists; split; [by apply (pulls_packet _ _ _ _ rev)|]);
    cbn; unfold decode_CastPacket; by rewrite Hp; cbn; rewrite Hu.
Qed.

(** A wrong type is found before anything is taken. *)
Lemma pulled_badtype {A} sock type sizes timeout res (decode : list (list Z) -> option A) tr :
  pulls sock type sizes timeout res tr -> pulled res decode = Fail BADTYPE -> wire tr = [].
Proof.
  destruct 1 as [| | | | | |rev res tr Hrev Hr]; cbn [pulled]; try discriminate; [done|].
  destruct res as [st|ds]; cbn [pulled]; [|by destruct (decode ds)]. intros [= ->].
  remember (inl BADTYPE) as res eqn:E. exfalso. induction Hr; simplify_eq; auto.
Qed.

(** C30: each of the four [push_*_header] functions puts exactly its packet's
    bytes on the control socket, in one send after the socket is ready; every
    failure of a call has its own status, and every path but the failed
    allocation frees the buffer, so none leaks. *)
Theorem push_headers_spec sock timeout cast send (flow : FlowArgs) (recv : RecvArgs) cbytes sbytes s :
  with_info (CastPacket_mem (cast_packet cast)) (cast_info cast) = Some cbytes ->
  with_info (SendPacket_mem (send_packet send)) (send_info send) = Some sbytes ->
  let spec bytes := calls (fun o tr =>
    pushes sock bytes MSG_NOSIGNAL timeout o tr /\ tally heap_delta tr = 0) s in
  wp posix (spec cbytes) (push_CAST_header sock cast timeout) s /\
  wp posix (spec (FlowPacket_mem (flow_packet flow))) (push_FLOW_header sock flow timeout) s /\
  wp posix (spec sbytes) (push_SEND_header sock send timeout) s /\
  wp posix (spec (RecvPacket_mem (recv_packet recv))) (push_RECV_header sock recv timeout) s.
Proof.
  intros Hc Hs. split_and!;
    [eapply wp_calls; [by apply push_CAST_header_ok|]|eapply wp_calls; [apply push_FLOW_header_ok|]
    |eapply wp_calls; [by apply push_SEND_header_ok|]|eapply wp_calls; [apply push_RECV_header_ok|]];
    intros o tr Hp; calls_go; (split; [exact Hp|by eapply pushes_heap]).
Qed.

(** C29: each of the four [pull_*_header] functions waits, peeks at the type byte
    and takes its packet only when the type is the one it expects: on [BADTYPE],
    and on every failure before it, nothing is consumed.  What it returns is the
    decoded packet. *)
Theorem pull_headers_spec sock timeout cast send s :
  wp posix (calls (fun o tr => exists res,
      pulls sock CAST [sizeof_CastPacket; INFOSTRSIZE] timeout res tr /\
      o = pulled res (decode_CAST cast) /\ (o = Fail BADTYPE -> wire tr = [])) s)
    (pull_CAST_header sock cast timeout) s /\
  wp posix (calls (fun o tr => exists res,
      pulls sock FLOW [sizeof_FlowPacket] timeout res tr /\
      o = pulled res decode_FLOW /\ (o = Fail BADTYPE -> wire tr = [])) s)
    (pull_FLOW_header sock timeout) s /\
  wp posix (calls (fun o tr => exists res,
      pulls sock SEND [sizeof_SendPacket; INFOSTRSIZE] timeout res tr /\
      o = pulled res (decode_SEND send) /\ (o = Fail BADTYPE -> wire tr = [])) s)
    (pull_SEND_header sock send timeout) s /\
  wp posix (calls (fun o tr => exists res,
      pulls sock RECV [sizeof_RecvPacket] timeout res tr /\
      o = pulled res decode_RECV /\ (o = Fail BADTYPE -> wire tr = [])) s)
    (pull_RECV_header sock timeout) s.
Proof.
  split_and!;
    [eapply wp_calls; [apply pull_CAST_header_ok|]|eapply wp_calls; [apply pull_FLOW_header_ok|]
    |eapply wp_calls; [apply pull_SEND_header_ok|]|eapply wp_calls; [apply pull_RECV_header_ok|]];
    intros o tr (res & Hp & ->); calls_go; exists res; (split; [exact Hp|]); (split; [done|]);
    intros Hb; eapply pulled_badtype; eauto.
Qed.
End specs.

(** C20: a SEND header sent by one host is read by another, between any byte orders:
    the packet's fields come through, and reading never goes out of its memory; the
    filename, the name, and the address and port of the sender, which the receiver
    takes as its remote address, come through with them when the strings survive the
    information string: a file name of 1 to 255 bytes without a colon, a name of 1 to
    31 bytes without an at sign, an address of 1 to 15 bytes without a colon
    ([infostring_colon_truncates] says what becomes of a file name with a colon). *)
Theorem send_header_exchange (H1 H2 : Host) cs cc ps crc a stack :
  in_width 16 cs -> in_width 32 cc -> in_width 16 ps -> in_width 16 crc ->
  addrs_wf a -> addrs_wf (send_info stack) ->
  exists bytes args,
    with_info (encode_SendPacket H1 cs cc ps crc) a = Some bytes /\
    len bytes = sizeof_SendPacket + INFOSTRSIZE /\
    decode_SEND (H := H2) stack [ztake sizeof_SendPacket bytes; zdrop sizeof_SendPacket bytes] = Some args /\
    send_packet args = {| send_type := SEND; send_pad0 := 0; send_chunk_size := cs;
      send_chunk_count := cc; send_partial_chunk_size := ps; send_crc := crc |} /\
    (field_ok 255 colon (cstr (addrs_filename a)) -> field_ok 31 at_sign (cstr (addrs_name a)) ->
     field_ok 15 colon (cstr (addrs_local_ip a)) ->
     cstr (addrs_filename (send_info args)) = cstr (addrs_filename a) /\
     cstr (addrs_name (send_info args)) = cstr (addrs_name a) /\
     cstr (addrs_remote_ip (send_info args)) = cstr (addrs_local_ip a) /\
     addrs_remote_port (send_info args) = addrs_local_port a).
Proof.
  intros Hcs Hcc Hps Hcrc Ha Hst.
  destruct (infostr_terminated a Ha) as [Hl Ht].
  destruct (unpack_ok (infostr_of a) (send_info stack)) as (a' & Hu & _); [done..|].
  assert (Hlen : len (encode_SendPacket H1 cs cc ps crc) = sizeof_SendPacket)
    by apply (len_SendPacket_mem (H := H1)).
  exists (encode_SendPacket H1 cs cc ps crc ++ infostr_of a). rewrite (with_info_ok _ a a Ha eq_refl).
  rewrite (ztake_app sizeof_SendPacket), (zdrop_app sizeof_SendPacket) by done.
  unfold decode_SEND, encode_SendPacket. rewrite send_wire, decode_send_wire by done.
  cbn [mbind option_bind]. rewrite Hu. cbn [mbind option_bind].
  eexists. split; [done|]. split; [rewrite <- (send_wire H1), len_app; by f_equal|]. split; [done|]. split; [done|].
  intros Hf Hn Hi. destruct (infostring_exchange (zeros INFOSTRSIZE) a (send_info stack))
    as (buf & a2 & Hp & _ & Hu2 & Hrest); [done..|].
  pose proof (with_info_ok [] a a Ha eq_refl) as Hw. unfold with_info in Hw. rewrite Hp in Hw. injection Hw as ->.
  rewrite Hu in Hu2. by injection Hu2 as <-.
Qed.
