(* ===== verification/Data.v ===== *)
(** * Chunk transfer (source/data.c)

    A chunk of the file goes over the data socket in segments of
    [conf->segsize] bytes and a last one with the rest. *)
From S2P Require Import Prelude Protocol Types Sys Wire Utils Mfile NetStream.

(** A pure operation on [conf->filec.mfile]. *)
Definition on_mfile {A} (f : MFILE -> option (A * MFILE)) : M A :=
  c ← sys GetConf;
  '(a, m) ← defined (f (conf_mfile c));
  sys (SetConf (set_mfile m));;
  mret a.

Definition segment_size (conf_segsize rsize : Z) : Z :=
  if conf_segsize <=? rsize then conf_segsize else rsize.

Section with_host.
Context `{Host}.

Definition start_data (sock : sockref) : M unit :=
  c ← sys GetConf;
  let addrs := conf_addrs c in
  CHECK_IPV4 (check_ipv4_format (addrs_local_ip addrs));;
  CHECK_IPV4 (check_ipv4_format (addrs_remote_ip addrs));;
  CHECK_PORT (addrs_local_port addrs);;
  CHECK_PORT (addrs_remote_port addrs);;
  init_udp_socket sock (addrs_local_ip addrs) (addrs_local_port addrs)
    (addrs_remote_ip addrs) (addrs_remote_port addrs) false.

Definition end_data (sock : Z) : M unit := close_socket sock.

(** One turn of the sender's loop: the bytes of the chunk that remain. *)
Definition push_segment (sock timeout : Z) (rsize : Z) : M (Z + unit) :=
  if rsize =? 0 then mret (inr tt) else
  c ← sys GetConf;
  let segsize := segment_size (conf_segsize c) rsize in
  segbuf ← on_mfile (fun m =>
    '(segbuf, _, m) ← mfread (zeros (conf_segsize c)) segsize 1 m; Some (segbuf, m));
  '(r, revents) ← sys (Poll sock POLLOUT timeout);
  (if r =? -1 then CHECK_SSTAT FAILURE else
   if r =? 0 then CHECK_SSTAT TIMEOUT else
   CHECK_SSTAT (if Z.land revents POLLOUT =? 0 then ERRPOLL else SUCCESS));;
  _stat ← status_of (push_udp_data sock segbuf segsize);
  CHECK_SSTAT _stat;;
  mret (inl (rsize - segsize)).

Definition push_chunk_data (sock : Z) (chunk : ChunkContext) (timeout : Z) : M unit :=
  c ← sys GetConf;
  segbuf ← sys (Malloc (conf_segsize c));
  if negb segbuf then fail EMALLOC else
  pos ← on_mfile (fun m => Some (mfseek m (cc_start_pos chunk)));
  CHECK_EQUAL (cc_start_pos chunk) pos EMFSEEK;;
  loop (push_segment sock timeout) (cc_chunk_size chunk);;
  sys Free.

(** One turn of the receiver's loop. *)
Definition pull_segment (sock timeout : Z) (rsize : Z) : M (Z + unit) :=
  if rsize =? 0 then mret (inr tt) else
  c ← sys GetConf;
  let segsize := segment_size (conf_segsize c) rsize in
  '(r, revents) ← sys (Poll sock POLLIN timeout);
  segbuf ← (if r =? -1 then sys Free;; fail FAILURE else
            if r =? 0 then sys Free;; fail TIMEOUT else
            if Z.land revents POLLIN =? 0 then sys Free;; fail ERRPOLL else
            free_on_fail (pull_udp_data sock (zeros (conf_segsize c)) segsize));
  on_mfile (fun m => '(_, m) ← mfwrite segbuf segsize 1 m; Some (tt, m));;
  mret (inl (rsize - segsize)).

Definition pull_chunk_data (sock : Z) (chunk : ChunkContext) (timeout : Z) : M unit :=
  c ← sys GetConf;
  segbuf ← sys (Malloc (conf_segsize c));
  if negb segbuf then fail EMALLOC else
  pos ← on_mfile (fun m => Some (mfseek m (cc_start_pos chunk)));
  CHECK_EQUAL (cc_start_pos chunk) pos EMFSEEK;;
  (if cc_start_pos chunk =? 0
   then
     c ← sys GetConf;
     _stat ← status_of (set_socket_rcvlowsize sock (size_t (2 * conf_segsize c)));
     CHECK_SSTAT _stat
   else mret tt);;
  loop (pull_segment sock timeout) (cc_chunk_size chunk);;
  c ← sys GetConf;
  r ← mfsync (conf_mfile c) MS_SYNC;
  CHECK_INT r EMFSYNC;;
  sys Free.

End with_host.

(** ** The state of a transfer *)

(** The configuration at sequence number [seq] with the stream at [pos]. *)
Definition at_chunk (seq pos : Z) (c : InitConfig) : InitConfig :=
  set_conf_seq seq (set_mfile (set_mf_pos pos (conf_mfile c)) c).

(** A file open and mapped, with segments to cut it in. *)
Record transfer_ok (c : InitConfig) : Prop := {
  to_file : mfile_ok (conf_mfile c);
  to_open : mf_open (conf_mfile c) <> 0;
  to_segsize : 0 < conf_segsize c < 2 ^ 63
}.

(** The bytes of a chunk. *)
Definition chunk_bytes (m : MFILE) (chunk : ChunkContext) : list Z :=
  ztake (cc_chunk_size chunk) (zdrop (cc_start_pos chunk) (mf_bytes m)).

(** A chunk inside the file. *)
Definition chunk_in (m : MFILE) (chunk : ChunkContext) : Prop :=
  0 <= cc_start_pos chunk < mf_size m /\ 0 <= cc_chunk_size chunk /\
  cc_start_pos chunk + cc_chunk_size chunk <= mf_size m.

(** What a failure of the receiver may be. *)
Definition pull_data_errors : list status_t :=
  [EMALLOC; FAILSET; FAILURE; TIMEOUT; ERRPOLL; ERRRECV; LOWSIZE; EMFSYNC].

Lemma start_data_ok `{Host} sock s :
  wp posix (does (socket_made SOCK_DGRAM sock (p_conf s)) s) (start_data sock) s.
Proof.
  unfold start_data. start_socket_go. apply init_udp_socket_made, dialable_pton.
Qed.

(** ** The stream in the configuration *)

Lemma wp_on_mfile {A} (Q : outcome A -> pstate -> Prop) f a m s :
  f (conf_mfile (p_conf s)) = Some (a, m) -> Q (Val a) (with_conf (set_mfile m) s) ->
  wp posix Q (on_mfile f) s.
Proof. intros Hf HQ. unfold on_mfile. wp_go. rewrite Hf. wp_go. exact HQ. Qed.

Lemma segment_size_min segsize rsize : segment_size segsize rsize = Z.min segsize rsize.
Proof. unfold segment_size. destruct (Z.leb_spec segsize rsize); lia. Qed.

Lemma mfsync_quiet m flags s :
  mf_buf m <> None ->
  wp posix (calls (fun o tr => exists r, o = Val r /\ wire tr = [] /\ tally heap_delta tr = 0 /\
      (r = -1 -> EMFSYNC ∈ complaints tr)) s)
    (mfsync m flags) s.
Proof.
  intros Hb. unfold mfsync. wp_go.
  wp_case; wp_go; [|destruct (mf_buf m); [|done]; wp_go]; calls_go; eexists; split_and!; try done;
    intros; complains.
Qed.

Lemma set_mfile_self c : set_mfile (set_mf_pos (mf_pos (conf_mfile c)) (conf_mfile c)) c = c.
Proof. by destruct c as [???????? [[]]]. Qed.

Lemma segments_nil segsize : segments segsize [] = [].
Proof. reflexivity. Qed.

Section sender.
Context `{Host} (c : InitConfig) (sock timeout : Z) (chunk : ChunkContext).
Context (Hc : transfer_ok c) (Hin : chunk_in (conf_mfile c) chunk).

Let data := chunk_bytes (conf_mfile c) chunk.
Let size := cc_chunk_size chunk.
Let at_pos (pos : Z) := set_mfile (set_mf_pos (cc_start_pos chunk + pos) (conf_mfile c)) c.

Lemma len_chunk_bytes : len data = size.
Proof using Hc Hin.
  destruct Hc as [Hm Ho Hs], Hin as (H1 & H2 & H4). destruct (ok_buf _ Hm Ho) as (b & Hb & Hl).
  unfold data, chunk_bytes, size, mf_bytes. rewrite Hb. len_simpl; lia.
Qed.

(** The bytes read at a position of the chunk. *)
Lemma read_segment pos :
  0 <= pos <= size ->
  let n := Z.min (conf_segsize c) (size - pos) in
  exists rest,
    mfread (zeros (conf_segsize c)) n 1 (set_mf_pos (cc_start_pos chunk + pos) (conf_mfile c))
    = Some (ztake (conf_segsize c) (zdrop pos data) ++ rest, n,
            set_mf_pos (cc_start_pos chunk + (pos + n)) (conf_mfile c)).
Proof using Hc Hin.
  intros Hp n. pose proof len_chunk_bytes as Hl.
  destruct Hc as [Hm Ho Hs], Hin as (H1 & H2 & H4). fold size in H2, H4.
  pose proof (ok_size _ Hm).
  destruct (mfread_ok (zeros (conf_segsize c)) n 1
    (set_mf_pos (cc_start_pos chunk + pos) (conf_mfile c))) as (ptr & -> & -> & _).
  - destruct Hm. constructor; cbn; [done|done|lia|done].
  - done.
  - unfold n; lia.
  - rewrite len_zeros by lia. unfold n; lia.
  - cbn [mf_size mf_pos set_mf_pos]. rewrite Z.mul_1_r, Z.min_l by (unfold n; lia).
    change (set_mf_pos ?a (set_mf_pos _ ?m)) with (set_mf_pos a m).
    change (mf_bytes (set_mf_pos _ ?m)) with (mf_bytes m).
    eexists. f_equal. f_equal; [f_equal|f_equal; lia]. f_equal.
    rewrite <- (ztake_min _ (zdrop pos data)), len_zdrop, Hl by lia. fold n.
    unfold data, chunk_bytes. rewrite zdrop_ztake, zdrop_zdrop by lia. fold size.
    rewrite ztake_ztake by (unfold n; lia). done.
Qed.

(** One turn, on a buffer allocated before: the next segment is sent, or the
    buffer is freed. *)
Lemma push_segment_ok pos s :
  p_conf s = at_pos pos -> 0 <= pos < size ->
  let n := Z.min (conf_segsize c) (size - pos) in
  let seg := ztake (conf_segsize c) (zdrop pos data) in
  wp posix (does (fun o tr c' => c' = at_pos (pos + n) /\
      match o with
      | Val r => r = inl (size - pos - n) /\ wire tr = [Out sock seg] /\ tally heap_delta tr = 0
      | Fail st => st ∈ send_errors /\ tally heap_delta tr = -1 /\ st ∈ complaints tr /\
          (wire tr = [] \/ exists k, wire tr = [Out sock (ztake k seg)])
      | _ => False
      end) s)
    (push_segment sock timeout (size - pos)) s.
Proof using Hc Hin.
  intros Hs Hp n seg. unfold push_segment. destruct (Z.eqb_spec (size - pos) 0); [lia|].
  wp_go. rewrite segment_size_min, Hs. change (conf_segsize (at_pos pos)) with (conf_segsize c).
  fold n. destruct (read_segment pos) as (rest & Hr); [lia|]. fold n seg in Hr.
  eapply wp_on_mfile; [rewrite Hs; cbn [conf_mfile at_pos set_mfile]|].
  { change (conf_mfile _) with (set_mf_pos (cc_start_pos chunk + pos) (conf_mfile c)).
    rewrite Hr. reflexivity. }
  wp_go. cbn [fst snd] in *.
  assert (Hc' : set_mfile (set_mf_pos (cc_start_pos chunk + (pos + n)) (conf_mfile c)) (p_conf s)
    = at_pos (pos + n)) by (by rewrite Hs).
  assert (Hrd : mem_read (seg ++ rest) 0 n = Some seg).
  { pose proof len_chunk_bytes as Hl. pose proof (to_segsize _ Hc). assert (Hn : len seg = n).
    { unfold seg. rewrite <- ztake_min, len_zdrop, Hl by lia. apply len_ztake.
      rewrite len_zdrop by lia. unfold n; lia. }
    pose proof (len_nonneg rest). rewrite mem_read_spec by (rewrite ?len_app; lia).
    by rewrite zdrop_0, ztake_app. }
  repeat (wp_case; subst; wp_go).
  - does_go. split_and!; [done|in_list|done|complains|by left].
  - does_go. split_and!; [done|in_list|done|complains|by left].
  - does_go. split_and!; [done|in_list|done|complains|by left].
  - eapply wp_calls; [by apply push_udp_data_ok|].
    intros o tr (m & Hm & -> & ->). repeat case_bool_decide; subst; wp_go; does_go.
    + split_and!; [done|in_list|done|complains|by left].
    + split_and!; [done|in_list|done|complains|]. right. exists m. cbn. by destruct (Z.eqb_spec m (-1)).
    + split_and!; [done|done| |done]. replace m with (len seg) by lia. apply (wire_sent sock seg 0).
Qed.

(** The loop, at [pos] bytes into the chunk. *)
Record push_inv (tr0 : list obs) (rsize : Z) (s : pstate) : Prop := {
  pu_range : 0 <= rsize <= size;
  pu_conf : p_conf s = at_pos (size - rsize);
  pu_trace : exists tr, p_trace s = tr0 ++ tr /\ tally heap_delta tr = 1 /\
    wire tr ++ (Out sock <$> segments (conf_segsize c) (zdrop (size - rsize) data))
    = Out sock <$> segments (conf_segsize c) data
}.

(** The next segment of what remains. *)
Lemma next_segment pos :
  0 <= pos < size ->
  let n := Z.min (conf_segsize c) (size - pos) in
  segments (conf_segsize c) (zdrop pos data)
  = ztake (conf_segsize c) (zdrop pos data) :: segments (conf_segsize c) (zdrop (pos + n) data).
Proof using Hc Hin.
  intros Hp n. pose proof len_chunk_bytes as Hl. pose proof (to_segsize _ Hc).
  assert (Hz : len (zdrop pos data) = size - pos) by (rewrite len_zdrop by lia; lia).
  rewrite segments_step; [|lia|intros E; rewrite E, len_nil in Hz; lia].
  f_equal. rewrite <- (zdrop_min (conf_segsize c)), Hz. fold n.
  by rewrite zdrop_zdrop by (unfold n; lia).
Qed.

Lemma out_prefix w k seg l :
  w ++ (Out sock <$> (seg :: l)) = Out sock <$> segments (conf_segsize c) data ->
  out_bytes sock (w ++ [Out sock (ztake k seg)]) `prefix_of` data /\ out_bytes sock w `prefix_of` data.
Proof using Hc.
  intros Hw. apply (f_equal (out_bytes sock)) in Hw.
  rewrite out_bytes_app, !out_bytes_outs, segments_concat in Hw by apply Hc.
  rewrite <- Hw. rewrite out_bytes_app. split; [|by eexists].
  apply prefix_app. cbn. rewrite Z.eqb_refl, app_nil_r.
  trans seg; [exists (zdrop k seg); by rewrite ztake_zdrop|by eexists].
Qed.

Definition pushed_chunk (o : outcome unit) (tr : list obs) (c' : InitConfig) : Prop :=
  (exists pos, 0 <= pos <= mf_size (conf_mfile c) /\ c' = set_mfile (set_mf_pos pos (conf_mfile c)) c) /\
  tally heap_delta tr = 0 /\
  match o with
  | Val _ => wire tr = Out sock <$> segments (conf_segsize c) data
  | Fail st => st ∈ send_errors /\ st ∈ complaints tr /\ out_bytes sock (wire tr) `prefix_of` data
  | _ => False
  end.

Lemma push_chunk_data_ok s :
  p_conf s = c -> wp posix (does pushed_chunk s) (push_chunk_data sock chunk timeout) s.
Proof using Hc Hin.
  intros Hs. pose proof Hin as (H1 & H2 & H4). fold size in H2, H4.
  unfold push_chunk_data. wp_go. rewrite Hs.
  wp_case; wp_go.
  2:{ does_go. split; [exists (mf_pos (conf_mfile c)); split; [apply Hc|by rewrite set_mfile_self]|].
      split; [done|]. split_and!; [in_list|complains|apply prefix_nil]. }
  eapply wp_on_mfile; [cbn; by rewrite Hs, mfseek_inside by (apply Hc || lia)|].
  wp_go. destruct (Z.eqb_spec (cc_start_pos chunk) (cc_start_pos chunk)) as [_|]; [|done]. wp_go.
  apply (wp_loop _ (push_inv (p_trace s)) (fun r _ => Z.to_nat r)).
  - constructor; [fold size; lia| |].
    + cbn. rewrite Hs. fold size. unfold at_pos. do 2 f_equal. lia.
    + fold size. eexists; split; [reflexivity|]. split; [done|]. by rewrite Z.sub_diag.
  - clear Hr. intros rsize s' [Hr Hcs (tr0 & Ht & Hh & Hw)].
    destruct (Z.eq_dec rsize 0) as [->|Hr0].
    + unfold push_segment. cbn [Z.eqb]. wp_go. exists (tr0 ++ [Obs Free tt]).
      cbn [logged p_trace p_conf]. rewrite Ht, Hcs, app_assoc. destruct r. split; [done|]. split_and!.
      * exists (cc_start_pos chunk + (size - 0)). split; [lia|done].
      * rewrite tally_app, Hh. done.
      * rewrite wire_app, app_nil_r, <- Hw, zdrop_all by (rewrite len_chunk_bytes; lia).
        by rewrite app_nil_r.
    + remember (size - rsize) as pos eqn:Hpos. assert (rsize = size - pos) as -> by lia. clear Hpos.
      pose proof (to_segsize _ Hc). rewrite (next_segment pos) in Hw by lia.
      eapply wp_does; [apply push_segment_ok; [exact Hcs|lia]|].
      intros o tr c' (-> & Ho). destruct o as [r|st|?|]; [|..|done|done]; cbn [loop_post].
      * destruct Ho as (-> & Hwt & Hht). split; [|lia]. set (n := Z.min _ _) in *.
        constructor; fold size; [lia|cbn; f_equal; lia|].
        exists (tr0 ++ tr). cbn. rewrite Ht, <- app_assoc. split; [done|]. split; [by rewrite tally_app, Hh, Hht|].
        rewrite wire_app, Hwt, <- Hw, <- app_assoc. replace (size - (size - pos - n)) with (pos + n) by lia. done.
      * destruct Ho as (Hst & Hht & Hco & Hwt). cbn [seq_post]. exists (tr0 ++ tr).
        cbn [after_does p_trace p_conf]. rewrite Ht, app_assoc. split; [done|]. split_and!.
        { set (n := Z.min _ _). exists (cc_start_pos chunk + (pos + n)). split; [lia|done]. }
        { by rewrite tally_app, Hh, Hht. }
        { done. }
        { by apply complaints_r. }
        rewrite wire_app. destruct Hwt as [->|[k ->]].
        { rewrite app_nil_r. apply (proj2 (out_prefix _ 0 _ _ Hw)). }
        apply (proj1 (out_prefix _ k _ _ Hw)).
Qed.
End sender.

Section receiver.
Context `{Host} (c : InitConfig) (sock timeout : Z) (chunk : ChunkContext).
Context (Hc : transfer_ok c) (Hin : chunk_in (conf_mfile c) chunk).

Let start := cc_start_pos chunk.
Let size := cc_chunk_size chunk.
Let old := mf_bytes (conf_mfile c).

(** The stream after [got] has been written at the start of the chunk. *)
Definition file_with (got : list Z) : MFILE :=
  mf_content (ztake start old ++ got ++ zdrop (start + len got) old) (conf_mfile c).
Let at_got (got : list Z) := set_mfile (set_mf_pos (start + len got) (file_with got)) c.

Lemma len_old : len old = mf_size (conf_mfile c).
Proof using Hc.
  destruct Hc as [Hm Ho _]. destruct (ok_buf _ Hm Ho) as (b & Hb & Hl). unfold old, mf_bytes. by rewrite Hb.
Qed.

Lemma file_with_bytes got : mf_bytes (file_with got) = ztake start old ++ got ++ zdrop (start + len got) old.
Proof using Hc.
  destruct Hc as [Hm Ho _]. destruct (ok_buf _ Hm Ho) as (b & Hb & Hl).
  unfold file_with, mf_content, mf_bytes. cbn. by rewrite Hb.
Qed.

Lemma file_with_nil pos : set_mf_pos pos (file_with []) = set_mf_pos pos (conf_mfile c).
Proof using Hc.
  destruct Hc as [Hm Ho _]. destruct (ok_buf _ Hm Ho) as (b & Hb & Hl).
  unfold file_with, old, mf_content, mf_bytes, set_mf_pos, set_mf_buf. cbn. rewrite Hb. cbn.
  rewrite len_nil, Z.add_0_r, ztake_zdrop. by destruct b.
Qed.

Lemma file_with_ok got pos :
  len got <= size -> 0 <= pos <= mf_size (conf_mfile c) -> mfile_ok (set_mf_pos pos (file_with got)).
Proof using Hc Hin.
  intros Hg Hp. destruct Hc as [Hm Ho _]. pose proof len_old. destruct Hin as (H1 & H2 & H4).
  fold start size in H1, H2, H4. destruct (ok_buf _ Hm Ho) as (b & Hb & Hl). pose proof (len_nonneg got).
  constructor; cbn; [|by intros; apply Hm|done|by apply Hm].
  intros _. rewrite Hb. eexists; split; [reflexivity|]. cbn. len_simpl; lia.
Qed.

(** Writing the next segment. *)
Lemma write_segment got ptr d n :
  0 <= n -> mem_read ptr 0 n = Some d -> len got + n <= size ->
  mfwrite ptr n 1 (set_mf_pos (start + len got) (file_with got))
  = Some (n, set_mf_pos (start + len (got ++ d)) (file_with (got ++ d))).
Proof using Hc Hin.
  intros Hn Hr Hs. pose proof len_old. pose proof Hin as (H1 & H2 & H4). fold start size in H1, H2, H4.
  pose proof (len_nonneg got). pose proof (mem_read_len _ _ _ _ Hr) as Hl.
  rewrite (mfwrite_inside ptr d); [|by apply file_with_ok; lia|by apply Hc|done|done|cbn; lia].
  cbn [mf_pos set_mf_pos]. change (mf_bytes (set_mf_pos _ ?m)) with (mf_bytes m).
  rewrite file_with_bytes. do 2 f_equal.
  assert (Hz : ztake (start + len got) (ztake start old ++ got ++ zdrop (start + len got) old)
    = ztake start old ++ got) by (rewrite app_assoc; apply ztake_app; len_simpl; lia).
  assert (Hd : zdrop (start + len got + n) (ztake start old ++ got ++ zdrop (start + len got) old)
    = zdrop (start + len (got ++ d)) old).
  { rewrite app_assoc, zdrop_app_ge by (len_simpl; lia). rewrite zdrop_zdrop by (len_simpl; lia).
    f_equal. len_simpl. lia. }
  rewrite Hz, Hd, <- !app_assoc. unfold file_with. rewrite <- !app_assoc.
  replace (start + len (got ++ d)) with (start + len got + n) by (rewrite len_app; lia).
  unfold mf_content, set_mf_pos, set_mf_buf. cbn. by destruct (mf_buf (conf_mfile c)).
Qed.

(** One turn: the next segment is received and written, or the buffer is freed. *)
Lemma pull_segment_ok got s :
  p_conf s = at_got got -> len got < size ->
  let n := Z.min (conf_segsize c) (size - len got) in
  wp posix (does (fun o tr c' =>
      match o with
      | Val r => exists d, r = inl (size - len got - n) /\ len d = n /\ c' = at_got (got ++ d) /\
          wire tr = [In sock d] /\ tally heap_delta tr = 0
      | Fail st => st ∈ pull_data_errors /\ c' = at_got got /\ tally heap_delta tr = -1 /\
          st <> EMFSYNC /\ st ∈ complaints tr /\ exists ds, wire tr = In sock <$> ds
      | _ => False
      end) s)
    (pull_segment sock timeout (size - len got)) s.
Proof using Hc Hin.
  intros Hs Hg n. pose proof (to_segsize _ Hc). pose proof (len_nonneg got).
  unfold pull_segment. destruct (Z.eqb_spec (size - len got) 0); [lia|].
  wp_go. rewrite segment_size_min, Hs. change (conf_segsize (at_got got)) with (conf_segsize c).
  fold n. cbn [fst snd] in *.
  wp_case; wp_go; [does_go; split_and!; first [done|in_list|complains|by exists []]|].
  wp_case; wp_go; [does_go; split_and!; first [done|in_list|complains|by exists []]|]. replace z with 1 by lia.
  wp_case; wp_go; [does_go; split_and!; first [done|in_list|complains|by exists []]|].
  assert (Hn : 0 <= n <= len (zeros (conf_segsize c))) by (rewrite len_zeros; unfold n; lia).
  eapply wp_calls; [by apply pull_udp_data_ok|].
  intros o tr (m & d & -> & [(-> & ->)|[(Hm & Hl & ->)|(-> & Hl & Hok & ->)]]); wp_go.
  - does_go. split_and!; first [done|in_list|complains|by exists []].
  - does_go. split_and!; first [done|in_list|complains|exists [d]; cbn; by destruct (Z.eqb_spec m (-1)); [lia|]].
  - assert (Hrd : mem_read (d ++ zdrop n (zeros (conf_segsize c))) 0 n = Some d).
    { rewrite mem_read_spec by (rewrite ?len_app; len_lia). by rewrite zdrop_0, ztake_app. }
    eapply wp_on_mfile; [cbn; rewrite Hs|].
    { change (conf_mfile _) with (set_mf_pos (start + len got) (file_with got)).
      rewrite (write_segment got _ d) by (done || unfold n; lia). reflexivity. }
    wp_go. does_go. exists d. split_and!; [done|done|by rewrite Hs| |done].
    cbn. by destruct (Z.eqb_spec n (-1)); [lia|].
Qed.

(** The loop, after [got]; [ds] are its segments. *)
Record pull_inv (tr0 : list obs) (rsize : Z) (s : pstate) : Prop := {
  pl_got : exists got ds tr, rsize = size - len got /\ 0 <= rsize /\ p_conf s = at_got got /\
    p_trace s = tr0 ++ tr /\ tally heap_delta tr = 1 /\ wire tr = In sock <$> ds /\
    (forall rest, len rest = rsize ->
       segments (conf_segsize c) (got ++ rest) = ds ++ segments (conf_segsize c) rest)
}.

Definition pulled_chunk (o : outcome unit) (tr : list obs) (c' : InitConfig) : Prop :=
  exists got pos, 0 <= pos <= mf_size (conf_mfile c) /\
    c' = set_mfile (set_mf_pos pos (file_with got)) c /\
    match o with
    | Val _ => len got = size /\ wire tr = In sock <$> segments (conf_segsize c) got /\
        tally heap_delta tr = 0
    | Fail st => len got <= size /\ st ∈ pull_data_errors /\ st ∈ complaints tr /\
        tally heap_delta tr = (if decide (st = EMFSYNC) then 1 else 0) /\ exists ds, wire tr = In sock <$> ds
    | _ => False
    end.

(** The next segment, whatever follows it. *)
Lemma segments_next got d ds n :
  len got < size -> n = Z.min (conf_segsize c) (size - len got) -> len d = n ->
  (forall rest, len rest = size - len got ->
     segments (conf_segsize c) (got ++ rest) = ds ++ segments (conf_segsize c) rest) ->
  forall rest, len rest = size - len got - n ->
    segments (conf_segsize c) ((got ++ d) ++ rest) = (ds ++ [d]) ++ segments (conf_segsize c) rest.
Proof using Hc.
  intros Hg Hn Hd Hds rest Hrest. pose proof (to_segsize _ Hc).
  rewrite <- app_assoc, Hds by (rewrite len_app; lia). rewrite <- app_assoc. f_equal. cbn [app].
  rewrite segments_step; [|lia|intros E; apply (f_equal len) in E; rewrite len_app, len_nil in E; lia].
  rewrite <- (ztake_min (conf_segsize c)), <- (zdrop_min (conf_segsize c)), len_app.
  replace (Z.min _ _) with n by lia. by rewrite ztake_app, zdrop_app.
Qed.

Lemma pull_loop_ok s s0 tr0 :
  p_conf s = set_mfile (set_mf_pos start (conf_mfile c)) c -> p_trace s = p_trace s0 ++ tr0 ->
  tally heap_delta tr0 = 1 -> wire tr0 = [] ->
  wp posix (seq_post posix (does pulled_chunk s0) (fun _ =>
      c ← sys GetConf; r ← mfsync (conf_mfile c) MS_SYNC; CHECK_INT r EMFSYNC;; sys Free))
    (loop (pull_segment sock timeout) size) s.
Proof using Hc Hin.
  intros Hs Ht Hh Hw. pose proof Hin as (H1 & H2 & H4). fold start size in H1, H2, H4.
  apply (wp_loop _ (pull_inv (p_trace s0)) (fun r _ => Z.to_nat r)).
  - constructor. exists [], [], tr0. rewrite len_nil. split_and!; try done; try lia.
    rewrite Hs. unfold at_got. by rewrite file_with_nil, len_nil, Z.add_0_r.
  - clear Hs Ht Hh Hw tr0. intros ? s' [(got & ds & tr0 & -> & Hg & Hcs & Ht & Hh & Hw & Hseg)].
    pose proof (len_nonneg got).
    destruct (Z.eq_dec (size - len got) 0) as [E|Hr0].
    + rewrite E in *. unfold pull_segment. cbn [Z.eqb]. wp_go. rewrite Hcs.
      change (conf_mfile _) with (set_mf_pos (start + len got) (file_with got)).
      eapply wp_calls; [apply mfsync_quiet|].
      { destruct Hc as [Hm Ho _]. destruct (ok_buf _ Hm Ho) as (b & Hb & _). cbn. by rewrite Hb. }
      intros o tr (r & -> & Hwr & Hht & Hco). specialize (Hseg [] eq_refl).
      rewrite segments_nil, !app_nil_r in Hseg.
      wp_go; wp_case; wp_go; does_from Ht; exists got, (start + len got);
        (split; [lia|]); (split; [by rewrite Hcs|]).
      * split; [lia|]. split; [in_list|]. split; [by apply complaints_r, Hco|].
        split; [by rewrite !tally_app, Hh, Hht|]. exists ds. by rewrite !wire_app, Hw, Hwr, !app_nil_r.
      * split; [lia|]. rewrite Hseg, !wire_app, Hw, Hwr, !tally_app, Hh, Hht. by rewrite app_nil_r.
    + pose proof (to_segsize _ Hc).
      eapply wp_does; [apply pull_segment_ok; [exact Hcs|lia]|].
      intros o tr c' Ho. destruct o as [r|st|?|]; [|..|done|done]; cbn [loop_post].
      * destruct Ho as (d & -> & Hd & -> & Hwt & Hht). split; [|lia].
        constructor. exists (got ++ d), (ds ++ [d]), (tr0 ++ tr). rewrite len_app.
        split_and!; [lia|lia|done|cbn; by rewrite Ht, app_assoc|by rewrite tally_app, Hh, Hht| |].
        { rewrite wire_app, Hw, Hwt. by rewrite fmap_app. }
        eapply segments_next; [lia|reflexivity|done|done].
      * destruct Ho as (Hst & -> & Hht & Hne & Hco & ds' & Hwt). cbn [seq_post]. does_from Ht.
        exists got, (start + len got). split_and!; [lia|lia|done|lia|done|by apply complaints_r| |].
        { rewrite tally_app, Hh, Hht. by destruct (decide (st = EMFSYNC)). }
        exists (ds ++ ds'). by rewrite wire_app, Hw, Hwt, fmap_app.
Qed.

Lemma pull_chunk_data_ok s :
  p_conf s = c -> wp posix (does pulled_chunk s) (pull_chunk_data sock chunk timeout) s.
Proof using Hc Hin.
  intros Hs. pose proof Hin as (H1 & H2 & H4). fold start size in H1, H2, H4.
  unfold pull_chunk_data. wp_go. rewrite Hs.
  assert (Hself : c = set_mfile (set_mf_pos (mf_pos (conf_mfile c)) (file_with [])) c).
  { by rewrite file_with_nil, set_mfile_self. }
  wp_case; wp_go.
  2:{ does_go. exists [], (mf_pos (conf_mfile c)). split; [apply Hc|]. split; [by rewrite Hs|].
      split_and!; [done|in_list|complains|done|by exists []]. }
  eapply wp_on_mfile; [cbn; by rewrite Hs, mfseek_inside by (apply Hc || (fold start; lia))|].
  wp_go. rewrite Z.eqb_refl. wp_go. wp_case.
  - unfold set_socket_rcvlowsize. wp_go. wp_case; subst; wp_go.
    + does_go. exists [], start. split; [lia|]. split; [by rewrite file_with_nil, Hs|].
      split_and!; [done|in_list|complains|done|by exists []].
    + eapply pull_loop_ok; [by cbn; rewrite Hs|cbn; by rewrite <- ?app_assoc|done..].
  - wp_go. eapply pull_loop_ok; [by cbn; rewrite Hs|done..].
Qed.
End receiver.

Lemma set_conf_mfile_self c : set_mfile (conf_mfile c) c = c.
Proof. by destruct c as [???????? [[]]]. Qed.

(** Receiving a chunk with no file open: if the network delivers the data, it is
    dropped and the synchronisation has no mapping to work on. *)
Section unopened.
Context `{Host} (sock timeout : Z) (chunk : ChunkContext).

Definition unopened (c : InitConfig) : Prop :=
  mf_open (conf_mfile c) = 0 /\ mf_buf (conf_mfile c) = None /\ 0 < conf_segsize c < 2 ^ 63.

Definition never_done (errors : list status_t) {A} (o : outcome A) : Prop :=
  o = Undef \/ exists st, o = Fail st /\ st ∈ errors.

Lemma pull_segment_unopened rsize s :
  unopened (p_conf s) -> 0 < rsize ->
  wp posix (does (fun o tr c' => c' = p_conf s /\
      ((exists r, o = Val (inl r) /\ 0 <= r < rsize) \/ never_done pull_data_errors o)) s)
    (pull_segment sock timeout rsize) s.
Proof.
  intros (Ho & _ & Hsg) Hr. unfold pull_segment. destruct (Z.eqb_spec rsize 0); [lia|]. wp_go.
  rewrite segment_size_min. cbn [fst snd] in *.
  do 3 (wp_case; wp_go; [does_go; split; [done|right; right; eexists; split; [done|in_list]]|]).
  set (k := Z.min (conf_segsize (p_conf s)) rsize) in *.
  assert (Hk : 0 <= k <= len (zeros (conf_segsize (p_conf s)))) by (rewrite len_zeros; unfold k; lia).
  eapply wp_calls; [by apply pull_udp_data_ok|].
  intros o tr (m & d & -> & [(-> & ->)|[(Hm & Hl & ->)|(-> & Hl & Hok & ->)]]); wp_go.
  1,2: does_go; split; [done|right; right; eexists; split; [done|in_list]].
  eapply wp_on_mfile; [cbn; unfold mfwrite; by rewrite Ho|]. wp_go. does_go.
  split; [apply set_conf_mfile_self|]. left. eexists. split; [done|]. unfold k. lia.
Qed.

Lemma pull_chunk_unopened s :
  unopened (p_conf s) -> 0 <= cc_chunk_size chunk ->
  wp posix (does (fun o tr c' => never_done (EMFSEEK :: pull_data_errors) o) s)
    (pull_chunk_data sock chunk timeout) s.
Proof.
  intros Hun Hsz. unfold pull_chunk_data. wp_go.
  wp_case; wp_go; [|does_go; right; eexists; split; [done|in_list]].
  pose proof Hun as (Ho & Hbuf & Hsg).
  eapply wp_on_mfile; [cbn; unfold mfseek; by rewrite Ho|].
  wp_go. wp_case; wp_go; [|does_go; right; eexists; split; [done|in_list]].
  assert (Hloop : forall s', p_conf s' = p_conf s -> (exists tr, p_trace s' = p_trace s ++ tr) ->
    wp posix (seq_post posix (does (fun o tr c' => never_done (EMFSEEK :: pull_data_errors) o) s) (fun _ =>
      c ← sys GetConf; r ← mfsync (conf_mfile c) MS_SYNC; CHECK_INT r EMFSYNC;; sys Free))
    (loop (pull_segment sock timeout) (cc_chunk_size chunk)) s').
  { intros s' Hs' Ht'.
    apply (wp_loop _ (fun r s1 => 0 <= r /\ p_conf s1 = p_conf s /\ exists tr, p_trace s1 = p_trace s ++ tr)
      (fun r _ => Z.to_nat r)); [done|].
    intros r s1 (Hr1 & Hs1 & tr1 & Ht1). destruct (Z.eq_dec r 0) as [->|].
    - unfold pull_segment. cbn [Z.eqb]. wp_go. rewrite Hs1. unfold mfsync. wp_go.
      wp_case; wp_go; [wp_case; wp_go; [does_from Ht1; right; eexists; split; [done|in_list]|done]|].
      rewrite Hbuf. wp_go. does_from Ht1. by left.
    - eapply wp_does; [apply pull_segment_unopened; [by rewrite Hs1|lia]|].
      intros o tr c' (-> & Ho'). destruct Ho' as [(r' & -> & Hr')|[->|(st & -> & Hst)]]; cbn [loop_post].
      + split; [|lia]. split; [lia|]. split; [done|]. exists (tr1 ++ tr). cbn. by rewrite Ht1, app_assoc.
      + does_from Ht1. by left.
      + does_from Ht1. right. exists st. split; [done|]. by apply list_elem_of_further. }
  unfold set_socket_rcvlowsize. wp_go. wp_case; subst; wp_go.
  - does_go. right. eexists. split; [done|in_list].
  - apply Hloop; [apply set_conf_mfile_self|cbn; rewrite <- ?app_assoc; by eexists].
Qed.
End unopened.

(** ** The theorems *)

(** C21: [push_chunk_data] sends a chunk that lies in the mapped file and begins before
    its end ([chunk_in]) as the segments of
    [conf->segsize] bytes it consists of, in order, and comes to an end; a failure
    has the status of a call that went wrong, and what was sent is a prefix of the
    chunk.  The buffer is freed on each of these
    paths (not on the failed seek to a chunk past the end, [chunk_data_past_end]), and
    nothing of the configuration changes but the file position. *)
Theorem push_chunk_data_spec `{Host} c sock timeout chunk s :
  transfer_ok c -> chunk_in (conf_mfile c) chunk -> p_conf s = c ->
  wp posix (does (fun o tr c' =>
      (exists pos, 0 <= pos <= mf_size (conf_mfile c) /\
         c' = set_mfile (set_mf_pos pos (conf_mfile c)) c) /\
      tally heap_delta tr = 0 /\
      match o with
      | Val _ => wire tr = Out sock <$> segments (conf_segsize c) (chunk_bytes (conf_mfile c) chunk)
      | Fail st => st ∈ send_errors /\ st ∈ complaints tr /\
          out_bytes sock (wire tr) `prefix_of` chunk_bytes (conf_mfile c) chunk
      | _ => False
      end) s)
    (push_chunk_data sock chunk timeout) s.
Proof. intros. by apply push_chunk_data_ok. Qed.

(** C22: [pull_chunk_data], on a chunk that lies in the mapped file and begins before
    its end ([chunk_in]), writes what it receives at the place of the chunk and
    nowhere else: on success [got] has the size of the chunk and came in as its
    segments; on a failure [got] is the part received before it, and the rest of
    the file, inside and outside the chunk, is as it was.  The buffer is freed on
    each of these paths but the failed synchronisation, which leaks it. *)
Theorem pull_chunk_data_spec `{Host} c sock timeout chunk s :
  transfer_ok c -> chunk_in (conf_mfile c) chunk -> p_conf s = c ->
  wp posix (does (fun o tr c' =>
      exists got pos, 0 <= pos <= mf_size (conf_mfile c) /\
        c' = set_mfile (set_mf_pos pos (mf_content
          (ztake (cc_start_pos chunk) (mf_bytes (conf_mfile c)) ++ got
           ++ zdrop (cc_start_pos chunk + len got) (mf_bytes (conf_mfile c))) (conf_mfile c))) c /\
        match o with
        | Val _ => len got = cc_chunk_size chunk /\
            wire tr = In sock <$> segments (conf_segsize c) got /\ tally heap_delta tr = 0
        | Fail st => len got <= cc_chunk_size chunk /\ st ∈ pull_data_errors /\ st ∈ complaints tr /\
            tally heap_delta tr = (if decide (st = EMFSYNC) then 1 else 0) /\ exists ds, wire tr = In sock <$> ds
        | _ => False
        end) s)
    (pull_chunk_data sock chunk timeout) s.
Proof. intros. by apply pull_chunk_data_ok. Qed.

(** What both functions come to on a chunk that starts past the end. *)
Definition past_end (s : pstate) : outcome unit -> pstate -> Prop :=
  does (fun o tr c' => wire tr = [] /\ c' = p_conf s /\
    ((o = Fail EMALLOC /\ tally heap_delta tr = 0) \/
     (o = Fail EMFSEEK /\ tally heap_delta tr = 1))) s.

Ltac past_end_go :=
  wp_go; (wp_case; wp_go; [|does_go; by auto]);
  (eapply wp_on_mfile; [cbn; by rewrite mfseek_outside|]); wp_go;
  (wp_case; wp_go; [done|does_go; rewrite set_conf_mfile_self; by auto]).

Lemma push_past_end_ok `{Host} sock timeout chunk s :
  mf_size (conf_mfile (p_conf s)) <= cc_start_pos chunk -> cc_start_pos chunk <> 0 ->
  wp posix (past_end s) (push_chunk_data sock chunk timeout) s.
Proof. intros. unfold push_chunk_data. past_end_go. Qed.

Lemma pull_past_end_ok `{Host} sock timeout chunk s :
  mf_size (conf_mfile (p_conf s)) <= cc_start_pos chunk -> cc_start_pos chunk <> 0 ->
  wp posix (past_end s) (pull_chunk_data sock chunk timeout) s.
Proof. intros. unfold pull_chunk_data. past_end_go. Qed.

(** A chunk that starts at the end of the file or past it cannot be sent or
    received: both functions fail with [EMFSEEK] before anything is exchanged,
    and leak the buffer they allocated. *)
Lemma chunk_data_past_end `{Host} sock timeout chunk s :
  mf_size (conf_mfile (p_conf s)) <= cc_start_pos chunk -> cc_start_pos chunk <> 0 ->
  let fails := does (fun o tr c' => wire tr = [] /\ c' = p_conf s /\
    ((o = Fail EMALLOC /\ tally heap_delta tr = 0) \/
     (o = Fail EMFSEEK /\ tally heap_delta tr = 1))) s in
  wp posix fails (push_chunk_data sock chunk timeout) s /\
  wp posix fails (pull_chunk_data sock chunk timeout) s.
Proof. intros. split; [by apply push_past_end_ok|by apply pull_past_end_ok]. Qed.
