(* ===== verification/Pusher.v ===== *)
(** * The sender (source/pusher.c)

    The three phases of sending a file on the shared configuration: the handshake
    announces its chunks, the transfer sends each chunk after its FLOW header is
    acknowledged, and the verification sends the checksum of the whole file. *)
From S2P Require Import Prelude Protocol Types Sys Wire Utils Mfile NetStream FileStream Cntl Data.

Section with_host.
Context `{Host} `{Crc}.

(** The block of [sstrncpy]s that fills [header.send.info]; [stack] is what the
    local [header] holds before. *)
Definition copy_info (stack : CntlAddrs) : M CntlAddrs :=
  c ← sys GetConf;
  let addrs := conf_addrs c in
  filename ← defined (sstrncpy (addrs_filename stack) (addrs_filename addrs) MAXFILENAMESIZE);
  name ← defined (sstrncpy (addrs_name stack) (addrs_name addrs) MAXNAMESIZE);
  local_ip ← defined (sstrncpy (addrs_local_ip stack) (addrs_local_ip addrs) MAXIPV4SIZE);
  remote_ip ← defined (sstrncpy (addrs_remote_ip stack) (addrs_remote_ip addrs) MAXIPV4SIZE);
  mret {| addrs_filename := filename; addrs_name := name; addrs_local_ip := local_ip;
          addrs_remote_ip := remote_ip; addrs_local_port := addrs_local_port addrs;
          addrs_remote_port := addrs_remote_port addrs |}.

Definition push_handshake (stack : CntlAddrs) : M unit :=
  c ← sys GetConf;
  '(chcount, pchsize) ← defined (calc_chunk_count (fc_size (conf_filec c)) (conf_chsize c));
  sys (SetConf (fun c => set_conf_chcount chcount (set_conf_pchsize pchsize c)));;
  c ← sys GetConf;
  let packet := pack_RUFShare_SendPacket (conf_chsize c) (conf_chcount c) (conf_pchsize c) 0 in
  info ← copy_info stack;
  push_SEND_header (conf_cntl_sock c) {| send_packet := packet; send_info := info |} (conf_hst_send c);;
  recv ← pull_RECV_header (conf_cntl_sock c) (conf_hst_recv c);
  sys (SetConf (set_conf_seq 1));;
  if recv_ack (recv_packet recv) =? 0 then fail ZEROACK else mret tt.

(** [(conf->seq - 1) * conf->chsize]: 32-bit arithmetic, stored in a [size_t]. *)
Definition chunk_context (c : InitConfig) : ChunkContext :=
  {| cc_start_pos := u32 (u32 (conf_seq c - 1) * conf_chsize c);
     cc_chunk_size := if conf_seq c =? conf_chcount c then conf_pchsize c else conf_chsize c |}.

(** The two retry loops, on the tries that remain: one more try when the answer
    is not an ACK. *)
Definition push_flow_try (packet : FlowPacket) (trycount : Z) : M (Z + Z) :=
  if trycount =? 0 then mret (inr trycount) else
  c ← sys GetConf;
  push_FLOW_header (conf_cntl_sock c) {| flow_packet := packet |} (conf_tft_flow c);;
  recv ← pull_RECV_header (conf_cntl_sock c) (conf_tft_recv c);
  if recv_ack (recv_packet recv) =? 1 then mret (inr trycount) else mret (inl (trycount - 1)).

Definition push_chunk_try (chcon : ChunkContext) (trycount : Z) : M (Z + Z) :=
  if trycount =? 0 then mret (inr trycount) else
  c ← sys GetConf;
  push_chunk_data (conf_data_sock c) chcon (conf_tft_data c);;
  recv ← pull_RECV_header (conf_cntl_sock c) (conf_tft_recv c);
  if recv_ack (recv_packet recv) =? 1 then mret (inr trycount) else mret (inl (trycount - 1)).

(** One chunk, given the tries left at the top of the loop. *)
Definition push_one_chunk (trycount : Z) : M (Z + unit) :=
  c ← sys GetConf;
  if conf_chcount c <? conf_seq c then mret (inr tt) else
  let chcon := chunk_context c in
  crc ← defined (calc_chunk_crc32 (conf_filec c) chcon);
  let packet := pack_RUFShare_FlowPacket (u16 (cc_chunk_size chcon)) (conf_seq c) crc in
  trycount ← loop (push_flow_try packet) trycount;
  CHECK_NOTEQUAL 0 trycount EXPTRY0;;
  trycount ← loop (push_chunk_try chcon) (conf_tf_trycount c);
  CHECK_NOTEQUAL 0 trycount EXPTRY1;;
  c ← sys GetConf;
  sys (SetConf (fun c => set_conf_seq (u32 (conf_seq c + 1)) c));;
  mret (inl (conf_tf_trycount c)).

Definition push_transfer : M unit :=
  c ← sys GetConf;
  loop push_one_chunk (conf_tf_trycount c).

Definition push_verification (stack : CntlAddrs) : M unit :=
  c ← sys GetConf;
  crc ← defined (calc_file_crc16 (conf_filec c));
  let packet := pack_RUFShare_SendPacket (conf_chsize c) (conf_chcount c) (conf_pchsize c) crc in
  info ← copy_info stack;
  push_SEND_header (conf_cntl_sock c) {| send_packet := packet; send_info := info |} (conf_vft_send c);;
  recv ← pull_RECV_header (conf_cntl_sock c) (conf_vft_recv c);
  if recv_ack (recv_packet recv) =? 0 then fail ZEROACK else mret tt.

(** The segment size chosen for the transfer. *)
Definition set_segsize : M unit :=
  sys (SetConf (fun c => set_conf_segsize
    (calc_segment_size (if negb (conf_chsize c =? 0) then conf_chsize c else conf_pchsize c)) c)).

Definition start_pusher (path : list Z) (stack1 stack2 : CntlAddrs) : M unit :=
  start_file_stream path MRD;;
  start_cntl cntl_sock true;;
  push_handshake stack1;;
  start_data data_sock;;
  set_segsize;;
  push_transfer;;
  push_verification stack2;;
  end_file_stream;;
  c ← sys GetConf;
  end_cntl (conf_cntl_sock c);;
  c ← sys GetConf;
  end_data (conf_data_sock c).

End with_host.

(** ** The protocol of the sender *)

(** The acknowledgement a received RECV packet carries. *)
Definition ack_of (H : Host) (r : list Z) : option Z := recv_ack <$> decode_RecvPacket H r.

(** The chunk of a sequence number. *)
Definition chunk_at (c : InitConfig) (seq : Z) : ChunkContext := chunk_context (set_conf_seq seq c).
Definition data_at (c : InitConfig) (seq : Z) : list Z := chunk_bytes (conf_mfile c) (chunk_at c seq).

(** The file is split as [calc_chunk_count] does, and its positions and chunk
    numbers fit 32 bits. *)
Record announced (c : InitConfig) : Prop := {
  an_transfer : transfer_ok c;
  an_chsize : 0 < conf_chsize c < 2 ^ 16;
  an_size : mf_size (conf_mfile c) < 2 ^ 32;
  an_chcount : conf_chcount c = mf_size (conf_mfile c) / conf_chsize c + 1;
  an_pchsize : conf_pchsize c = mf_size (conf_mfile c) mod conf_chsize c;
  an_count : conf_chcount c + 1 < 2 ^ 32;
  an_trycount : 0 < conf_tf_trycount c
}.

(** A chunk that is not empty: every one but the last of a file whose size is a
    multiple of the chunk size. *)
Definition sendable (c : InitConfig) (seq : Z) : Prop :=
  1 <= seq <= conf_chcount c /\ (seq < conf_chcount c \/ conf_pchsize c <> 0).

(** A message answered by an ACK, and by anything else. *)
Definition acked (H : Host) (fd : Z) (msg w : list wev) : Prop :=
  exists r, ack_of H r = Some 1 /\ w = msg ++ [In fd r].
Definition nacked (H : Host) (fd : Z) (msg w : list wev) : Prop :=
  exists r a, ack_of H r = Some a /\ a <> 1 /\ w = msg ++ [In fd r].

(** The answers taken along a trace. *)
Definition verdicts (H : Host) (w : list wev) : list Z :=
  omap (fun e => match e with In _ r => ack_of H r | Out _ _ => None end) w.

(** [n] answers in a row that are not ACKs; and a SEND header answered by a NACK. *)
Definition refusals (H : Host) (n : Z) (w : list wev) : Prop :=
  exists l1 l2 l3, verdicts H w = l1 ++ l2 ++ l3 /\ len l2 = n /\ Forall (fun a => a <> 1) l2.
Definition turned_down (H : Host) (w : list wev) : Prop :=
  exists w1 w2 fd m r, w = w1 ++ Out fd m :: In fd r :: w2 /\ hd_error m = Some SEND /\ ack_of H r = Some 0.

(** What accounts for a status of the sender: a call that went wrong, a message
    that is not the expected answer, a header that was turned down, or as many
    refusals in a row as it has tries. *)
Definition diagnosed (H : Host) (n : Z) (st : status_t) (tr : list obs) : Prop :=
  st ∈ complaints tr \/
  (st = BADTYPE /\ exists fd b, b <> RECV /\ Obs (RecvFrom fd 1 MSG_PEEK) (1, [b]) ∈ tr) \/
  (st = ZEROACK /\ turned_down H (wire tr)) \/
  (st ∈ [EXPTRY0; EXPTRY1] /\ refusals H n (wire tr)).

Section protocol.
Context (H : Host) `{Crc} (c : InitConfig).

(** The FLOW header of a chunk: its size, number and checksum. *)
Definition flow_bytes (seq : Z) : list Z :=
  encode_FlowPacket H (u16 (cc_chunk_size (chunk_at c seq))) seq (u32 (crc_32 (data_at c seq))).

(** The exchanges of the sender from chunk [seq] on: each chunk is announced until
    the announcement is acknowledged, and sent until the data is, at most
    [tf_trycount] times each. *)
Inductive sends_from : Z -> list wev -> Prop :=
| sends_done seq : conf_chcount c < seq -> sends_from seq []
| sends_chunk seq w1 w2 w3 :
    seq <= conf_chcount c ->
    tries (acked H (conf_cntl_sock c) [Out (conf_cntl_sock c) (flow_bytes seq)])
      (nacked H (conf_cntl_sock c) [Out (conf_cntl_sock c) (flow_bytes seq)])
      (Z.to_nat (conf_tf_trycount c)) true w1 ->
    tries (acked H (conf_cntl_sock c) (Out (conf_data_sock c) <$> segments (conf_segsize c) (data_at c seq)))
      (nacked H (conf_cntl_sock c) (Out (conf_data_sock c) <$> segments (conf_segsize c) (data_at c seq)))
      (Z.to_nat (conf_tf_trycount c)) true w2 ->
    sends_from (seq + 1) w3 ->
    sends_from seq (w1 ++ w2 ++ w3).
End protocol.

(** ** Chunks *)

Section chunks.
Context (c : InitConfig) (Ha : announced c).

Let fs := mf_size (conf_mfile c).
Let cs := conf_chsize c.

Lemma announced_bounds :
  0 <= fs / cs /\ fs = cs * (fs / cs) + conf_pchsize c /\ 0 <= conf_pchsize c < cs /\
  conf_chcount c = fs / cs + 1 /\ conf_chcount c + 1 < 2 ^ 32.
Proof using Ha.
  destruct Ha as [[Hm Ho Hs] H1 H2 H3 H4 H5 H6]. pose proof (ok_pos _ Hm) as H0. fold fs in H0, H2, H3, H4. fold cs in H1, H3, H4.
  destruct (div_bounds fs cs) as [Hq Hb]; [lia..|].
  pose proof (Z.div_mod fs cs ltac:(lia)). pose proof (Z.mod_pos_bound fs cs ltac:(lia)).
  lia.
Qed.

(** Where a chunk lies: nothing wraps. *)
Lemma chunk_at_eq seq :
  1 <= seq <= conf_chcount c ->
  chunk_at c seq = {| cc_start_pos := (seq - 1) * cs;
                      cc_chunk_size := if seq =? conf_chcount c then conf_pchsize c else cs |}.
Proof using Ha.
  intros Hs. destruct announced_bounds as (Hq & He & Hp & Hcc & Hc32).
  pose proof (an_size _ Ha) as Hfs. fold fs in Hfs.
  unfold chunk_at, chunk_context. cbn. fold cs. f_equal. unfold wrap.
  rewrite (Z.mod_small (seq - 1)) by lia. rewrite Z.mod_small; [done|].
  assert ((seq - 1) * cs <= fs / cs * cs) by nia. nia.
Qed.

Lemma chunk_at_in seq : sendable c seq -> chunk_in (conf_mfile c) (chunk_at c seq).
Proof using Ha.
  intros [Hs Hne']. destruct announced_bounds as (Hq & He & Hp & Hcc & Hc32).
  rewrite chunk_at_eq by done. unfold chunk_in. cbn. fold fs.
  destruct (Z.eqb_spec seq (conf_chcount c)) as [->|Hne].
  - rewrite Hcc. split_and!; nia.
  - assert (seq * cs <= fs / cs * cs) by nia. split_and!; nia.
Qed.

Lemma len_data_at seq :
  sendable c seq ->
  len (data_at c seq) = if seq =? conf_chcount c then conf_pchsize c else cs.
Proof using Ha.
  intros Hs. unfold data_at. rewrite len_chunk_bytes by (apply Ha || by apply chunk_at_in).
  rewrite chunk_at_eq; [done|apply Hs].
Qed.

(** The chunks up to one of them are the beginning of the file. *)
Lemma chunks_prefix n :
  Z.of_nat n <= conf_chcount c ->
  concat (data_at c <$> seqZ 1 (Z.of_nat n)) = ztake (Z.min (Z.of_nat n * cs) fs) (mf_bytes (conf_mfile c)).
Proof using Ha.
  destruct announced_bounds as (Hq & He & Hp & Hcc & Hc32).
  induction n as [|n IH]; intros Hn; [by rewrite Z.min_l by nia|].
  rewrite Nat2Z.inj_succ, <- Z.add_1_r, seqZ_app, fmap_app, concat_app, IH by lia.
  replace (1 + Z.of_nat n) with (Z.of_nat n + 1) by lia.
  change (seqZ (Z.of_nat n + 1) 1) with [0 + (Z.of_nat n + 1)]. cbn [fmap list_fmap concat].
  rewrite Z.add_0_l, app_nil_r. unfold data_at, chunk_bytes. rewrite chunk_at_eq by lia.
  cbn [cc_chunk_size cc_start_pos]. rewrite Z.add_simpl_r.
  assert (Z.of_nat n * cs <= fs / cs * cs) by nia.
  rewrite (Z.min_l (Z.of_nat n * cs)) by nia.
  rewrite ztake_ztake_zdrop by (destruct (Z.eqb_spec (Z.of_nat n + 1) (conf_chcount c)); nia).
  f_equal. destruct (Z.eqb_spec (Z.of_nat n + 1) (conf_chcount c)) as [E|E].
  - replace (Z.of_nat n) with (fs / cs) by lia. rewrite Z.min_r; nia.
  - assert ((Z.of_nat n + 1) * cs <= fs / cs * cs) by nia. rewrite Z.min_l; nia.
Qed.

(** All of them are the file. *)
Lemma chunks_whole : concat (data_at c <$> seqZ 1 (conf_chcount c)) = mf_bytes (conf_mfile c).
Proof using Ha.
  destruct announced_bounds as (Hq & He & Hp & Hcc & Hc32).
  rewrite <- (Z2Nat.id (conf_chcount c)) by lia. rewrite chunks_prefix, Z2Nat.id by lia.
  apply ztake_all. rewrite (len_old c) by apply Ha. fold fs. rewrite Z.min_r; nia.
Qed.
End chunks.

(** ** The transfer *)

Lemma chunk_crc_ok `{Crc} c chunk :
  transfer_ok c -> 0 <= cc_start_pos chunk -> 0 <= cc_chunk_size chunk ->
  cc_start_pos chunk + cc_chunk_size chunk <= mf_size (conf_mfile c) ->
  calc_chunk_crc32 (conf_filec c) chunk = Some (u32 (crc_32 (chunk_bytes (conf_mfile c) chunk))).
Proof.
  intros [Hm Ho _] H1 H2 H3. destruct (ok_buf _ Hm Ho) as (b & Hb & Hl).
  unfold calc_chunk_crc32, buf_read, chunk_bytes, mf_bytes, conf_mfile in *. rewrite Hb.
  cbn [mbind option_bind]. by rewrite mem_read_spec by lia.
Qed.

(** A RECV packet of its size always decodes. *)
Lemma decode_RECV_some (H : Host) r :
  len r = sizeof_RecvPacket ->
  exists args, decode_RECV [r] = Some args /\ ack_of H r = Some (recv_ack (recv_packet args)).
Proof.
  intros Hr. destruct (RecvPacket_of_mem_len r Hr) as [p Hp].
  unfold decode_RECV, ack_of, decode_RecvPacket. rewrite Hp. cbn. by eexists.
Qed.

Lemma verdicts_app H w w' : verdicts H (w ++ w') = verdicts H w ++ verdicts H w'.
Proof. apply omap_app. Qed.
Lemma verdicts_outs H fd ds : verdicts H (Out fd <$> ds) = [].
Proof. by induction ds as [|d ds IH]. Qed.

Lemma refusals_app H n w1 w w2 : refusals H n w -> refusals H n (w1 ++ w ++ w2).
Proof.
  intros (l1 & l2 & l3 & Hw & Hl). exists (verdicts H w1 ++ l1), l2, (l3 ++ verdicts H w2).
  split; [|done]. by rewrite !verdicts_app, Hw, <- !app_assoc.
Qed.
Lemma turned_down_app H w1 w w2 : turned_down H w -> turned_down H (w1 ++ w ++ w2).
Proof.
  intros (v1 & v2 & fd & m & r & -> & Hm). exists (w1 ++ v1), (v2 ++ w2), fd, m, r.
  split; [|done]. by rewrite <- !app_assoc.
Qed.

Lemma diagnosed_app H n st tr1 tr tr2 : diagnosed H n st tr -> diagnosed H n st (tr1 ++ tr ++ tr2).
Proof.
  intros [Hc|[(Ht & fd & b & Hb & Hin)|[(Hst & Hd)|(Hst & Hr)]]].
  - left. by apply complaints_r, complaints_l.
  - right; left. split; [done|]. exists fd, b. rewrite !elem_of_app. auto.
  - right; right; left. split; [done|]. rewrite !wire_app. by apply turned_down_app.
  - right; right; right. split; [done|]. rewrite !wire_app. by apply refusals_app.
Qed.
Lemma diagnosed_l H n st tr tr' : diagnosed H n st tr -> diagnosed H n st (tr ++ tr').
Proof. apply (diagnosed_app H n st [] tr tr'). Qed.
Lemma diagnosed_r H n st tr tr' : diagnosed H n st tr' -> diagnosed H n st (tr ++ tr').
Proof. intros Hd. apply (diagnosed_app H n st tr tr' []) in Hd. by rewrite app_nil_r in Hd. Qed.
#[export] Hint Resolve diagnosed_l diagnosed_r : ruf.

(** A call that went wrong, somewhere in the trace. *)
Lemma complained H n st tr : st ∈ complaints tr -> diagnosed H n st tr.
Proof. by left. Qed.
#[export] Hint Resolve complained : ruf.

(** Tries that ran out were all refused. *)
Lemma tries_refused H fd msg n w :
  verdicts H msg = [] -> tries (acked H fd msg) (nacked H fd msg) n false w ->
  exists l, verdicts H w = l /\ length l = n /\ Forall (fun a => a <> 1) l.
Proof.
  intros Hm Ht. remember false as b eqn:E.
  induction Ht as [|n w Hg|n b w w' (r & a & Hr & Ha & ->) _ IH]; [by exists []|done|].
  destruct (IH E) as (l & Hw & Hl & Hall). exists (a :: l). rewrite !verdicts_app, Hm, Hw. cbn. rewrite Hr.
  split; [done|]. split; [by rewrite Hl|by constructor].
Qed.

Lemma exhausted H fd msg n tr st :
  0 < n -> verdicts H msg = [] -> tries (acked H fd msg) (nacked H fd msg) (Z.to_nat n) false (wire tr) ->
  st ∈ [EXPTRY0; EXPTRY1] -> diagnosed H n st tr.
Proof.
  intros Hn Hm Ht Hst. destruct (tries_refused _ _ _ _ _ Hm Ht) as (l & Hw & Hl & Hall).
  right; right; right. split; [done|]. exists [], l, []. rewrite app_nil_r. unfold len. rewrite Hl.
  split; [done|]. split; [lia|done].
Qed.

Definition transfer_errors : list status_t :=
  [EMALLOC; FAILURE; TIMEOUT; ERRPOLL; ERRSEND; ERRRECV; LOWSIZE; BADTYPE; EXPTRY0; EXPTRY1].

(** No answer: a call that went wrong, or a byte of another type than an answer's,
    peeked at before anything was taken. *)
Definition misread (fd : Z) (tr : list obs) : Prop :=
  exists tr1 b, b <> RECV /\ in_bytes fd (wire tr1) = [] /\ tr = tr1 ++ [Obs (RecvFrom fd 1 MSG_PEEK) (1, [b])].
Definition unanswered (fd : Z) (st : status_t) (tr : list obs) : Prop :=
  st ∈ complaints tr \/ (st = BADTYPE /\ misread fd tr).

Lemma unanswered_r fd st tr tr' : in_bytes fd (wire tr) = [] -> unanswered fd st tr' -> unanswered fd st (tr ++ tr').
Proof.
  intros Hw [Hc|[-> (tr1 & b & Hb & Hw1 & ->)]]; [left; by apply complaints_r|right]. split; [done|].
  exists (tr ++ tr1), b. by rewrite wire_app, in_bytes_app, Hw, Hw1, app_assoc.
Qed.
Lemma unanswered_diagnosed H n fd st tr : unanswered fd st tr -> diagnosed H n st tr.
Proof.
  intros [Hc|[-> (tr1 & b & Hb & _ & ->)]]; [by left|right; left]. split; [done|]. exists fd, b. split; [done|].
  apply elem_of_app. right. in_list.
Qed.
#[export] Hint Resolve unanswered_r unanswered_diagnosed : ruf.

(** Waiting for the acknowledgement, after calls that left [msg] on the wire. *)
Lemma pull_ack_ok `{Host} sock timeout s :
  wp posix (calls (fun o tr => tally heap_delta tr = 0 /\
      match o with
      | Val args => exists r, ack_of _ r = Some (recv_ack (recv_packet args)) /\ wire tr = [In sock r]
      | Fail st => st ∈ recv_errors /\ unanswered sock st tr
      | _ => False
      end) s) (pull_RECV_header sock timeout) s.
Proof.
  eapply wp_calls; [apply pull_RECV_header_ok|]. intros o tr (res & Hp & ->).
  calls_go. split; [by eapply pulls_heap|]. destruct res as [st|ds]; cbn [pulled].
  - split; [by eapply pulls_outcome|].
    destruct (pulls_complaint _ _ _ _ _ _ Hp) as [Hc|[-> (b & tr' & Hb & Hw & ->)]]; [by repeat constructor|by left|].
    right. split; [done|]. exists tr', b. by rewrite Hw.
  - pose proof (pulls_lens _ _ _ _ _ _ Hp) as Hl.
    apply Forall2_cons_inv_l in Hl as (r & ds' & (Hr & _) & Hn & ->). apply Forall2_nil_inv_l in Hn as ->.
    destruct (decode_RECV_some _ r Hr) as (args & -> & Hack). exists r. split; [done|].
    by rewrite (pulls_wire _ _ _ _ _ _ Hp).
Qed.

(** A failed exchange of the transfer holds no buffer. *)
Definition transfer_failed (H : Host) (n : Z) (st : status_t) (tr : list obs) : Prop :=
  st ∈ transfer_errors /\ tally heap_delta tr = 0 /\ diagnosed H n st tr.

Lemma transfer_failed_app H n st tr tr' :
  tally heap_delta tr = 0 -> transfer_failed H n st tr' -> transfer_failed H n st (tr ++ tr').
Proof. intros Hh (Hst & Ht & Hd). split_and!; [done|by rewrite tally_app, Hh, Ht|by apply diagnosed_r]. Qed.

Lemma send_transfer_error st : st ∈ send_errors -> st ∈ transfer_errors.
Proof. unfold send_errors, transfer_errors. rewrite !elem_of_cons. tauto. Qed.
Lemma recv_transfer_error st : st ∈ recv_errors -> st ∈ transfer_errors.
Proof. unfold recv_errors, transfer_errors. rewrite !elem_of_cons. tauto. Qed.

Section transfer.
Context `{Host} `{Crc} (c : InitConfig) (Ha : announced c).

Let cntl := conf_cntl_sock c.

(** A try with [t] tries left: its message is answered, or it fails. *)
Definition tried (K : InitConfig -> Prop) (msg : list wev) (t : Z) (o : outcome (Z + Z)) (tr : list obs) (c' : InitConfig) : Prop :=
  K c' /\ tally heap_delta tr = 0 /\
  match o with
  | Val (inr t') => t' = t /\ acked _ cntl msg (wire tr)
  | Val (inl t') => t' = t - 1 /\ nacked _ cntl msg (wire tr)
  | Fail st => st ∈ transfer_errors /\ unanswered cntl st tr
  | _ => False
  end.

(** The end of a try: the answer is awaited and judged. *)
Lemma await_ack_ok (K : InitConfig -> Prop) msg t s0 s tr :
  p_trace s = p_trace s0 ++ tr -> wire tr = msg -> in_bytes cntl msg = [] -> tally heap_delta tr = 0 -> K (p_conf s) ->
  wp posix (does (tried K msg t) s0)
    (recv ← pull_RECV_header cntl (conf_tft_recv c);
     if recv_ack (recv_packet recv) =? 1 then mret (inr t) else mret (inl (t - 1))) s.
Proof.
  intros Ht Hw Hin Hh HK. apply wp_mbind. eapply wp_calls; [apply pull_ack_ok|].
  intros o tr' (Hh' & Ho). destruct o as [args|st|?|]; [| |done|done]; cbn [seq_post].
  - destruct Ho as (r & Hr & Hwr). wp_case; wp_go; does_from Ht; (split; [done|]);
      rewrite wire_app, tally_app, Hw, Hwr, Hh, Hh'; (do 2 (split; [done|])).
    + exists r. by rewrite Hr, e.
    + eexists r, _. by split_and!.
  - does_from Ht. split; [done|]. rewrite tally_app, Hh, Hh'. split; [done|]. destruct Ho as [Hst Hd].
    split; [by apply recv_transfer_error|]. apply unanswered_r; [by rewrite Hw|done].
Qed.

Lemma push_flow_try_ok packet t s :
  conf_cntl_sock (p_conf s) = cntl -> conf_tft_recv (p_conf s) = conf_tft_recv c -> 0 < t ->
  wp posix (does (tried (fun c' => c' = p_conf s) [Out cntl (FlowPacket_mem packet)] t) s) (push_flow_try packet t) s.
Proof.
  intros Hcntl Hrecv Ht. unfold push_flow_try. destruct (Z.eqb_spec t 0); [lia|]. wp_go.
  rewrite Hcntl, Hrecv. eapply wp_calls; [apply push_FLOW_header_ok|].
  intros o tr Hp. pose proof (pushes_heap _ _ _ _ _ _ Hp). pose proof (pushes_outcome _ _ _ _ _ _ Hp) as Ho.
  destruct o as [[]|st|?|]; [| |done|done]; cbn [seq_post].
  - eapply await_ack_ok; [done|by eapply pushes_wire|by autorewrite with ruf|done|done].
  - does_go. split; [done|]. split_and!; [done|by apply send_transfer_error|].
    left. by eapply pushes_complaint.
Qed.

(** A loop of tries. *)
Lemma tries_ok (K : InitConfig -> Prop) msg body s :
  (forall (Q : outcome (Z + Z) -> pstate -> Prop) s, Q (Val (inr 0)) s -> wp posix Q (body 0) s) ->
  (forall t s, 0 < t -> K (p_conf s) -> wp posix (does (tried K msg t) s) (body t) s) ->
  K (p_conf s) ->
  wp posix (does (fun o tr c' => K c' /\
      match o with
      | Val t => 0 <= t /\ tally heap_delta tr = 0 /\
          tries (acked _ cntl msg) (nacked _ cntl msg) (Z.to_nat (conf_tf_trycount c)) (0 <? t) (wire tr)
      | Fail st => transfer_failed _ (conf_tf_trycount c) st tr
      | _ => False
      end) s) (loop body (conf_tf_trycount c)) s.
Proof using Ha.
  intros Hend Hbody HK. pose proof (an_trycount _ Ha).
  eapply wp_does; [apply (retry_ok K (fun _ => acked _ cntl msg) (nacked _ cntl msg) (transfer_failed _ (conf_tf_trycount c)))|].
  - exact Hend.
  - intros t s' Ht Hk. eapply wp_does; [by apply Hbody|]. intros o tr c' (Hkc & Hh & Ho). does_go. split; [done|].
    destruct o as [[t'|t']|st|?|]; [tauto|tauto| |done..]. destruct Ho as [Hst Hu]. split_and!; eauto with ruf.
  - apply transfer_failed_app.
  - lia.
  - done.
  - intros o tr c' (Hk & Ho). does_go. split; [done|]. destruct o; tauto.
Qed.

Lemma push_flow_loop_ok packet pos s :
  p_conf s = pos -> conf_cntl_sock pos = cntl -> conf_tft_recv pos = conf_tft_recv c ->
  let msg := [Out cntl (FlowPacket_mem packet)] in
  wp posix (does (fun o tr c' => c' = pos /\
      match o with
      | Val t => 0 <= t /\ tally heap_delta tr = 0 /\
          tries (acked _ cntl msg) (nacked _ cntl msg) (Z.to_nat (conf_tf_trycount c)) (0 <? t) (wire tr)
      | Fail st => transfer_failed _ (conf_tf_trycount c) st tr
      | _ => False
      end) s) (loop (push_flow_try packet) (conf_tf_trycount c)) s.
Proof using Ha.
  intros Hs Hcntl Hrecv msg. apply (tries_ok (fun c' => c' = pos)); [|intros t s' Ht Hs'|done].
  - intros Q s' HQ. unfold push_flow_try. cbn [Z.eqb]. by wp_go.
  - subst pos. rewrite <- Hs'. apply push_flow_try_ok; by rewrite ?Hs'.
Qed.

(** The configurations of the transfer of one chunk. *)
Definition in_chunk (seq : Z) (c' : InitConfig) : Prop :=
  exists pos, 0 <= pos <= mf_size (conf_mfile c) /\ c' = at_chunk seq pos c.

Lemma transfer_at seq pos : 0 <= pos <= mf_size (conf_mfile c) -> transfer_ok (at_chunk seq pos c).
Proof using Ha.
  intros Hp. destruct (an_transfer _ Ha) as [[Hb Hf Hpos Hsz] Ho Hs]. by constructor.
Qed.

Lemma push_chunk_try_ok seq t s :
  in_chunk seq (p_conf s) -> sendable c seq -> 0 < t ->
  wp posix (does (tried (in_chunk seq) (Out (conf_data_sock c) <$> segments (conf_segsize c) (data_at c seq)) t) s)
    (push_chunk_try (chunk_at c seq) t) s.
Proof using Ha.
  intros (pos & Hp & Hs') Hseq Ht. unfold push_chunk_try. destruct (Z.eqb_spec t 0); [lia|]. wp_go.
  eapply wp_does; [apply (push_chunk_data_ok (at_chunk seq pos c)); [by apply transfer_at| |done]|].
  { exact (chunk_at_in c Ha seq Hseq). }
  intros o tr c' ((pos' & Hp' & ->) & Hh & Ho). rewrite Hs'.
  change (set_mfile _ _) with (at_chunk seq pos' c).
  destruct o as [[]|st|?|]; [| |done|done]; cbn [seq_post].
  - apply (await_ack_ok (in_chunk seq) _ t s _ tr); [done|rewrite Hs' in Ho; exact Ho|apply in_outs|done|by exists pos'].
  - does_go. split; [by exists pos'|]. destruct Ho as (Hst & Hco & _).
    split_and!; [done|by apply send_transfer_error|by left].
Qed.

Lemma push_chunk_loop_ok seq s :
  in_chunk seq (p_conf s) -> sendable c seq ->
  let msg := Out (conf_data_sock c) <$> segments (conf_segsize c) (data_at c seq) in
  wp posix (does (fun o tr c' => in_chunk seq c' /\
      match o with
      | Val t => 0 <= t /\ tally heap_delta tr = 0 /\
          tries (acked _ cntl msg) (nacked _ cntl msg) (Z.to_nat (conf_tf_trycount c)) (0 <? t) (wire tr)
      | Fail st => transfer_failed _ (conf_tf_trycount c) st tr
      | _ => False
      end) s) (loop (push_chunk_try (chunk_at c seq)) (conf_tf_trycount c)) s.
Proof using Ha.
  intros Hs Hseq msg. apply (tries_ok (in_chunk seq)); [|intros t s' Ht Hs'; by apply push_chunk_try_ok|done].
  intros Q s' HQ. unfold push_chunk_try. cbn [Z.eqb]. by wp_go.
Qed.

(** One chunk: announced and sent, each until acknowledged. *)
Lemma push_one_chunk_ok seq s :
  in_chunk seq (p_conf s) -> sendable c seq ->
  wp posix (does (fun o tr c' =>
      match o with
      | Val x => x = inl (conf_tf_trycount c) /\ in_chunk (seq + 1) c' /\ tally heap_delta tr = 0 /\
          forall w, sends_from _ c (seq + 1) w -> sends_from _ c seq (wire tr ++ w)
      | Fail st => in_chunk seq c' /\ transfer_failed _ (conf_tf_trycount c) st tr
      | _ => False
      end) s) (push_one_chunk (conf_tf_trycount c)) s.
Proof using Ha.
  intros (pos & Hpos & Hs) Hseq. pose proof Hseq as [Hsr _].
  destruct (announced_bounds c Ha) as (_ & _ & _ & _ & Hcc).
  unfold push_one_chunk. wp_go. rewrite Hs.
  change (conf_chcount (at_chunk seq pos c)) with (conf_chcount c).
  change (conf_seq (at_chunk seq pos c)) with seq.
  change (chunk_context (at_chunk seq pos c)) with (chunk_at c seq).
  destruct (Z.ltb_spec (conf_chcount c) seq); [lia|]. wp_go.
  destruct (chunk_at_in c Ha seq Hseq) as (Hc1 & Hc2 & Hc3).
  rewrite chunk_crc_ok by (first [by apply transfer_at|apply Hc1|exact Hc2|exact Hc3]). wp_go.
  eapply wp_does; [by apply (push_flow_loop_ok _ (at_chunk seq pos c))|].
  intros o tr c' (-> & Ho). destruct o as [t|st|?|]; [| |done|done]; cbn [seq_post].
  2:{ does_go. split; [by exists pos|done]. }
  destruct Ho as (Ht & Hh & Hw). wp_go. wp_case; wp_go.
  { does_go. split; [by exists pos|]. subst t. split_and!; [in_list|done|].
    eapply exhausted; [apply (an_trycount _ Ha)| |exact Hw|in_list]. done. }
  destruct (Z.ltb_spec 0 t) in Hw; [|lia].
  eapply wp_does; [apply (push_chunk_loop_ok seq); [by exists pos|done]|].
  intros o tr' c' (Hk & Ho). destruct o as [t'|st|?|]; [| |done|done]; cbn [seq_post].
  2:{ does_go. split; [done|]. by apply transfer_failed_app. }
  destruct Ho as (Ht' & Hh' & Hw'). wp_go. wp_case; wp_go.
  { does_go. split; [done|]. apply transfer_failed_app; [done|]. subst t'. split_and!; [in_list|done|].
    eapply exhausted; [apply (an_trycount _ Ha)| |exact Hw'|in_list]. apply verdicts_outs. }
  destruct (Z.ltb_spec 0 t') in Hw'; [|lia]. destruct Hk as (pos' & Hp' & ->).
  does_go. split; [done|]. split.
  { exists pos'. split; [done|]. unfold wrap. change (conf_seq (at_chunk seq pos' c)) with seq.
    rewrite Z.mod_small by lia. done. }
  split; [by rewrite tally_app, Hh, Hh'|]. intros w Hwn. rewrite wire_app, <- app_assoc.
  apply sends_chunk; [lia|exact Hw|exact Hw'|done].
Qed.

(** The whole transfer. *)
Lemma push_transfer_ok s :
  in_chunk 1 (p_conf s) -> conf_pchsize c <> 0 ->
  wp posix (does (fun o tr c' =>
      (exists seq, 1 <= seq <= conf_chcount c + 1 /\ in_chunk seq c' /\
         match o with
         | Val _ => seq = conf_chcount c + 1 /\ sends_from _ c 1 (wire tr)
         | Fail st => st ∈ transfer_errors /\ diagnosed _ (conf_tf_trycount c) st tr
         | _ => False
         end) /\ tally heap_delta tr = 0) s) push_transfer s.
Proof using Ha.
  intros (pos & Hpos & Hs) Hpar. destruct (announced_bounds c Ha) as (Hq & _ & _ & Hcc & Hcc32).
  unfold push_transfer. wp_go. rewrite Hs.
  change (conf_tf_trycount (at_chunk 1 pos c)) with (conf_tf_trycount c).
  apply (wp_loop _ (fun t s' => exists seq tr, t = conf_tf_trycount c /\ 1 <= seq <= conf_chcount c + 1 /\
      in_chunk seq (p_conf s') /\ p_trace s' = p_trace s ++ tr /\ tally heap_delta tr = 0 /\
      forall w, sends_from _ c seq w -> sends_from _ c 1 (wire tr ++ w))
    (fun _ s' => Z.to_nat (conf_chcount c + 1 - conf_seq (p_conf s')))).
  - exists 1, []. split_and!; [done|lia|lia|by exists pos|by rewrite app_nil_r|done|done].
  - intros ? s' (seq & tr & -> & Hseq & Hin & Ht & Hh & Hw).
    destruct (Z.eq_dec seq (conf_chcount c + 1)) as [->|Hne].
    + destruct Hin as (pos' & Hp' & Hs'). unfold push_one_chunk. wp_go. rewrite Hs'.
      change (conf_chcount (at_chunk _ _ c)) with (conf_chcount c).
      change (conf_seq (at_chunk ?x _ c)) with x.
      destruct (Z.ltb_spec (conf_chcount c) (conf_chcount c + 1)); [|lia]. wp_go.
      does_from Ht. split; [|done]. exists (conf_chcount c + 1). split_and!; [lia|lia|by exists pos'|done|].
      rewrite <- (app_nil_r (wire tr)). apply Hw. constructor. lia.
    + assert (Hsq : conf_seq (p_conf s') = seq) by (by destruct Hin as (? & _ & ->)).
      eapply wp_does; [apply (push_one_chunk_ok seq); [done|by split; [lia|right]]|].
      intros o tr' c' Ho. destruct o as [x|st|?|]; [| |done|done]; cbn [loop_post].
      * destruct Ho as (-> & Hin' & Hh' & Hw'). split.
        { exists (seq + 1), (tr ++ tr'). split_and!; [done|lia|lia|done| |by rewrite tally_app, Hh, Hh'|].
          - cbn. by rewrite Ht, app_assoc.
          - intros w Hwn. rewrite wire_app, <- app_assoc. by apply Hw, Hw'. }
        destruct Hin' as (p' & _ & ->). cbn. lia.
      * destruct Ho as (Hin' & Hst & Hh' & Hd). does_from Ht. split; [|by rewrite tally_app, Hh, Hh'].
        exists seq. split_and!; [lia|lia|done|done|by apply diagnosed_r].
Qed.

(** The empty last chunk of a file whose size is a multiple of the chunk size. *)
Lemma last_chunk_at :
  conf_pchsize c = 0 ->
  chunk_at c (conf_chcount c) = {| cc_start_pos := mf_size (conf_mfile c); cc_chunk_size := 0 |}.
Proof using Ha.
  intros Hp. destruct (announced_bounds c Ha) as (Hq & He & _ & Hcc & _).
  rewrite chunk_at_eq by (done || lia). rewrite Z.eqb_refl, Hp. f_equal. rewrite Hcc. lia.
Qed.

Lemma push_last_chunk_fails s :
  in_chunk (conf_chcount c) (p_conf s) -> conf_pchsize c = 0 -> 0 < mf_size (conf_mfile c) ->
  wp posix (fun o s' => exists st, o = Fail st /\ st ∈ EMFSEEK :: transfer_errors)
    (push_one_chunk (conf_tf_trycount c)) s.
Proof using Ha.
  intros (pos & Hpos & Hs) Hp Hsz. pose proof (last_chunk_at Hp) as Hlast.
  unfold push_one_chunk. wp_go. rewrite Hs. set (seq := conf_chcount c) in *.
  change (conf_chcount (at_chunk seq pos c)) with seq.
  change (conf_seq (at_chunk seq pos c)) with seq.
  change (chunk_context (at_chunk seq pos c)) with (chunk_at c seq).
  destruct (Z.ltb_spec seq seq); [lia|]. wp_go. rewrite Hlast.
  rewrite chunk_crc_ok by (first [by apply transfer_at|cbn; lia]). wp_go.
  eapply wp_does; [by apply (push_flow_loop_ok _ (at_chunk seq pos c))|].
  intros o tr c' (-> & Ho). destruct o as [t|st|?|]; [| |done|done]; cbn [seq_post].
  2:{ exists st. split; [done|]. apply list_elem_of_further, Ho. }
  wp_go. wp_case; wp_go; [eexists; split; [done|in_list]|].
  apply (wp_loop _ (fun t s' => t = conf_tf_trycount c /\ p_conf s' = at_chunk seq pos c) (fun _ _ => 0%nat));
    [done|].
  intros ? s' [-> Hs']. pose proof (an_trycount _ Ha). unfold push_chunk_try.
  destruct (Z.eqb_spec (conf_tf_trycount c) 0); [lia|]. wp_go.
  eapply wp_does; [apply push_past_end_ok; rewrite ?Hs'; [exact (Z.le_refl _)|cbn [cc_start_pos]; lia]|].
  intros o tr' c' (_ & _ & [[-> _]|[-> _]]); cbn [seq_post loop_post]; eexists; (split; [done|in_list]).
Qed.

Lemma push_transfer_multiple_ok s :
  in_chunk 1 (p_conf s) -> conf_pchsize c = 0 -> 0 < mf_size (conf_mfile c) ->
  wp posix (fun o s' => exists st, o = Fail st /\ st ∈ EMFSEEK :: transfer_errors) push_transfer s.
Proof using Ha.
  intros (pos & Hpos & Hs) Hp Hsz. destruct (announced_bounds c Ha) as (Hq & _ & _ & Hcc & _).
  unfold push_transfer. wp_go. rewrite Hs.
  apply (wp_loop _ (fun t s' => exists seq, t = conf_tf_trycount c /\ 1 <= seq <= conf_chcount c /\
      in_chunk seq (p_conf s')) (fun _ s' => Z.to_nat (conf_chcount c - conf_seq (p_conf s')))).
  { exists 1. split_and!; [done|lia|lia|by exists pos]. }
  intros ? s' (seq & -> & Hseq & Hin). destruct (Z.eq_dec seq (conf_chcount c)) as [->|Hne].
  - eapply wp_mono; [by apply push_last_chunk_fails|]. intros o s'' (st & -> & Hst). cbn. by exists st.
  - assert (Hsq : conf_seq (p_conf s') = seq) by (by destruct Hin as (? & _ & ->)).
    eapply wp_does; [apply (push_one_chunk_ok seq); [done|split; [lia|left; lia]]|].
    intros o tr' c' Ho. destruct o as [x|st|?|]; [| |done|done]; cbn [loop_post].
    + destruct Ho as (-> & Hin' & _). split; [exists (seq + 1); by split_and!; [..|lia|lia|]|].
      destruct Hin' as (p' & _ & ->). cbn. lia.
    + exists st. split; [done|]. apply list_elem_of_further, Ho.
Qed.
End transfer.

(** ** The handshake and the verification *)

(** The SEND header of the sender. *)
Definition send_bytes (H : Host) (c : InitConfig) (crc : Z) : list Z :=
  encode_SendPacket H (conf_chsize c) (conf_chcount c) (conf_pchsize c) crc ++ infostr_of (conf_addrs c).

(** The copies fit, and the information string is the one of what was copied. *)
Lemma copies_ok stack a :
  addrs_wf stack -> addrs_wf a ->
  exists f n l r, sstrncpy (addrs_filename stack) (addrs_filename a) MAXFILENAMESIZE = Some f /\
    sstrncpy (addrs_name stack) (addrs_name a) MAXNAMESIZE = Some n /\
    sstrncpy (addrs_local_ip stack) (addrs_local_ip a) MAXIPV4SIZE = Some l /\
    sstrncpy (addrs_remote_ip stack) (addrs_remote_ip a) MAXIPV4SIZE = Some r /\
    let info := {| addrs_filename := f; addrs_name := n; addrs_local_ip := l; addrs_remote_ip := r;
      addrs_local_port := addrs_local_port a; addrs_remote_port := addrs_remote_port a |} in
    addrs_wf info /\ infostring info = infostring a.
Proof.
  intros Hst Ha. pose proof Hst as [Sf Sn Sl Sr _ _]. pose proof Ha as [Wf Wn Wl Wr Wlp Wrp].
  unfold MAXFILENAMESIZE, MAXNAMESIZE, MAXIPV4SIZE in *.
  destruct (sstrncpy_ok (addrs_filename stack) (addrs_filename a) 256) as (f & -> & Lf & Cf & _); [lia|lia|right; lia|].
  destruct (sstrncpy_ok (addrs_name stack) (addrs_name a) 32) as (n & -> & Ln & Cn & _); [lia|lia|right; lia|].
  destruct (sstrncpy_ok (addrs_local_ip stack) (addrs_local_ip a) 16) as (l & -> & Ll & Cl & _); [lia|lia|right; lia|].
  destruct (sstrncpy_ok (addrs_remote_ip stack) (addrs_remote_ip a) 16) as (r & -> & Lr & Cr & _); [lia|lia|right; lia|].
  exists f, n, l, r. do 4 (split; [done|]).
  cbv zeta. match goal with |- addrs_wf ?i /\ _ => set (info := i) end.
  assert (Hi : addrs_wf info) by (constructor; cbn; unfold MAXFILENAMESIZE, MAXNAMESIZE, MAXIPV4SIZE; first [done|lia]).
  split; [done|]. rewrite !infostring_eq by done. cbn. rewrite Cf, Cn, Cl. cbn. by rewrite !ztake_ztake by lia.
Qed.

Lemma copy_info_ok stack (Q : outcome CntlAddrs -> pstate -> Prop) s :
  addrs_wf stack -> addrs_wf (conf_addrs (p_conf s)) ->
  (forall info, addrs_wf info -> infostring info = infostring (conf_addrs (p_conf s)) -> Q (Val info) s) ->
  wp posix Q (copy_info stack) s.
Proof.
  intros Hst Ha HQ. destruct (copies_ok _ _ Hst Ha) as (f & n & l & r & Hf & Hn & Hl & Hr & Hi & Hs).
  unfold copy_info. wp_go. rewrite Hf. wp_go. rewrite Hn. wp_go. rewrite Hl. wp_go. rewrite Hr. wp_go.
  by apply HQ.
Qed.

Section handshake.
Context `{Host} `{Crc}.

(** A SEND header pushed and its answer pulled. *)
Definition exchanged (fd : Z) (bytes : list Z) (o : outcome unit) (tr : list obs) : Prop :=
  tally heap_delta tr = 0 /\
  match o with
  | Val _ => exists r a, ack_of _ r = Some a /\ a <> 0 /\ wire tr = [Out fd bytes; In fd r]
  | Fail ZEROACK => exists r, ack_of _ r = Some 0 /\ wire tr = [Out fd bytes; In fd r]
  | Fail st => st ∈ send_errors ++ recv_errors /\ unanswered fd st tr
  | _ => False
  end.

Lemma exchanged_fail fd bytes st tr :
  st ∈ send_errors ++ recv_errors -> tally heap_delta tr = 0 -> unanswered fd st tr -> exchanged fd bytes (Fail st) tr.
Proof.
  intros Hst Hh Hd. split; [done|]. destruct st; try done. exfalso. revert Hst.
  change (ZEROACK ∉ send_errors ++ recv_errors). by apply (bool_decide_unpack _).
Qed.

Lemma exchanged_error n fd bytes st tr :
  exchanged fd bytes (Fail st) tr -> hd_error bytes = Some SEND ->
  (st ∈ send_errors ++ recv_errors \/ st = ZEROACK) /\ diagnosed _ n st tr.
Proof.
  intros [_ Ho] Hb. destruct st; try (by destruct Ho; eauto with ruf). destruct Ho as (r & Hr & Hw).
  split; [by right|]. right; right; left. split; [done|]. by exists [], [], fd, bytes, r.
Qed.

Lemma exchanged_ack fd bytes r a tr tr' (o : outcome unit) :
  wire tr = [Out fd bytes] -> tally heap_delta tr = 0 -> ack_of _ r = Some a ->
  wire tr' = [In fd r] -> tally heap_delta tr' = 0 ->
  o = (if a =? 0 then Fail ZEROACK else Val tt) -> exchanged fd bytes o (tr ++ tr').
Proof.
  intros Hw Hh Hr Hw' Hh' ->. split; [by rewrite tally_app, Hh, Hh'|].
  destruct (Z.eqb_spec a 0) as [->|Hne]; rewrite wire_app, Hw, Hw'; [by exists r|by exists r, a].
Qed.

Lemma push_handshake_ok stack c s cc ps :
  p_conf s = c -> addrs_wf stack -> addrs_wf (conf_addrs c) ->
  calc_chunk_count (fc_size (conf_filec c)) (conf_chsize c) = Some (cc, ps) ->
  let c1 := set_conf_chcount cc (set_conf_pchsize ps c) in
  wp posix (does (fun o tr c' => exchanged (conf_cntl_sock c) (send_bytes _ c1 0) o tr /\
      (c' = set_conf_seq 1 c1 \/ (c' = c1 /\ exists st, o = Fail st /\ st ∈ send_errors ++ recv_errors))) s)
    (push_handshake stack) s.
Proof.
  intros <- Hst Ha Hcc c1. unfold push_handshake. wp_go. rewrite Hcc. wp_go.
  apply copy_info_ok; [done|exact Ha|]. intros info Hi Hinf. wp_go.
  eapply wp_calls; [apply push_SEND_header_ok; by apply with_info_ok|].
  intros o tr Hp. pose proof (pushes_heap _ _ _ _ _ _ Hp) as Hh.
  pose proof (pushes_outcome _ _ _ _ _ _ Hp) as Ho.
  destruct o as [[]|st|?|]; [| |done|done]; cbn [seq_post].
  2:{ assert (st ∈ send_errors ++ recv_errors) by (apply elem_of_app; by left).
      does_go. split; [|right; split; [done|by exists st]].
      apply exchanged_fail; [done|done|]. left. by eapply pushes_complaint. }
  wp_go. eapply wp_calls; [apply pull_ack_ok|]. intros o tr' (Hh' & Ho').
  destruct o as [args|st|?|]; [| |done|done]; cbn [seq_post].
  2:{ destruct Ho' as [Hst' Hd]. assert (st ∈ send_errors ++ recv_errors) by (apply elem_of_app; by right).
      does_go. split; [apply exchanged_fail; [done|by rewrite tally_app, Hh, Hh'|]|].
      { apply unanswered_r; [rewrite (pushes_wire _ _ _ _ _ Hp); by autorewrite with ruf|done]. }
      right. split; [done|by exists st]. }
  destruct Ho' as (r & Hr & Hw'). pose proof (pushes_wire _ _ _ _ _ Hp) as Hw. wp_go.
  wp_case; wp_go; does_go; (split; [|by left]); eapply exchanged_ack; try done; rewrite ?e; try done.
  by destruct (Z.eqb_spec (recv_ack (recv_packet args)) 0).
Qed.

Lemma file_crc_ok c :
  transfer_ok c -> fc_size (conf_filec c) = mf_size (conf_mfile c) ->
  calc_file_crc16 (conf_filec c) = Some (u16 (crc_16 (mf_bytes (conf_mfile c)))).
Proof.
  intros [Hm Ho _] Hfs. destruct (ok_buf _ Hm Ho) as (b & Hb & Hl). pose proof (ok_pos _ Hm).
  unfold calc_file_crc16, buf_read, mf_bytes. change (fc_mfile (conf_filec c)) with (conf_mfile c).
  rewrite Hb. cbn [mbind option_bind]. rewrite mem_read_spec, zdrop_0, ztake_all by lia. done.
Qed.

Lemma push_verification_ok stack c s :
  p_conf s = c -> addrs_wf stack -> addrs_wf (conf_addrs c) ->
  transfer_ok c -> fc_size (conf_filec c) = mf_size (conf_mfile c) ->
  wp posix (calls (exchanged (conf_cntl_sock c)
      (send_bytes _ c (u16 (crc_16 (mf_bytes (conf_mfile c)))))) s) (push_verification stack) s.
Proof.
  intros <- Hst Ha Ht Hfs. unfold push_verification. wp_go. rewrite file_crc_ok by done. wp_go.
  apply copy_info_ok; [done|exact Ha|]. intros info Hi Hinf. wp_go.
  eapply wp_calls; [apply push_SEND_header_ok; by apply with_info_ok|].
  intros o tr Hp. pose proof (pushes_heap _ _ _ _ _ _ Hp) as Hh.
  pose proof (pushes_outcome _ _ _ _ _ _ Hp) as Ho.
  destruct o as [[]|st|?|]; [| |done|done]; cbn [seq_post].
  2:{ calls_go. apply exchanged_fail; [apply elem_of_app; by left|done|].
      left. by eapply pushes_complaint. }
  wp_go. eapply wp_calls; [apply pull_ack_ok|]. intros o tr' (Hh' & Ho').
  destruct o as [args|st|?|]; [| |done|done]; cbn [seq_post].
  2:{ destruct Ho' as [Hst' Hd]. calls_go.
      apply exchanged_fail; [apply elem_of_app; by right|by rewrite tally_app, Hh, Hh'|].
      apply unanswered_r; [rewrite (pushes_wire _ _ _ _ _ Hp); by autorewrite with ruf|done]. }
  destruct Ho' as (r & Hr & Hw'). pose proof (pushes_wire _ _ _ _ _ Hp) as Hw. wp_go.
  wp_case; wp_go; calls_go; eapply exchanged_ack; try done; rewrite ?e; try done.
  by destruct (Z.eqb_spec (recv_ack (recv_packet args)) 0).
Qed.
End handshake.

(** ** A whole sending *)

(** The file keeps its size: every question about it has the same answer. *)
Definition size_is (sz : Z) (o : obs) : Prop :=
  match ob_call o in sysE X return X -> Prop with
  | Stat _ => fun r => snd r = sz
  | Fstat _ => fun r => snd r = sz
  | _ => fun _ => True
  end (ob_reply o).

(** What goes over the control and the data sockets: the announcement and its
    acknowledgement, the chunks, the checksum of the file and its
    acknowledgement. *)
Definition sender_session (H : Host) `{Crc} (c : InitConfig) (w : list wev) : Prop :=
  exists r1 a1 wt r2 a2,
    ack_of H r1 = Some a1 /\ a1 <> 0 /\ sends_from H c 1 wt /\ ack_of H r2 = Some a2 /\ a2 <> 0 /\
    w = [Out (conf_cntl_sock c) (send_bytes H c 0); In (conf_cntl_sock c) r1] ++ wt
        ++ [Out (conf_cntl_sock c) (send_bytes H c (u16 (crc_16 (mf_bytes (conf_mfile c)))));
            In (conf_cntl_sock c) r2].

(** The configuration of the transfer, for a file of size [sz]. *)
Record prepared (sz : Z) (c c1 : InitConfig) : Prop := {
  pr_announced : announced c1;
  pr_size : mf_size (conf_mfile c1) = sz;
  pr_chsize : conf_chsize c1 = conf_chsize c;
  pr_segsize : conf_segsize c1 = calc_segment_size (conf_chsize c);
  pr_addrs : conf_addrs c1 = conf_addrs c;
  pr_seq : conf_seq c1 = 1;
  pr_fcsize : fc_size (conf_filec c1) = sz;
  pr_trycount : conf_tf_trycount c1 = conf_tf_trycount c;
  pr_bytes : bytes_ok (mf_bytes (conf_mfile c1))
}.

(** The statuses of a sending that fails. *)
Definition pusher_errors : list status_t :=
  stream_errors ++ socket_errors ++ (send_errors ++ recv_errors) ++ (EMFSEEK :: transfer_errors) ++ [ZEROACK; FAILURE].

Lemma pusher_error st :
  st ∈ stream_errors \/ st ∈ socket_errors \/ (st ∈ send_errors ++ recv_errors \/ st = ZEROACK) \/
  st ∈ EMFSEEK :: transfer_errors \/ st = FAILURE ->
  st ∈ pusher_errors.
Proof. unfold pusher_errors. rewrite !elem_of_app, !elem_of_cons. tauto. Qed.

(** Success: the session went over two sockets, different ones when no descriptor
    was used twice, and the file is what it was. *)
Definition sent_file (H : Host) `{Crc} (sz : Z) (c : InitConfig) (s s' : pstate) : Prop :=
  exists c1 tr, p_trace s' = p_trace s ++ tr /\ prepared sz c c1 /\
    conf_pchsize c1 <> 0 /\ sender_session H c1 (wire tr) /\
    mf_bytes (conf_mfile (p_conf s')) = mf_bytes (conf_mfile c1) /\
    Obs (Socket SOCK_STREAM) (conf_cntl_sock c1) ∈ tr /\ Obs (Socket SOCK_DGRAM) (conf_data_sock c1) ∈ tr /\
    (NoDup (sockets tr) -> conf_cntl_sock c1 <> conf_data_sock c1).

Definition sender_done (H : Host) `{Crc} (sz : Z) (c : InitConfig) (s : pstate) (o : outcome unit) (s' : pstate) : Prop :=
  match o with
  | Val _ => sent_file H sz c s s'
  | Fail st => st ∈ pusher_errors /\ exists tr, p_trace s' = p_trace s ++ tr /\
      (sz mod conf_chsize c <> 0 -> dialable (conf_addrs c) -> diagnosed H (conf_tf_trycount c) st tr)
  | _ => False
  end.

Lemma sender_fails (H : Host) `{Crc} sz c s s' st tr0 tr :
  st ∈ stream_errors \/ st ∈ socket_errors \/ (st ∈ send_errors ++ recv_errors \/ st = ZEROACK) \/
  st ∈ EMFSEEK :: transfer_errors \/ st = FAILURE ->
  p_trace s' = p_trace s ++ tr0 ++ tr ->
  (sz mod conf_chsize c <> 0 -> dialable (conf_addrs c) -> diagnosed H (conf_tf_trycount c) st tr) ->
  sender_done H sz c s (Fail st) s'.
Proof.
  intros Hst Ht Hd. split; [by apply pusher_error|]. exists (tr0 ++ tr). split; [done|].
  intros. by apply diagnosed_r, Hd.
Qed.

(** The trace of a state reached from another by the calls known. *)
Ltac trace_go Ht :=
  cbn [after_does after_calls with_conf p_trace]; rewrite ?Ht, <- ?app_assoc, ?app_nil_r; reflexivity.

Section start.
Context `{Host} `{Crc} (sz : Z) (c : InitConfig).

(** From the transfer on. *)
Lemma push_rest_ok c1 stack s0 s tr r1 a1 :
  prepared sz c c1 -> 0 < sz -> addrs_wf stack -> addrs_wf (conf_addrs c) -> p_conf s = c1 ->
  p_trace s = p_trace s0 ++ tr -> ack_of _ r1 = Some a1 -> a1 <> 0 ->
  wire tr = [Out (conf_cntl_sock c1) (send_bytes _ c1 0); In (conf_cntl_sock c1) r1] ->
  Obs (Socket SOCK_STREAM) (conf_cntl_sock c1) ∈ tr -> Obs (Socket SOCK_DGRAM) (conf_data_sock c1) ∈ tr ->
  (forall tr', NoDup (sockets (tr ++ tr')) -> conf_cntl_sock c1 <> conf_data_sock c1) ->
  wp posix (sender_done _ sz c s0)
    (push_transfer;;
     push_verification stack;;
     end_file_stream;;
     c ← sys GetConf;
     end_cntl (conf_cntl_sock c);;
     c ← sys GetConf;
     end_data (conf_data_sock c)) s.
Proof.
  intros Hpr Hsz Hst Hwf Hs Ht Hr1 Ha1 Hw Hcfd Hdfd Hfds. pose proof Hpr as [Ha Hms Hcs Hseg Hadr Hseq Hfc Htry].
  pose proof (ok_pos _ (to_file _ (an_transfer _ Ha))).
  assert (Hin : in_chunk c1 1 (p_conf s)).
  { exists (mf_pos (conf_mfile c1)). split; [done|]. rewrite Hs. unfold at_chunk.
    rewrite set_mfile_self, <- Hseq. by destruct c1. }
  apply wp_mbind. destruct (Z.eq_dec (conf_pchsize c1) 0) as [Hz|Hnz].
  { eapply wp_mono; [apply wp_traced, (push_transfer_multiple_ok c1 Ha); [done|done|lia]|].
    intros o s' [(st & -> & Hst') (tr' & Ht')]. eapply (sender_fails _ _ _ _ _ _ tr tr'); [auto| |].
    - by rewrite Ht', Ht, <- app_assoc.
    - intros Hne. by rewrite <- Hcs, <- Hms, <- (an_pchsize _ Ha) in Hne. }
  eapply wp_does; [by apply (push_transfer_ok c1 Ha)|].
  intros o tr1 c' ((seq & _ & (pos & Hpos & ->) & Ho) & _).
  destruct o as [[]|st|?|]; [| |done..].
  2:{ destruct Ho as [Hst' Hd]. eapply (sender_fails _ _ _ _ _ _ tr tr1);
      [do 3 right; left; by apply list_elem_of_further|trace_go Ht|by rewrite Htry in Hd]. }
  destruct Ho as [-> Hsf]. cbn [seq_post]. apply wp_mbind.
  eapply wp_calls; [eapply push_verification_ok; [reflexivity|done|..]|].
  { cbn. by rewrite Hadr. }
  { apply (transfer_at c1 Ha _ _ Hpos). }
  { cbn. by rewrite Hfc, <- Hms. }
  intros o tr2 Hex. destruct o as [[]|st|?|]; [|apply (exchanged_error (conf_tf_trycount c)) in Hex; [|done]|by destruct Hex..].
  2:{ destruct Hex as [Hst' Hd]. eapply (sender_fails _ _ _ _ _ _ (tr ++ tr1) tr2); [auto|trace_go Ht|done]. }
  destruct Hex as (_ & r2 & a2 & Hr2 & Ha2 & Hw2).
  cbn [seq_post]. apply wp_mbind.
  eapply wp_calls; [apply end_file_stream_ok|]. intros o tr3 (Hw3 & _ & [->|[-> Hd]]).
  2:{ eapply (sender_fails _ _ _ _ _ _ (tr ++ tr1 ++ tr2) tr3); [auto|trace_go Ht|]. intros _ _. left.
      destruct (transfer_at c1 Ha (conf_chcount c1 + 1) _ Hpos) as [Hm Ho _].
      destruct (ok_buf _ Hm Ho) as (b & Hb & _). apply Hd; [|exact (ok_file _ Hm Ho)].
      change (mf_buf (conf_mfile (at_chunk (conf_chcount c1 + 1) pos c1)) <> None). by rewrite Hb. }
  cbn [seq_post]. wp_go. eapply wp_calls; [apply close_socket_ok|]. intros o tr4 (Hw4 & _ & [->|[-> Hd]]).
  2:{ eapply (sender_fails _ _ _ _ _ _ (tr ++ tr1 ++ tr2 ++ tr3) tr4); [auto|trace_go Ht|by left]. }
  wp_go. eapply wp_calls; [apply close_socket_ok|]. intros o tr5 (Hw5 & _ & [->|[-> Hd]]).
  2:{ eapply (sender_fails _ _ _ _ _ _ (tr ++ tr1 ++ tr2 ++ tr3 ++ tr4) tr5); [auto|trace_go Ht|by left]. }
  exists c1, (tr ++ tr1 ++ tr2 ++ tr3 ++ tr4 ++ tr5). split_and!; [|done|done| |done|by apply elem_of_app; left|by apply elem_of_app; left|apply Hfds].
  { cbn. by rewrite Ht, <- !app_assoc. }
  exists r1, a1, (wire tr1), r2, a2. split_and!; try done.
  rewrite !wire_app, Hw, Hw2, Hw3, Hw4, Hw5. by rewrite !app_nil_r.
Qed.

(** The handshake of a prepared sending. *)
Lemma calc_count_ok size cs :
  0 < cs < 2 ^ 16 -> 0 <= size < 2 ^ 32 -> size / cs + 2 < 2 ^ 32 ->
  calc_chunk_count size cs = Some (size / cs + 1, size mod cs).
Proof.
  intros Hcs Hsz Hn. unfold calc_chunk_count, wrap. destruct (Z.eqb_spec cs 0); [lia|].
  destruct (div_bounds size cs) as [Hq Hb]; [lia..|].
  pose proof (Z.div_mod size cs ltac:(lia)). pose proof (Z.mod_pos_bound size cs ltac:(lia)).
  change (2 ^ 64) with 18446744073709551616. change (2 ^ 32) with 4294967296 in *.
  change (2 ^ 16) with 65536 in *.
  rewrite (Z.mod_small (size / cs)), (Z.mod_small (size / cs * cs)), (Z.mod_small (size - _)),
    (Z.mod_small (size - _)), (Z.mod_small (size / cs + 1)) by nia.
  do 2 f_equal. nia.
Qed.

Lemma size_is_stat tr p r z : Forall (size_is sz) tr -> Obs (Stat p) (r, z) ∈ tr -> z = sz.
Proof. intros Hall Hin. rewrite Forall_forall in Hall. apply (Hall _ Hin). Qed.
Lemma size_is_fstat tr f r z : Forall (size_is sz) tr -> Obs (Fstat f) (r, z) ∈ tr -> z = sz.
Proof. intros Hall Hin. rewrite Forall_forall in Hall. apply (Hall _ Hin). Qed.

(** The configuration at the beginning of the transfer. *)
Definition ready_conf (f : FileContext) (fd fd2 : Z) : InitConfig :=
  set_conf_segsize (calc_segment_size (conf_chsize c)) (set_sock data_sock fd2 (set_conf_seq 1
    (set_conf_chcount (sz / conf_chsize c + 1) (set_conf_pchsize (sz mod conf_chsize c)
      (set_sock cntl_sock fd (set_conf_filec f c)))))).

Lemma prepared_at f fd fd2 :
  mfile_ok (fc_mfile f) -> mf_open (fc_mfile f) = 1 -> mf_size (fc_mfile f) = sz -> fc_size f = sz ->
  bytes_ok (mf_bytes (fc_mfile f)) -> 0 < conf_chsize c < 2 ^ 16 -> 0 < conf_tf_trycount c ->
  sz < 2 ^ 32 -> sz / conf_chsize c + 2 < 2 ^ 32 -> prepared sz c (ready_conf f fd fd2).
Proof.
  intros Hok Hop Hms Hfs Hbytes Hcs Htry Hsz Hcount. constructor; try done. constructor; try done.
  - constructor; [exact Hok|change (mf_open (fc_mfile f) <> 0); by rewrite Hop|]. cbn.
    destruct (calc_segment_size_bounds (conf_chsize c)) as (Hb & Hb0 & _); [lia|]. lia.
  - change (mf_size (fc_mfile f) < 2 ^ 32). by rewrite Hms.
  - change (sz / conf_chsize c + 1 = mf_size (fc_mfile f) / conf_chsize c + 1). by rewrite Hms.
  - change (sz mod conf_chsize c = mf_size (fc_mfile f) mod conf_chsize c). by rewrite Hms.
  - cbn. lia.
Qed.

(** A whole sending, from the file to the closed sockets, comes to an end, and
    never in undefined behaviour, when the file keeps its size during it.  It
    succeeds only if the file's size is not a multiple of the chunk size, and then
    exactly the session of the protocol has gone over the sockets: the
    announcement with the file's name and chunks and its acknowledgement, every
    chunk, and the CRC-16 of the whole file with its acknowledgement. *)
Lemma start_pusher_ok path rest stack1 stack2 s :
  no_nul path -> len path + 1 < 2 ^ 31 -> len (fc_name (conf_filec c)) = MAXFILENAMESIZE ->
  addrs_wf (conf_addrs c) -> addrs_wf stack1 -> addrs_wf stack2 ->
  0 < conf_chsize c < 2 ^ 16 -> 0 < conf_tf_trycount c ->
  sz < 2 ^ 32 -> sz / conf_chsize c + 2 < 2 ^ 32 -> p_conf s = c ->
  wp (posix_if (size_is sz)) (sender_done _ sz c s) (start_pusher (path ++ 0 :: rest) stack1 stack2) s.
Proof.
  intros Hnn Hpl Hnl Hwf Hs1 Hs2 Hcs Htry Hsz Hcount Hs. unfold start_pusher.
  apply wp_mbind. eapply wp_use; [by apply (start_file_stream_ok path rest MRD c)|].
  intros o tr1 c' (_ & Hw1 & f & -> & Ho) Hall.
  destruct o as [[]|st|?|]; [| |done..]; cbn [seq_post].
  2:{ eapply (sender_fails _ _ _ _ _ _ [] tr1); [left; apply Ho|trace_go Hs|].
      intros Hmod _. destruct Ho as (_ & _ & _ & [Hd|[(fl & r & He)|[? _]]]); [by left| |done].
      exfalso. apply Hmod. by rewrite <- (size_is_fstat _ _ _ _ Hall He). }
  destruct Ho as (Hok & Hop & Hpos & Hsize & (fl & r & Hfstat) & [Hbytes _] & (p & r' & Hstat) & _).
  pose proof (size_is_stat _ _ _ _ Hall Hstat) as Hfs. pose proof (size_is_fstat _ _ _ _ Hall Hfstat) as Hms.
  apply wp_mbind. eapply wp_use; [apply start_cntl_ok|].
  intros o tr2 c' (Hw2 & _ & Ho) _.
  destruct o as [[]|st|?|]; [| |done..]; cbn [seq_post].
  2:{ destruct Ho as (Hst & _ & Hd). eapply (sender_fails _ _ _ _ _ _ tr1 tr2); [auto|trace_go Hs|].
      intros _ Hdial. left. by apply Hd. }
  destruct Ho as (fd & Hfd0 & -> & Hfd).
  apply wp_mbind. eapply wp_use; [eapply push_handshake_ok; [reflexivity|done|done|]|].
  { cbn. rewrite Hfs. apply calc_count_ok; lia. }
  intros o tr3 c' [Hex Hc'] _.
  destruct o as [[]|st|?|]; [| |by destruct Hex..]; cbn [seq_post].
  2:{ apply (exchanged_error (conf_tf_trycount c)) in Hex as [Hst Hd]; [|done].
      eapply (sender_fails _ _ _ _ _ _ (tr1 ++ tr2) tr3); [auto|trace_go Hs|done]. }
  destruct Hex as (_ & r1 & a1 & Hr1 & Ha1 & Hw3). destruct Hc' as [->|(_ & st & [=] & _)].
  apply wp_mbind. eapply wp_use; [apply start_data_ok|].
  intros o tr4 c' (Hw4 & _ & Ho) _.
  destruct o as [[]|st|?|]; [| |done..]; cbn [seq_post].
  2:{ destruct Ho as (Hst & _ & Hd). eapply (sender_fails _ _ _ _ _ _ (tr1 ++ tr2 ++ tr3) tr4); [auto|trace_go Hs|].
      intros _ Hdial. left. by apply Hd. }
  destruct Ho as (fd2 & Hfd20 & -> & Hfd2).
  apply wp_mbind, wp_set_if. cbn [seq_post].
  match goal with |- context [with_conf ?g ?st] => set (s5 := with_conf g st) end.
  assert (Hs5 : p_conf s5 = ready_conf f fd fd2) by (cbn; by destruct (Z.eqb_spec (conf_chsize c) 0); [lia|]).
  eapply wp_mono; [apply wp_restrict, (push_rest_ok (p_conf s5) stack2 s s5 (tr1 ++ tr2 ++ tr3 ++ tr4) r1 a1)|].
  - rewrite Hs5. by apply prepared_at.
  - lia.
  - done.
  - done.
  - done.
  - cbn. by rewrite <- !app_assoc.
  - done.
  - done.
  - rewrite !wire_app, Hw1, Hw2, Hw4, Hw3. done.
  - change (Obs (Socket SOCK_STREAM) fd ∈ tr1 ++ tr2 ++ tr3 ++ tr4). rewrite !elem_of_app. auto.
  - change (Obs (Socket SOCK_DGRAM) fd2 ∈ tr1 ++ tr2 ++ tr3 ++ tr4). rewrite !elem_of_app. auto.
  - intros tr' Hnd. change (fd <> fd2).
    eapply (sockets_differ _ (tr1 ++ tr2) tr3 tr4 tr'); [exact Hnd|by rewrite <- !app_assoc| |].
    { eapply socket_in; [exact Hfd0|]. apply elem_of_app. by right. }
    by eapply socket_in.
  - intros o s' [HQ _]. exact HQ.
Qed.
End start.

(** ** The theorems *)

(** C14: the chunks [push_transfer] and [pull_transfer] go through cover the file
    exactly: in the order of their sequence numbers they are consecutive and
    concatenate to its content, when its size fits 32 bits. *)
Theorem chunks_cover_file c :
  announced c -> concat (data_at c <$> seqZ 1 (conf_chcount c)) = mf_bytes (conf_mfile c).
Proof. apply chunks_whole. Qed.

(** Past 4 GiB the position of a chunk wraps: it is computed in 32 bits, so
    the chunk sent and written is not the one its number stands for. *)
Theorem chunk_position_wraps c :
  in_width 32 (conf_seq c) -> in_width 16 (conf_chsize c) -> 0 < conf_seq c ->
  cc_start_pos (chunk_context c) = (conf_seq c - 1) * conf_chsize c mod 2 ^ 32 /\
  (2 ^ 32 <= (conf_seq c - 1) * conf_chsize c ->
   cc_start_pos (chunk_context c) < (conf_seq c - 1) * conf_chsize c).
Proof.
  unfold in_width. intros Hs Hc H0. unfold chunk_context, wrap. cbn [cc_start_pos].
  rewrite (Z.mod_small (conf_seq c - 1)) by lia. split; [done|]. intros Hge.
  pose proof (Z.mod_pos_bound ((conf_seq c - 1) * conf_chsize c) (2 ^ 32) ltac:(lia)). lia.
Qed.

(** C11: [push_transfer], on a file of less than 2^32 bytes announced as the sender
    announces it ([announced]), whose size is not a multiple of the chunk size,
    follows the protocol and comes to an end.  It succeeds only
    by announcing every chunk until the announcement is acknowledged, with its
    size, number and CRC-32, and then sending the chunk's segments until the data
    is acknowledged, in at most [tf_trycount] tries each; it leaves the file as it
    was and no memory allocated.  A failure has one of the listed statuses, the
    exhausted tries among them. *)
Theorem push_transfer_spec `{Host} `{Crc} c s :
  announced c -> conf_pchsize c <> 0 -> conf_seq c = 1 -> p_conf s = c ->
  wp posix (does (fun o tr c' =>
      (exists seq pos, 1 <= seq <= conf_chcount c + 1 /\ c' = at_chunk seq pos c /\
         match o with
         | Val _ => seq = conf_chcount c + 1 /\ sends_from _ c 1 (wire tr)
         | Fail st => st ∈ transfer_errors /\ diagnosed _ (conf_tf_trycount c) st tr
         | _ => False
         end) /\ tally heap_delta tr = 0) s) push_transfer s.
Proof.
  intros Ha Hp Hsq Hs. pose proof (ok_pos _ (to_file _ (an_transfer _ Ha))).
  eapply wp_does; [apply (push_transfer_ok c Ha); [|done]|].
  { exists (mf_pos (conf_mfile c)). split; [done|]. rewrite Hs. unfold at_chunk.
    rewrite set_mfile_self, <- Hsq. by destruct c. }
  intros o tr c' ((seq & Hseq & (pos & Hpos & ->) & Ho) & Hh). does_go. split; [|done].
  by exists seq, pos.
Qed.

(** C37: a file of 0 < size < 2^32 bytes (announced as the sender announces it, in
    fewer than 2^32 - 1 chunks) whose size is a multiple of the chunk size can never
    be transferred: its last chunk is empty and lies at the end of the file, where
    [mfseek] refuses to go, so [push_transfer] always comes to an end in a failure,
    whatever the calls return and the receiver answers. *)
Theorem push_transfer_exact_multiple `{Host} `{Crc} c s :
  announced c -> conf_pchsize c = 0 -> 0 < mf_size (conf_mfile c) -> conf_seq c = 1 -> p_conf s = c ->
  wp posix (fun o s' => exists st, o = Fail st /\ st ∈ EMFSEEK :: transfer_errors) push_transfer s.
Proof.
  intros Ha Hp Hsz Hsq Hs. pose proof (ok_pos _ (to_file _ (an_transfer _ Ha))).
  apply (push_transfer_multiple_ok c Ha); [|done|done].
  exists (mf_pos (conf_mfile c)). split; [done|]. rewrite Hs. unfold at_chunk.
  rewrite set_mfile_self, <- Hsq. by destruct c.
Qed.

