(* ===== verification/Puller.v ===== *)
(** * The receiver (source/puller.c)

    The receiver answers the sender's phases: it takes the announcement and
    creates the file, takes each chunk whose FLOW header is the expected one, and
    compares the checksum of the file with the sender's. *)
From S2P Require Import Prelude Protocol Types Sys Wire Utils Mfile NetStream FileStream Cntl Data Pusher.

Section with_host.
Context `{Host} `{Crc}.

Definition match_flow (c : InitConfig) (packet : FlowPacket) : bool :=
  if negb (conf_seq c =? conf_chcount c)
  then (flow_sequence packet =? conf_seq c) && (flow_chunk_size packet =? conf_chsize c)
  else (flow_sequence packet =? conf_seq c) && (flow_chunk_size packet =? conf_pchsize c).

(** The macro [ISVALID_SEND_HEADER]. *)
Definition ISVALID_SEND_HEADER (p : SendPacket) : bool :=
  (0 <=? send_chunk_size p) || (0 <=? send_partial_chunk_size p) || (0 <? send_chunk_count p).

(** An acknowledgement. *)
Definition push_ack (ack seq timeout : Z) : M unit :=
  c ← sys GetConf;
  push_RECV_header (conf_conn_sock c) {| recv_packet := pack_RUFShare_RecvPacket ack 0 seq |} timeout.

(** The configuration is filled from the header; the [sstrncpy]s are in the
    order of the source, and [remote_name] is the caller's buffer, given back. *)
Definition pull_handshake (remote_name : list Z) (stack : SendArgs) : M (list Z) :=
  c ← sys GetConf;
  header ← pull_SEND_header (conf_conn_sock c) stack FOREVER_TIMEOUT;
  let packet := send_packet header in
  let info := send_info header in
  if negb (ISVALID_SEND_HEADER packet) then
    push_ack 0 0 (conf_hst_recv c);;
    mret remote_name
  else
  sys (SetConf (fun c => set_conf_chcount (send_chunk_count packet)
    (set_conf_pchsize (send_partial_chunk_size packet)
      (set_conf_chsize (send_chunk_size packet) c))));;
  c ← sys GetConf;
  name ← defined (sstrncpy (fc_name (conf_filec c)) (addrs_filename info) MAXFILENAMESIZE);
  set_filec (set_fc_name name);;
  filename ← defined (sstrncpy (addrs_filename (conf_addrs c)) (addrs_filename info) MAXFILENAMESIZE);
  sys (SetConf (fun c => set_conf_addrs (set_addrs_filename filename (conf_addrs c)) c));;
  remote_name ← defined (sstrncpy remote_name (addrs_name info) MAXNAMESIZE);
  ip ← defined (sstrncpy (addrs_remote_ip (conf_addrs c)) (addrs_remote_ip info) MAXIPV4SIZE);
  sys (SetConf (fun c => set_conf_addrs (set_addrs_remote_ip ip (conf_addrs c)) c));;
  sys (SetConf (fun c => set_conf_addrs
    (set_addrs_remote_port (addrs_remote_port info) (conf_addrs c)) c));;
  sys (SetConf (fun c => set_conf_filec (set_fc_size
    (calc_file_size (conf_chcount c) (conf_chsize c) (conf_pchsize c)) (conf_filec c)) c));;
  c ← sys GetConf;
  st ← status_of (start_file_stream (addrs_filename (conf_addrs c)) MWR);
  push_ack (if decide (st = SUCCESS) then 1 else 0) 0 (conf_hst_recv c);;
  sys (SetConf (set_conf_seq 1));;
  mret remote_name.

(** One try at the data of a chunk whose FLOW header announced [crc]. *)
Definition pull_chunk_try (chcon : ChunkContext) (flow_crc : Z) (trycount : Z) : M (Z + Z) :=
  if trycount =? 0 then mret (inr trycount) else
  c ← sys GetConf;
  pull_chunk_data (conf_data_sock c) chcon (conf_tft_data c);;
  c ← sys GetConf;
  crc ← defined (calc_chunk_crc32 (conf_filec c) chcon);
  if flow_crc =? crc
  then push_ack 1 (conf_seq c) (conf_tft_recv c);; mret (inr trycount)
  else push_ack 0 (conf_seq c) (conf_tft_recv c);; mret (inl (trycount - 1)).

(** One chunk, given the tries left at the top of the loop. *)
Definition pull_one_chunk (trycount : Z) : M (Z + unit) :=
  c ← sys GetConf;
  if conf_chcount c <? conf_seq c then mret (inr tt) else
  let chcon := chunk_context c in
  flow ← pull_FLOW_header (conf_conn_sock c) (conf_tft_flow c);
  if match_flow c (flow_packet flow) then
    push_ack 1 (conf_seq c) (conf_tft_recv c);;
    trycount ← loop (pull_chunk_try chcon (flow_crc (flow_packet flow))) trycount;
    CHECK_NOTEQUAL 0 trycount EXPTRY0;;
    c ← sys GetConf;
    sys (SetConf (fun c => set_conf_seq (u32 (conf_seq c + 1)) c));;
    mret (inl (conf_tf_trycount c))
  else
    _ ← status_of (push_ack 0 (conf_seq c) (conf_tft_recv c));
    fail BADFLOW.

Definition pull_transfer : M unit :=
  c ← sys GetConf;
  loop pull_one_chunk (conf_tf_trycount c).

(** The checksum thread only reads the file, which nothing writes between its
    creation and the join: its result is the checksum at the join.  The source
    sets [_stat = FAILCRC] on a mismatch, but the [CHECK_STAT] around the
    acknowledgement that follows assigns [_stat] again, so the value returned is
    the status of that last call. *)
Definition pull_verification (stack : SendArgs) : M unit :=
  r ← sys (PthreadCreate thread_calc_file_crc16);
  CHECK_THREAD r;;
  c ← sys GetConf;
  header ← pull_SEND_header (conf_conn_sock c) stack (conf_vft_send c);
  r ← sys (PthreadJoin thread_calc_file_crc16);
  CHECK_THREAD r;;
  c ← sys GetConf;
  crc ← defined (calc_file_crc16 (conf_filec c));
  push_ack (if send_crc (send_packet header) =? crc then 1 else 0) (conf_seq c) (conf_vft_recv c).

Definition start_puller (remote_name : list Z) (stack1 stack2 : SendArgs) : M (list Z) :=
  start_cntl cntl_sock false;;
  c ← sys GetConf;
  accept_cntl conn_sock (conf_cntl_sock c) FOREVER_TIMEOUT;;
  c ← sys GetConf;
  close_socket (conf_cast_sock c);;
  remote_name ← pull_handshake remote_name stack1;
  start_data data_sock;;
  set_segsize;;
  pull_transfer;;
  pull_verification stack2;;
  end_file_stream;;
  c ← sys GetConf;
  end_cntl (conf_cntl_sock c);;
  c ← sys GetConf;
  end_data (conf_data_sock c);;
  c ← sys GetConf;
  end_cntl (conf_conn_sock c);;
  mret remote_name.

End with_host.

(** ** The protocol of the receiver *)

(** A file with [got] in place of what was at [start]. *)
Definition splice (start : Z) (got content : list Z) : list Z :=
  ztake start content ++ got ++ zdrop (start + len got) content.

(** The configuration at chunk [seq], with the file's content. *)
Definition at_file (seq pos : Z) (content : list Z) (c : InitConfig) : InitConfig :=
  set_conf_seq seq (set_mfile (set_mf_pos pos (mf_content content (conf_mfile c))) c).

Section protocol.
Context (H : Host) `{Crc} (c : InitConfig).

Definition start_of (seq : Z) : Z := cc_start_pos (chunk_at c seq).
Definition size_of (seq : Z) : Z := cc_chunk_size (chunk_at c seq).

(** A configuration in the transfer of a chunk. *)
Definition with_file (seq : Z) (content : list Z) (c' : InitConfig) : Prop :=
  exists pos, 0 <= pos <= mf_size (conf_mfile c) /\ c' = at_file seq pos content c.

(** The bytes of an acknowledgement of chunk [seq]. *)
Definition ack_bytes (ack seq : Z) : list Z := encode_RecvPacket H ack 0 seq.

(** A try at chunk [seq]: its segments come in; they are written and, as their
    checksum is the announced one or not, acknowledged or not. *)
Definition good_try (crc seq : Z) (got : list Z) (w : list wev) : Prop :=
  len got = size_of seq /\ u32 (crc_32 got) = crc /\
    w = (In (conf_data_sock c) <$> segments (conf_segsize c) got)
        ++ [Out (conf_conn_sock c) (ack_bytes 1 seq)].
Definition bad_try (crc seq : Z) (w : list wev) : Prop :=
  exists got, len got = size_of seq /\ u32 (crc_32 got) <> crc /\
    w = (In (conf_data_sock c) <$> segments (conf_segsize c) got)
        ++ [Out (conf_conn_sock c) (ack_bytes 0 seq)].

(** The exchanges of the receiver from chunk [seq] on, and what they make of the
    file: the announcement is the expected one and acknowledged, and the data is
    taken until its checksum is the announced one. *)
Inductive receives_from : Z -> list Z -> list wev -> list Z -> Prop :=
| receives_done seq content : conf_chcount c < seq -> receives_from seq content [] content
| receives_chunk seq content m p got w1 w2 content' :
    seq <= conf_chcount c ->
    decode_FlowPacket H m = Some p -> flow_sequence p = seq -> flow_chunk_size p = size_of seq ->
    tries (good_try (flow_crc p) seq got) (bad_try (flow_crc p) seq)
      (Z.to_nat (conf_tf_trycount c)) true w1 ->
    receives_from (seq + 1) (splice (start_of seq) got content) w2 content' ->
    receives_from seq content
      ([In (conf_conn_sock c) m; Out (conf_conn_sock c) (ack_bytes 1 seq)] ++ w1 ++ w2) content'.
End protocol.

Definition pull_transfer_errors : list status_t := transfer_errors ++ [FAILSET; EMFSYNC; BADFLOW].

(** A failed reception; only the failed synchronisation holds a buffer. *)
Definition reception_failed (st : status_t) (tr : list obs) : Prop :=
  st ∈ pull_transfer_errors /\ tally heap_delta tr = (if decide (st = EMFSYNC) then 1 else 0).

Lemma reception_failed_app st tr tr' :
  tally heap_delta tr = 0 -> reception_failed st tr' -> reception_failed st (tr ++ tr').
Proof. intros Hh [Hst Ht]. split; [done|]. by rewrite tally_app, Hh, Ht. Qed.

Lemma pull_data_transfer_error st : st ∈ pull_data_errors -> st ∈ pull_transfer_errors.
Proof.
  unfold pull_data_errors, pull_transfer_errors, transfer_errors. cbn [app]. rewrite !elem_of_cons. tauto.
Qed.

(** A failed push, and a failed pull, of the reception. *)
Lemma reception_send st tr : st ∈ send_errors -> tally heap_delta tr = 0 -> reception_failed st tr.
Proof.
  intros Hst Hh. split; [apply elem_of_app; left; by apply send_transfer_error|].
  rewrite Hh. destruct (decide (st = EMFSYNC)) as [->|]; [|done]. exfalso. revert Hst.
  change (EMFSYNC ∉ send_errors). by apply (bool_decide_unpack _).
Qed.

Lemma reception_recv st tr : st ∈ recv_errors -> tally heap_delta tr = 0 -> reception_failed st tr.
Proof.
  intros Hst Hh. split; [apply elem_of_app; left; by apply recv_transfer_error|].
  rewrite Hh. destruct (decide (st = EMFSYNC)) as [->|]; [|done]. exfalso. revert Hst.
  change (EMFSYNC ∉ recv_errors). by apply (bool_decide_unpack _).
Qed.

(** ** Splicing *)

Lemma len_splice start got content :
  0 <= start -> start + len got <= len content -> len (splice start got content) = len content.
Proof. intros. unfold splice. len_simpl; len_lia. Qed.

Lemma splice_nil start content : splice start [] content = content.
Proof. unfold splice. rewrite len_nil, Z.add_0_r. apply ztake_zdrop. Qed.

(** A second write at the same place, as long as the first, replaces it. *)
Lemma splice_splice start got got' content :
  0 <= start -> start + len got' <= len content -> len got <= len got' ->
  splice start got' (splice start got content) = splice start got' content.
Proof.
  intros Hs Hl Hg. pose proof (len_nonneg got). pose proof (len_nonneg got').
  unfold splice. f_equal; [|f_equal].
  - rewrite ztake_app; [done|]. rewrite len_ztake; lia.
  - rewrite app_assoc, zdrop_app_ge by (len_simpl; lia). rewrite zdrop_zdrop by (len_simpl; lia).
    f_equal. len_simpl. lia.
Qed.

(** A shorter one leaves the rest of the first. *)
Lemma splice_over start got junk content :
  0 <= start -> start + len got <= len content -> start + len junk <= len content ->
  splice start got (splice start junk content) = splice start (got ++ zdrop (len got) junk) content.
Proof.
  intros Hs Hl Hj. pose proof (len_nonneg got). pose proof (len_nonneg junk).
  destruct (Z.le_ge_cases (len junk) (len got)) as [Hle|Hge].
  - rewrite splice_splice, zdrop_all, app_nil_r by lia. done.
  - unfold splice. rewrite (ztake_app start) by (rewrite len_ztake; lia).
    rewrite <- app_assoc. do 2 f_equal.
    rewrite zdrop_app_ge by (len_simpl; lia). rewrite len_ztake by lia.
    replace (start + len got - start) with (len got) by lia.
    rewrite len_app, len_zdrop by lia. replace (start + (len got + (len junk - len got))) with (start + len junk) by lia.
    unfold zdrop at 1. rewrite drop_app_le by (unfold len in *; lia). done.
Qed.

Lemma read_splice start got content :
  0 <= start -> start + len got <= len content ->
  ztake (len got) (zdrop start (splice start got content)) = got.
Proof.
  intros Hs Hl. pose proof (len_nonneg got). unfold splice.
  rewrite (zdrop_app start) by (len_simpl; lia). by apply ztake_app.
Qed.

(** Elsewhere nothing changes. *)
Lemma read_splice_ne start got content off n :
  0 <= start -> start + len got <= len content -> 0 <= off -> 0 <= n ->
  off + n <= start \/ start + len got <= off ->
  off + n <= len content ->
  ztake n (zdrop off (splice start got content)) = ztake n (zdrop off content).
Proof.
  intros Hs Hl Ho Hn Hd Hend. pose proof (len_nonneg got).
  assert (Hw : mem_write content start got = Some (splice start got content))
    by (by rewrite mem_write_spec by lia).
  pose proof (mem_read_write_ne _ _ _ _ off n Hw Hd) as Hr.
  rewrite !mem_read_spec in Hr by (rewrite ?len_splice by lia; lia). by injection Hr.
Qed.

(** ** The transfer *)

Section transfer.
Context `{Host} `{Crc} (c : InitConfig) (Ha : announced c).

Let conn := conf_conn_sock c.

(** A content of the file's size. *)
Definition content_ok (content : list Z) : Prop := len content = mf_size (conf_mfile c).

Lemma at_file_ok seq pos content :
  content_ok content -> 0 <= pos <= mf_size (conf_mfile c) -> transfer_ok (at_file seq pos content c).
Proof using Ha.
  intros Hc Hp. destruct (an_transfer _ Ha) as [[Hb Hf Hpos Hsz] Ho Hs].
  destruct (Hb Ho) as (b & Hbuf & _). constructor; [constructor|..]; try done.
  intros _. cbn. rewrite Hbuf. eexists. split; [reflexivity|]. exact Hc.
Qed.

Lemma at_file_bytes seq pos content : mf_bytes (conf_mfile (at_file seq pos content c)) = content.
Proof using Ha.
  destruct (an_transfer _ Ha) as [Hm Ho _]. destruct (ok_buf _ Hm Ho) as (b & Hb & _).
  unfold mf_bytes. cbn. by rewrite Hb.
Qed.

(** Receiving into the file of a configuration of the transfer. *)
Lemma file_with_at seq pos pos' content chunk got :
  set_mfile (set_mf_pos pos' (file_with (at_file seq pos content c) chunk got)) (at_file seq pos content c)
  = at_file seq pos' (splice (cc_start_pos chunk) got content) c.
Proof using Ha.
  unfold file_with. rewrite at_file_bytes. unfold at_file, mf_content. cbn. by destruct (mf_buf _).
Qed.

Lemma push_ack_ok ack seq timeout c' s :
  p_conf s = c' -> conf_conn_sock c' = conn ->
  wp posix (calls (fun o tr => tally heap_delta tr = 0 /\ (length (wire tr) <= 1)%nat /\
      match o with
      | Val _ => wire tr = [Out conn (ack_bytes _ ack seq)]
      | Fail st => st ∈ send_errors /\ st ∈ complaints tr
      | _ => False
      end) s) (push_ack ack seq timeout) s.
Proof.
  intros Hs Hconn. unfold push_ack. wp_go. rewrite Hs, Hconn.
  eapply wp_calls; [apply push_RECV_header_ok|]. intros o tr Hp. calls_go.
  split; [by eapply pushes_heap|]. split; [by eapply pushes_length|]. pose proof (pushes_outcome _ _ _ _ _ _ Hp) as Ho.
  destruct o as [[]|st|?|]; [exact (pushes_wire _ _ _ _ _ Hp)| |done..].
  split; [done|by eapply pushes_complaint].
Qed.

(** One try. *)
Definition written (seq : Z) (content got : list Z) (c' : InitConfig) : Prop :=
  with_file c seq (splice (start_of c seq) got content) c' /\ len got <= size_of c seq.
Definition being_written (seq : Z) (content : list Z) (c' : InitConfig) : Prop :=
  exists got, written seq content got c'.

Lemma chunk_room seq : sendable c seq -> 0 <= start_of c seq /\ 0 <= size_of c seq /\
  start_of c seq + size_of c seq <= mf_size (conf_mfile c).
Proof using Ha. intros Hs. destruct (chunk_at_in c Ha seq Hs) as (? & ? & ?). unfold start_of, size_of. lia. Qed.

(** The bytes of the chunk have come in, or nothing but pieces of it. *)
Definition cut_short (seq : Z) (w : list wev) : Prop :=
  size_of c seq <= len (in_bytes (conf_data_sock c) w) \/ exists ds, w = In (conf_data_sock c) <$> ds.

Lemma whole_chunk seq got w :
  len got = size_of c seq ->
  size_of c seq <= len (in_bytes (conf_data_sock c) ((In (conf_data_sock c) <$> segments (conf_segsize c) got) ++ w)).
Proof using Ha.
  intros Hg. rewrite in_bytes_app, in_bytes_ins, segments_concat by apply Ha. rewrite len_app, Hg.
  pose proof (len_nonneg (in_bytes (conf_data_sock c) w)). lia.
Qed.

Lemma pull_try_ok seq content crc t s :
  sendable c seq -> content_ok content -> 0 < t -> being_written seq content (p_conf s) ->
  wp posix (does (fun o tr c' => being_written seq content c' /\
      match o with
      | Val (inr t') => t' = t /\ tally heap_delta tr = 0 /\
          exists got, written seq content got c' /\ good_try _ c crc seq got (wire tr)
      | Val (inl t') => t' = t - 1 /\ bad_try _ c crc seq (wire tr) /\ tally heap_delta tr = 0
      | Fail st => reception_failed st tr /\ st ∈ complaints tr /\ cut_short seq (wire tr)
      | _ => False
      end) s) (pull_chunk_try (chunk_at c seq) crc t) s.
Proof using Ha.
  intros Hsend Hcont Ht (junk & (pos & Hpos & Hs) & Hjunk). destruct (chunk_room seq Hsend) as (R1 & R2 & R3).
  set (content1 := splice (start_of c seq) junk content) in *.
  assert (Hc1 : content_ok content1) by (unfold content_ok, content1; rewrite len_splice; [done|lia|unfold content_ok in Hcont; lia]).
  unfold pull_chunk_try. destruct (Z.eqb_spec t 0); [lia|]. wp_go. rewrite Hs.
  eapply wp_does; [apply (pull_chunk_data_ok (at_file seq pos content1 c)); [by apply at_file_ok|exact (chunk_at_in c Ha seq Hsend)|done]|].
  intros o tr c' (got & pos' & Hpos' & -> & Ho). rewrite file_with_at. fold (start_of c seq) in *.
  change (cc_chunk_size (chunk_at c seq)) with (size_of c seq) in Ho.
  assert (Hb : forall p, 0 <= p <= mf_size (conf_mfile c) -> len got <= size_of c seq ->
    being_written seq content (at_file seq p (splice (start_of c seq) got content1) c)).
  { intros p Hp Hg. unfold content_ok in Hcont. unfold content1. rewrite splice_over by lia.
    exists (got ++ zdrop (len got) junk). split; [by exists p|]. pose proof (len_nonneg got).
    destruct (Z.le_ge_cases (len junk) (len got)); [rewrite zdrop_all, app_nil_r; lia|].
    rewrite len_app, len_zdrop; lia. }
  destruct o as [[]|st|?|]; [|..|done|done]; cbn [seq_post].
  2:{ destruct Ho as (Hg & Hst & Hco & Hh & ds & Hds). does_go. split; [by apply Hb|].
      split; [|split; [done|by right; exists ds]]. split; [|done]. by apply pull_data_transfer_error. }
  destruct Ho as (Hg & Hwr & Hh). assert (Hsp : splice (start_of c seq) got content1 = splice (start_of c seq) got content)
    by (apply splice_splice; unfold content_ok in Hcont; lia).
  rewrite Hsp in Hb |- *.
  set (content2 := splice (start_of c seq) got content) in *.
  assert (Hc2 : content_ok content2) by (unfold content_ok, content2 in *; rewrite len_splice; lia).
  wp_go. cbn [after_does p_conf]. rewrite chunk_crc_ok by (first [by apply at_file_ok|exact R1|exact R2|exact R3]).
  assert (Hcb : chunk_bytes (conf_mfile (at_file seq pos' content2 c)) (chunk_at c seq) = got).
  { unfold chunk_bytes. rewrite at_file_bytes. fold (start_of c seq) (size_of c seq). rewrite <- Hg.
    apply read_splice; unfold content_ok in Hcont; lia. }
  rewrite Hcb. wp_go. wp_case; wp_go.
  - eapply wp_calls; [by eapply push_ack_ok|]. intros o tr' (Hh' & _ & Ho).
    destruct o as [[]|st|?|]; [|..|done|done]; wp_go; does_go; (split; [apply Hb; [exact Hpos'|lia]|]).
    + split; [done|]. split; [by rewrite tally_app, Hh, Hh'|]. exists got.
      split; [split; [by exists pos'|lia]|]. split_and!; [done|done|]. by rewrite wire_app, Hwr, Ho.
    + destruct Ho as [Hst Hco]. split; [|split; [by apply complaints_r|left; rewrite wire_app, Hwr; by apply whole_chunk]].
      apply reception_failed_app; [done|]. by apply reception_send.
  - eapply wp_calls; [by eapply push_ack_ok|]. intros o tr' (Hh' & _ & Ho).
    destruct o as [[]|st|?|]; [|..|done|done]; wp_go; does_go; (split; [apply Hb; [exact Hpos'|lia]|]).
    + split; [done|]. split; [|by rewrite tally_app, Hh, Hh']. exists got.
      split_and!; [done|by apply not_eq_sym|]. by rewrite wire_app, Hwr, Ho.
    + destruct Ho as [Hst Hco]. split; [|split; [by apply complaints_r|left; rewrite wire_app, Hwr; by apply whole_chunk]].
      apply reception_failed_app; [done|]. by apply reception_send.
Qed.

Lemma pull_tries_ok seq content crc s :
  sendable c seq -> content_ok content -> being_written seq content (p_conf s) ->
  wp posix (does (fun o tr c' => being_written seq content c' /\
      match o with
      | Val t => 0 <= t /\ tally heap_delta tr = 0 /\
          (0 < t -> exists got, written seq content got c' /\
             tries (good_try _ c crc seq got) (bad_try _ c crc seq) (Z.to_nat (conf_tf_trycount c)) true (wire tr))
      | Fail st => reception_failed st tr
      | _ => False
      end) s) (loop (pull_chunk_try (chunk_at c seq) crc) (conf_tf_trycount c)) s.
Proof using Ha.
  intros Hsend Hcont Hk. pose proof (an_trycount _ Ha).
  eapply wp_does; [apply (retry_ok (being_written seq content)
    (fun c' w => exists got, written seq content got c' /\ good_try _ c crc seq got w)
    (bad_try _ c crc seq) reception_failed)|].
  - intros Q s' HQ. unfold pull_chunk_try. cbn [Z.eqb]. by wp_go.
  - intros t s' Ht Hk'. eapply wp_does; [by apply (pull_try_ok seq content)|].
    intros o tr c' (Hkc & Ho). does_go. split; [done|]. destruct o as [[t'|t']|st|?|]; [done| |apply Ho|done..].
    destruct Ho as (-> & Hh & Hg). by split_and!.
  - apply reception_failed_app.
  - lia.
  - done.
  - intros o tr c' (Hkc & Ho). does_go. split; [done|]. destruct o as [t|st|?|]; [|done..].
    destruct Ho as (Ht & Htr & Hh). split_and!; [done|done|]. intros Hpos.
    destruct (Z.ltb_spec 0 t) in Htr; [|lia]. by apply tries_pick in Htr.
Qed.

(** Tries end with an answer only once the whole chunk has come in. *)
Lemma pull_tries_cut_short seq content crc t s :
  sendable c seq -> content_ok content -> 0 <= t -> being_written seq content (p_conf s) ->
  wp posix (does (fun o tr c' => cut_short seq (wire tr) /\
      match o with
      | Val t' => t' = 0 \/ size_of c seq <= len (in_bytes (conf_data_sock c) (wire tr))
      | Fail _ => True
      | _ => False
      end) s)
    (loop (pull_chunk_try (chunk_at c seq) crc) t) s.
Proof using Ha.
  intros Hsend Hcont Ht Hk.
  set (enough := fun w => size_of c seq <= len (in_bytes (conf_data_sock c) w)).
  apply (wp_loop _ (fun t' s' => 0 <= t' /\ being_written seq content (p_conf s') /\
      exists tr, p_trace s' = p_trace s ++ tr /\ (tr = [] \/ enough (wire tr)))
    (fun t' _ => Z.to_nat t')).
  { split; [lia|]. split; [done|]. exists []. rewrite app_nil_r. auto. }
  intros t' s' (Ht' & Hk' & tr0 & Htr0 & Hw0).
  assert (Hmore : forall w, enough (wire tr0) -> enough (wire tr0 ++ w)).
  { unfold enough. intros w. rewrite in_bytes_app, len_app. pose proof (len_nonneg (in_bytes (conf_data_sock c) w)). lia. }
  destruct (Z.eq_dec t' 0) as [->|Hne].
  { unfold pull_chunk_try. cbn [Z.eqb]. wp_go. does_from Htr0. split; [|by left].
    destruct Hw0 as [->|Hw0]; [right; by exists []|by left]. }
  eapply wp_does; [apply (pull_try_ok seq content); [done|done|lia|done]|]. intros o tr c' (Hkc & Ho).
  assert (Hgo : enough (wire tr) -> enough (wire (tr0 ++ tr))).
  { rewrite wire_app. unfold enough. rewrite in_bytes_app, len_app.
    pose proof (len_nonneg (in_bytes (conf_data_sock c) (wire tr0))). lia. }
  destruct o as [[t1|t1]|st|?|]; cbn [loop_post]; [| | |done|done].
  - destruct Ho as (-> & (got & Hg & _ & Hw) & _).
    assert (He : enough (wire (tr0 ++ tr))) by (apply Hgo; rewrite Hw; by apply whole_chunk).
    split; [|lia]. split; [lia|]. split; [done|]. exists (tr0 ++ tr). split; [cbn; by rewrite Htr0, app_assoc|by right].
  - destruct Ho as (-> & _ & got & _ & Hg & _ & Hw).
    assert (He : enough (wire (tr0 ++ tr))) by (apply Hgo; rewrite Hw; by apply whole_chunk).
    does_from Htr0. split; [by left|by right].
  - destruct Ho as (_ & _ & Hcut). does_from Htr0. split; [|done].
    destruct Hw0 as [->|Hw0]; [exact Hcut|]. left. rewrite wire_app. by apply Hmore.
Qed.

(** Pulling a FLOW header. *)
Lemma pull_flow_ok sock timeout s :
  wp posix (calls (fun o tr => tally heap_delta tr = 0 /\ (length (wire tr) <= 1)%nat /\
      match o with
      | Val args => exists m, decode_FlowPacket _ m = Some (flow_packet args) /\ wire tr = [In sock m]
      | Fail st => st ∈ recv_errors /\ (st ∈ complaints tr \/ mistyped sock FLOW tr)
      | _ => False
      end) s) (pull_FLOW_header sock timeout) s.
Proof.
  eapply wp_calls; [apply pull_FLOW_header_ok|]. intros o tr (res & Hp & ->).
  calls_go. split; [by eapply pulls_heap|]. split; [exact (pulls_length _ _ _ _ _ _ Hp)|]. destruct res as [st|ds]; cbn [pulled].
  - split; [by eapply pulls_outcome|]. destruct (pulls_complaint _ _ _ _ _ _ Hp) as [?|[-> ?]]; [by repeat constructor|auto..].
  - pose proof (pulls_lens _ _ _ _ _ _ Hp) as Hl.
    apply Forall2_cons_inv_l in Hl as (m & ds' & (Hm & _) & Hn & ->). apply Forall2_nil_inv_l in Hn as ->.
    destruct (FlowPacket_of_mem_len m Hm) as [p Hpk]. unfold decode_FLOW, decode_FlowPacket. rewrite Hpk.
    cbn [fmap option_fmap option_map mbind option_bind]. exists m. rewrite Hpk. split; [done|].
    by rewrite (pulls_wire _ _ _ _ _ _ Hp).
Qed.

Lemma match_flow_at seq pos content p :
  match_flow (at_file seq pos content c) p = true ->
  flow_sequence p = seq /\ flow_chunk_size p = size_of c seq.
Proof.
  unfold match_flow, size_of, chunk_at, chunk_context. cbn.
  destruct (Z.eqb_spec seq (conf_chcount c)); cbn; rewrite andb_true_iff, !Z.eqb_eq; tauto.
Qed.

Lemma pull_one_chunk_ok seq content s :
  with_file c seq content (p_conf s) -> content_ok content -> sendable c seq ->
  wp posix (does (fun o tr c' =>
      match o with
      | Val x => x = inl (conf_tf_trycount c) /\ tally heap_delta tr = 0 /\
          exists content', content_ok content' /\ with_file c (seq + 1) content' c' /\
            forall w final, receives_from _ c (seq + 1) content' w final ->
              receives_from _ c seq content (wire tr ++ w) final
      | Fail st => reception_failed st tr
      | _ => False
      end) s) (pull_one_chunk (conf_tf_trycount c)) s.
Proof using Ha.
  intros (pos & Hpos & Hs) Hcont Hseq. pose proof Hseq as [Hsr _].
  destruct (announced_bounds c Ha) as (_ & _ & _ & _ & Hcc). destruct (chunk_room seq Hseq) as (R1 & R2 & R3).
  unfold pull_one_chunk. wp_go. rewrite Hs.
  change (conf_chcount (at_file seq pos content c)) with (conf_chcount c).
  change (conf_seq (at_file seq pos content c)) with seq.
  change (chunk_context (at_file seq pos content c)) with (chunk_at c seq).
  destruct (Z.ltb_spec (conf_chcount c) seq); [lia|]. wp_go.
  eapply wp_calls; [apply pull_flow_ok|]. intros o tr (Hh & _ & Ho).
  destruct o as [args|st|?|]; [| |done|done]; cbn [seq_post].
  2:{ does_go. apply reception_recv; [apply Ho|done]. }
  destruct Ho as (m & Hm & Hw). wp_case; wp_go.
  2:{ eapply wp_calls; [by eapply push_ack_ok|]. intros o tr' (Hh' & _ & Ho).
      destruct o as [[]|st|?|]; [| |done|done]; wp_go; does_go;
        (split; [apply elem_of_app; right; in_list|by rewrite tally_app, Hh, Hh']). }
  apply match_flow_at in E as [Esq Esz].
  eapply wp_calls; [by eapply push_ack_ok|]. intros o tr' (Hh' & _ & Ho).
  destruct o as [[]|st|?|]; [| |done|done]; wp_go.
  2:{ does_go. apply reception_failed_app; [done|]. apply reception_send; [apply Ho|done]. }
  eapply wp_does; [apply (pull_tries_ok seq content); [done|done|]|].
  { exists []. split; [|by rewrite len_nil]. exists pos. split; [done|].
    by rewrite splice_nil. }
  intros o tr2 c' (_ & Ho2). destruct o as [t|st|?|]; [| |done|done]; cbn [seq_post].
  2:{ does_go. apply reception_failed_app; [done|]. by apply reception_failed_app. }
  destruct Ho2 as (Ht & Hh2 & Hgot). wp_go. wp_case; wp_go.
  { does_go. split; [apply elem_of_app; left; in_list|by rewrite !tally_app, Hh, Hh', Hh2]. }
  destruct Hgot as (got & [(pos' & Hpos' & ->) Hlg] & Htries); [lia|].
  does_go. split; [done|]. split; [by rewrite !tally_app, Hh, Hh', Hh2|].
  exists (splice (start_of c seq) got content). split_and!.
  - unfold content_ok in *. rewrite len_splice; lia.
  - exists pos'. split; [done|]. unfold wrap. change (conf_seq (at_file seq pos' _ c)) with seq.
    rewrite Z.mod_small by lia. done.
  - intros w final Hr. rewrite !wire_app, Hw, Ho, <- !app_assoc.
    by eapply (receives_chunk _ c seq content m (flow_packet args)); [lia|..].
Qed.

(** Of a chunk that does not come in whole nothing is asked for again. *)
Lemma pull_one_chunk_cut_short seq content s :
  with_file c seq content (p_conf s) -> content_ok content -> sendable c seq ->
  wp posix (does (fun o tr c' => exists head body, wire tr = head ++ body /\ (length head <= 2)%nat /\
      (size_of c seq <= len (in_bytes (conf_data_sock c) body) \/
       (exists st, o = Fail st) /\ exists ds, body = In (conf_data_sock c) <$> ds)) s)
    (pull_one_chunk (conf_tf_trycount c)) s.
Proof using Ha.
  intros (pos & Hpos & Hs) Hcont Hseq. pose proof Hseq as [Hsr _].
  pose proof (an_trycount _ Ha). destruct (chunk_room seq Hseq) as (R1 & R2 & R3).
  set (P := fun (o : outcome (Z + unit)) (w : list wev) => exists head body, w = head ++ body /\ (length head <= 2)%nat /\
      (size_of c seq <= len (in_bytes (conf_data_sock c) body) \/
       (exists st, o = Fail st) /\ exists ds, body = In (conf_data_sock c) <$> ds)).
  assert (Hfail : forall w w' st, w' = w -> (length w <= 2)%nat -> P (Fail st) w').
  { intros w ? st -> Hl. exists w, []. rewrite app_nil_r. split_and!; [done|done|right]. split; [by eexists|by exists []]. }
  unfold pull_one_chunk. wp_go. rewrite Hs.
  change (conf_chcount (at_file seq pos content c)) with (conf_chcount c).
  change (conf_seq (at_file seq pos content c)) with seq.
  change (chunk_context (at_file seq pos content c)) with (chunk_at c seq).
  destruct (Z.ltb_spec (conf_chcount c) seq); [lia|]. wp_go.
  eapply wp_calls; [apply pull_flow_ok|]. intros o tr (_ & Hl & Ho).
  destruct o as [args|st|?|]; [|clear Ho|done|done]; cbn [seq_post].
  2:{ does_go. apply (Hfail (wire tr)); [done|lia]. }
  clear Ho. wp_case; wp_go.
  2:{ eapply wp_calls; [by eapply push_ack_ok|]. intros o tr' (_ & Hl' & Ho).
      destruct o as [[]|st|?|]; [| |done|done]; wp_go; does_go;
        (apply (Hfail (wire tr ++ wire tr')); [by rewrite wire_app|rewrite length_app; lia]). }
  eapply wp_calls; [by eapply push_ack_ok|]. intros o tr' (_ & Hl' & Ho).
  destruct o as [[]|st|?|]; [| |done|done]; wp_go.
  2:{ does_go. apply (Hfail (wire tr ++ wire tr')); [by rewrite wire_app|rewrite length_app; lia]. }
  eapply wp_does; [apply (pull_tries_cut_short seq content); [done|done|lia|]|].
  { exists []. split; [|by rewrite len_nil]. exists pos. split; [done|]. by rewrite splice_nil. }
  intros o tr2 c' (Hcut & Ho2).
  assert (Hend : forall o', cut_short seq (wire tr2) ->
    (exists st, o' = Fail st) \/ size_of c seq <= len (in_bytes (conf_data_sock c) (wire tr2)) ->
    P o' (wire (tr ++ tr' ++ tr2))).
  { intros o' Hc Hx. exists (wire tr ++ wire tr'), (wire tr2). rewrite !wire_app, length_app, app_assoc.
    split_and!; [done|lia|]. destruct Hx as [Hx|?]; [|by left]. destruct Hc; [by left|by right]. }
  destruct o as [t|st|?|]; [| |done|done]; cbn [seq_post]; wp_go.
  2:{ does_go. apply Hend; [done|left; by eexists]. }
  wp_case; wp_go; does_go; apply Hend; try done.
  - left. by eexists.
  - right. destruct Ho2; [lia|done].
Qed.

Lemma pull_transfer_ok content s :
  with_file c 1 content (p_conf s) -> content_ok content -> conf_pchsize c <> 0 ->
  wp posix (does (fun o tr c' =>
      match o with
      | Val _ => exists content', content_ok content' /\ with_file c (conf_chcount c + 1) content' c' /\
          receives_from _ c 1 content (wire tr) content' /\ tally heap_delta tr = 0
      | Fail st => reception_failed st tr
      | _ => False
      end) s) pull_transfer s.
Proof using Ha.
  intros (pos & Hpos & Hs) Hcont Hpar. destruct (announced_bounds c Ha) as (Hq & _ & _ & Hcc & Hcc32).
  unfold pull_transfer. wp_go. rewrite Hs.
  change (conf_tf_trycount (at_file 1 pos content c)) with (conf_tf_trycount c).
  apply (wp_loop _ (fun t s' => exists seq content1 tr, t = conf_tf_trycount c /\
      1 <= seq <= conf_chcount c + 1 /\ content_ok content1 /\ with_file c seq content1 (p_conf s') /\
      p_trace s' = p_trace s ++ tr /\ tally heap_delta tr = 0 /\
      forall w final, receives_from _ c seq content1 w final -> receives_from _ c 1 content (wire tr ++ w) final)
    (fun _ s' => Z.to_nat (conf_chcount c + 1 - conf_seq (p_conf s')))).
  { exists 1, content, []. split_and!; [done|lia|lia|done|by exists pos|by rewrite app_nil_r|done|done]. }
  intros ? s' (seq & content1 & tr & -> & Hseq & Hc1 & Hin & Ht & Hh & Hw).
  assert (Hsq : conf_seq (p_conf s') = seq) by (by destruct Hin as (? & _ & ->)).
  destruct (Z.eq_dec seq (conf_chcount c + 1)) as [->|Hne].
  - pose proof Hin as (pos' & Hp' & Hs'). unfold pull_one_chunk. wp_go. rewrite Hs'.
    change (conf_chcount (at_file _ _ _ c)) with (conf_chcount c).
    change (conf_seq (at_file ?x _ _ c)) with x.
    destruct (Z.ltb_spec (conf_chcount c) (conf_chcount c + 1)); [|lia]. wp_go.
    does_from Ht. exists content1. split_and!; [done|done| |done].
    rewrite <- (app_nil_r (wire tr)). apply Hw. constructor. lia.
  - eapply wp_does; [apply (pull_one_chunk_ok seq content1); [done|done|by split; [lia|right]]|].
    intros o tr' c' Ho. destruct o as [x|st|?|]; [| |done|done]; cbn [loop_post].
    + destruct Ho as (-> & Hh' & content2 & Hc2 & Hin' & Hw'). split.
      { exists (seq + 1), content2, (tr ++ tr').
        split_and!; [done|lia|lia|done|done| |by rewrite tally_app, Hh, Hh'|].
        - cbn. by rewrite Ht, app_assoc.
        - intros w final Hr. rewrite wire_app, <- app_assoc. by apply Hw, Hw'. }
      destruct Hin' as (p' & _ & ->). cbn. lia.
    + does_from Ht. by apply reception_failed_app.
Qed.

(** ** What the received file is *)

(** The chunks of a content. *)
Definition piece (content : list Z) (seq : Z) : list Z :=
  ztake (size_of c seq) (zdrop (start_of c seq) content).

Lemma chunks_disjoint seq seq' :
  sendable c seq -> sendable c seq' -> seq < seq' -> start_of c seq + size_of c seq <= start_of c seq'.
Proof using Ha.
  intros [H1 _] [H2 _] Hlt. destruct (announced_bounds c Ha) as (Hq & He & Hp & Hcc & _).
  unfold start_of, size_of. rewrite !chunk_at_eq by done. cbn [cc_start_pos cc_chunk_size].
  destruct (Z.eqb_spec seq (conf_chcount c)); [lia|]. nia.
Qed.

(** Every chunk of the final content has the checksum its FLOW header announced,
    and what came before chunk [seq] is untouched. *)
Lemma receives_pieces seq content w final :
  receives_from _ c seq content w final -> 1 <= seq -> conf_pchsize c <> 0 -> content_ok content ->
  content_ok final /\
  (forall i, 1 <= i < seq -> piece final i = piece content i) /\
  (forall i, seq <= i <= conf_chcount c -> exists m p,
     In (conf_conn_sock c) m ∈ w /\ decode_FlowPacket _ m = Some p /\ flow_sequence p = i /\
     flow_chunk_size p = len (piece final i) /\ u32 (crc_32 (piece final i)) = flow_crc p).
Proof using Ha.
  induction 1 as [seq content Hd|seq content m p got w1 w2 final Hle Hm Hsq Hsz Htr Hr IH]; intros H1 Hpar Hc.
  { split_and!; [done|done|lia]. }
  assert (Hsend : sendable c seq) by (split; [lia|by right]).
  destruct (chunk_room seq Hsend) as (R1 & R2 & R3).
  assert (Hg : len got = size_of c seq /\ u32 (crc_32 got) = flow_crc p).
  { clear -Htr. remember true as b. induction Htr as [|n w (? & ? & _)|n b w w' _ _ IH]; simplify_eq; auto. }
  destruct Hg as [Hlg Hcrc]. unfold content_ok in *.
  destruct IH as (Hf & Hbefore & Hafter); [lia|done|rewrite len_splice; lia|].
  assert (Hpiece : piece final seq = got).
  { rewrite Hbefore by lia. unfold piece. rewrite <- Hlg. apply read_splice; lia. }
  split_and!; [done| |].
  - intros i Hi. rewrite Hbefore by lia. unfold piece.
    assert (Hsi : sendable c i) by (split; [lia|left; lia]).
    pose proof (chunks_disjoint i seq Hsi Hsend ltac:(lia)). destruct (chunk_room i Hsi) as (? & ? & ?).
    apply read_splice_ne; lia.
  - intros i Hi. destruct (Z.eq_dec i seq) as [->|Hne].
    + exists m, p. split_and!; [|done|done|by rewrite Hpiece, Hlg|by rewrite Hpiece].
      apply list_elem_of_here.
    + destruct (Hafter i ltac:(lia)) as (m' & p' & Hin & Hrest). exists m', p'. split; [|done].
      apply elem_of_app. right. apply elem_of_app. by right.
Qed.
End transfer.

(** ** The handshake and the verification *)

Section handshake.
Context `{Host} `{Crc}.

Lemma ntohs_width v : in_width 16 (ntohs v).
Proof.
  unfold in_width, ntohs, htons. change (2 ^ 16) with 65536.
  pose proof (Z.mod_pos_bound v 256 ltac:(lia)). pose proof (Z.mod_pos_bound (v / 256) 256 ltac:(lia)).
  pose proof (Z.mod_pos_bound v 65536 ltac:(lia)). destruct little_endian; lia.
Qed.

Lemma decoded_valid stack ds header :
  decode_SEND stack ds = Some header -> ISVALID_SEND_HEADER (send_packet header) = true.
Proof.
  unfold decode_SEND. destruct ds as [|m [|infostr [|? ?]]]; try done.
  unfold decode_SendPacket. destruct (SendPacket_of_mem m) as [p|]; [|done]. cbn.
  destruct (unpack_from_infostring infostr (send_info stack)); [|done]. cbn. intros [= <-].
  unfold ISVALID_SEND_HEADER. cbn. destruct (ntohs_width (send_chunk_size p)) as [? _].
  by destruct (Z.leb_spec 0 (ntohs (send_chunk_size p))); [|lia].
Qed.

(** A SEND header whose information string has no terminator. *)
Definition unterminated (sock : Z) (tr : list obs) : Prop :=
  exists m infostr, wire tr = [In sock m; In sock infostr] /\ len m = sizeof_SendPacket /\
    len infostr = INFOSTRSIZE /\ strlen infostr = None.

(** What a SEND header pulled from the wire comes to: a decoded header, or an
    information string without terminator. *)
Lemma pull_send_ok sock stack timeout s :
  addrs_wf (send_info stack) ->
  wp posix (calls (fun o tr => tally heap_delta tr = 0 /\
      match o with
      | Val header => exists m infostr, wire tr = [In sock m; In sock infostr] /\
          len infostr = INFOSTRSIZE /\
          decode_SEND stack [m; infostr] = Some header /\ addrs_wf (send_info header)
      | Fail st => st ∈ recv_errors /\ (st ∈ complaints tr \/ mistyped sock SEND tr)
      | Undef => unterminated sock tr
      | _ => False
      end) s) (pull_SEND_header sock stack timeout) s.
Proof.
  intros Hst. eapply wp_calls; [apply pull_SEND_header_ok|]. intros o tr (res & Hp & ->).
  calls_go. split; [by eapply pulls_heap|]. destruct res as [st|ds]; cbn [pulled].
  { split; [by eapply pulls_outcome|]. destruct (pulls_complaint _ _ _ _ _ _ Hp) as [?|[-> ?]]; [by repeat constructor|auto..]. }
  pose proof (pulls_lens _ _ _ _ _ _ Hp) as Hl.
  apply Forall2_cons_inv_l in Hl as (m & ds' & (Hm & _) & Hl & ->).
  apply Forall2_cons_inv_l in Hl as (infostr & ds2 & (Hi & _) & Hn & ->).
  apply Forall2_nil_inv_l in Hn as ->. pose proof (pulls_wire _ _ _ _ _ _ Hp) as Hw.
  destruct (SendPacket_of_mem_len m Hm) as [p Hpk]. unfold decode_SEND, decode_SendPacket. rewrite Hpk.
  cbn [fmap option_fmap option_map mbind option_bind].
  destruct (strlen infostr) as [n|] eqn:Es.
  - destruct (unpack_ok infostr (send_info stack)) as (a & Hu & Ha & _); [by rewrite Es|done|].
    rewrite Hu. cbn [mbind option_bind]. exists m, infostr. rewrite Hpk. cbn. rewrite Hu. by split_and!.
  - unfold unpack_from_infostring. rewrite Es. cbn [mbind option_bind]. by exists m, infostr.
Qed.

(** The size of the file that a SEND header announces. *)
Definition announced_size (p : SendPacket) : Z :=
  calc_file_size (send_chunk_count p) (send_chunk_size p) (send_partial_chunk_size p).

(** Why a file of a size may not be created: a call went wrong, there is no room,
    or the file was, or was to be, empty. *)
Definition uncreated (size : Z) (tr : list obs) : Prop :=
  (exists st, st ∈ complaints tr) \/ found_empty tr \/ full_disk size tr \/ size = 0.

Lemma uncreated_app size tr tr1 tr2 : uncreated size tr1 -> uncreated size (tr ++ tr1 ++ tr2).
Proof.
  intros [(st & Hst)|[(file & r & Hin)|[(file & b & n & Hin & Hle)|Hz]]];
    [left|right; left|do 2 right; left|by do 3 right].
  - exists st. by apply complaints_r, complaints_l.
  - exists file, r. rewrite !elem_of_app. auto.
  - exists file, b, n. split; [|done]. apply elem_of_app. right. apply elem_of_app. by left.
Qed.

(** The sender's file name and address, taken from its header. *)
Definition readdressed (a info a' : CntlAddrs) : Prop :=
  cstr (addrs_filename a') = ztake (MAXFILENAMESIZE - 1) (cstr (addrs_filename info)) /\
  cstr (addrs_remote_ip a') = ztake (MAXIPV4SIZE - 1) (cstr (addrs_remote_ip info)) /\
  addrs_remote_port a' = addrs_remote_port info /\
  addrs_local_ip a' = addrs_local_ip a /\ addrs_local_port a' = addrs_local_port a.

(** The acknowledgement of the announcement says whether the file was created. *)
Definition handshaken (stack : SendArgs) (c : InitConfig) (o : outcome (list Z)) (tr : list obs)
    (c' : InitConfig) : Prop :=
  let conn := conf_conn_sock c in
  match o with
  | Val remote_name => exists m infostr header ack,
      wire tr = [In conn m; In conn infostr; Out conn (ack_bytes _ ack 0)] /\
      len infostr = INFOSTRSIZE /\ decode_SEND stack [m; infostr] = Some header /\
      conf_seq c' = 1 /\ conf_conn_sock c' = conn /\ conf_tf_trycount c' = conf_tf_trycount c /\
      conf_chsize c' = send_chunk_size (send_packet header) /\
      conf_pchsize c' = send_partial_chunk_size (send_packet header) /\
      conf_chcount c' = send_chunk_count (send_packet header) /\
      fc_size (conf_filec c') = announced_size (send_packet header) /\
      cstr remote_name = ztake (MAXNAMESIZE - 1) (cstr (addrs_name (send_info header))) /\
      readdressed (conf_addrs c) (send_info header) (conf_addrs c') /\
      ((ack = 1 /\ mfile_ok (conf_mfile c') /\ mf_open (conf_mfile c') = 1 /\
        0 < mf_size (conf_mfile c') /\
        (exists file, Obs (Ftruncate file (to_off (fc_size (conf_filec c')))) 0 ∈ tr) /\
        exists file r, Obs (Fstat file) (r, mf_size (conf_mfile c')) ∈ tr) \/
       (ack = 0 /\ conf_mfile c' = conf_mfile c /\ uncreated (announced_size (send_packet header)) tr))
  | Fail st => st ∈ send_errors ++ recv_errors /\ (st ∈ complaints tr \/ mistyped conn SEND tr)
  | Undef => unterminated conn tr
  | Exited _ => False
  end.

Lemma pull_handshake_ok remote_name stack c s :
  p_conf s = c -> addrs_wf (send_info stack) -> addrs_wf (conf_addrs c) ->
  len (fc_name (conf_filec c)) = MAXFILENAMESIZE -> len remote_name = MAXNAMESIZE ->
  wp posix (does (fun o tr c' => handshaken stack c o tr c' /\ tally heap_delta tr = 0) s)
    (pull_handshake remote_name stack) s.
Proof.
  intros <- Hst Hwf Hfn Hrn. unfold pull_handshake. wp_go.
  eapply wp_calls; [by apply pull_send_ok|]. intros o tr (Hh & Ho).
  destruct o as [header|st|?|]; [| |done|]; cbn [seq_post].
  2:{ does_go. destruct Ho as [Hst' Hd]. split; [split; [apply elem_of_app; by right|done]|done]. }
  2:{ does_go. by split. }
  destruct Ho as (m & infostr & Hw & Hli0 & Hdec & Hinfo).
  rewrite (decoded_valid _ _ _ Hdec). cbn [negb].
  apply wp_mbind, wp_set. cbn [seq_post]. apply wp_mbind, wp_get. cbn [seq_post].
  pose proof Hinfo as [If In_ Il Ir _ Irp]. pose proof Hwf as [Wf Wn Wl Wr _ _].
  apply wp_mbind, wp_sstrncpy; [cbn; rewrite Hfn; done|done|by rewrite If|].
  intros name Hln Hcn _. cbn [seq_post]. apply wp_mbind, wp_set. cbn [seq_post].
  apply wp_mbind, wp_sstrncpy; [cbn; rewrite Wf; done|done|by rewrite If|].
  intros filename Hlf Hcf (rest & Hrest). cbn [seq_post]. apply wp_mbind, wp_set. cbn [seq_post].
  apply wp_mbind, wp_sstrncpy; [rewrite Hrn; done|done|by rewrite In_|].
  intros remote Hlr Hcr _. cbn [seq_post].
  apply wp_mbind, wp_sstrncpy; [cbn; rewrite Wr; done|done|by rewrite Ir|].
  intros ip Hli Hci _. cbn [seq_post].
  do 3 (apply wp_mbind, wp_set; cbn [seq_post]). apply wp_mbind, wp_get. cbn [seq_post].
  apply wp_mbind, wp_status_of.
  match goal with |- wp _ _ (start_file_stream (addrs_filename (conf_addrs (p_conf ?st))) _) _ =>
    set (s1 := st); change (addrs_filename (conf_addrs (p_conf s1))) with filename end.
  rewrite Hrest. eapply wp_does; [apply (start_file_stream_ok _ rest MWR (p_conf s1))|].
  { apply no_nul_cstr. }
  { pose proof (len_cstr_le filename) as Hle. rewrite Hlf in Hle. change (len (addrs_filename _)) with
      (len (addrs_filename (conf_addrs (p_conf s)))) in Hle. rewrite Wf in Hle. unfold MAXFILENAMESIZE in Hle. lia. }
  { change (len name = MAXFILENAMESIZE). rewrite Hln. exact Hfn. }
  { done. }
  intros o tr1 c' (Hh1 & Hw1 & f & -> & Ho).
  assert (Hz1 : fc_size (conf_filec (p_conf s1)) = announced_size (send_packet header)) by reflexivity.
  assert (Ht1 : p_trace s1 = p_trace s ++ tr) by reflexivity.
  assert (Hend : forall ack,
    (ack = 1 /\ mfile_ok (fc_mfile f) /\ mf_open (fc_mfile f) = 1 /\ 0 < mf_size (fc_mfile f) /\
     (exists file, Obs (Ftruncate file (to_off (fc_size f))) 0 ∈ tr1) /\
     exists file r, Obs (Fstat file) (r, mf_size (fc_mfile f)) ∈ tr1) \/
    (ack = 0 /\ fc_mfile f = conf_mfile (p_conf s) /\ uncreated (announced_size (send_packet header)) tr1) ->
    fc_size f = announced_size (send_packet header) ->
    wp posix (does (fun o tr c' => handshaken stack (p_conf s) o tr c' /\ tally heap_delta tr = 0) s)
      (push_ack ack 0 (conf_hst_recv (p_conf s1));; sys (SetConf (set_conf_seq 1));; mret remote)
      (after_does tr1 (set_conf_filec f (p_conf s1)) s1)).
  { intros ack Hack Hsz. apply wp_mbind.
    eapply wp_calls; [eapply (push_ack_ok (p_conf s)); reflexivity|].
    intros o' tr2 (Hh2 & _ & Ho2). destruct o' as [[]|st|?|]; [| |done|done]; wp_go; does_from Ht1.
    - split; [|by rewrite !tally_app, Hh, Hh1, Hh2]. exists m, infostr, header, ack.
      rewrite !wire_app, Hw, Hw1, Ho2.
      split; [reflexivity|]. split; [exact Hli0|]. split; [exact Hdec|]. do 6 (split; [reflexivity|]).
      split; [exact Hsz|]. split; [exact Hcr|]. split; [by split_and!|].
      destruct Hack as [(-> & Hok & Hop & Hpos & (file' & Hin') & file & r & Hin)|(-> & Hmf & Hun)]; [left|right].
      2:{ do 2 (split; [done|]). by apply uncreated_app. }
      do 4 (split; [done|]). split; [exists file'|exists file, r]; rewrite !elem_of_app; auto.
    - destruct Ho2 as [Hst2 Hc2]. split; [|by rewrite !tally_app, Hh, Hh1, Hh2].
      split; [apply elem_of_app; by left|left]. by do 2 apply complaints_r. }
  destruct o as [[]|st|?|]; [| |done|done]; cbn [seq_post].
  - destruct Ho as (Hok & Hop & _ & Hsz & Hst' & _ & (Hfs & Htr) & _).
    apply (Hend 1); [left; by split_and!|by rewrite Hfs].
  - destruct Ho as (Hst' & Hmf & Hfs & Hwhy). destruct (decide (st = SUCCESS)) as [->|Hne].
    + exfalso. revert Hst'. change (SUCCESS ∉ stream_errors). by apply (bool_decide_unpack _).
    + apply (Hend 0); [right; split_and!; [done|done|]|by rewrite Hfs].
      destruct Hwhy as [Hc|[He|[_ Hwhy]]]; [left; by exists st|right; by left|right; right; exact Hwhy].
Qed.

(** The verification: its status is the one of the acknowledgement it sends, and
    never says whether the checksums agreed. *)
Lemma pull_verification_ok stack c s :
  p_conf s = c -> addrs_wf (send_info stack) -> transfer_ok c ->
  fc_size (conf_filec c) = mf_size (conf_mfile c) ->
  let crc := u16 (crc_16 (mf_bytes (conf_mfile c))) in
  wp posix (calls (fun o tr => tally heap_delta tr = 0 /\
      match o with
      | Val _ => exists m infostr header,
          len infostr = INFOSTRSIZE /\ decode_SEND stack [m; infostr] = Some header /\
          wire tr = [In (conf_conn_sock c) m; In (conf_conn_sock c) infostr;
                     Out (conf_conn_sock c)
                       (ack_bytes _ (if send_crc (send_packet header) =? crc then 1 else 0) (conf_seq c))]
      | Fail st => st ∈ ETHREAD :: send_errors ++ recv_errors /\
          (st ∈ complaints tr \/ mistyped (conf_conn_sock c) SEND tr)
      | Undef => unterminated (conf_conn_sock c) tr
      | Exited _ => False
      end) s) (pull_verification stack) s.
Proof.
  intros <- Hst Ht Hfs crc. unfold pull_verification. wp_go.
  destruct (Z.eqb_spec r 0); cbn [negb]; wp_go; [|calls_go; split_and!; [done|in_list|left; complains]].
  eapply wp_calls; [by apply pull_send_ok|]. intros o tr (Hh & Ho).
  destruct o as [header|st|?|]; [| |done|]; cbn [seq_post].
  2:{ calls_go. destruct Ho as [Hst' Hd]. split; [done|].
      split; [apply list_elem_of_further, elem_of_app; by right|].
      destruct Hd as [Hd|Hd]; [left; by apply (complaints_r _ [_])|right; by apply (mistyped_app _ _ [_])]. }
  2:{ calls_go. by split. }
  destruct Ho as (m & infostr & Hw & Hli & Hdec & _). wp_go.
  destruct (Z.eqb_spec r0 0); cbn [negb]; wp_go.
  2:{ calls_go. rewrite tally_cons, tally_app. split; [by rewrite Hh|]. split; [in_list|left].
      apply (complaints_r _ [_]), complaints_r. complains. }
  cbn [after_calls logged p_conf]. rewrite file_crc_ok by done. wp_go.
  eapply wp_calls; [eapply (push_ack_ok (p_conf s)); reflexivity|]. intros o tr2 (Hh2 & _ & Ho2).
  destruct o as [[]|st|?|]; [| |done|done]; calls_go; rewrite !tally_cons, !tally_app, tally_cons, Hh, Hh2;
    (split; [done|]).
  - exists m, infostr, header. do 2 (split; [done|]). rewrite !wire_cons, !wire_app, wire_cons, Hw, Ho2. done.
  - destruct Ho2 as [Hst2 Hc2]. split; [apply list_elem_of_further, elem_of_app; by left|left].
    apply (complaints_r _ [_]), complaints_r. by apply (complaints_r _ [_]).
Qed.
End handshake.

(** ** A reception without a file *)

Definition puller_errors : list status_t :=
  socket_errors ++ accept_errors ++ (send_errors ++ recv_errors) ++ (EMFSEEK :: pull_transfer_errors)
  ++ [ETHREAD; FAILURE].

Lemma puller_error st :
  st ∈ socket_errors \/ st ∈ accept_errors \/ st ∈ send_errors ++ recv_errors \/
  st ∈ EMFSEEK :: pull_transfer_errors \/ st = ETHREAD \/ st = FAILURE ->
  st ∈ puller_errors.
Proof. unfold puller_errors. rewrite !elem_of_app, !elem_of_cons. tauto. Qed.

(** After a NACK of the announcement the transfer goes on all the same; with no
    file open it fails or goes out of its memory. *)
Section without_file.
Context `{Host} `{Crc}.

Lemma never_send {A} st : st ∈ send_errors -> never_done (A:=A) puller_errors (Fail st).
Proof. intros Hst. right. eexists. split; [done|]. apply puller_error. do 2 right. left. apply elem_of_app. by left. Qed.
Lemma never_recv {A} st : st ∈ recv_errors -> never_done (A:=A) puller_errors (Fail st).
Proof. intros Hst. right. eexists. split; [done|]. apply puller_error. do 2 right. left. apply elem_of_app. by right. Qed.

Lemma pull_tries_unopened chcon crc t s :
  unopened (p_conf s) -> 0 <= cc_chunk_size chcon -> t <> 0 ->
  wp posix (does (fun o tr c' => never_done puller_errors o) s) (loop (pull_chunk_try chcon crc) t) s.
Proof.
  intros Hun Hsz Ht.
  apply (wp_loop _ (fun t' s' => t' = t /\ s' = s) (fun _ _ => O)); [done|]. intros ? ? [-> ->].
  unfold pull_chunk_try. destruct (Z.eqb_spec t 0); [done|]. wp_go.
  eapply wp_does; [by apply pull_chunk_unopened|]. intros o tr c' [->|(st & -> & Hst)]; cbn [seq_post].
  - does_go. by left.
  - does_go. right. exists st. split; [done|]. apply puller_error. do 3 right. left.
    rewrite elem_of_cons in *. destruct Hst; [by left|right]. by apply pull_data_transfer_error.
Qed.

Lemma pull_transfer_unopened s :
  unopened (p_conf s) -> conf_seq (p_conf s) <= conf_chcount (p_conf s) ->
  0 <= conf_chsize (p_conf s) -> 0 <= conf_pchsize (p_conf s) -> conf_tf_trycount (p_conf s) <> 0 ->
  wp posix (does (fun o tr c' => never_done puller_errors o) s) pull_transfer s.
Proof.
  intros Hun Hsq Hcs Hps Ht. unfold pull_transfer. wp_go.
  apply (wp_loop _ (fun t' s' => t' = conf_tf_trycount (p_conf s) /\ s' = s) (fun _ _ => O)); [done|].
  intros ? ? [-> ->]. unfold pull_one_chunk. wp_go. destruct (Z.ltb_spec (conf_chcount (p_conf s)) (conf_seq (p_conf s))); [lia|].
  wp_go. eapply wp_calls; [apply pull_flow_ok|]. intros o tr (_ & _ & Ho).
  destruct o as [args|st|?|]; [| |done|done]; cbn [seq_post]; [|does_go; apply never_recv, Ho].
  wp_case; wp_go.
  - eapply wp_calls; [by eapply (push_ack_ok (p_conf s))|]. intros o tr' (_ & _ & Ho').
    destruct o as [[]|st|?|]; [| |done|done]; cbn [seq_post]; [|does_go; apply never_send, Ho'].
    apply wp_mbind. eapply wp_does; [apply pull_tries_unopened; [exact Hun| |exact Ht]|].
    { unfold chunk_context. cbn. by destruct (conf_seq (p_conf s) =? _). }
    intros o tr2 c' [->|(st & -> & Hst)]; cbn [seq_post]; does_go; [by left|right; by exists st].
  - eapply wp_calls; [by eapply (push_ack_ok (p_conf s))|]. intros o tr' (_ & _ & Ho').
    destruct o as [[]|st|?|]; [| |done|done]; wp_go; does_go; right; eexists;
      (split; [done|]; apply puller_error; do 3 right; left; unfold pull_transfer_errors;
       rewrite elem_of_cons, elem_of_app, !elem_of_cons; tauto).
Qed.
End without_file.

(** ** A whole reception *)

(** A header that announces a file of size [sz] as the sender does, in chunks none
    of which is empty. *)
Record consistent (sz : Z) (p : SendPacket) : Prop := {
  cs_size : 0 < sz < 2 ^ 32;
  cs_chsize : 0 < send_chunk_size p < 2 ^ 16;
  cs_chcount : send_chunk_count p = sz / send_chunk_size p + 1;
  cs_pchsize : send_partial_chunk_size p = sz mod send_chunk_size p;
  cs_partial : send_partial_chunk_size p <> 0;
  cs_count : send_chunk_count p + 1 < 2 ^ 32
}.

(** The outside world of a reception that began after the calls [tr0]: the first
    message that comes in, if it is a packet at all, announces a file of size
    [sz], and the file created for it has the size it was given. *)
Definition sender_says (H : Host) (sz : Z) (tr0 tr : list obs) : Prop :=
  exists tr1, tr = tr0 ++ tr1 /\ keeps_size tr1 /\
    forall fd m w p, wire tr1 = In fd m :: w -> decode_SendPacket H m = Some p -> consistent sz p.

Lemma consistent_size sz p : consistent sz p -> announced_size p = sz.
Proof.
  intros [Hsz Hcs Hcc Hps _ Hn]. unfold announced_size, calc_file_size, wrap. rewrite Hcc, Hps in *.
  destruct (div_bounds sz (send_chunk_size p)) as [Hq Hb]; [lia..|].
  pose proof (Z.div_mod sz (send_chunk_size p) ltac:(lia)).
  pose proof (Z.mod_pos_bound sz (send_chunk_size p) ltac:(lia)).
  rewrite Z.add_simpl_r. set (q := sz / send_chunk_size p) in *. clearbody q.
  change (2 ^ 64) with 18446744073709551616. change (2 ^ 32) with 4294967296 in *.
  rewrite (Z.mod_small q), (Z.mod_small (q * _)), Z.mod_small by nia. nia.
Qed.

(** What goes over the control and the data sockets in a reception: the
    announcement and its acknowledgement, the chunks that make [content] of the
    new file, the sender's checksum, and the answer that says whether it is the
    one of [content]. *)
Definition receiver_session (H : Host) `{Crc} (stack1 stack2 : SendArgs) (sz : Z) (c : InitConfig)
    (content : list Z) (w : list wev) : Prop :=
  let conn := conf_conn_sock c in
  exists m i h wt m2 i2 h2,
    len i = INFOSTRSIZE /\ decode_SEND stack1 [m; i] = Some h /\ consistent sz (send_packet h) /\
    conf_chsize c = send_chunk_size (send_packet h) /\ mf_size (conf_mfile c) = sz /\ len content = sz /\
    receives_from H c 1 (mf_bytes (conf_mfile c)) wt content /\
    len i2 = INFOSTRSIZE /\ decode_SEND stack2 [m2; i2] = Some h2 /\
    w = [In conn m; In conn i; Out conn (ack_bytes H 1 0)] ++ wt
        ++ [In conn m2; In conn i2;
            Out conn (ack_bytes H (if send_crc (send_packet h2) =? u16 (crc_16 content) then 1 else 0)
              (conf_chcount c + 1))].

(** A reception goes out of its memory after an information string without
    terminator, or when it answered the announcement with a NACK. *)
Definition puller_astray (H : Host) (tr : list obs) : Prop :=
  (exists fd infostr, In fd infostr ∈ wire tr /\ strlen infostr = None) \/
  (exists fd, Out fd (ack_bytes H 0 0) ∈ wire tr).

(** Success: the session went over two sockets, different ones when no descriptor
    was used twice, and [content] is what the file holds. *)
Definition received_file (H : Host) `{Crc} (stack1 stack2 : SendArgs) (sz : Z) (tr : list obs) (c' : InitConfig) : Prop :=
  exists c1 content, announced c1 /\ receiver_session H stack1 stack2 sz c1 content (wire tr) /\
    mf_bytes (conf_mfile c') = content /\ (NoDup (sockets tr) -> conf_conn_sock c1 <> conf_data_sock c1).

Definition receiver_done (H : Host) `{Crc} (stack1 stack2 : SendArgs) (sz : Z) (s : pstate)
    (o : outcome (list Z)) (s' : pstate) : Prop :=
  exists tr, p_trace s' = p_trace s ++ tr /\
    match o with
    | Val name => received_file H stack1 stack2 sz tr (p_conf s')
    | Fail st => st ∈ puller_errors
    | Undef => puller_astray H tr
    | Exited _ => False
    end.

Lemma with_file_now c :
  announced c -> with_file c (conf_seq c) (mf_bytes (conf_mfile c)) c.
Proof.
  intros Ha. destruct (an_transfer _ Ha) as [Hm Ho _]. destruct (ok_buf _ Hm Ho) as (b & Hb & _).
  exists (mf_pos (conf_mfile c)). split; [apply Hm|]. unfold at_file, mf_content, mf_bytes. rewrite Hb.
  cbn [fmap option_fmap option_map]. replace {| map_addr := map_addr b; map_bytes := map_bytes b |} with b
    by by destruct b.
  rewrite <- Hb. change (set_mf_pos ?p (set_mf_buf (mf_buf ?m) ?m)) with (set_mf_pos p m).
  rewrite set_mfile_self. by destruct c.
Qed.

Lemma with_file_self c :
  announced c -> conf_seq c = 1 -> with_file c 1 (mf_bytes (conf_mfile c)) c.
Proof. intros Ha <-. by apply with_file_now. Qed.

Section start.
Context `{Host} `{Crc} (stack1 stack2 : SendArgs) (sz : Z).

(** The closing of the file and the sockets. *)
Lemma close_all_ok (name : list Z) s :
  wp posix (calls (fun o tr => wire tr = [] /\
      (o = Val name \/ (o = Fail FAILURE /\
         (mf_buf (conf_mfile (p_conf s)) <> None -> mf_file (conf_mfile (p_conf s)) <> None ->
          FAILURE ∈ complaints tr)))) s)
    (end_file_stream;;
     c ← sys GetConf;
     end_cntl (conf_cntl_sock c);;
     c ← sys GetConf;
     end_data (conf_data_sock c);;
     c ← sys GetConf;
     end_cntl (conf_conn_sock c);;
     mret name) s.
Proof.
  apply wp_mbind. eapply wp_calls; [apply end_file_stream_ok|].
  intros o tr (Hw & _ & [->|[-> Hd]]); cbn [seq_post]; [|calls_go; auto]. wp_go.
  eapply wp_calls; [apply close_socket_ok|]. intros o tr2 (Hw2 & _ & [->|[-> Hd]]); wp_go;
    [|calls_go; rewrite wire_app, Hw, Hw2; auto 6 with ruf].
  eapply wp_calls; [apply close_socket_ok|]. intros o tr3 (Hw3 & _ & [->|[-> Hd]]); wp_go;
    [|calls_go; rewrite !wire_app, Hw, Hw2, Hw3; auto 7 with ruf].
  eapply wp_calls; [apply close_socket_ok|]. intros o tr4 (Hw4 & _ & [->|[-> Hd]]); wp_go;
    calls_go; rewrite !wire_app, Hw, Hw2, Hw3, Hw4; auto 8 with ruf.
Qed.

(** From the transfer on. *)
Lemma pull_rest_ok c1 name s0 s tr m i h :
  announced c1 -> conf_seq c1 = 1 -> p_conf s = c1 -> p_trace s = p_trace s0 ++ tr ->
  mf_size (conf_mfile c1) = sz -> fc_size (conf_filec c1) = sz -> conf_pchsize c1 <> 0 ->
  addrs_wf (send_info stack2) ->
  len i = INFOSTRSIZE -> decode_SEND stack1 [m; i] = Some h -> consistent sz (send_packet h) ->
  conf_chsize c1 = send_chunk_size (send_packet h) ->
  wire tr = [In (conf_conn_sock c1) m; In (conf_conn_sock c1) i; Out (conf_conn_sock c1) (ack_bytes _ 1 0)] ->
  (forall tr', NoDup (sockets (tr ++ tr')) -> conf_conn_sock c1 <> conf_data_sock c1) ->
  wp posix (receiver_done _ stack1 stack2 sz s0)
    (pull_transfer;;
     pull_verification stack2;;
     end_file_stream;;
     c ← sys GetConf;
     end_cntl (conf_cntl_sock c);;
     c ← sys GetConf;
     end_data (conf_data_sock c);;
     c ← sys GetConf;
     end_cntl (conf_conn_sock c);;
     mret name) s.
Proof.
  intros Ha Hsq Hs Ht Hms Hfs Hp Hst Hli Hdec Hcons Hcs Hw Hfds.
  assert (Hlen : len (mf_bytes (conf_mfile c1)) = mf_size (conf_mfile c1)) by (by apply len_old, Ha).
  apply wp_mbind. eapply wp_does.
  { apply (pull_transfer_ok c1 Ha (mf_bytes (conf_mfile c1))); [rewrite Hs; by apply with_file_self|done|done]. }
  intros o tr1 c' Ho. destruct o as [[]|st|?|]; [| |done|done]; cbn [seq_post].
  2:{ does_from Ht. apply puller_error. do 3 right. left. apply list_elem_of_further, Ho. }
  destruct Ho as (content & Hcont & (pos & Hpos & ->) & Hr & _). apply wp_mbind.
  eapply wp_calls; [eapply pull_verification_ok; [reflexivity|done|by apply (at_file_ok c1 Ha)|]|].
  { change (fc_size (conf_filec c1) = mf_size (conf_mfile c1)). by rewrite Hfs, Hms. }
  intros o tr2 (_ & Ho2). cbn [after_does p_conf] in Ho2. rewrite (at_file_bytes c1 Ha) in Ho2.
  change (conf_conn_sock (at_file _ _ _ c1)) with (conf_conn_sock c1) in Ho2.
  change (conf_seq (at_file ?x _ _ c1)) with x in Ho2.
  destruct o as [[]|st|?|]; [| |done|]; cbn [seq_post].
  2:{ does_from Ht. apply puller_error. destruct Ho2 as [Ho2 _]. rewrite elem_of_cons in Ho2. tauto. }
  2:{ destruct Ho2 as (m2 & i2 & Hw2 & _ & _ & Hnul). does_from Ht. left. exists (conf_conn_sock c1), i2.
      split; [|done]. rewrite !wire_app, Hw2, !elem_of_app. right. right. in_list. }
  destruct Ho2 as (m2 & i2 & h2 & Hli2 & Hdec2 & Hw2).
  eapply wp_calls; [apply close_all_ok|]. intros o tr3 (Hw3 & Ho3).
  destruct Ho3 as [->|[-> _]]; does_from Ht; [|apply puller_error; tauto].
  exists c1, content. split; [done|]. split; [|split; [apply (at_file_bytes c1 Ha)|apply Hfds]].
  exists m, i, h, (wire tr1), m2, i2, h2. split_and!; try done; [by rewrite Hcont|]. rewrite !wire_app, Hw, Hw2, Hw3, app_nil_r. done.
Qed.

(** What the handshake leaves, in an outside world that says what [sender_says]
    does. *)
Lemma sender_said tr0 tr fd m w :
  sender_says _ sz tr0 (tr0 ++ tr) -> wire tr = In fd m :: w ->
  keeps_size tr /\ forall p, decode_SendPacket _ m = Some p -> consistent sz p.
Proof.
  intros (tr1 & Htr & Hall & Hfirst) Hw. apply app_inv_head in Htr as <-. split; [done|]. intros p. by eapply Hfirst.
Qed.

Lemma decode_SEND_packet stack m i h :
  decode_SEND stack [m; i] = Some h -> decode_SendPacket _ m = Some (send_packet h).
Proof.
  unfold decode_SEND. destruct (decode_SendPacket _ m) as [p|]; [|done]. cbn.
  destruct (unpack_from_infostring i (send_info stack)); [|done]. cbn. by intros [= <-].
Qed.

(** The configuration of the transfer: a header of the sender makes it an
    announced one when the file was created. *)
Lemma announced_after c4 c5 h :
  consistent sz (send_packet h) -> mfile_ok (conf_mfile c4) -> mf_open (conf_mfile c4) = 1 ->
  mf_size (conf_mfile c4) = sz -> 0 < conf_tf_trycount c4 ->
  conf_chsize c4 = send_chunk_size (send_packet h) ->
  conf_pchsize c4 = send_partial_chunk_size (send_packet h) ->
  conf_chcount c4 = send_chunk_count (send_packet h) ->
  c5 = set_conf_segsize (calc_segment_size (conf_chsize c4)) c4 -> announced c5.
Proof.
  intros [Z1 Z2 Z3 Z4 Z5 Z6] Hok Hop Hms Htry Hcs Hps Hcc ->.
  destruct (calc_segment_size_bounds (conf_chsize c4)) as (Hb & Hb0 & _); [lia|]. unfold SEGMENT_SIZE3 in Hb.
  constructor; [constructor| | | | | |].
  - exact Hok.
  - change (mf_open (conf_mfile c4) <> 0). lia.
  - cbn. lia.
  - change (0 < conf_chsize c4 < 2 ^ 16). by rewrite Hcs.
  - change (mf_size (conf_mfile c4) < 2 ^ 32). lia.
  - change (conf_chcount c4 = mf_size (conf_mfile c4) / conf_chsize c4 + 1). by rewrite Hcc, Hms, Hcs.
  - change (conf_pchsize c4 = mf_size (conf_mfile c4) mod conf_chsize c4). by rewrite Hps, Hms, Hcs.
  - change (conf_chcount c4 + 1 < 2 ^ 32). by rewrite Hcc.
  - exact Htry.
Qed.

(** From the handshake on; [ack] is what it answered. *)
Lemma after_handshake_ok name s0 s tr m i h ack :
  p_trace s = p_trace s0 ++ tr ->
  wire tr = [In (conf_conn_sock (p_conf s)) m; In (conf_conn_sock (p_conf s)) i;
             Out (conf_conn_sock (p_conf s)) (ack_bytes _ ack 0)] ->
  (exists fd, fd ∈ sockets tr /\ fd = conf_conn_sock (p_conf s)) -> len i = INFOSTRSIZE ->
  decode_SEND stack1 [m; i] = Some h -> consistent sz (send_packet h) -> addrs_wf (send_info stack2) ->
  conf_seq (p_conf s) = 1 -> 0 < conf_tf_trycount (p_conf s) ->
  conf_chsize (p_conf s) = send_chunk_size (send_packet h) ->
  conf_pchsize (p_conf s) = send_partial_chunk_size (send_packet h) ->
  conf_chcount (p_conf s) = send_chunk_count (send_packet h) ->
  fc_size (conf_filec (p_conf s)) = sz ->
  (ack = 1 /\ mfile_ok (conf_mfile (p_conf s)) /\ mf_open (conf_mfile (p_conf s)) = 1 /\
   mf_size (conf_mfile (p_conf s)) = sz) \/
  (ack = 0 /\ mf_open (conf_mfile (p_conf s)) = 0 /\ mf_buf (conf_mfile (p_conf s)) = None) ->
  wp posix (receiver_done _ stack1 stack2 sz s0)
    (start_data data_sock;;
     set_segsize;;
     pull_transfer;;
     pull_verification stack2;;
     end_file_stream;;
     c ← sys GetConf;
     end_cntl (conf_cntl_sock c);;
     c ← sys GetConf;
     end_data (conf_data_sock c);;
     c ← sys GetConf;
     end_cntl (conf_conn_sock c);;
     mret name) s.
Proof.
  set (c4 := p_conf s). intros Ht Hw (cfd & Hcfd & Hcfd') Hli Hdec Hcons Hst2 Hsq Htry Hcs Hps Hcc Hfs Hack.
  apply wp_mbind. eapply wp_does; [apply start_data_ok|].
  intros o tr5 c5 (Hw5 & _ & Ho5). destruct o as [[]|st|?|]; [| |done|done]; cbn [seq_post].
  2:{ does_from Ht. apply puller_error. left. apply Ho5. }
  destruct Ho5 as (fd5 & Hfd50 & -> & Hfd5). apply wp_mbind, wp_set. cbn [seq_post].
  match goal with |- wp _ _ _ ?x => set (s5 := x) end.
  pose proof Hcons as [Z1 Z2 Z3 Z4 Z5 Z6].
  assert (Hs5 : p_conf s5 = set_conf_segsize (calc_segment_size (conf_chsize c4)) (set_sock data_sock fd5 c4))
    by (cbn; fold c4; destruct (Z.eqb_spec (conf_chsize c4) 0); [lia|done]).
  assert (Ht5 : p_trace s5 = p_trace s0 ++ tr ++ tr5) by (cbn; rewrite Ht; symmetry; apply app_assoc).
  assert (Hwt : wire (tr ++ tr5) = [In (conf_conn_sock (p_conf s5)) m; In (conf_conn_sock (p_conf s5)) i;
      Out (conf_conn_sock (p_conf s5)) (ack_bytes _ ack 0)]) by (rewrite wire_app, Hw, Hw5; done).
  destruct Hack as [(-> & Hok & Hop & Hms)|(-> & Hop & Hbuf)].
  - apply (pull_rest_ok (p_conf s5) name s0 s5 (tr ++ tr5) m i h); try done.
    + by apply (announced_after (set_sock data_sock fd5 c4) _ h).
    + change (conf_pchsize c4 <> 0). by rewrite Hps.
    + intros tr' Hnd. change (conf_conn_sock c4 <> fd5). rewrite <- Hcfd'.
      eapply (sockets_differ _ tr [] tr5 tr'); [exact Hnd|by rewrite <- !app_assoc|done|by eapply socket_in].
  - assert (Hun : unopened (p_conf s5)).
    { rewrite Hs5. split; [exact Hop|]. split; [exact Hbuf|]. cbn.
      destruct (calc_segment_size_bounds (conf_chsize c4)) as (Hb & Hb0 & _); [lia|]. unfold SEGMENT_SIZE3 in Hb. lia. }
    destruct (div_bounds sz (send_chunk_size (send_packet h))) as [Hq _]; [lia..|].
    pose proof (Z.mod_pos_bound sz (send_chunk_size (send_packet h)) ltac:(lia)).
    apply wp_mbind. eapply wp_does; [apply pull_transfer_unopened; [exact Hun|..]|].
    1-4: rewrite Hs5; cbn; lia.
    intros o tr6 c6 [->|(st & -> & Hst)]; cbn [seq_post]; does_from Ht5; [|done].
    right. exists (conf_conn_sock (p_conf s5)). rewrite app_assoc, wire_app, Hwt. apply elem_of_app. left. in_list.
Qed.

(** The connection: whatever follows it runs with the peer's address in the
    configuration, nothing on the wire yet. *)
Lemma connect_ok P s (Q : outcome (list Z) -> pstate -> Prop) (k : M (list Z)) :
  P (p_trace s) -> len (addrs_remote_ip (conf_addrs (p_conf s))) = MAXIPV4SIZE ->
  (forall st tr s', p_trace s' = p_trace s ++ tr -> st ∈ puller_errors -> Q (Fail st) s') ->
  (forall tr fd1 fd2 port ip, wire tr = [] -> fd2 ∈ sockets tr -> len ip = MAXIPV4SIZE -> in_width 16 port ->
     let s' := after_does tr (set_conf_addrs
       (set_addrs_remote_port port (set_addrs_remote_ip ip (conf_addrs (p_conf s))))
       (set_sock conn_sock fd2 (set_sock cntl_sock fd1 (p_conf s)))) s in
     P (p_trace s') -> wp (posix_while P) Q k s') ->
  wp (posix_while P) Q
    (start_cntl cntl_sock false;;
     c ← sys GetConf;
     accept_cntl conn_sock (conf_cntl_sock c) FOREVER_TIMEOUT;;
     c ← sys GetConf;
     close_socket (conf_cast_sock c);;
     k) s.
Proof.
  intros HP0 Hl Hfail Hk. apply wp_mbind. eapply wp_while_use; [exact HP0|apply start_cntl_ok|].
  intros o tr1 c1 (Hw1 & _ & Ho1) HP1. destruct o as [[]|st|?|]; [| |done|done]; cbn [seq_post].
  2:{ eapply Hfail; [done|]. apply puller_error. left. apply Ho1. }
  destruct Ho1 as (fd1 & _ & -> & _). apply wp_mbind, wp_while_get; [exact HP1|]. cbn [seq_post]. apply wp_mbind.
  eapply wp_while_use; [exact HP1|by apply accept_new_connection_ok|].
  intros o tr2 c2 (Hw2 & _ & Ho2) HP2. destruct o as [[]|st|?|]; [| |done|done]; cbn [seq_post].
  2:{ eapply Hfail; [cbn; symmetry; apply app_assoc|]. apply puller_error. right. left. apply Ho2. }
  destruct Ho2 as (lfd & fd2 & sa & ip & Hacc & Hfd2 & -> & _ & _ & Hip & Hport).
  apply wp_mbind, wp_while_get; [exact HP2|]. cbn [seq_post]. apply wp_mbind.
  eapply wp_while_calls; [exact HP2|apply close_socket_ok|].
  intros o tr3 (Hw3 & _ & Ho3) HP3. cbn [after_does p_trace] in HP3. rewrite <- !app_assoc in HP3.
  destruct Ho3 as [->|[-> _]]; cbn [seq_post].
  - specialize (Hk (tr1 ++ tr2 ++ tr3) fd1 fd2 (ntohs (sin_port sa)) ip).
    unfold after_calls. cbn [after_does p_conf p_trace] in *. rewrite <- !app_assoc.
    apply Hk; [by rewrite !wire_app, Hw1, Hw2, Hw3| |done|apply ntohs_width|exact HP3].
    rewrite !sockets_app, !elem_of_app. right. left. by eapply accept_in.
  - eapply Hfail; [cbn; rewrite <- !app_assoc; reflexivity|]. apply puller_error. tauto.
Qed.

(** A whole reception, from the connection to the closed sockets, comes to an
    end when the first message that comes in announces a file as the sender does.
    It succeeds only after the session of the protocol: the announcement and its
    ACK, every chunk, received until its checksum was the announced one, and the
    sender's checksum, answered by an ACK exactly when the file received has it.
    It leaves its memory only after an information string without terminator, or
    when it went on after a NACK of the announcement, with no file open. *)
Lemma start_puller_ok name c tr0 pre s :
  p_trace s = tr0 ++ pre -> wire pre = [] -> keeps_size pre ->
  p_conf s = c -> addrs_wf (send_info stack1) -> addrs_wf (send_info stack2) -> addrs_wf (conf_addrs c) ->
  len (fc_name (conf_filec c)) = MAXFILENAMESIZE -> len name = MAXNAMESIZE ->
  0 < conf_tf_trycount c -> mf_open (conf_mfile c) = 0 -> mf_buf (conf_mfile c) = None ->
  wp (posix_while (sender_says _ sz tr0)) (receiver_done _ stack1 stack2 sz s)
    (start_puller name stack1 stack2) s.
Proof.
  intros Hpre Hwpre Hspre <- Hst1 Hst2 Hwf Hfn Hn Htry Hop Hbuf. unfold start_puller.
  apply connect_ok; [|apply Hwf| |].
  { exists pre. rewrite Hwpre. by split_and!. }
  { intros st tr s' Ht Hst. by exists tr. }
  intros tr fd1 fd2 port ip Hw0 Hfd2 Hip Hport s3 HP3. apply wp_mbind.
  eapply wp_while_use; [exact HP3|eapply (pull_handshake_ok name stack1 (p_conf s3)); try done|].
  { destruct Hwf as [W1 W2 W3 W4 W5 W6]. by constructor. }
  intros o tr4 c4 [Hhs _] HP4. cbn [s3 after_does p_trace] in HP4. rewrite <- app_assoc in HP4.
  destruct o as [rname|st|?|]; [| |done|]; cbn [seq_post].
  2:{ exists (tr ++ tr4). split; [cbn; symmetry; apply app_assoc|]. apply puller_error. destruct Hhs. auto. }
  2:{ destruct Hhs as (m & i & Hw & _ & _ & Hnul). exists (tr ++ tr4). split; [cbn; symmetry; apply app_assoc|]. left. exists (conf_conn_sock (p_conf s3)), i.
      split; [|done]. rewrite wire_app, Hw, elem_of_app. right. in_list. }
  destruct Hhs as (m & i & h & ack & Hw & Hli & Hdec & Hsq & Hconn & Htry4 & Hcs & Hps & Hcc & Hfs & _ & _ & Hack).
  assert (Hwire : wire (tr ++ tr4) = [In (conf_conn_sock c4) m; In (conf_conn_sock c4) i;
      Out (conf_conn_sock c4) (ack_bytes _ ack 0)]) by (rewrite Hconn, wire_app, Hw0, Hw; done).
  pose proof HP4 as HP. rewrite Hpre, <- app_assoc in HP4.
  assert (Hwire' : wire (pre ++ tr ++ tr4) = wire (tr ++ tr4)) by (by rewrite wire_app, Hwpre).
  rewrite <- Hwire' in Hwire.
  destruct (sender_said _ _ _ _ _ HP4 Hwire) as (Hall & Hcons).
  specialize (Hcons _ (decode_SEND_packet _ _ _ _ Hdec)).
  rewrite Hwire' in Hwire.
  eapply wp_mono; [apply wp_while; [cbn; rewrite <- app_assoc; exact HP|]|by intros o s' [HQ _]].
  eapply (after_handshake_ok rname s _ (tr ++ tr4)); try done.
  - cbn. by rewrite <- app_assoc.
  - exists fd2. split; [|exact (eq_sym Hconn)]. rewrite sockets_app. apply elem_of_app. by left.
  - change (0 < conf_tf_trycount c4). rewrite Htry4. exact Htry.
  - change (fc_size (conf_filec c4) = sz). rewrite Hfs. by apply consistent_size.
  - destruct Hack as [(-> & Hok & Hopen & Hpos & (file' & Hin') & file & r & Hin)|(-> & Hmf & _)]; [left|right].
    + split_and!; try done. destruct (cs_size _ _ Hcons).
      rewrite Hfs, (consistent_size sz), to_off_small in Hin' by (done || lia).
      eapply (keeps_size_fstat _ file' file); [exact Hall|rewrite !elem_of_app; eauto..].
    + change (conf_mfile (p_conf (after_does tr4 c4 s3))) with (conf_mfile c4). by rewrite Hmf.
Qed.
End start.

(** ** The theorems *)

(** C12: [pull_transfer], into a file of less than 2^32 bytes announced as the sender
    announces it ([announced]), whose last chunk is not empty, follows the protocol
    and comes to an end.  It succeeds only
    by taking, for every chunk, the FLOW header it expects, acknowledging it, and
    receiving segments until their CRC-32 is the announced one, in at most
    [tf_trycount] tries; the file is then exactly what [receives_from] says the
    exchanges make of it.  A failure has one of the listed statuses. *)
Theorem pull_transfer_spec `{Host} `{Crc} c s :
  announced c -> conf_pchsize c <> 0 -> conf_seq c = 1 -> p_conf s = c ->
  wp posix (does (fun o tr c' =>
      match o with
      | Val _ => exists content pos, 0 <= pos <= mf_size (conf_mfile c) /\
          c' = at_file (conf_chcount c + 1) pos content c /\ len content = mf_size (conf_mfile c) /\
          receives_from _ c 1 (mf_bytes (conf_mfile c)) (wire tr) content /\ tally heap_delta tr = 0
      | Fail st => st ∈ pull_transfer_errors /\
          tally heap_delta tr = (if decide (st = EMFSYNC) then 1 else 0)
      | _ => False
      end) s) pull_transfer s.
Proof.
  intros Ha Hp Hsq Hs.
  eapply wp_does; [apply (pull_transfer_ok c Ha (mf_bytes (conf_mfile c))); [|by apply len_old, Ha|done]|].
  { rewrite Hs. by apply with_file_self. }
  intros o tr c' Ho. does_go. destruct o as [[]|st|?|]; [|done..].
  destruct Ho as (content & Hc & (pos & Hpos & ->) & Hr & Hh). by exists content, pos.
Qed.

(** C13: the receiver's guarantee: when [pull_transfer] succeeds, under the conditions
    of [pull_transfer_spec] (an announced file of less than 2^32 bytes, no empty
    chunk), every chunk of the
    received file has the sequence number, the size and the CRC-32 of a FLOW
    header that came in, whatever the network did to the data. *)
Theorem pull_transfer_integrity `{Host} `{Crc} c s :
  announced c -> conf_pchsize c <> 0 -> conf_seq c = 1 -> p_conf s = c ->
  wp posix (does (fun o tr c' => o = Val tt ->
      forall i, 1 <= i <= conf_chcount c -> exists m p,
        In (conf_conn_sock c) m ∈ wire tr /\ decode_FlowPacket _ m = Some p /\ flow_sequence p = i /\
        flow_chunk_size p = len (chunk_bytes (conf_mfile c') (chunk_at c i)) /\
        u32 (crc_32 (chunk_bytes (conf_mfile c') (chunk_at c i))) = flow_crc p) s) pull_transfer s.
Proof.
  intros Ha Hp Hsq Hs.
  eapply wp_does; [apply (pull_transfer_ok c Ha (mf_bytes (conf_mfile c))); [|by apply len_old, Ha|done]|].
  { rewrite Hs. by apply with_file_self. }
  intros o tr c' Ho. does_go. intros ->. destruct Ho as (content & Hc & (pos & Hpos & ->) & Hr & _).
  destruct (receives_pieces c Ha 1 _ _ _ Hr) as (_ & _ & Hall); [lia|done|by apply len_old, Ha|].
  intros i Hi. unfold chunk_bytes. rewrite (at_file_bytes c Ha). by apply Hall.
Qed.

(** C23: a segment that is lost is not asked for again: when the bytes of a chunk do not
    all come in, the chunk fails, and since the acknowledgement of its FLOW header
    (the two messages of [head]) the receiver has sent nothing.  Only a chunk that
    came in whole with a wrong CRC-32 is asked for again. *)
Theorem lost_segment_ends_transfer `{Host} `{Crc} c s :
  announced c -> sendable c (conf_seq c) -> p_conf s = c ->
  wp posix (does (fun o tr c' => exists head body, wire tr = head ++ body /\ (length head <= 2)%nat /\
      (cc_chunk_size (chunk_at c (conf_seq c)) <= len (in_bytes (conf_data_sock c) body) \/
       (exists st, o = Fail st) /\ exists ds, body = In (conf_data_sock c) <$> ds)) s)
    (pull_one_chunk (conf_tf_trycount c)) s.
Proof.
  intros Ha Hs Hp. apply (pull_one_chunk_cut_short c Ha _ (mf_bytes (conf_mfile c))); [|by apply len_old, Ha|done].
  rewrite Hp. by apply with_file_now.
Qed.

(** C24: [pull_handshake] takes any SEND header, fills the configuration from it and
    creates the file.  It answers with an ACK exactly when the file is open and
    mapped; when it is not, it answers with a NACK but returns [SUCCESS] all the
    same, with the stream it had before.  Only an information string without
    terminator takes it out of its buffers. *)
Theorem pull_handshake_spec `{Host} `{Crc} remote_name stack c s :
  p_conf s = c -> addrs_wf (send_info stack) -> addrs_wf (conf_addrs c) ->
  len (fc_name (conf_filec c)) = MAXFILENAMESIZE -> len remote_name = MAXNAMESIZE ->
  wp posix (does (fun o tr c' => handshaken stack c o tr c' /\ tally heap_delta tr = 0) s)
    (pull_handshake remote_name stack) s.
Proof. apply pull_handshake_ok. Qed.

(** C25: [pull_verification] acknowledges the sender exactly when the CRC-16 of the
    received file is the announced one, but its own result does not depend on it:
    a failure is that of a call which complained, or of a message of the wrong type
    before anything was answered, and is never [FAILCRC]; so when the SEND header
    comes in, ends its string, and every call goes well, [pull_verification] returns
    [SUCCESS], also after the NACK of a mismatch.  An information string without
    terminator takes it out of its memory.  The buffers are freed on every path. *)
Theorem pull_verification_spec `{Host} `{Crc} stack c s :
  p_conf s = c -> addrs_wf (send_info stack) -> transfer_ok c ->
  fc_size (conf_filec c) = mf_size (conf_mfile c) ->
  let crc := u16 (crc_16 (mf_bytes (conf_mfile c))) in
  wp posix (calls (fun o tr => tally heap_delta tr = 0 /\
      (complaints tr = [] -> ~ mistyped (conf_conn_sock c) SEND tr -> ~ unterminated (conf_conn_sock c) tr -> o = Val tt) /\
      match o with
      | Val _ => exists m infostr header,
          len infostr = INFOSTRSIZE /\ decode_SEND stack [m; infostr] = Some header /\
          wire tr = [In (conf_conn_sock c) m; In (conf_conn_sock c) infostr;
                     Out (conf_conn_sock c)
                       (ack_bytes _ (if send_crc (send_packet header) =? crc then 1 else 0) (conf_seq c))]
      | Fail st => st <> FAILCRC /\ st ∈ ETHREAD :: send_errors ++ recv_errors /\
          (st ∈ complaints tr \/ mistyped (conf_conn_sock c) SEND tr)
      | Undef => unterminated (conf_conn_sock c) tr
      | Exited _ => False
      end) s)
    (pull_verification stack) s.
Proof.
  intros Hs Hst Ht Hfs crc. eapply wp_calls; [by apply (pull_verification_ok stack c)|].
  intros o tr (Hh & Ho). calls_go. split; [done|]. split.
  - intros Hc Hm Hu. destruct o as [[]|st|?|]; [done| |done|done]. destruct Ho as [_ [Hin|?]]; [|done].
    rewrite Hc in Hin. by apply elem_of_nil in Hin.
  - destruct o as [?|st|?|]; [done| |done|done]. split; [|done]. intros ->. destruct Ho as [Ho _]. revert Ho.
    change (FAILCRC ∉ ETHREAD :: send_errors ++ recv_errors). by apply (bool_decide_unpack _).
Qed.

