(* ===== verification/Broadcast.v ===== *)
(** * Broadcasting (source/broadcast.c)

    The receiver's beacon: a CAST packet every [bc_interval] seconds until
    [bc_trycount] sends in a row have failed. *)
From S2P Require Import Prelude Protocol Types Sys Wire Utils NetStream Cntl Pusher.

Section with_host.
Context `{Host}.

Definition push_broadcast_header (sock : Z) (args : CastArgs) (timeout : Z) : M unit :=
  let bufsize := sizeof_CastPacket + INFOSTRSIZE in
  buf ← sys (Malloc bufsize);
  if negb buf then fail EMALLOC else
  infostr ← defined (pack_into_infostring (zeros INFOSTRSIZE) (cast_info args));
  let buf := CastPacket_mem (cast_packet args) ++ infostr in
  poll_out sock timeout (push_udp_data sock buf bufsize);;
  sys Free.

(** One turn of the loop, on the tries left. *)
Definition broadcast_turn (header : CastArgs) (trycount : Z) : M (Z + unit) :=
  if trycount =? 0 then mret (inr tt) else
  c ← sys GetConf;
  st ← status_of (push_broadcast_header (conf_cast_sock c) header (conf_bct_cast c));
  c ← sys GetConf;
  sys (Sleep (conf_bc_interval c));;
  mret (inl (if decide (st = SUCCESS) then conf_bc_trycount c else trycount - 1)).

(** The loop and what follows it. *)
Definition broadcast_loop (header : CastArgs) (trycount : Z) : M unit :=
  loop (broadcast_turn header) trycount;;
  c ← sys GetConf;
  close_socket (conf_cast_sock c).

Definition start_broadcast (stack : CntlAddrs) : M unit :=
  c ← sys GetConf;
  let trycount := conf_bc_trycount c in
  let addrs := conf_addrs c in
  init_udp_socket cast_sock (addrs_local_ip addrs) (addrs_local_port addrs)
    (addrs_remote_ip addrs) (addrs_remote_port addrs) true;;
  info ← copy_info stack;
  let header := {| cast_packet := pack_RUFShare_CastPacket 0; cast_info := info |} in
  broadcast_loop header trycount.

End with_host.

(** ** Specifications *)

(** The bytes of the CAST datagram. *)
Definition cast_bytes `{Host} (header : CastArgs) : option (list Z) :=
  with_info (CastPacket_mem (cast_packet header)) (cast_info header).

Section specs.
Context `{Host}.

Lemma push_broadcast_header_ok sock args timeout bytes s :
  cast_bytes args = Some bytes ->
  wp posix (calls (pushes sock bytes 0 timeout) s) (push_broadcast_header sock args timeout) s.
Proof.
  intros Hb. destruct (with_info_inv _ _ _ _ (len_CastPacket_mem _) Hb) as (infostr & Hi & -> & Hl).
  unfold push_broadcast_header. rewrite Hi, <- Hl. push_header_go. push_buffer_go.
Qed.

(** One turn: a push, its failure included, and a pause. *)
Definition turned (c : InitConfig) (bytes : list Z) (trycount : Z) (o : outcome (Z + unit)) (tr : list obs) : Prop :=
  exists st tr', pushes (conf_cast_sock c) bytes 0 (conf_bct_cast c) st tr' /\
    tr = tr' ++ [Obs (Sleep (conf_bc_interval c)) tt] /\
    o = Val (inl (if st is Val _ then conf_bc_trycount c else trycount - 1)).

(** Each turn of the broadcast sends the CAST datagram once and pauses for
    [bc_interval] seconds; a success gives back all the tries, a failure of any
    kind takes one, so that the loop ends after [bc_trycount] failures in a row
    and no sooner. *)
Lemma broadcast_turn_ok header bytes trycount s :
  cast_bytes header = Some bytes -> trycount <> 0 ->
  wp posix (calls (turned (p_conf s) bytes trycount) s) (broadcast_turn header trycount) s.
Proof.
  intros Hb Ht. unfold broadcast_turn. destruct (Z.eqb_spec trycount 0); [done|]. wp_go.
  eapply wp_calls; [by apply push_broadcast_header_ok|]. intros o tr Hp.
  pose proof (pushes_outcome _ _ _ _ _ _ Hp) as Ho.
  destruct o as [[]|st|?|]; [| |done|done]; wp_go; destruct r.
  - destruct (decide (SUCCESS = SUCCESS)); [|done]. calls_go. by exists (Val tt), tr.
  - destruct (decide (st = SUCCESS)) as [->|].
    + exfalso. revert Ho. change (SUCCESS ∉ send_errors). by apply (bool_decide_unpack _).
    + calls_go. by exists (Fail st), tr.
Qed.

(** A network that takes every datagram. *)
Definition all_sent (o : obs) : Prop :=
  match ob_call o in sysE X return X -> Prop with
  | Malloc _ => fun ok => ok = true
  | Poll _ events _ => fun r => events = POLLOUT -> fst r = 1 /\ Z.land (snd r) events <> 0
  | SendTo _ buf _ => fun r => r = len buf
  | _ => fun _ => True
  end (ob_reply o).

Lemma all_sent_pushes sock bytes timeout o tr :
  pushes sock bytes 0 timeout o tr -> Forall all_sent tr -> o = Val tt.
Proof.
  intros [|o' tr' Hp] Hall; [by apply Forall_cons in Hall as [? _]|].
  apply Forall_cons in Hall as [_ Hall]. apply Forall_app in Hall as [Hall _].
  destruct Hp; try done; rewrite ?Forall_cons in Hall; unfold all_sent in Hall; cbn in Hall;
    try (destruct Hall as [Hpoll _]; by destruct (Hpoll eq_refl)); len_lia.
Qed.

(** A descriptor that takes no datagram any more: it was closed, or its number
    belongs to something else that no datagram can be sent on. *)
Definition sends_nothing (fd : Z) (o : obs) : Prop :=
  match ob_call o in sysE X return X -> Prop with
  | SendTo fd' buf _ => fun r => fd' = fd -> r < len buf
  | _ => fun _ => True
  end (ob_reply o).

Lemma nothing_pushed fd bytes timeout o tr :
  pushes fd bytes 0 timeout o tr -> Forall (sends_nothing fd) tr -> o <> Val tt.
Proof.
  intros [|o' tr' Hp] Hall; [done|]. apply Forall_cons in Hall as [_ Hall].
  apply Forall_app in Hall as [Hall _]. destruct Hp; try done.
  rewrite !Forall_cons in Hall. destruct Hall as (_ & Hs & _). assert (len bytes < len bytes) by exact (Hs eq_refl). lia.
Qed.

(** The calls of a turn whose push fails. *)
Definition failed_turn (c : InitConfig) (bytes : list Z) (tr : list obs) : Prop :=
  exists st tr', pushes (conf_cast_sock c) bytes 0 (conf_bct_cast c) (Fail st) tr' /\
    tr = tr' ++ [Obs (Sleep (conf_bc_interval c)) tt].

(** Then the loop uses up its tries, one a turn. *)
Lemma broadcast_turns_fail header bytes trycount s :
  cast_bytes header = Some bytes -> 0 <= trycount ->
  wp (posix_if (sends_nothing (conf_cast_sock (p_conf s)))) (calls (fun o tr => exists turns,
      o = Val tt /\ length turns = Z.to_nat trycount /\ Forall (failed_turn (p_conf s) bytes) turns /\ tr = concat turns) s)
    (loop (broadcast_turn header) trycount) s.
Proof.
  intros Hb Ht. set (c := p_conf s).
  apply (wp_loop _ (fun t s' => 0 <= t <= trycount /\ p_conf s' = c /\ exists turns,
    length turns = Z.to_nat (trycount - t) /\ Forall (failed_turn c bytes) turns /\ p_trace s' = p_trace s ++ concat turns)
    (fun t _ => Z.to_nat t)).
  { split_and!; [lia|lia|done|]. exists []. rewrite Z.sub_diag. split_and!; [done|constructor|]. by rewrite app_nil_r. }
  intros t s1 (Ht1 & Hc1 & turns & Hn & Hturns & Htr). destruct (Z.eq_dec t 0) as [->|Hne].
  { unfold broadcast_turn. cbn [Z.eqb]. apply wp_mret. exists (concat turns). split_and!; [done|done|].
    exists turns. rewrite Z.sub_0_r in Hn. by split_and!. }
  eapply wp_use.
  { eapply wp_mono; [by apply (broadcast_turn_ok header bytes)|]. intros o1 s2 Ho. exact (does_calls _ _ _ _ Ho). }
  intros o1 tr c1 [(st & tr' & Hp & -> & ->) ->] Hall. apply Forall_app in Hall as [Hall _].
  rewrite Hc1 in *. pose proof (nothing_pushed _ _ _ _ _ Hp Hall) as Hst. pose proof (pushes_outcome _ _ _ _ _ _ Hp) as Ho.
  destruct st as [[]|st|?|]; [done| |done|done]. cbn [loop_post]. split; [|lia].
  split_and!; [lia|lia|done|]. exists (turns ++ [tr' ++ [Obs (Sleep (conf_bc_interval c)) tt]]). split_and!.
  - rewrite length_app, Hn. cbn. lia.
  - apply Forall_app. split; [done|]. apply Forall_singleton. by exists st, tr'.
  - cbn [after_does p_trace]. rewrite Htr, concat_app. simpl. rewrite app_nil_r. by rewrite <- !app_assoc.
Qed.

(** C32: while the network takes its datagrams the broadcast never ends: whatever
    function answers its calls so, no amount of fuel gives a result. *)
Theorem broadcast_never_ends (h : handler pstate) header bytes trycount s fuel :
  answers (posix_if all_sent) h -> cast_bytes header = Some bytes ->
  trycount <> 0 -> conf_bc_trycount (p_conf s) <> 0 ->
  run h fuel (broadcast_loop header trycount) s = None.
Proof.
  intros Hh Hb Ht Hc. unfold broadcast_loop.
  destruct (run h fuel _ s) as [r|] eqn:Hr; [exfalso|done].
  destruct (run_bind_inv _ _ _ _ _ _ Hr) as (o & s' & f & H1 & _ & _).
  rewrite (loop_never_ends (posix_if all_sent) h
    (fun t s => t <> 0 /\ conf_bc_trycount (p_conf s) <> 0)) in H1; [done|done| |done].
  intros t s1 [Ht1 Hc1]. eapply wp_use.
  { eapply wp_mono; [by apply (broadcast_turn_ok header bytes)|]. intros o1 s2 Ho. exact (does_calls _ _ _ _ Ho). }
  intros o1 tr c1 [(st & tr' & Hp & -> & ->) ->] Hall. apply Forall_app in Hall as [Hall _].
  rewrite (all_sent_pushes _ _ _ _ _ Hp Hall). by eexists.
Qed.
End specs.
