(* ===== verification/Scanpair.v ===== *)
(** * Scanning for peers (source/scanpair.c)

    The sender's side of the discovery: for [sp_interval] seconds it records the
    name and address in every CAST datagram.  The module has its own socket
    functions. *)
From S2P Require Import Prelude Protocol Types Sys Wire Utils NetStream FileStream Cntl.

Definition scan_network_byteorder (ip : list Z) : M (list Z) :=
  match inet_pton ip with
  | None => fail BADIPV4
  | Some addr => mret addr
  end.

Definition scan_close_socket (sock : Z) : M unit :=
  r ← sys (Close sock);
  CHECK_INT r FAILURE.

Definition scan_pull_udp_data (sock : Z) (buf : list Z) (size : Z) : M (list Z) :=
  '(recv_size, data) ← sys (RecvFrom sock size 0);
  CHECK_INT recv_size ERRRECV;;
  buf ← defined (mem_write buf 0 data);
  CHECK_SIZE recv_size size;;
  mret buf.

Section with_host.
Context `{Host}.

Definition scan_init_udp_socket (sock : sockref) (src_ip : list Z) (src_port : Z) : M unit :=
  src_ipnetorder ← scan_network_byteorder src_ip;
  let local_addr := sockaddr src_port src_ipnetorder in
  tmpsock ← sys (Socket SOCK_DGRAM);
  CHECK_INT tmpsock INVSOCK;;
  sys (SetConf (set_sock sock tmpsock));;
  fd ← deref sock;
  r ← sys (Setsockopt fd SO_BROADCAST 1);
  CHECK_INT r FAILSET;;
  fd ← deref sock;
  r ← sys (Setsockopt fd SO_REUSEADDR 1);
  CHECK_INT r FAILSET;;
  fd ← deref sock;
  r ← sys (Bind fd local_addr);
  CHECK_INT r ERRBIND.

Definition pull_broadcast_header (sock : Z) (args : CastArgs) (timeout : Z) : M CastArgs :=
  let bufsize := sizeof_CastPacket + INFOSTRSIZE in
  buf ← sys (Malloc bufsize);
  if negb buf then fail EMALLOC else
  '(r, revents) ← sys (Poll sock POLLIN timeout);
  buf ← (if r =? -1 then sys Free;; fail FAILURE else
         if r =? 0 then sys Free;; fail TIMEOUT else
         if Z.land revents POLLIN =? 0 then sys Free;; fail ERRPOLL else
         free_on_fail (scan_pull_udp_data sock (zeros bufsize) bufsize));
  type ← defined (head buf);
  (if negb (type =? CAST) then CHECK_SSTAT BADTYPE else mret tt);;
  packet ← defined (CastPacket_of_mem (ztake sizeof_CastPacket buf));
  info ← defined (unpack_from_infostring (ztake INFOSTRSIZE (zdrop sizeof_CastPacket buf)) (cast_info args));
  sys Free;;
  mret {| cast_packet := convert_CastPacket_byteorder packet; cast_info := info |}.

(** The locals of the scan and the caller's array. *)
Record scan_state := {
  ss_trycount : Z;
  ss_header : CastArgs;
  ss_info : list PairInfo
}.

Definition sizeof_PairInfo : Z := 50.

(** A new element, in the array [realloc] gave; [fresh] is what that memory
    holds.  The source tests [info], not [*info], after [realloc], so a failed
    one is dereferenced. *)
Definition record_pair (fresh : PairInfo) (info : list PairInfo) (a : CntlAddrs) : M (list PairInfo) :=
  let n := Z.of_nat (length info) + 1 in
  ok ← sys (Realloc (length info =? 0)%nat (sizeof_PairInfo * n));
  if negb ok then undef else
  name ← defined (sstrncpy (pi_name fresh) (addrs_name a) MAXNAMESIZE);
  mret (info ++ [{| pi_name := name; pi_ip := addrs_remote_ip a; pi_port := addrs_remote_port a |}]).

(** A turn of the loop, after the clock was read. *)
Definition scan_rest (fresh : PairInfo) (st : scan_state) : M (scan_state + scan_state) :=
  c ← sys GetConf;
  r ← ITree.bind (pull_broadcast_header (conf_cast_sock c) (ss_header st) (conf_spt_cast c))
        (fun o => match o with
                  | Val h => Ret (Val (inl h))
                  | Fail e => Ret (Val (inr e))
                  | Exited n => Ret (Exited n)
                  | Undef => Ret Undef
                  end);
  st' ← match r with
        | inl header =>
            info ← record_pair fresh (ss_info st) (cast_info header);
            mret {| ss_trycount := conf_sp_trycount c; ss_header := header; ss_info := info |}
        | inr e =>
            mret {| ss_trycount := if decide (e <> BADTYPE /\ e <> TIMEOUT)
                                   then ss_trycount st - 1 else ss_trycount st;
                    ss_header := ss_header st; ss_info := ss_info st |}
        end;
  if ss_trycount st' =? 0 then mret (inr st') else mret (inl st').

(** One turn of the loop. *)
Definition scan_turn (fresh : PairInfo) (start_time interval : Z) (st : scan_state)
    : M (scan_state + scan_state) :=
  now ← sys Time;
  if negb (now - start_time <? interval) then mret (inr st) else
  scan_rest fresh st.

Definition start_scanpair (fresh : PairInfo) (stack : CastArgs) : M (list PairInfo) :=
  start_time ← sys Time;
  c ← sys GetConf;
  CHECK_NOTEQUAL (-1) start_time ERRTIME;;
  scan_init_udp_socket cast_sock (addrs_local_ip (conf_addrs c)) (addrs_local_port (conf_addrs c));;
  st ← loop (scan_turn fresh start_time (conf_sp_interval c))
         {| ss_trycount := conf_sp_trycount c; ss_header := stack; ss_info := [] |};
  c ← sys GetConf;
  scan_close_socket (conf_cast_sock c);;
  CHECK_NOTEQUAL 0 (ss_trycount st) EXPTRY0;;
  mret (ss_info st).

End with_host.

(** ** Specifications *)

(** The statuses of a datagram that is not recorded. *)
Definition scan_errors : list status_t :=
  [EMALLOC; FAILURE; TIMEOUT; ERRPOLL; ERRRECV; LOWSIZE; BADTYPE].

(** A datagram of the size and the type of a CAST packet. *)
Definition is_cast (d : list Z) : bool :=
  (len d =? sizeof_CastPacket + INFOSTRSIZE) && (hd 0 d =? CAST).

(** A CAST packet whose information string has no terminator was received. *)
Definition overread (tr : list obs) : Prop :=
  exists sock d, In sock d ∈ wire tr /\ is_cast d = true /\
    strlen (ztake INFOSTRSIZE (zdrop sizeof_CastPacket d)) = None.

(** The entry recorded for a sender's header. *)
Definition pair_of (fresh : PairInfo) (a : CntlAddrs) : option PairInfo :=
  name ← sstrncpy (pi_name fresh) (addrs_name a) MAXNAMESIZE;
  Some {| pi_name := name; pi_ip := addrs_remote_ip a; pi_port := addrs_remote_port a |}.

(** What a scan has recorded after the datagrams [ds]: an entry for each CAST
    packet, in order, decoded over the header the one before it left. *)
Fixpoint collect `{Host} (fresh : PairInfo) (header : CastArgs) (info : list PairInfo) (ds : list (list Z))
    : option (CastArgs * list PairInfo) :=
  match ds with
  | [] => Some (header, info)
  | d :: ds =>
      if is_cast d then
        header ← decode_CAST header [ztake sizeof_CastPacket d; ztake INFOSTRSIZE (zdrop sizeof_CastPacket d)];
        p ← pair_of fresh (cast_info header);
        collect fresh header (info ++ [p]) ds
      else collect fresh header info ds
  end.

(** The replies of the clock. *)
Definition time_of (o : obs) : list Z :=
  match ob_call o in sysE X return X -> list Z with
  | Time => fun t => [t]
  | _ => fun _ => []
  end (ob_reply o).
Definition times (tr : list obs) : list Z := concat (time_of <$> tr).

Lemma collect_app `{Host} fresh header info ds ds' :
  collect fresh header info (ds ++ ds')
  = r ← collect fresh header info ds; collect fresh (fst r) (snd r) ds'.
Proof.
  revert header info. induction ds as [|d ds IH]; intros header info; [done|]. cbn [collect app].
  destruct (is_cast d); [|apply IH].
  destruct (decode_CAST _ _) as [h|]; [|done]. cbn [mbind option_bind].
  destruct (pair_of _ _) as [p|]; [apply IH|done].
Qed.

Lemma collect_skip `{Host} fresh header info ds :
  Forall (fun d => is_cast d = false) ds -> collect fresh header info ds = Some (header, info).
Proof. induction 1 as [|d ds Hd _ IH]; [done|]. cbn [collect]. by rewrite Hd. Qed.

Lemma times_app tr tr' : times (tr ++ tr') = times tr ++ times tr'.
Proof. unfold times. by rewrite fmap_app, concat_app. Qed.

(** The clock advances: at most [n] of its replies are of the same second. *)
Definition ticks (n : Z) (ts : list Z) : Prop :=
  forall i j t t', ts !! i = Some t -> ts !! (i + j)%nat = Some t' -> t + Z.of_nat j / n <= t'.
Definition ticking (n : Z) : env pstate := posix_while (fun tr => ticks n (times tr)).

(** A scan that leaves its memory: one way is a datagram without a terminator,
    the other a failed [realloc]. *)
Definition astray (tr : list obs) : Prop :=
  overread tr \/ exists b n, Obs (Realloc b n) false ∈ tr.

Section specs.
Context `{Host}.

Lemma scan_pull_udp_data_ok sock buf size s :
  0 <= size <= len buf ->
  wp posix (calls (received sock size 0 buf) s) (scan_pull_udp_data sock buf size) s.
Proof. intros Hs. unfold scan_pull_udp_data. received_go. Qed.

(** What a call for the next datagram comes to.  The buffer is freed on every
    path; one that goes out of its buffers had no terminator to stop at. *)
Definition scanned (sock : Z) (args : CastArgs) (o : outcome CastArgs) (tr : list obs) : Prop :=
  times tr = [] /\
  match o with
  | Val args' => tally heap_delta tr = 0 /\ exists d, wire tr = [In sock d] /\ is_cast d = true /\
      decode_CAST args [ztake sizeof_CastPacket d; ztake INFOSTRSIZE (zdrop sizeof_CastPacket d)] = Some args' /\
      addrs_wf (cast_info args')
  | Fail st => tally heap_delta tr = 0 /\ st ∈ scan_errors /\
      exists ds, wire tr = In sock <$> ds /\ Forall (fun d => is_cast d = false) ds
  | Undef => overread tr
  | Exited _ => False
  end.

Ltac scan_failed ds := calls_go; split; [done|split; [done|split; [in_list|exists ds; split; [done|]]]].

Lemma pull_broadcast_header_ok sock args timeout s :
  addrs_wf (cast_info args) ->
  wp posix (calls (scanned sock args) s) (pull_broadcast_header sock args timeout) s.
Proof.
  intros Ha. unfold pull_broadcast_header. wp_go.
  wp_case; wp_go; [|by scan_failed (@nil (list Z))]. cbn [fst snd] in *.
  do 3 (wp_case; wp_go; [by scan_failed (@nil (list Z))|]).
  set (size := sizeof_CastPacket + INFOSTRSIZE) in *.
  eapply wp_calls; [apply scan_pull_udp_data_ok; rewrite len_zeros; unfold size; done|].
  intros o tr (m & d & -> & [(-> & ->)|[(Hm & Hl & ->)|(-> & Hl & Hok & ->)]]); wp_go.
  { by scan_failed (@nil (list Z)). }
  { calls_go. split; [done|split; [done|split; [in_list|exists [d]; split]]].
    { cbn. by destruct (Z.eqb_spec m (-1)); [lia|]. }
    unfold is_cast. constructor; [|constructor].
    apply andb_false_iff. left. apply Z.eqb_neq. fold size. lia. }
  rewrite zdrop_all, app_nil_r by (rewrite len_zeros; unfold size; done).
  destruct d as [|b d0]; [by rewrite len_nil in Hl|]. cbn [head]. wp_go.
  destruct (Z.eqb_spec b CAST) as [->|Hb]; cbn [negb]; wp_go.
  2:{ scan_failed [b :: d0]. unfold is_cast. constructor; [|constructor].
      apply andb_false_iff. right. by apply Z.eqb_neq. }
  set (d := CAST :: d0) in *.
  assert (Hp : len (ztake sizeof_CastPacket d) = sizeof_CastPacket)
    by (apply len_ztake; rewrite Hl; by unfold size, sizeof_CastPacket, INFOSTRSIZE).
  destruct (CastPacket_of_mem_len _ Hp) as [p Hpk]. rewrite Hpk. wp_go.
  set (info := ztake INFOSTRSIZE (zdrop sizeof_CastPacket d)).
  assert (Hcd : is_cast d = true) by (unfold is_cast; rewrite Hl; done).
  destruct (strlen info) as [k|] eqn:Hn.
  - destruct (unpack_ok info (cast_info args)) as (a' & Hu & Hwf & _); [congruence|exact Ha|].
    rewrite Hu. wp_go. calls_go. split; [done|]. split; [done|]. exists d.
    split_and!; [done|exact Hcd| |done].
    unfold decode_CAST, decode_CastPacket. rewrite Hpk. fold info. cbn [mbind option_bind]. by rewrite Hu.
  - assert (unpack_from_infostring info (cast_info args) = None) as ->
      by (unfold unpack_from_infostring; by rewrite Hn).
    wp_go. calls_go. split; [done|]. exists sock, d. split_and!; [in_list|exact Hcd|exact Hn].
Qed.

(** From one state of the scan to another, by the datagrams taken. *)
Definition scan_moved (fresh : PairInfo) (sock : Z) (st st' : scan_state) (tr : list obs) : Prop :=
  addrs_wf (cast_info (ss_header st')) /\
  exists ds, wire tr = In sock <$> ds /\
    collect fresh (ss_header st) (ss_info st) ds = Some (ss_header st', ss_info st').

Lemma scan_rest_ok fresh st s :
  addrs_wf (cast_info (ss_header st)) -> len (pi_name fresh) = MAXNAMESIZE ->
  wp posix (calls (fun o tr => times tr = [] /\
      match o with
      | Val (inl st') => scan_moved fresh (conf_cast_sock (p_conf s)) st st' tr
      | Val (inr st') => ss_trycount st' = 0 /\ scan_moved fresh (conf_cast_sock (p_conf s)) st st' tr
      | Undef => astray tr
      | _ => False
      end) s) (scan_rest fresh st) s.
Proof.
  intros Ha Hf. unfold scan_rest. wp_go. apply wp_bind.
  eapply wp_calls; [by apply pull_broadcast_header_ok|]. intros o tr (Hti & Ho).
  destruct o as [args|e|?|]; [| |done|].
  - destruct Ho as (_ & d & Hw & Hd & Hdec & Hwf). apply wp_ret. cbn [seq_post].
    unfold record_pair. wp_go. destruct r; cbn [negb]; wp_go.
    2:{ calls_go. split; [by rewrite times_app, Hti|]. right. eexists _, _.
        apply elem_of_app. right. apply list_elem_of_here. }
    destruct (sstrncpy_ok (pi_name fresh) (addrs_name (cast_info args)) MAXNAMESIZE) as (name & Hn & _);
      [by rewrite Hf|done|right; by rewrite (wf_name _ Hwf)|].
    rewrite Hn. wp_go.
    assert (Hmv : forall p, scan_moved fresh (conf_cast_sock (p_conf s)) st
      {| ss_trycount := conf_sp_trycount (p_conf s); ss_header := args;
         ss_info := ss_info st ++ [{| pi_name := name; pi_ip := addrs_remote_ip (cast_info args);
           pi_port := addrs_remote_port (cast_info args) |}] |} (tr ++ [Obs (Realloc (length (ss_info st) =? 0)%nat p) true])).
    { intros p. split; [done|]. exists [d]. split; [by rewrite wire_app, Hw|].
      cbn [collect]. rewrite Hd, Hdec. cbn [mbind option_bind]. unfold pair_of. rewrite Hn. done. }
    wp_case; wp_go; calls_go; (split; [by rewrite times_app, Hti|]); [split; [done|]|]; apply Hmv.
  - destruct Ho as (_ & _ & ds & Hw & Hds). apply wp_ret. cbn [seq_post]. wp_go.
    assert (Hmv : forall t, scan_moved fresh (conf_cast_sock (p_conf s)) st
      {| ss_trycount := t; ss_header := ss_header st; ss_info := ss_info st |} tr).
    { intros t. split; [done|]. exists ds. split; [done|]. by apply collect_skip. }
    wp_case; wp_go; calls_go; (split; [done|]); [split; [done|]|]; apply Hmv.
  - apply wp_ret. cbn [seq_post]. calls_go. split; [done|by left].
Qed.
Lemma scan_init_ok sock src_ip src_port s :
  wp posix (does (fun o tr c' => wire tr = [] /\ times tr = [] /\
      match o with
      | Val _ => exists fd, c' = set_sock sock fd (p_conf s)
      | Fail st => st ∈ socket_errors
      | _ => False
      end) s) (scan_init_udp_socket sock src_ip src_port) s.
Proof.
  unfold scan_init_udp_socket, scan_network_byteorder.
  assert (Hd : forall s Q, Q (Val (get_sock sock (p_conf s))) s -> wp posix Q (deref sock) s).
  { intros s' Q HQ. unfold deref. wp_go. exact HQ. }
  destruct (inet_pton src_ip); wp_go; [|does_go; split_and!; first [done|in_list]].
  repeat first [progress wp_go|apply Hd
    |wp_case; wp_go; [does_go; split_and!; first [done|in_list]|]].
  does_go. split_and!; try done. by eexists.
Qed.

(** The clock in an environment where it advances. *)
Lemma wp_time n (Q : outcome Z -> pstate -> Prop) s :
  (forall t, -1 <= t -> ticks n (times (p_trace s) ++ [t]) -> Q (Val t) (logged Time t s)) ->
  wp (ticking n) Q (sys Time) s.
Proof.
  intros HQ. apply wp_sys. intros t s' [[Hr ->] Ht]. apply HQ; [done|].
  cbn [logged p_trace] in Ht. by rewrite times_app in Ht.
Qed.

Lemma ticks_since n ts start l t :
  ticks n (ts ++ (start :: l) ++ [t]) -> start + (1 + Z.of_nat (length l)) / n <= t.
Proof.
  intros Ht. specialize (Ht (length ts) (S (length l)) start t).
  rewrite Nat2Z.inj_succ, <- Z.add_1_l in Ht. apply Ht.
  - rewrite lookup_app_r, Nat.sub_diag by lia. done.
  - rewrite lookup_app_r by lia. replace (length ts + S (length l) - length ts)%nat with (S (length l)) by lia.
    change ((l ++ [t]) !! length l = Some t). rewrite lookup_app_r by lia. by rewrite Nat.sub_diag.
Qed.

(** The loop of a scan that began with [s0] in its state, at [start]. *)
Lemma scan_loop_ok n fresh start interval st0 tr0 s0 s :
  0 < n -> addrs_wf (cast_info (ss_header st0)) -> len (pi_name fresh) = MAXNAMESIZE ->
  p_trace s = p_trace s0 ++ tr0 -> times tr0 = [start] -> wire tr0 = [] ->
  wp (ticking n) (fun o s' => p_conf s' = p_conf s /\ exists tr, p_trace s' = p_trace s0 ++ tr /\
      match o with
      | Val st' => scan_moved fresh (conf_cast_sock (p_conf s)) st0 st' tr
      | Undef => astray tr
      | _ => False
      end) (loop (scan_turn fresh start interval) st0) s.
Proof.
  intros Hn Ha Hf Ht Hti Hw.
  apply (wp_loop _ (fun st s' => p_conf s' = p_conf s /\ exists tr l, p_trace s' = p_trace s0 ++ tr /\
      times tr = start :: l /\ scan_moved fresh (conf_cast_sock (p_conf s)) st0 st tr)
    (fun _ s' => Z.to_nat (interval * n - Z.of_nat (length (times (p_trace s'))) + Z.of_nat (length (times (p_trace s0)))))).
  { split; [done|]. exists tr0, []. split_and!; [done|done|]. split; [done|]. exists []. by rewrite Hw. }
  intros st s1 (Hc1 & tr & l & Ht1 & Hti1 & Hwf & ds & Hwd & Hcol). unfold scan_turn.
  apply wp_mbind, wp_time. intros t _ Htick. cbn [seq_post].
  rewrite Ht1, times_app, Hti1, <- app_assoc in Htick. pose proof (ticks_since _ _ _ _ _ Htick) as Hsince.
  destruct (Z.ltb_spec (t - start) interval) as [Hlt|Hge]; cbn [negb].
  2:{ apply wp_mret. split; [done|]. exists (tr ++ [Obs Time t]). split; [cbn; by rewrite Ht1, app_assoc|].
      split; [done|]. exists ds. by rewrite wire_app, app_nil_r. }
  assert (Hl : 1 + Z.of_nat (length l) < interval * n).
  { pose proof (Z.div_mod (1 + Z.of_nat (length l)) n ltac:(lia)).
    pose proof (Z.mod_pos_bound (1 + Z.of_nat (length l)) n ltac:(lia)). nia. }
  eapply (wp_fewer _ _ _ _ _ (posix_while_posix _)), wp_calls; [by apply scan_rest_ok|].
  intros o tr' (Hti' & Ho). cbn [logged p_conf] in Ho. rewrite Hc1 in Ho.
  assert (Hmove : forall st', scan_moved fresh (conf_cast_sock (p_conf s)) st st' tr' ->
    scan_moved fresh (conf_cast_sock (p_conf s)) st0 st' (tr ++ [Obs Time t] ++ tr')).
  { intros st' (Hwf' & ds' & Hw' & Hc'). split; [done|]. exists (ds ++ ds'). split.
    - by rewrite !wire_app, Hwd, Hw', fmap_app.
    - rewrite collect_app, Hcol. exact Hc'. }
  assert (Htr : (p_trace s1 ++ [Obs Time t]) ++ tr' = p_trace s0 ++ tr ++ [Obs Time t] ++ tr')
    by (rewrite Ht1, <- !app_assoc; done).
  destruct o as [[st'|st']|e|?|]; cbn [loop_post]; [| |done|done|].
  - split.
    + split; [done|]. exists (tr ++ [Obs Time t] ++ tr'), (l ++ [t]). split; [exact Htr|].
      split; [by rewrite !times_app, Hti1, Hti'|by apply Hmove].
    + cbn [after_calls logged p_trace]. rewrite Htr, Ht1, !times_app, Hti1, Hti', !length_app. cbn. lia.
  - destruct Ho as [_ Ho]. split; [done|]. exists (tr ++ [Obs Time t] ++ tr'). split; [exact Htr|by apply Hmove].
  - split; [done|]. exists (tr ++ [Obs Time t] ++ tr'). split; [exact Htr|].
    destruct Ho as [(fd & d & Hin & Hd)|(b & m & Hin)].
    + left. exists fd, d. split; [|done]. rewrite !wire_app, !elem_of_app. auto.
    + right. exists b, m. rewrite !elem_of_app. auto.
Qed.

Lemma scan_posix n {A} (Q : outcome A -> pstate -> Prop) m s : wp posix Q m s -> wp (ticking n) Q m s.
Proof. apply wp_fewer, posix_while_posix. Qed.

Lemma start_scanpair_ok n fresh stack s :
  0 < n -> addrs_wf (cast_info stack) -> len (pi_name fresh) = MAXNAMESIZE ->
  wp (ticking n) (does (fun o tr c' =>
      match o with
      | Val info => exists fd header ds, c' = set_sock cast_sock fd (p_conf s) /\
          wire tr = In fd <$> ds /\ collect fresh stack [] ds = Some (header, info)
      | Fail st => st ∈ ERRTIME :: EXPTRY0 :: FAILURE :: socket_errors
      | Undef => astray tr
      | Exited _ => False
      end) s) (start_scanpair fresh stack) s.
Proof.
  intros Hn Ha Hf. unfold start_scanpair. apply wp_mbind, wp_time. intros start _ _. cbn [seq_post].
  apply wp_mbind, scan_posix, wp_get. cbn [seq_post]. apply wp_mbind.
  wp_step. wp_case; wp_step; cbn [seq_post]; [does_go; in_list|].
  apply wp_mbind, scan_posix. eapply wp_does; [apply scan_init_ok|].
  intros o tr1 c1 (Hw1 & Ht1 & Ho). destruct o as [[]|st|?|]; [|does_go|done|done]; cbn [seq_post].
  2:{ revert Ho. unfold socket_errors. rewrite !elem_of_cons. tauto. }
  destruct Ho as [fd ->]. apply wp_mbind.
  eapply wp_mono; [apply (scan_loop_ok n fresh start _ _ ([Obs Time start] ++ tr1) s); try done|].
  { cbn. by rewrite <- app_assoc. }
  { by rewrite times_app, Ht1. }
  intros o s' (Hc & tr & Htr & Ho). destruct o as [st'|?|?|]; [|done|done|by exists tr]; cbn [seq_post].
  destruct Ho as (_ & ds & Hw & Hcol). apply scan_posix. unfold scan_close_socket.
  wp_go. repeat (wp_case; wp_go; [does_from Htr; in_list|]).
  does_from Htr. exists fd, (ss_header st'), ds. split_and!; [exact Hc| |exact Hcol].
  by rewrite wire_app, Hw, app_nil_r.
Qed.
(** C17: while the clock advances a scan comes to an end, with whatever datagrams
    and failures of the calls in between.  It gives exactly the entries of the CAST
    packets received, in order, and leaves the configuration alone but for its
    socket.  It goes out of its memory only after a packet whose information string
    has no terminator or a failed [realloc]. *)
Theorem start_scanpair_spec n fresh stack s :
  0 < n -> addrs_wf (cast_info stack) -> len (pi_name fresh) = MAXNAMESIZE ->
  wp (ticking n) (does (fun o tr c' =>
      match o with
      | Val info => exists fd header ds, c' = set_sock cast_sock fd (p_conf s) /\
          wire tr = In fd <$> ds /\ collect fresh stack [] ds = Some (header, info)
      | Fail st => st ∈ ERRTIME :: EXPTRY0 :: FAILURE :: socket_errors
      | Undef => astray tr
      | Exited _ => False
      end) s) (start_scanpair fresh stack) s.
Proof. apply start_scanpair_ok. Qed.
End specs.
