(* ===== verification/Rufshare.v ===== *)
(** * The library interface (source/rufshare.c, include/tryexec.h, include/error.h)

    The public functions check the configuration, and hand the status of the work
    to [tryexec], which ends the process on every status but [SUCCESS]. *)
From S2P Require Import Prelude Protocol Types Sys Wire Utils Error Logd NetStream FileStream Cntl Pusher Puller Broadcast Scanpair.

(** The built library defines [LOGGING]. *)
Definition initiate (logpath : list Z) (logcount : Z) (logc : LogContext) : M LogContext :=
  '(r, logc) ← init_logd logpath logcount logc;
  (if negb (r =? 0) then tryexec FAILLOG else mret tt);;
  mret logc.

Definition deinitiate (logc : LogContext) : M unit :=
  r ← deinit_logd logc;
  if negb (r =? 0) then tryexec FAILLOG else mret tt.

(** The first byte of a [char] array. *)
Definition first (arr : list Z) : Z := hd 0 arr.

Section with_host.
Context `{Host} `{Crc}.

Definition push_file (path : list Z) (stack1 stack2 : CntlAddrs) : M unit :=
  conf ← sys GetConf;
  CHECK_NOTEQUAL 0 (conf_chsize conf) BADCONF;;
  CHECK_EQUAL 0 (conf_pchsize conf) BADCONF;;
  CHECK_EQUAL 0 (conf_chcount conf) BADCONF;;
  CHECK_EQUAL 0 (conf_seq conf) BADCONF;;
  CHECK_NOTEQUAL 0 (first (addrs_filename (conf_addrs conf))) BADCONF;;
  CHECK_NOTEQUAL 0 (first (addrs_name (conf_addrs conf))) BADCONF;;
  CHECK_IPV4 (check_ipv4_format (addrs_local_ip (conf_addrs conf)));;
  CHECK_IPV4 (check_ipv4_format (addrs_remote_ip (conf_addrs conf)));;
  CHECK_NOTEQUAL 0 (addrs_local_port (conf_addrs conf)) BADCONF;;
  CHECK_NOTEQUAL 0 (addrs_remote_port (conf_addrs conf)) BADCONF;;
  (if (conf_tf_trycount conf <=? 0) || (conf_hst_send conf <=? 0) || (conf_hst_recv conf <=? 0)
      || (conf_tft_flow conf <=? 0) || (conf_tft_recv conf <=? 0) || (conf_tft_data conf <=? 0)
      || (conf_vft_send conf <=? 0) || (conf_vft_recv conf <=? 0)
   then CHECK_STAT BADCONF else mret tt);;
  tryexec_call (start_pusher path stack1 stack2).

(** The thread of [pthread_create] runs [thread_broadcast] on the same
    configuration. *)
Definition pull_file (remote_name : list Z) (stack1 stack2 : SendArgs) : M unit :=
  conf ← sys GetConf;
  CHECK_EQUAL 0 (conf_chsize conf) BADCONF;;
  CHECK_EQUAL 0 (conf_pchsize conf) BADCONF;;
  CHECK_EQUAL 0 (conf_chcount conf) BADCONF;;
  CHECK_EQUAL 0 (conf_seq conf) BADCONF;;
  CHECK_NOTEQUAL 0 (first (addrs_filename (conf_addrs conf))) BADCONF;;
  CHECK_NOTEQUAL 0 (first (addrs_name (conf_addrs conf))) BADCONF;;
  CHECK_IPV4 (check_ipv4_format (addrs_local_ip (conf_addrs conf)));;
  CHECK_NOTEQUAL 0 (addrs_local_port (conf_addrs conf)) BADCONF;;
  (if conf_tf_trycount conf <=? 0 then CHECK_STAT BADCONF else mret tt);;
  r ← sys (PthreadCreate thread_broadcast);
  CHECK_THREAD r;;
  tryexec_call (start_puller remote_name stack1 stack2;; mret tt).

Definition broadcast (stack : CntlAddrs) : M unit :=
  conf ← sys GetConf;
  CHECK_NOTEQUAL 0 (first (addrs_filename (conf_addrs conf))) BADCONF;;
  CHECK_NOTEQUAL 0 (first (addrs_name (conf_addrs conf))) BADCONF;;
  CHECK_IPV4 (check_ipv4_format (addrs_local_ip (conf_addrs conf)));;
  CHECK_IPV4 (check_ipv4_format (addrs_remote_ip (conf_addrs conf)));;
  CHECK_NOTEQUAL 0 (addrs_local_port (conf_addrs conf)) BADCONF;;
  CHECK_NOTEQUAL 0 (addrs_remote_port (conf_addrs conf)) BADCONF;;
  (if (conf_bct_cast conf <=? 0) || (conf_bc_interval conf <=? 0) || (conf_bc_trycount conf <=? 0)
   then CHECK_STAT BADCONF else mret tt);;
  tryexec_call (start_broadcast stack).

Definition scanpair (fresh : PairInfo) (stack : CastArgs) : M (list PairInfo) :=
  conf ← sys GetConf;
  CHECK_IPV4 (check_ipv4_format (addrs_local_ip (conf_addrs conf)));;
  CHECK_NOTEQUAL 0 (addrs_local_port (conf_addrs conf)) BADCONF;;
  (if (conf_spt_cast conf <=? 0) || (conf_sp_interval conf <=? 0) || (conf_sp_trycount conf <=? 0)
   then CHECK_STAT BADCONF else mret tt);;
  r ← ITree.bind (start_scanpair fresh stack)
        (fun o => match o with
                  | Val info => Ret (Val (inl info))
                  | Fail st => Ret (Val (inr st))
                  | Exited n => Ret (Exited n)
                  | Undef => Ret Undef
                  end);
  match r with
  | inl info => mret info
  | inr st => tryexec st;; mret []
  end.

(** The start routine of the broadcasting thread: whether it returns [config] or
    NULL. *)
Definition thread_broadcast_routine (stack : CntlAddrs) : M bool :=
  st ← status_of (broadcast stack);
  mret (bool_decide (st = SUCCESS)).

End with_host.

(** ** Specifications *)

(** The status of the first check that fails. *)
Fixpoint first_failing (checks : list (bool * status_t)) : option status_t :=
  match checks with
  | [] => None
  | (true, _) :: checks => first_failing checks
  | (false, st) :: _ => Some st
  end.

Definition nonzero (z : Z) : bool := negb (z =? 0).

(** The conditions on the configuration, in the order they are looked at. *)
Definition push_checks (c : InitConfig) : list (bool * status_t) :=
  [(nonzero (conf_chsize c), BADCONF); (conf_pchsize c =? 0, BADCONF);
   (conf_chcount c =? 0, BADCONF); (conf_seq c =? 0, BADCONF);
   (nonzero (first (addrs_filename (conf_addrs c))), BADCONF);
   (nonzero (first (addrs_name (conf_addrs c))), BADCONF);
   (check_ipv4_format (addrs_local_ip (conf_addrs c)), BADIPV4);
   (check_ipv4_format (addrs_remote_ip (conf_addrs c)), BADIPV4);
   (nonzero (addrs_local_port (conf_addrs c)), BADCONF);
   (nonzero (addrs_remote_port (conf_addrs c)), BADCONF);
   (forallb (fun z => 0 <? z)
      [conf_tf_trycount c; conf_hst_send c; conf_hst_recv c; conf_tft_flow c; conf_tft_recv c;
       conf_tft_data c; conf_vft_send c; conf_vft_recv c], BADCONF)].
Definition pull_checks (c : InitConfig) : list (bool * status_t) :=
  [(conf_chsize c =? 0, BADCONF); (conf_pchsize c =? 0, BADCONF);
   (conf_chcount c =? 0, BADCONF); (conf_seq c =? 0, BADCONF);
   (nonzero (first (addrs_filename (conf_addrs c))), BADCONF);
   (nonzero (first (addrs_name (conf_addrs c))), BADCONF);
   (check_ipv4_format (addrs_local_ip (conf_addrs c)), BADIPV4);
   (nonzero (addrs_local_port (conf_addrs c)), BADCONF);
   (forallb (fun z => 0 <? z) [conf_tf_trycount c], BADCONF)].
Definition broadcast_checks (c : InitConfig) : list (bool * status_t) :=
  [(nonzero (first (addrs_filename (conf_addrs c))), BADCONF);
   (nonzero (first (addrs_name (conf_addrs c))), BADCONF);
   (check_ipv4_format (addrs_local_ip (conf_addrs c)), BADIPV4);
   (check_ipv4_format (addrs_remote_ip (conf_addrs c)), BADIPV4);
   (nonzero (addrs_local_port (conf_addrs c)), BADCONF);
   (nonzero (addrs_remote_port (conf_addrs c)), BADCONF);
   (forallb (fun z => 0 <? z) [conf_bct_cast c; conf_bc_interval c; conf_bc_trycount c], BADCONF)].
Definition scan_checks (c : InitConfig) : list (bool * status_t) :=
  [(check_ipv4_format (addrs_local_ip (conf_addrs c)), BADIPV4);
   (nonzero (addrs_local_port (conf_addrs c)), BADCONF);
   (forallb (fun z => 0 <? z) [conf_spt_cast c; conf_sp_interval c; conf_sp_trycount c], BADCONF)].

(** A program that begins with checks and goes on as [m']. *)
Inductive guards {A} (m' : M A) : list (bool * status_t) -> M A -> Prop :=
| guards_nil : guards m' [] m'
| guards_cons ok st checks check (k : unit -> M A) :
    check = (if ok : bool then mret tt else fail st) ->
    guards m' checks (k tt) -> guards m' ((ok, st) :: checks) (check ≫= k).

Lemma wp_guards {S A} (R : env S) (Q : outcome A -> S -> Prop) (m' : M A) checks m s :
  guards m' checks m ->
  match first_failing checks with Some st => Q (Fail st) s | None => wp R Q m' s end ->
  wp R Q m s.
Proof.
  induction 1 as [|[|] st checks check k -> _ IH]; cbn [first_failing]; intros Hw.
  - exact Hw.
  - apply wp_mbind, wp_mret. by apply IH.
  - by apply wp_mbind, wp_fail.
Qed.

(** A configuration that passes passes every check. *)
Lemma checks_pass checks b st : first_failing checks = None -> (b, st) ∈ checks -> b = true.
Proof.
  induction checks as [|[[|] st'] checks IH]; cbn [first_failing]; intros Hf Hin; [by apply elem_of_nil in Hin| |done].
  apply elem_of_cons in Hin as [[= ->]|Hin]; [done|by apply IH].
Qed.

Lemma positive_pass checks l z :
  first_failing checks = None -> (forallb (fun z => 0 <? z) l, BADCONF) ∈ checks -> z ∈ l -> 0 < z.
Proof.
  intros Hf Hin Hz. pose proof (checks_pass _ _ _ Hf Hin) as Hall.
  rewrite forallb_forall in Hall. apply list_elem_of_In in Hz. apply Hall in Hz. lia.
Qed.

Section guard_rules.
Context {A : Type} (m' : M A) (checks : list (bool * status_t)) (k : unit -> M A).
Context (Hk : guards m' checks (k tt)).

Lemma guards_notequal z st : guards m' ((nonzero z, st) :: checks) (CHECK_NOTEQUAL 0 z st ≫= k).
Proof using Hk.
  constructor; [|exact Hk]. unfold CHECK_NOTEQUAL, nonzero. rewrite Z.eqb_sym. by destruct (z =? 0).
Qed.

Lemma guards_equal z st : guards m' ((z =? 0, st) :: checks) (CHECK_EQUAL 0 z st ≫= k).
Proof using Hk. constructor; [|exact Hk]. unfold CHECK_EQUAL. by rewrite Z.eqb_sym. Qed.

Lemma guards_ipv4 b : guards m' ((b, BADIPV4) :: checks) (CHECK_IPV4 b ≫= k).
Proof using Hk. by constructor. Qed.

Lemma guards_positive l b :
  b = existsb (fun z => z <=? 0) l ->
  guards m' ((forallb (fun z => 0 <? z) l, BADCONF) :: checks)
    ((if b then CHECK_STAT BADCONF else mret tt) ≫= k).
Proof using Hk.
  intros ->. constructor; [|exact Hk]. induction l as [|z l IH]; [done|]. cbn [existsb forallb].
  destruct (Z.leb_spec z 0), (Z.ltb_spec 0 z); (lia || done).
Qed.
End guard_rules.

Ltac guards_go :=
  repeat first
    [ apply guards_notequal | apply guards_equal | apply guards_ipv4
    | apply guards_positive; [|cbn [existsb]; rewrite ?orb_assoc, ?orb_false_r; reflexivity]
    | apply guards_nil ].

Section specs.
Context `{Host} `{Crc}.

(** A status other than [SUCCESS] ends the process. *)

(** C36: the public functions look at the configuration before anything else: one
    that fails a check is refused with the status of the first failed check, and
    nothing has been called. *)
Theorem entry_points_refuse path fresh c1 c2 s1 s2 scan st s :
  let refused A := calls (fun (o : outcome A) tr => o = Fail st /\ tr = []) s in
  (first_failing (push_checks (p_conf s)) = Some st -> wp posix (refused unit) (push_file path c1 c2) s) /\
  (first_failing (pull_checks (p_conf s)) = Some st -> wp posix (refused unit) (pull_file path s1 s2) s) /\
  (first_failing (broadcast_checks (p_conf s)) = Some st -> wp posix (refused unit) (broadcast c1) s) /\
  (first_failing (scan_checks (p_conf s)) = Some st -> wp posix (refused (list PairInfo)) (scanpair fresh scan) s).
Proof.
  intros refused. split_and!; intros Hst.
  - unfold push_file. apply wp_mbind, wp_get. cbn [seq_post].
    eapply (wp_guards _ _ _ (push_checks (p_conf s))); [guards_go|]. rewrite Hst. by calls_go.
  - unfold pull_file. apply wp_mbind, wp_get. cbn [seq_post].
    eapply (wp_guards _ _ _ (pull_checks (p_conf s))); [guards_go|]. rewrite Hst. by calls_go.
  - unfold broadcast. apply wp_mbind, wp_get. cbn [seq_post].
    eapply (wp_guards _ _ _ (broadcast_checks (p_conf s))); [guards_go|]. rewrite Hst. by calls_go.
  - unfold scanpair. apply wp_mbind, wp_get. cbn [seq_post].
    eapply (wp_guards _ _ _ (scan_checks (p_conf s))); [guards_go|]. rewrite Hst. by calls_go.
Qed.

(** The number in [cast_sock] is closed on the way to a successful reception. *)
Definition closes (fd : Z) (o : obs) : bool :=
  match ob_call o in sysE X return X -> bool with
  | Close fd' => fun r => (fd' =? fd) && (r =? 0)
  | _ => fun _ => false
  end (ob_reply o).

Lemma closes_inv fd o : closes fd o = true -> o = Obs (Close fd) 0.
Proof. destruct o as [X e x]. destruct e; try discriminate. cbn. by intros [->%Z.eqb_eq ->%Z.eqb_eq]%andb_prop. Qed.

Lemma start_puller_closes name stack1 stack2 s :
  len (addrs_remote_ip (conf_addrs (p_conf s))) = MAXIPV4SIZE ->
  wp (posix_if (fun o => closes (conf_cast_sock (p_conf s)) o = false)) (fun o s' => forall rname, o <> Val rname)
    (start_puller name stack1 stack2) s.
Proof.
  intros Hl. unfold start_puller. apply wp_mbind. eapply wp_use; [apply start_cntl_ok|].
  intros o tr c (_ & _ & Ho) _. destruct o as [[]|st|?|]; cbn [seq_post]; try done. destruct Ho as (fd1 & _ & -> & _).
  apply wp_mbind, wp_get_if. cbn [seq_post]. apply wp_mbind. eapply wp_use; [by apply accept_new_connection_ok|].
  intros o tr2 c2 (_ & _ & Ho2) _. destruct o as [[]|st|?|]; cbn [seq_post]; try done.
  destruct Ho2 as (lfd & fd2 & sa & ip & _ & _ & -> & _). apply wp_mbind, wp_get_if. cbn [seq_post].
  apply wp_mbind. unfold close_socket. apply wp_mbind, wp_call_if; [done|]. intros r Hr Hcl. cbn [seq_post].
  destruct Hr as [->|[=->]]; [by apply wp_fail|]. exfalso. revert Hcl. cbn. by rewrite Z.eqb_refl.
Qed.

(** C33: the receiver closes the socket of its broadcasting thread by number: every
    [start_puller] that succeeds has closed the descriptor that [cast_sock] held.
    When that number sends nothing from then on (because it stays closed, or
    because the system has given it to something that takes no datagrams, such as the
    file received; a data socket with this number would go on sending), the thread
    that broadcasts fails to send exactly as often as it has tries left, and then
    closes the same number a second time.  If that close fails, as it does when the
    number is still free, [tryexec] ends the whole process with [EXIT_FAILURE]; if it
    succeeds, the thread has closed a descriptor that belongs to somebody else, and
    returns [SUCCESS]. *)
Theorem closed_broadcast_ends header bytes trycount s :
  (forall name stack1 stack2 rname s', len (addrs_remote_ip (conf_addrs (p_conf s))) = MAXIPV4SIZE ->
     exec posix (start_puller name stack1 stack2) s (Val rname) s' ->
     exists tr, p_trace s' = p_trace s ++ tr /\ Obs (Close (conf_cast_sock (p_conf s))) 0 ∈ tr) /\
  (cast_bytes header = Some bytes -> 0 <= trycount ->
   wp (posix_if (sends_nothing (conf_cast_sock (p_conf s)))) (calls (fun o tr => exists turns,
       length turns = Z.to_nat trycount /\ Forall (failed_turn (p_conf s) bytes) turns /\
       match o with
       | Val _ => tr = concat turns ++ [Obs (Close (conf_cast_sock (p_conf s))) 0]
       | Exited code => code = EXIT_FAILURE /\
           tr = concat turns ++ [Obs (Close (conf_cast_sock (p_conf s))) (-1); report FAILURE]
       | _ => False
       end) s)
     (tryexec_call (broadcast_loop header trycount)) s).
Proof.
  split.
  - intros name stack1 stack2 rname s' Hl He. destruct (exec_trace _ _ _ _ He) as [tr Ht]. exists tr. split; [done|].
    destruct (existsb (closes (conf_cast_sock (p_conf s))) tr) eqn:E.
    { apply existsb_exists in E as (o & Hin%list_elem_of_In & Ho%closes_inv). by rewrite <- Ho. }
    exfalso. assert (Hall : Forall (fun o => closes (conf_cast_sock (p_conf s)) o = false) tr).
    { apply Forall_forall. intros o Hin%list_elem_of_In. apply not_true_is_false. intros Ho.
      apply not_true_iff_false in E. apply E, existsb_exists. by exists o. }
    by apply (wp_exec _ _ _ _ _ _ (start_puller_closes name stack1 stack2 s Hl) (exec_if _ _ _ _ _ _ He Ht Hall) rname).
  - intros Hb Ht. unfold tryexec_call, broadcast_loop. apply wp_mbind, wp_status_of, wp_mbind.
    eapply wp_mono; [by apply broadcast_turns_fail|]. intros o s' (tr & Hc & Htr & turns & -> & Hn & Hall & ->).
    cbn [seq_post]. apply wp_mbind, wp_get_if. cbn [seq_post]. rewrite Hc. unfold close_socket.
    apply wp_mbind, wp_call_if; [done|]. intros r Hr _. cbn [seq_post]. destruct Hr as [->|[=->]].
    + apply wp_fail. cbn [seq_post].
      apply (wp_fewer _ _ _ _ _ (posix_if_posix _)), tryexec_fails; [done|].
      eexists. split; [exact Hc|]. split; [|by exists turns].
      cbn. by rewrite Htr, <- !app_assoc.
    + apply wp_mret. cbn [seq_post tryexec]. apply wp_mret.
      eexists. split; [exact Hc|]. split; [|by exists turns].
      cbn. by rewrite Htr, <- !app_assoc.
Qed.

Lemma push_checks_dialable c : first_failing (push_checks c) = None -> dialable (conf_addrs c).
Proof.
  intros Hck. unfold dialable. split_and!.
  1-2: eapply (checks_pass _ _ BADIPV4 Hck); in_list.
  all: intros Hz; assert (Hnz : nonzero 0 = true) by (rewrite <- Hz; eapply (checks_pass _ _ BADCONF Hck); in_list);
    discriminate Hnz.
Qed.

Lemma push_file_ok sz c path rest stack1 stack2 s :
  no_nul path -> len path + 1 < 2 ^ 31 -> len (fc_name (conf_filec c)) = MAXFILENAMESIZE ->
  addrs_wf (conf_addrs c) -> addrs_wf stack1 -> addrs_wf stack2 -> in_width 16 (conf_chsize c) ->
  first_failing (push_checks c) = None ->
  sz < 2 ^ 32 -> sz / conf_chsize c + 2 < 2 ^ 32 -> p_conf s = c ->
  wp (posix_if (size_is sz))
    (fun o s' =>
      match o with
      | Val _ => sent_file _ sz c s s'
      | Exited code => code = EXIT_FAILURE /\ exists st tr, st ∈ pusher_errors /\
          p_trace s' = p_trace s ++ tr ++ [report st] /\
          (sz mod conf_chsize c <> 0 -> diagnosed _ (conf_tf_trycount c) st tr)
      | _ => False
      end) (push_file (path ++ 0 :: rest) stack1 stack2) s.
Proof.
  intros Hnn Hpl Hnl Hwf H1 H2 Hw Hck Hsz Hcount Hs. unfold push_file. apply wp_mbind, wp_get_if.
  cbn [seq_post]. rewrite Hs. eapply (wp_guards _ _ _ (push_checks c)); [guards_go|]. rewrite Hck.
  assert (Htry : 0 < conf_tf_trycount c) by (eapply (positive_pass _ _ _ Hck); in_list).
  assert (Hcs : 0 < conf_chsize c < 2 ^ 16).
  { assert (Hnz : nonzero (conf_chsize c) = true) by (eapply (checks_pass _ _ BADCONF Hck); in_list).
    unfold nonzero in Hnz. unfold in_width in Hw. lia. }
  unfold tryexec_call. apply wp_mbind, wp_status_of.
  eapply wp_mono; [by apply (start_pusher_ok sz c)|]. intros [[]|st|?|] s' Ho; try done.
  - cbn [seq_post]. by apply wp_mret.
  - cbn [seq_post]. destruct Ho as (Ho & tr & Ht & Hd). destruct (decide (st = SUCCESS)) as [->|].
    { exfalso. revert Ho. change (SUCCESS ∉ pusher_errors). by apply (bool_decide_unpack _). }
    apply (wp_fewer _ _ _ _ _ (posix_if_posix _)), tryexec_fails; [done|]. split; [done|]. exists st, tr.
    split_and!; [done|cbn; by rewrite Ht, <- app_assoc|]. intros Hm. by apply Hd, (push_checks_dialable c).
Qed.

Lemma pull_file_ok sz c name stack1 stack2 s :
  p_conf s = c -> addrs_wf (send_info stack1) -> addrs_wf (send_info stack2) -> addrs_wf (conf_addrs c) ->
  len (fc_name (conf_filec c)) = MAXFILENAMESIZE -> len name = MAXNAMESIZE ->
  mf_open (conf_mfile c) = 0 -> mf_buf (conf_mfile c) = None ->
  first_failing (pull_checks c) = None ->
  wp (posix_while (sender_says _ sz (p_trace s)))
    (fun o s' => exists r tr, p_trace s' = p_trace s ++ [Obs (PthreadCreate thread_broadcast) r] ++ tr /\
      match o with
      | Val _ => r = 0 /\ received_file _ stack1 stack2 sz tr (p_conf s')
      | Fail st => st = ETHREAD /\ r <> 0 /\ tr = []
      | Exited code => code = EXIT_FAILURE /\ exists st tr0, st ∈ puller_errors /\ tr = tr0 ++ [report st]
      | Undef => puller_astray _ tr
      end) (pull_file name stack1 stack2) s.
Proof.
  intros <- Hst1 Hst2 Hwf Hfn Hn Hop Hbuf Hck. unfold pull_file.
  assert (HP0 : sender_says _ sz (p_trace s) (p_trace s)) 
    by (exists []; rewrite app_nil_r; split_and!; [done|by apply keeps_size_nil|done]).
  apply wp_mbind, wp_while_get; [exact HP0|]. cbn [seq_post].
  eapply (wp_guards _ _ _ (pull_checks (p_conf s))); [guards_go|]. rewrite Hck. apply wp_mbind.
  eapply wp_while_calls with (P' := fun o tr => exists r, o = Val r /\ tr = [Obs (PthreadCreate thread_broadcast) r]);
    [exact HP0|wp_go; calls_go; by eexists|].
  intros o tr (r & -> & ->) HP. cbn [seq_post]. apply wp_mbind. unfold CHECK_THREAD.
  destruct (Z.eqb_spec r 0) as [->|Hr]; cbn [negb]; [apply wp_mret|apply wp_fail]; cbn [seq_post];
    [|exists r, []; by split_and!].
  assert (Htry : 0 < conf_tf_trycount (p_conf s)) by (eapply (positive_pass _ _ _ Hck); in_list).
  unfold tryexec_call. apply wp_mbind, wp_status_of, wp_mbind.
  eapply wp_mono; [apply (start_puller_ok stack1 stack2 sz name (p_conf s) (p_trace s)
    [Obs (PthreadCreate thread_broadcast) 0]); try done; by apply keeps_size_nil|].
  intros o s' (tr & Ht & Ho). cbn [after_calls p_trace] in Ht. rewrite <- app_assoc in Ht.
  destruct o as [rname|st|?|]; [| |done|]; cbn [seq_post].
  - apply wp_mret. cbn [seq_post tryexec]. apply wp_mret. by exists 0, tr.
  - cbn [seq_post]. apply (wp_fewer _ _ _ _ _ (posix_while_posix _)), tryexec_fails.
    { intros ->. revert Ho. change (SUCCESS ∉ puller_errors). by apply (bool_decide_unpack _). }
    exists 0, (tr ++ [report st]). split; [cbn; by rewrite Ht, <- app_assoc|]. split; [done|]. by exists st, tr.
  - by exists 0, tr.
Qed.

(** C4: [push_file] on a configuration it accepts, and a file of less than 2^32 bytes
    that keeps its size ([size_is sz]), returns only after a whole session of the protocol, from the announcement of the file to the acknowledged
    checksum; everything else ends the process with [EXIT_FAILURE], after a report
    that, unless the file's size is a multiple of the chunk size, names a call that
    went wrong or a wrong answer.  It always comes to one of the two. *)
Theorem push_file_spec sz c path rest stack1 stack2 s :
  no_nul path -> len path + 1 < 2 ^ 31 -> len (fc_name (conf_filec c)) = MAXFILENAMESIZE ->
  addrs_wf (conf_addrs c) -> addrs_wf stack1 -> addrs_wf stack2 -> in_width 16 (conf_chsize c) ->
  first_failing (push_checks c) = None ->
  sz < 2 ^ 32 -> sz / conf_chsize c + 2 < 2 ^ 32 -> p_conf s = c ->
  wp (posix_if (size_is sz))
    (fun o s' =>
      match o with
      | Val _ => sent_file _ sz c s s'
      | Exited code => code = EXIT_FAILURE /\ exists st tr, st ∈ pusher_errors /\
          p_trace s' = p_trace s ++ tr ++ [report st] /\
          (sz mod conf_chsize c <> 0 -> diagnosed _ (conf_tf_trycount c) st tr)
      | _ => False
      end) (push_file (path ++ 0 :: rest) stack1 stack2) s.
Proof. apply push_file_ok. Qed.

(** C7: a reception on a configuration that [pull_file] accepts, when the first
    message that comes in, if it is a SEND packet, announces a file of [sz] bytes,
    0 < sz < 2^32, as a sender does, in chunks none of which is empty, and the file
    created for it has the size it was given ([sender_says]).  [pull_file] starts the
    broadcasting thread and always comes to an end: it returns [SUCCESS] only after a
    whole session of the protocol, [ETHREAD] only when the thread did not start, and
    otherwise the process ends with [EXIT_FAILURE] after the report of a listed
    status, unless it goes out of its memory.  That happens in two cases only: an
    information string without terminator came in, or the announcement was answered
    with a NACK, after which the transfer goes on without a file
    ([puller_astray]). *)
Theorem pull_file_spec sz c name stack1 stack2 s :
  p_conf s = c -> addrs_wf (send_info stack1) -> addrs_wf (send_info stack2) -> addrs_wf (conf_addrs c) ->
  len (fc_name (conf_filec c)) = MAXFILENAMESIZE -> len name = MAXNAMESIZE ->
  mf_open (conf_mfile c) = 0 -> mf_buf (conf_mfile c) = None ->
  first_failing (pull_checks c) = None ->
  wp (posix_while (sender_says _ sz (p_trace s)))
    (fun o s' => exists r tr, p_trace s' = p_trace s ++ [Obs (PthreadCreate thread_broadcast) r] ++ tr /\
      match o with
      | Val _ => r = 0 /\ received_file _ stack1 stack2 sz tr (p_conf s')
      | Fail st => st = ETHREAD /\ r <> 0 /\ tr = []
      | Exited code => code = EXIT_FAILURE /\ exists st tr0, st ∈ puller_errors /\ tr = tr0 ++ [report st]
      | Undef => puller_astray _ tr
      end) (pull_file name stack1 stack2) s.
Proof. apply pull_file_ok. Qed.
End specs.
