(* ===== verification/Session.v ===== *)
(** * The two programs together

    A sender ([push_file]) and a receiver ([pull_file]), each in a process of its
    own, joined by a control connection that is reliable and a data channel that
    need not be.  When both succeed, the received file has the sender's size, the
    sender's CRC-16, and chunk by chunk the sender's CRC-32. *)
From S2P Require Import Prelude Protocol Types Sys Wire Utils Error Mfile NetStream FileStream Cntl Data Pusher Puller Rufshare.

(** The first message of each process goes over the control connection, and what
    one end of it reads is a beginning of what the other wrote. *)
Definition reliable (w1 w2 : list wev) : Prop :=
  forall fd1 d1 r1 fd2 d2 r2, w1 = Out fd1 d1 :: r1 -> w2 = In fd2 d2 :: r2 ->
    in_bytes fd2 w2 `prefix_of` out_bytes fd1 w1 /\ in_bytes fd1 w1 `prefix_of` out_bytes fd2 w2.

(** As a function, for concrete traces. *)
Definition reliableb (w1 w2 : list wev) : bool :=
  match w1, w2 with
  | Out fd1 _ :: _, In fd2 _ :: _ =>
      bool_decide (in_bytes fd2 w2 `prefix_of` out_bytes fd1 w1) &&
      bool_decide (in_bytes fd1 w1 `prefix_of` out_bytes fd2 w2)
  | _, _ => true
  end.

Lemma reliableb_ok w1 w2 : reliableb w1 w2 = true -> reliable w1 w2.
Proof.
  intros Hb fd1 d1 r1 fd2 d2 r2 -> ->. apply andb_prop in Hb as [H1 H2].
  by apply bool_decide_eq_true in H1, H2.
Qed.

(** ** Bytes on one socket *)

Lemma prefix_app_len (a a' b b' : list Z) :
  len a = len b -> a ++ a' `prefix_of` b ++ b' -> a = b /\ a' `prefix_of` b'.
Proof.
  unfold len. intros Hl (k & Hk). rewrite <- app_assoc in Hk. symmetry in Hk.
  apply app_inj_1 in Hk as [-> <-]; [|lia]. split; [done|]. by exists k.
Qed.

(** ** Acknowledgements *)

Lemma ack_of_bytes (H1 H2 : Host) a seq : ack_of H1 (ack_bytes H2 a seq) = Some (a mod 256).
Proof.
  unfold ack_of, ack_bytes, encode_RecvPacket, decode_RecvPacket. rewrite recv_wire. reflexivity.
Qed.

Lemma len_ack_bytes (H : Host) a seq : len (ack_bytes H a seq) = 8.
Proof. unfold ack_bytes, encode_RecvPacket. by rewrite recv_wire. Qed.

Lemma len_ack_of (H : Host) r a : ack_of H r = Some a -> len r = 8.
Proof.
  unfold ack_of, decode_RecvPacket, RecvPacket_of_mem. by do 9 (destruct r as [|? r]; try done).
Qed.

(** The sender's tries at a message: anything but an ACK, and then an ACK. *)
Definition refused (H : Host) (r : list Z) : Prop := exists a, ack_of H r = Some a /\ a <> 1.

Lemma acked_shape (H : Host) fd msg n b w :
  tries (acked H fd msg) (nacked H fd msg) n b w -> b = true -> in_bytes fd msg = [] ->
  exists rs r, Forall (refused H) rs /\ ack_of H r = Some 1 /\ in_bytes fd w = concat rs ++ r /\
    out_bytes fd w = concat (replicate (S (length rs)) (out_bytes fd msg)).
Proof.
  induction 1 as [|n w (r & Hr & ->)|n b w w' (r & a & Hr & Ha & ->) _ IH]; intros Hb Hm; [done| |].
  - exists [], r. split_and!; [apply Forall_nil_2|done| |]; autorewrite with ruf; rewrite ?Hm; [done|].
    cbn. by rewrite app_nil_r.
  - destruct (IH Hb Hm) as (rs & r' & Hrs & Hr' & Hin & Hout). exists (r :: rs), r'.
    split_and!; [constructor; [by exists a|done]|done| |]; autorewrite with ruf; rewrite ?Hm, ?Hin, ?Hout.
    + cbn. by rewrite app_assoc.
    + done.
Qed.

(** The receiver's tries at a chunk: NACKs, and then an ACK. *)
Definition answers_of (H : Host) (k : nat) (seq : Z) : list Z :=
  concat (replicate k (ack_bytes H 0 seq)) ++ ack_bytes H 1 seq.

Lemma data_tries_shape (H : Host) `{Crc} c crc seq got n b w :
  tries (good_try H c crc seq got) (bad_try H c crc seq) n b w -> b = true ->
  conf_data_sock c <> conf_conn_sock c ->
  in_bytes (conf_conn_sock c) w = [] /\ (exists k, out_bytes (conf_conn_sock c) w = answers_of H k seq) /\
  len got = size_of c seq /\ u32 (crc_32 got) = crc.
Proof.
  unfold answers_of.
  induction 1 as [|n w (Hl & Hc & ->)|n b w w' (junk & _ & _ & ->) _ IH]; intros Hb Hne; [done| |].
  - split_and!; [|exists O|done|done]; autorewrite with ruf; by rewrite ?in_elsewhere.
  - destruct (IH Hb Hne) as (Hin & (k & Hk) & Hl & Hc). split_and!; [|exists (S k)|done|done];
      autorewrite with ruf; rewrite ?in_elsewhere, ?Hin, ?Hk by done; [done|].
    cbn. by rewrite app_assoc.
Qed.

(** What the sender takes for its answers are the receiver's, one by one. *)
Lemma answers_match (H1 H2 : Host) rs r k seq i o :
  Forall (refused H1) rs -> ack_of H1 r = Some 1 ->
  (concat rs ++ r) ++ i `prefix_of` answers_of H2 k seq ++ o -> length rs = k /\ i `prefix_of` o.
Proof.
  intros Hrs Hr. unfold answers_of. revert k.
  induction Hrs as [|r' rs (a & Hr' & Ha) _ IH]; intros [|k]; cbn [concat replicate app].
  - intros Hp. apply prefix_app_len in Hp as [_ Hp]; [done|]. by rewrite (len_ack_of _ _ _ Hr), len_ack_bytes.
  - rewrite <- !app_assoc. intros Hp. apply prefix_app_len in Hp as [-> _].
    + by rewrite ack_of_bytes in Hr.
    + by rewrite (len_ack_of _ _ _ Hr), len_ack_bytes.
  - rewrite <- !app_assoc. intros Hp. apply prefix_app_len in Hp as [-> _].
    + rewrite ack_of_bytes in Hr'. by injection Hr' as <-.
    + by rewrite (len_ack_of _ _ _ Hr'), len_ack_bytes.
  - rewrite <- !app_assoc. intros Hp. apply prefix_app_len in Hp as [_ Hp].
    + destruct (IH k) as [Hl Hi]; [by rewrite <- !app_assoc|]. split; [cbn; lia|done].
    + by rewrite (len_ack_of _ _ _ Hr'), len_ack_bytes.
Qed.

(** ** The transfers go in step *)

Lemma len_decoded_flow (H : Host) m p : decode_FlowPacket H m = Some p -> len m = 12.
Proof.
  unfold decode_FlowPacket, FlowPacket_of_mem. by do 13 (destruct m as [|? m]; try done).
Qed.

Lemma len_decoded_send (H : Host) m p : decode_SendPacket H m = Some p -> len m = sizeof_SendPacket.
Proof.
  unfold decode_SendPacket, SendPacket_of_mem. by do 13 (destruct m as [|? m]; try done).
Qed.

Lemma concat_replicate_nil {A} n : concat (replicate n ([] : list A)) = [].
Proof. by induction n. Qed.

Section lockstep.
Context (H1 H2 : Host) `{Crc} (c1 c2 : InitConfig) (Ha1 : announced c1) (Ha2 : announced c2).
Context (Hcs : conf_chsize c2 = conf_chsize c1) (Hps : conf_pchsize c2 = conf_pchsize c1)
  (Hcc : conf_chcount c2 = conf_chcount c1) (Hpar : conf_pchsize c1 <> 0).
Context (Hd1 : conf_cntl_sock c1 <> conf_data_sock c1) (Hd2 : conf_conn_sock c2 <> conf_data_sock c2).

Let cntl := conf_cntl_sock c1.
Let conn := conf_conn_sock c2.

Lemma chunk_at_same seq : chunk_at c2 seq = chunk_at c1 seq.
Proof using Hcs Hps Hcc. unfold chunk_at, chunk_context. cbn. by rewrite Hcs, Hps, Hcc. Qed.

Lemma len_flow_bytes seq : len (flow_bytes H1 c1 seq) = 12.
Proof. unfold flow_bytes, encode_FlowPacket. by rewrite flow_wire. Qed.

(** The receiver reads the checksum the sender announced. *)
Lemma flow_read seq p :
  1 <= seq <= conf_chcount c1 -> decode_FlowPacket H2 (flow_bytes H1 c1 seq) = Some p ->
  flow_crc p = u32 (crc_32 (data_at c1 seq)).
Proof using All.
  intros Hs. pose proof (an_count _ Ha1). unfold flow_bytes, encode_FlowPacket.
  rewrite flow_wire, decode_flow_wire; [by intros [= <-]|apply wrap_width; lia| |apply wrap_width; lia].
  unfold in_width. lia.
Qed.

(** One chunk of the sender: how it answers to the receiver's acknowledgements of
    the same chunk, and what it then has put on the control connection. *)
Lemma send_chunk_step seq w1 w2 k i o :
  tries (acked H1 cntl [Out cntl (flow_bytes H1 c1 seq)]) (nacked H1 cntl [Out cntl (flow_bytes H1 c1 seq)])
    (Z.to_nat (conf_tf_trycount c1)) true w1 ->
  tries (acked H1 cntl (Out (conf_data_sock c1) <$> segments (conf_segsize c1) (data_at c1 seq)))
    (nacked H1 cntl (Out (conf_data_sock c1) <$> segments (conf_segsize c1) (data_at c1 seq)))
    (Z.to_nat (conf_tf_trycount c1)) true w2 ->
  in_bytes cntl w1 ++ in_bytes cntl w2 ++ i `prefix_of` ack_bytes H2 1 seq ++ answers_of H2 k seq ++ o ->
  i `prefix_of` o /\ out_bytes cntl w1 = flow_bytes H1 c1 seq /\ out_bytes cntl w2 = [].
Proof using All.
  intros Ht1 Ht2 Hpre.
  destruct (acked_shape _ _ _ _ _ _ Ht1 eq_refl) as (rs1 & r1 & Hrs1 & Hr1 & Hin1 & Hout1); [done|].
  destruct (acked_shape _ _ _ _ _ _ Ht2 eq_refl) as (rs2 & r2 & Hrs2 & Hr2 & Hin2 & Hout2);
    [by autorewrite with ruf|].
  rewrite Hin1, Hin2 in Hpre.
  destruct (answers_match H1 H2 rs1 r1 O seq _ _ Hrs1 Hr1 Hpre) as (Hl & Hpre2).
  destruct (answers_match H1 H2 rs2 r2 k seq _ _ Hrs2 Hr2 Hpre2) as (_ & Hpre3).
  split; [done|]. split.
  - rewrite Hout1, Hl. autorewrite with ruf. cbn. by rewrite app_nil_r.
  - rewrite Hout2, out_elsewhere by (by apply not_eq_sym). apply concat_replicate_nil.
Qed.

(** From chunk [seq] on, with anything after it on the connection: the chunks the
    receiver keeps have the checksums of the sender's, and both stop at the same
    place. *)
Lemma lockstep seq content w2 final :
  receives_from H2 c2 seq content w2 final -> 1 <= seq -> content_ok c2 content ->
  forall w1 i1 o1 i2 o2, sends_from H1 c1 seq w1 ->
  in_bytes cntl w1 ++ i1 `prefix_of` out_bytes conn w2 ++ o2 ->
  in_bytes conn w2 ++ i2 `prefix_of` out_bytes cntl w1 ++ o1 ->
  (forall i, seq <= i <= conf_chcount c1 -> u32 (crc_32 (piece c2 final i)) = u32 (crc_32 (data_at c1 i))) /\
  i1 `prefix_of` o2 /\ i2 `prefix_of` o1.
Proof using All.
  induction 1 as [seq content Hd|seq content m p got w2 w3 final Hle Hm Hsq Hsz Htr Hr IH];
    intros Hge Hcont w1 i1 o1 i2 o2 Hs HA HB.
  { inversion Hs; subst; [|lia]. split_and!; [lia|done|done]. }
  inversion Hs as [|seq' u1 u2 u3 Hle' Ht1 Ht2 Hs']; subst; [lia|].
  assert (Hsend : sendable c2 (flow_sequence p)) by (split; [lia|right; by rewrite Hps]).
  destruct (chunk_room c2 Ha2 _ Hsend) as (R1 & R2 & R3).
  destruct (data_tries_shape _ _ _ _ _ _ _ _ Htr eq_refl (not_eq_sym Hd2)) as (Hin & (k & Hout) & Hlg & Hcrc).
  fold conn in Hin, Hout. fold cntl in Ht1, Ht2. fold conn in HA, HB.
  autorewrite with ruf in HA, HB. rewrite Hin in HB. rewrite Hout in HA. rewrite <- !app_assoc in HA, HB.
  destruct (send_chunk_step _ _ _ k _ _ Ht1 Ht2 HA) as (HA' & Ho1 & Ho2).
  rewrite Ho1, Ho2 in HB. cbn [app] in HB.
  apply prefix_app_len in HB as [-> HB']; [|by rewrite (len_decoded_flow _ _ _ Hm), len_flow_bytes].
  unfold content_ok in *. rewrite <- Hlg in R2, R3.
  assert (Hcont' : len (splice (start_of c2 (flow_sequence p)) got content) = mf_size (conf_mfile c2))
    by (rewrite len_splice; lia).
  destruct (IH ltac:(lia) Hcont' _ _ _ _ _ Hs' HA' HB') as (Hrest & Hi1 & Hi2).
  split_and!; [|done|done]. intros i Hi. destruct (Z.eq_dec i (flow_sequence p)) as [->|]; [|apply Hrest; lia].
  destruct (receives_pieces c2 Ha2 _ _ _ _ Hr) as (_ & Hbefore & _); [lia|by rewrite Hps|done|].
  rewrite Hbefore by lia. unfold piece. rewrite <- Hlg, read_splice, Hcrc by lia. apply flow_read; [lia|done].
Qed.
End lockstep.

(** ** The sessions agree *)

Lemma prefix_same_len (a b : list Z) : len a = len b -> a `prefix_of` b -> a = b.
Proof. intros Hl Hp. by apply (prefix_app_len a [] b []) in Hl as [-> _]; [|by rewrite !app_nil_r]. Qed.

Section sessions.
Context (H1 H2 : Host) `{Crc} (c1 c2 : InitConfig) (stack1 stack2 : SendArgs) (sz : Z) (content : list Z).
Context (Ha1 : announced c1) (Ha2 : announced c2) (Hwf : addrs_wf (conf_addrs c1)).

(** The packet of a SEND header of the sender, and the whole header, read by the
    receiver. *)
Definition send_fields (crc : Z) : SendPacket :=
  {| send_type := SEND; send_pad0 := 0; send_chunk_size := conf_chsize c1;
     send_chunk_count := conf_chcount c1; send_partial_chunk_size := conf_pchsize c1; send_crc := crc |}.

Lemma send_packet_read crc m rest rest' :
  in_width 16 crc -> len m = sizeof_SendPacket -> m ++ rest `prefix_of` send_bytes H1 c1 crc ++ rest' ->
  decode_SendPacket H2 m = Some (send_fields crc) /\ rest `prefix_of` infostr_of (conf_addrs c1) ++ rest'.
Proof using Ha1.
  intros Hc Hm Hp. destruct (announced_bounds c1 Ha1) as (Hq & He & Hps & Hcc & Hcc32).
  pose proof (an_chsize _ Ha1) as Hcs. unfold send_bytes, encode_SendPacket in Hp. rewrite send_wire in Hp.
  rewrite <- (app_assoc _ (infostr_of _)) in Hp. apply prefix_app_len in Hp as [-> Hp]; [|by rewrite Hm].
  split; [|done]. apply decode_send_wire; unfold in_width in *; lia.
Qed.

Lemma send_read crc m i rest rest' :
  in_width 16 crc -> len m = sizeof_SendPacket -> len i = INFOSTRSIZE ->
  m ++ i ++ rest `prefix_of` send_bytes H1 c1 crc ++ rest' ->
  decode_SendPacket H2 m = Some (send_fields crc) /\ rest `prefix_of` rest'.
Proof using Ha1 Hwf.
  intros Hc Hm Hi Hp. destruct (send_packet_read _ _ _ _ Hc Hm Hp) as [Hd Hp']. split; [done|].
  apply prefix_app_len in Hp' as [_ Hp']; [done|]. rewrite Hi. unfold infostr_of.
  destruct (pack_into_infostring_ok (zeros INFOSTRSIZE) _ Hwf) as (s & -> & Hl & _); [done|].
  pose proof (len_nonneg s). unfold INFOSTRSIZE. len_simpl; lia.
Qed.

Lemma sessions_agree w1 w2 :
  sender_session H1 c1 w1 -> receiver_session H2 stack1 stack2 sz c2 content w2 ->
  conf_pchsize c1 <> 0 -> conf_cntl_sock c1 <> conf_data_sock c1 -> conf_conn_sock c2 <> conf_data_sock c2 ->
  in_bytes (conf_conn_sock c2) w2 `prefix_of` out_bytes (conf_cntl_sock c1) w1 ->
  in_bytes (conf_cntl_sock c1) w1 `prefix_of` out_bytes (conf_conn_sock c2) w2 ->
  len content = mf_size (conf_mfile c1) /\ conf_chsize c2 = conf_chsize c1 /\
  (forall i, 1 <= i <= conf_chcount c1 -> u32 (crc_32 (piece c2 content i)) = u32 (crc_32 (data_at c1 i))) /\
  u16 (crc_16 content) = u16 (crc_16 (mf_bytes (conf_mfile c1))).
Proof using Ha1 Ha2 Hwf.
  intros (r1 & a1 & wt1 & r2 & a2 & Hr1 & Hn1 & Hs & Hr2 & Hn2 & ->)
    (m & i & h & wt2 & m2 & i2 & h2 & Hli & Hdec & Hcons & Hcs & Hsz & Hlc & Hrec & Hli2 & Hdec2 & ->) Hp Hd1 Hd2 HB HA.
  autorewrite with ruf in HA, HB. rewrite <- !app_assoc in HB.
  apply decode_SEND_packet in Hdec, Hdec2.
  pose proof (len_decoded_send _ _ _ Hdec) as Hlm. pose proof (len_decoded_send _ _ _ Hdec2) as Hlm2.
  destruct (send_read 0 _ _ _ _ ltac:(done) Hlm Hli HB) as [Hd HB']. rewrite Hdec in Hd. injection Hd as Hd.
  apply prefix_app_len in HA as [_ HA']; [|by rewrite (len_ack_of _ _ _ Hr1), len_ack_bytes].
  destruct Hcons as [K1 K2 K3 K4 K5 K6]. rewrite Hd in *. unfold send_fields in *. cbn [send_chunk_size send_chunk_count send_partial_chunk_size] in *.
  pose proof (an_chcount _ Ha1) as Hcc1. pose proof (an_pchsize _ Ha1) as Hps1.
  pose proof (an_chcount _ Ha2) as Hcc2. pose proof (an_pchsize _ Ha2) as Hps2.
  rewrite Hsz, Hcs in Hcc2, Hps2.
  assert (Hsize : sz = mf_size (conf_mfile c1)).
  { rewrite (Z.div_mod sz (conf_chsize c1)), (Z.div_mod (mf_size (conf_mfile c1)) (conf_chsize c1)) by lia.
    f_equal; [f_equal|]; congruence || lia. }
  destruct (lockstep H1 H2 c1 c2 Ha1 Ha2 Hcs ltac:(congruence) ltac:(congruence) Hp Hd1 Hd2 1 _ _ _ Hrec ltac:(lia)
    (len_old _ (an_transfer _ Ha2)) _ _ _ _ _ Hs HA' HB') as (Hall & Hi1 & Hi2).
  split_and!; [by rewrite Hlc|done|done|].
  apply prefix_same_len in Hi1; [|by rewrite (len_ack_of _ _ _ Hr2), len_ack_bytes]. subst r2.
  rewrite <- (app_nil_r (send_bytes _ _ _)), <- (app_nil_r i2) in Hi2.
  destruct (send_read _ _ _ _ _ ltac:(apply wrap_width; lia) Hlm2 Hli2 Hi2) as [Hd2' _].
  rewrite Hdec2 in Hd2'. injection Hd2' as Hd2'. rewrite Hd2' in Hr2. cbn [send_fields send_crc] in Hr2.
  rewrite ack_of_bytes in Hr2. destruct (Z.eqb_spec (u16 (crc_16 (mf_bytes (conf_mfile c1)))) (u16 (crc_16 content))); [done|].
  by injection Hr2 as <-.
Qed.
End sessions.

(** ** End to end *)

(** What the caller of [push_file] provides for a file of [sz] bytes: a path, a
    configuration that passes the checks, with well-formed arrays, and positions
    and chunk numbers that fit 32 bits. *)
Record sender_ready (sz : Z) (path : list Z) (stack1 stack2 : CntlAddrs) (c : InitConfig) : Prop := {
  sr_path : no_nul path;
  sr_path_len : len path + 1 < 2 ^ 31;
  sr_name : len (fc_name (conf_filec c)) = MAXFILENAMESIZE;
  sr_addrs : addrs_wf (conf_addrs c);
  sr_stack1 : addrs_wf stack1;
  sr_stack2 : addrs_wf stack2;
  sr_chsize : in_width 16 (conf_chsize c);
  sr_checks : first_failing (push_checks c) = None;
  sr_size : sz < 2 ^ 32;
  sr_count : sz / conf_chsize c + 2 < 2 ^ 32
}.

(** And the caller of [pull_file]. *)
Record receiver_ready (name : list Z) (stack1 stack2 : SendArgs) (c : InitConfig) : Prop := {
  rr_stack1 : addrs_wf (send_info stack1);
  rr_stack2 : addrs_wf (send_info stack2);
  rr_addrs : addrs_wf (conf_addrs c);
  rr_fname : len (fc_name (conf_filec c)) = MAXFILENAMESIZE;
  rr_name : len name = MAXNAMESIZE;
  rr_closed : mf_open (conf_mfile c) = 0;
  rr_nobuf : mf_buf (conf_mfile c) = None;
  rr_checks : first_failing (pull_checks c) = None
}.

(** The chunk [i] of a content cut in chunks of [cs] bytes, counted from 0. *)
Definition chunk_of (cs : Z) (content : list Z) (i : Z) : list Z := ztake cs (zdrop (i * cs) content).

(** The chunks of a transfer are those. *)
Lemma piece_chunk c content i :
  announced c -> len content = mf_size (conf_mfile c) -> 0 <= i < conf_chcount c ->
  piece c content (i + 1) = chunk_of (conf_chsize c) content i.
Proof.
  intros Ha Hl Hi. destruct (announced_bounds c Ha) as (Hq & He & Hp & Hcc & _). pose proof (an_chsize _ Ha).
  unfold piece, chunk_of, start_of, size_of. rewrite chunk_at_eq by (done || lia). cbn [cc_start_pos cc_chunk_size].
  replace (i + 1 - 1) with i by lia. destruct (Z.eqb_spec (i + 1) (conf_chcount c)) as [E|]; [|done].
  replace i with (mf_size (conf_mfile c) / conf_chsize c) by lia.
  rewrite !ztake_all; [done|..]; rewrite len_zdrop; nia.
Qed.

Lemma chunk_beyond cs content i : 0 <= cs -> len content <= i * cs -> chunk_of cs content i = [].
Proof. intros Hcs Hl. unfold chunk_of. rewrite zdrop_all by done. unfold ztake. apply take_nil. Qed.

(** Every chunk of the two files. *)
Lemma chunks_agree `{Crc} c1 c2 sent got :
  announced c1 -> announced c2 -> conf_chsize c2 = conf_chsize c1 ->
  len sent = mf_size (conf_mfile c1) -> len got = mf_size (conf_mfile c2) ->
  mf_size (conf_mfile c2) = mf_size (conf_mfile c1) ->
  (forall i, 1 <= i <= conf_chcount c1 -> u32 (crc_32 (piece c2 got i)) = u32 (crc_32 (piece c1 sent i))) ->
  forall i, 0 <= i -> u32 (crc_32 (chunk_of (conf_chsize c1) got i)) = u32 (crc_32 (chunk_of (conf_chsize c1) sent i)).
Proof.
  intros Ha1 Ha2 Hcs Hls Hlg Hsz Hall i Hi. pose proof (an_chsize _ Ha1).
  pose proof (an_chcount _ Ha1) as Hn1. pose proof (an_chcount _ Ha2) as Hn2.
  destruct (Z.lt_ge_cases i (conf_chcount c1)).
  - rewrite <- Hcs at 1. rewrite <- !piece_chunk; [apply Hall; lia|done|done|lia|done|done|].
    rewrite Hn2, Hsz, Hcs, <- Hn1. lia.
  - destruct (announced_bounds c1 Ha1) as (Hq & He & Hp & _). rewrite !chunk_beyond; [done|..]; nia.
Qed.

Section end_to_end.
Context (H1 H2 : Host) `{Crc}.

(** The sender's first message is what the receiver's environment has to say. *)
Lemma reliable_says sz c c1 w1 tr :
  prepared sz c c1 -> conf_pchsize c1 <> 0 -> sender_session H1 c1 w1 -> reliable w1 (wire tr) -> keeps_size tr ->
  forall tr0 trA trB, tr = trA ++ trB -> sender_says H2 sz tr0 (tr0 ++ trA).
Proof.
  intros Hpr Hp (r1 & a1 & wt1 & r2 & a2 & _ & _ & _ & _ & _ & ->) Hrel Hk tr0 trA trB ->.
  exists trA. split; [done|]. split.
  { intros n z Hn Hz. apply Hk; rewrite gather_app; apply elem_of_app; by left. }
  intros fd m w p Hw Hd. rewrite wire_app, Hw in Hrel.
  destruct (Hrel _ _ _ _ _ _ eq_refl eq_refl) as [Hin _]. autorewrite with ruf in Hin. cbn [app] in Hin.
  autorewrite with ruf in Hin. pose proof (pr_announced _ _ _ Hpr) as Ha.
  rewrite <- ?app_assoc in Hin.
  destruct (send_packet_read H1 H2 c1 Ha 0 m _ _ ltac:(done) (len_decoded_send _ _ _ Hd) Hin) as [Hd' _].
  rewrite Hd in Hd'. injection Hd' as ->. pose proof (pr_size _ _ _ Hpr) as Hsz.
  pose proof (an_size _ Ha). pose proof (an_chsize _ Ha). pose proof (an_chcount _ Ha).
  pose proof (an_pchsize _ Ha). pose proof (an_count _ Ha).
  destruct (announced_bounds c1 Ha) as (Hq & He & Hb & _).
  constructor; cbn [send_fields send_chunk_size send_chunk_count send_partial_chunk_size]; rewrite <- ?Hsz; (done || nia).
Qed.

Lemma transfer_agrees sz c path rest st1 st2 s1 s1' tr1 name st3 st4 s2 s2' tr2 :
  sender_ready sz path st1 st2 c -> p_conf s1 = c ->
  exec posix (@push_file H1 _ (path ++ 0 :: rest) st1 st2) s1 (Val tt) s1' ->
  p_trace s1' = p_trace s1 ++ tr1 -> Forall (size_is sz) tr1 -> NoDup (sockets tr1) ->
  receiver_ready name st3 st4 (p_conf s2) ->
  exec posix (@pull_file H2 _ name st3 st4) s2 (Val tt) s2' ->
  p_trace s2' = p_trace s2 ++ tr2 -> keeps_size tr2 -> NoDup (sockets tr2) ->
  reliable (wire tr1) (wire tr2) ->
  let sent := mf_bytes (conf_mfile (p_conf s1')) in
  let got := mf_bytes (conf_mfile (p_conf s2')) in
  len sent = sz /\ len got = sz /\ u16 (crc_16 got) = u16 (crc_16 sent) /\
  forall i, 0 <= i ->
    u32 (crc_32 (chunk_of (conf_chsize c) got i)) = u32 (crc_32 (chunk_of (conf_chsize c) sent i)).
Proof.
  intros [] Hs1 He1 Ht1 Hsz1 Hnd1 [] He2 Ht2 Hk2 Hnd2 Hrel sent got.
  pose proof (wp_exec _ _ _ _ _ _ (push_file_ok (H := H1) sz c path rest st1 st2 s1 ltac:(done) ltac:(done)
    ltac:(done) ltac:(done) ltac:(done) ltac:(done) ltac:(done) ltac:(done) ltac:(done) ltac:(done) Hs1)
    (exec_if _ _ _ _ _ _ He1 Ht1 Hsz1)) as (c1 & tr & Ht & Hpr & Hp & Hsess & Hsent & Hfd1).
  assert (tr = tr1) as -> by (rewrite Ht1 in Ht; by apply app_inv_head in Ht).
  pose proof (reliable_says _ _ _ _ _ Hpr Hp Hsess Hrel Hk2) as Hsays.
  assert (He2' : exec (posix_while (sender_says H2 sz (p_trace s2))) (@pull_file H2 _ name st3 st4) s2 (Val tt) s2').
  { apply exec_while; [done|]. intros trA trB Hsplit. apply (Hsays _ trA trB).
    rewrite Ht2 in Hsplit. by apply app_inv_head in Hsplit. }
  destruct (wp_exec _ _ _ _ _ _ (pull_file_ok (H := H2) sz (p_conf s2) name st3 st4 s2 eq_refl ltac:(done) ltac:(done)
    ltac:(done) ltac:(done) ltac:(done) ltac:(done) ltac:(done) ltac:(done)) He2')
    as (r & tr & Ht' & _ & c2 & content & Ha2 & Hrecv & Hgot & Hfd2).
  assert (tr2 = [Obs (PthreadCreate thread_broadcast) r] ++ tr) as -> by (rewrite Ht2 in Ht'; by apply app_inv_head in Ht').
  pose proof Hpr as [Ha1 Hms Hcs1 _ Hadr _ _].
  assert (Hin : exists d w d' w', wire tr1 = Out (conf_cntl_sock c1) d :: w /\ wire tr = In (conf_conn_sock c2) d' :: w').
  { destruct Hsess as (? & ? & ? & ? & ? & _ & _ & _ & _ & _ & ->).
    destruct Hrecv as (? & ? & ? & ? & ? & ? & ? & _ & _ & _ & _ & _ & _ & _ & _ & _ & ->). by do 4 eexists. }
  destruct Hin as (d & w & d' & w' & Hw & Hw'). destruct (Hrel _ _ _ _ _ _ Hw Hw') as [HB HA].
  destruct (sessions_agree H1 H2 c1 c2 st3 st4 sz content Ha1 Ha2) with (w1 := wire tr1) (w2 := wire tr)
    as (Hlen & Hcs & Hall & H16); [by rewrite Hadr|done|done|done|by apply Hfd1|by apply Hfd2|done|done|].
  destruct Hrecv as (? & ? & ? & ? & ? & ? & ? & _ & _ & _ & _ & Hsz2 & Hlc & _).
  assert (Hls : len sent = sz) by (unfold sent; rewrite Hsent, len_old; [done|apply Ha1]).
  unfold got. rewrite Hgot. split_and!; [done|done|unfold sent; by rewrite Hsent|]. rewrite <- Hcs1.
  apply chunks_agree with (c2 := c2); [done|done|done|lia|lia|lia|]. unfold sent. rewrite Hsent. exact Hall.
Qed.
End end_to_end.

(** ** The theorem *)

(** C1: end to end, over any network whose control connection is reliable and
    whatever happens to the datagrams: when [push_file] in one process and
    [pull_file] in another both return [SUCCESS], on machines of any two byte
    orders, the receiver's file has the size of the sender's, the same CRC-16, and
    the same CRC-32 in every chunk; so a difference between the two files, if there
    is one, is a collision of both checksums at once.  The sender's file has less
    than 2^32 bytes and keeps its size during the transfer, the receiver's has the size it was given, and no
    process uses the descriptor of an open socket twice. *)
Theorem transfer_end_to_end (H1 H2 : Host) `{Crc} sz c path rest st1 st2 s1 s1' tr1 name st3 st4 s2 s2' tr2 :
  sender_ready sz path st1 st2 c -> p_conf s1 = c ->
  exec posix (@push_file H1 _ (path ++ 0 :: rest) st1 st2) s1 (Val tt) s1' ->
  p_trace s1' = p_trace s1 ++ tr1 -> Forall (size_is sz) tr1 -> NoDup (sockets tr1) ->
  receiver_ready name st3 st4 (p_conf s2) ->
  exec posix (@pull_file H2 _ name st3 st4) s2 (Val tt) s2' ->
  p_trace s2' = p_trace s2 ++ tr2 -> keeps_size tr2 -> NoDup (sockets tr2) ->
  reliable (wire tr1) (wire tr2) ->
  let sent := mf_bytes (conf_mfile (p_conf s1')) in
  let got := mf_bytes (conf_mfile (p_conf s2')) in
  len sent = sz /\ len got = sz /\ u16 (crc_16 got) = u16 (crc_16 sent) /\
  forall i, 0 <= i ->
    u32 (crc_32 (chunk_of (conf_chsize c) got i)) = u32 (crc_32 (chunk_of (conf_chsize c) sent i)).
Proof. apply transfer_agrees. Qed.
