(* ===== verification/Delivery.v ===== *)
(** * A transfer in which nothing goes wrong but the data

    What the two sides of a transfer write and read when every call goes well and
    the network loses nothing, but some of the data arrives corrupted: the headers
    of the sender, every chunk as often as it takes, the same with the faults in
    it, and the answers of the receiver.  And the sender by itself: it perseveres
    as long as it is not refused too often in a row. *)
From S2P Require Import Prelude Protocol Types Sys Wire Turns Utils Error Mfile NetStream FileStream Cntl Data Pusher Puller Rufshare Session.

(** A call with the reply one hopes for. *)
Definition goes_well (o : obs) : Prop := complaint _ (ob_call o) (ob_reply o) = [].

Lemma no_complaint tr st : Forall goes_well tr -> st ∈ complaints tr -> False.
Proof.
  induction 1 as [|o tr Ho _ IH]; unfold complaints, gather in *; cbn [fmap list_fmap concat].
  - by intros ?%elem_of_nil.
  - rewrite Ho. exact IH.
Qed.

(** ** The sender alone

    What it may be told without giving up. *)
(** The type of every answer is right, no header is turned down, and there
    are never [n] refusals in a row. *)
Definition expected (o : obs) : Prop :=
  match ob_call o in sysE X return X -> Prop with
  | RecvFrom _ _ flags => fun r => fst r <> -1 -> flags = MSG_PEEK -> len (snd r) = 1 -> snd r = [RECV]
  | _ => fun _ => True
  end (ob_reply o).

Record patient (H : Host) (sz n : Z) (tr : list obs) : Prop := {
  pa_calls : Forall (fun o => goes_well o /\ size_is sz o /\ expected o) tr;
  pa_headers : ~ turned_down H (wire tr);
  pa_answers : ~ refusals H n (wire tr)
}.

Lemma not_diagnosed H sz n st tr : patient H sz n tr -> diagnosed H n st tr -> False.
Proof.
  intros [Hall Hh Ha] [Hc|[(-> & fd & b & Hb & Hin)|[[_ Hd]|[_ Hr]]]]; [| |by apply Hh|by apply Ha].
  - eapply no_complaint, Hc. eapply Forall_impl; [exact Hall|]. by intros o [Ho _].
  - rewrite Forall_forall in Hall. destruct (Hall _ Hin) as (_ & _ & Hp). unfold expected in Hp. cbn in Hp.
    by injection Hp as ->.
Qed.

Lemma patient_nil H sz n : 0 < n -> patient H sz n [].
Proof.
  intros Hn. constructor; [constructor|by intros ([|? ?] & w2 & fd & m & r & Hw & _)|].
  intros (l1 & l2 & l3 & Hv & Hl & _). symmetry in Hv. apply app_nil in Hv as [_ Hv]. apply app_nil in Hv as [-> _].
  rewrite len_nil in Hl. lia.
Qed.

(** A sender whose calls go well and that is never refused for as long as it tries
    succeeds. *)
Lemma sender_trycount sz path stack1 stack2 c : sender_ready sz path stack1 stack2 c -> 0 < conf_tf_trycount c.
Proof. intros []. match goal with Hck : first_failing _ = None |- _ => eapply (positive_pass _ _ _ Hck); in_list end. Qed.

Lemma push_file_patient `{Host} `{Crc} sz c path rest stack1 stack2 s :
  sender_ready sz path stack1 stack2 c -> sz mod conf_chsize c <> 0 -> p_conf s = c -> p_trace s = [] ->
  wp (posix_while (patient _ sz (conf_tf_trycount c)))
    (fun o s' => o = Val tt /\ sent_file _ sz c s s') (push_file (path ++ 0 :: rest) stack1 stack2) s.
Proof.
  intros Hready Hne Hs Ht. pose proof (sender_trycount _ _ _ _ _ Hready) as Htry. destruct Hready. eapply wp_mono.
  - apply (wp_if_while (size_is sz)); [| |by apply (push_file_ok sz c)].
    + intros tr [Hall _ _]. eapply Forall_impl; [exact Hall|]. by intros o (_ & ? & _).
    + rewrite Ht. by apply patient_nil.
  - intros o s' (Ho & Hp). destruct o as [[]|?|code|]; [done|done| |done].
    destruct Ho as (_ & st & tr' & _ & Ht' & Hd). exfalso. rewrite Ht in Ht'. cbn [app] in Ht'. rewrite Ht' in Hp.
    eapply (not_diagnosed _ _ _ st _ Hp). by apply diagnosed_l, Hd.
Qed.

(** ** What goes over the sockets

    Something for every chunk, from [seq] on. *)
Definition along {A} (f : Z -> list A) (seq n : Z) : list A := concat (f <$> seqZ seq n).

Section along.
Context {A : Type} (f : Z -> list A).

Lemma along_next seq n : 0 < n -> along f seq n = f seq ++ along f (seq + 1) (n - 1).
Proof. intros Hn. unfold along. rewrite seqZ_cons by done. by replace (Z.succ seq) with (seq + 1) by lia. Qed.

Lemma along_app seq n m : 0 <= n -> 0 <= m -> along f seq (n + m) = along f seq n ++ along f (seq + n) m.
Proof. intros Hn Hm. unfold along. by rewrite seqZ_app, fmap_app, concat_app. Qed.

Lemma along_one seq : along f seq 1 = f seq.
Proof. rewrite along_next by lia. unfold along. cbn. apply app_nil_r. Qed.

Lemma along_snoc seq : 1 <= seq -> along f 1 seq = along f 1 (seq - 1) ++ f seq.
Proof.
  intros Hs. replace seq with (seq - 1 + 1) at 1 by lia. rewrite along_app by lia.
  replace (1 + (seq - 1)) with seq by lia. by rewrite along_one.
Qed.

Lemma along_split seq n : 1 <= seq <= n -> along f 1 n = along f 1 (seq - 1) ++ f seq ++ along f (seq + 1) (n - seq).
Proof.
  intros Hs. replace n with (seq + (n - seq)) at 1 by lia. rewrite along_app, along_snoc, <- app_assoc by lia.
  do 3 f_equal; lia.
Qed.
End along.

Lemma along_bytes {A B} (g : A -> list B) f seq n :
  concat (g <$> along f seq n) = along (fun q => concat (g <$> f q)) seq n.
Proof.
  unfold along. induction (seqZ seq n) as [|q qs IH]; [done|]. cbn [fmap list_fmap concat].
  by rewrite fmap_app, concat_app, <- IH.
Qed.

Lemma along_ext {A} (f g : Z -> list A) seq n :
  (forall q, seq <= q < seq + n -> f q = g q) -> along f seq n = along g seq n.
Proof.
  intros Hfg. unfold along. f_equal. apply list_fmap_ext. intros i q Hq%list_elem_of_lookup_2%elem_of_seqZ. by apply Hfg.
Qed.

Lemma along_forall {A} (P : A -> Prop) f seq n :
  (forall q, seq <= q < seq + n -> Forall P (f q)) -> Forall P (along f seq n).
Proof.
  intros Hf. apply Forall_concat, Forall_fmap, Forall_forall. intros q Hq%elem_of_seqZ. by apply Hf.
Qed.

Lemma along_forall2 {A B} (P : A -> B -> Prop) f g seq n :
  (forall q, seq <= q < seq + n -> Forall2 P (f q) (g q)) -> Forall2 P (along f seq n) (along g seq n).
Proof.
  intros Hfg. unfold along. assert (Hq : Forall (fun q => Forall2 P (f q) (g q)) (seqZ seq n))
    by (apply Forall_forall; intros q Hq%elem_of_seqZ; by apply Hfg).
  induction Hq as [|q qs Hq _ IH]; [constructor|]. by apply Forall2_app.
Qed.

(** The control connection of a sender. *)
Definition flows (H : Host) `{Crc} (c : InitConfig) : Z -> Z -> list Z := along (flow_bytes H c).
Definition script (H : Host) `{Crc} (c : InitConfig) : list Z :=
  send_bytes H c 0 ++ flows H c 1 (conf_chcount c) ++ send_bytes H c (u16 (crc_16 (mf_bytes (conf_mfile c)))).

(** [faults q] is what arrives of the chunk [q] of [count] before it arrives as it
    was sent: each time its bytes are all there and the CRC-32 tells that they are
    wrong, and this happens less than [n] times. *)
Record faults_ok `{Crc} (chunk : Z -> list Z) (count n : Z) (faults : Z -> list (list Z)) : Prop := {
  fa_bad : forall q d, 1 <= q <= count -> d ∈ faults q ->
    len d = len (chunk q) /\ bytes_ok d /\ u32 (crc_32 d) <> u32 (crc_32 (chunk q));
  fa_few : forall q, 1 <= q <= count -> Z.of_nat (length (faults q)) < n
}.

(** The data of a sender, which repeats a chunk for every fault; what a receiver
    reads of it; and the answers of the receiver. *)
Definition repeats (chunk : Z -> list Z) (faults : Z -> list (list Z)) (q : Z) : list Z :=
  concat (replicate (S (length (faults q))) (chunk q)).
Definition data_sent (chunk : Z -> list Z) (faults : Z -> list (list Z)) : Z -> Z -> list Z := along (repeats chunk faults).

Definition arrivals (chunk : Z -> list Z) (faults : Z -> list (list Z)) (q : Z) : list Z := concat (faults q) ++ chunk q.
Definition data_heard (chunk : Z -> list Z) (faults : Z -> list (list Z)) : Z -> Z -> list Z := along (arrivals chunk faults).

Definition chunk_answers (H : Host) (faults : Z -> list (list Z)) (q : Z) : list Z :=
  ack_bytes H 1 q ++ answers_of H (length (faults q)) q.
Definition answers_to (H : Host) (faults : Z -> list (list Z)) : Z -> Z -> list Z := along (chunk_answers H faults).
Definition answer_script (H : Host) (faults : Z -> list (list Z)) (chcount : Z) : list Z :=
  ack_bytes H 1 0 ++ answers_to H faults 1 chcount ++ ack_bytes H 1 (chcount + 1).

Lemma answers_of_split (H : Host) k q : answers_of H (S k) q = ack_bytes H 0 q ++ answers_of H k q.
Proof. unfold answers_of. cbn [replicate concat]. by rewrite <- app_assoc. Qed.

(** *** Turn by turn

    The turns of a transfer before chunk [seq], and all of them, as the sender sees
    them, whose sockets are [cntl] and [data], and as the receiver does, whose
    sockets are [conn] and [data]: the announcement, a header and the data for every
    chunk, the data once more for every fault, and the checksum. *)
Section turns.
Context (H1 H2 : Host) `{Crc} (c : InitConfig) (faults : Z -> list (list Z)).

Definition sent_chunk (cntl data : Z) (q : Z) : list turn :=
  let ds := Out data <$> segments (conf_segsize c) (data_at c q) in
  ([Out cntl (flow_bytes H1 c q)], ack_bytes H2 1 q) ::
  replicate (length (faults q)) (ds, ack_bytes H2 0 q) ++ [(ds, ack_bytes H2 1 q)].
Definition sent_until (cntl data seq : Z) : list turn :=
  ([Out cntl (send_bytes H1 c 0)], ack_bytes H2 1 0) :: along (sent_chunk cntl data) 1 (seq - 1).
Definition sent_turns (cntl data : Z) : list turn :=
  let n := conf_chcount c in
  sent_until cntl data (n + 1) ++
  [([Out cntl (send_bytes H1 c (u16 (crc_16 (mf_bytes (conf_mfile c)))))], ack_bytes H2 1 (n + 1))].

Definition heard_header (conn : Z) (m : list Z) : list wev := In conn <$> [ztake sizeof_SendPacket m; zdrop sizeof_SendPacket m].
Definition heard_data (data segsize q a : Z) (d : list Z) : turn := (In data <$> segments segsize d, ack_bytes H2 a q).
Definition heard_chunk (conn data segsize : Z) (q : Z) : list turn :=
  ([In conn (flow_bytes H1 c q)], ack_bytes H2 1 q) ::
  (heard_data data segsize q 0 <$> faults q) ++ [heard_data data segsize q 1 (data_at c q)].
Definition heard_until (conn data segsize seq : Z) : list turn :=
  (heard_header conn (send_bytes H1 c 0), ack_bytes H2 1 0) :: along (heard_chunk conn data segsize) 1 (seq - 1).
Definition heard_turns (conn data segsize : Z) : list turn :=
  let n := conf_chcount c in
  heard_until conn data segsize (n + 1) ++
  [(heard_header conn (send_bytes H1 c (u16 (crc_16 (mf_bytes (conf_mfile c))))), ack_bytes H2 1 (n + 1))].

Context (a b segsize : Z) (Hab : a <> b) (Hcs : 0 < conf_segsize c) (Hss : 0 < segsize).

Lemma sent_until_asks seq : Forall asks (sent_until a b seq).
Proof using Type.
  assert (Hd : forall q, Forall is_out (Out b <$> segments (conf_segsize c) (data_at c q)))
    by (intros q; apply Forall_fmap; by apply Forall_true).
  apply Forall_cons; split; [by repeat constructor|]. apply along_forall. intros q _. apply Forall_cons; split; [by repeat constructor|].
  apply Forall_app; split; [apply Forall_replicate|apply Forall_singleton]; apply Hd.
Qed.
Lemma sent_turns_asks : Forall asks (sent_turns a b).
Proof using Type. apply Forall_app; split; [apply sent_until_asks|]. by repeat constructor. Qed.

Lemma heard_until_asked seq : Forall is_asked (heard_until a b segsize seq).
Proof using Type.
  assert (Hd : forall d, Forall is_in (In b <$> segments segsize d)) by (intros d; apply Forall_fmap; by apply Forall_true).
  apply Forall_cons; split; [by repeat constructor|]. apply along_forall. intros q _. apply Forall_cons; split; [by repeat constructor|].
  apply Forall_app; split; [apply Forall_fmap, Forall_true; intros d|apply Forall_singleton]; apply Hd.
Qed.
Lemma heard_turns_asked : Forall is_asked (heard_turns a b segsize).
Proof using Type. apply Forall_app; split; [apply heard_until_asked|]. by repeat constructor. Qed.

(** The answers are the receiver's. *)
Lemma sent_until_answers seq :
  concat (snd <$> sent_until a b seq) = ack_bytes H2 1 0 ++ answers_to H2 faults 1 (seq - 1).
Proof using Type.
  unfold sent_until. cbn [fmap list_fmap concat snd]. f_equal. rewrite along_bytes. apply along_ext. intros q _.
  unfold sent_chunk, chunk_answers, answers_of. cbn [fmap list_fmap concat snd]. rewrite fmap_app, fmap_replicate, concat_app.
  cbn. by rewrite app_nil_r.
Qed.
Lemma heard_until_answers seq :
  concat (snd <$> heard_until a b segsize seq) = ack_bytes H2 1 0 ++ answers_to H2 faults 1 (seq - 1).
Proof using Type.
  unfold heard_until. cbn [fmap list_fmap concat snd]. f_equal. rewrite along_bytes. apply along_ext. intros q _.
  unfold heard_chunk, chunk_answers, answers_of. cbn [fmap list_fmap concat snd].
  rewrite fmap_app, <- list_fmap_compose, concat_app. rewrite (const_fmap _ _ (ack_bytes H2 0 q)) by done. cbn. by rewrite app_nil_r.
Qed.
Lemma sent_turns_answers : concat (snd <$> sent_turns a b) = answer_script H2 faults (conf_chcount c).
Proof using Type.
  unfold sent_turns, answer_script. rewrite fmap_app, concat_app, sent_until_answers, Z.add_simpl_r. cbn.
  by rewrite app_nil_r, <- app_assoc.
Qed.
Lemma heard_turns_answers : concat (snd <$> heard_turns a b segsize) = answer_script H2 faults (conf_chcount c).
Proof using Type.
  unfold heard_turns, answer_script. rewrite fmap_app, concat_app, heard_until_answers, Z.add_simpl_r. cbn.
  by rewrite app_nil_r, <- app_assoc.
Qed.

(** What the sender puts on its sockets. *)
Lemma sent_until_script seq :
  out_bytes a (asking a (sent_until a b seq)) = send_bytes H1 c 0 ++ flows H1 c 1 (seq - 1).
Proof using Hab.
  rewrite asking_out. unfold sent_until. cbn [fmap list_fmap concat fst]. rewrite out_one. f_equal.
  rewrite along_bytes. apply along_ext. intros q _. unfold sent_chunk. cbn [fmap list_fmap concat fst]. rewrite out_one.
  rewrite fmap_app, fmap_replicate, concat_app. cbn [fmap list_fmap concat fst].
  rewrite out_elsewhere, concat_replicate_nil by done. cbn. by rewrite !app_nil_r.
Qed.
Lemma sent_until_data seq :
  out_bytes b (asking a (sent_until a b seq)) = data_sent (data_at c) faults 1 (seq - 1).
Proof using Hab Hcs.
  assert (Hno : forall m, out_bytes b [Out a m] = []) by (intros m; unfold out_bytes; cbn; by destruct (Z.eqb_spec a b)).
  rewrite asking_out. unfold sent_until. cbn [fmap list_fmap concat fst]. rewrite Hno. cbn [app].
  rewrite along_bytes. apply along_ext. intros q _. unfold sent_chunk, repeats. cbn [fmap list_fmap concat fst]. rewrite Hno.
  rewrite fmap_app, fmap_replicate. cbn [fmap list_fmap fst app]. rewrite out_bytes_outs, segments_concat by done.
  f_equal. by rewrite <- (replicate_S_end _ (data_at c q)).
Qed.
Lemma sent_turns_script : out_bytes a (asking a (sent_turns a b)) = script H1 c.
Proof using Hab.
  unfold sent_turns, script. rewrite asking_app, out_bytes_app, sent_until_script, Z.add_simpl_r, asking_out.
  cbn. rewrite Z.eqb_refl, !app_nil_r. by rewrite <- app_assoc.
Qed.
Lemma sent_turns_data : out_bytes b (asking a (sent_turns a b)) = data_sent (data_at c) faults 1 (conf_chcount c).
Proof using Hab Hcs.
  unfold sent_turns. rewrite asking_app, out_bytes_app, sent_until_data, Z.add_simpl_r, asking_out.
  unfold out_bytes. cbn. destruct (Z.eqb_spec a b); [done|]. by rewrite !app_nil_r.
Qed.

(** What the receiver takes from its sockets. *)
Lemma heard_header_eq fd m i : len m = sizeof_SendPacket -> [In fd m; In fd i] = heard_header fd (m ++ i).
Proof using Type. intros Hm. unfold heard_header. by rewrite <- Hm, ztake_app_le, ztake_full, zdrop_app by lia. Qed.
Lemma heard_header_in m : in_bytes a (heard_header a m) = m /\ in_bytes b (heard_header a m) = [].
Proof using Hab.
  unfold heard_header. rewrite in_bytes_ins, in_elsewhere by done. cbn. by rewrite app_nil_r, ztake_zdrop.
Qed.
Lemma heard_data_in q k ds :
  in_bytes a (answering a (heard_data b segsize q k <$> ds)) = [] /\
  in_bytes b (answering a (heard_data b segsize q k <$> ds)) = concat ds.
Proof using Hab Hss.
  induction ds as [|d ds [IH1 IH2]]; [done|]. cbn [fmap list_fmap]. rewrite answering_cons, !in_bytes_app, !in_out.
  cbn [heard_data fst snd]. rewrite in_elsewhere, in_bytes_ins, segments_concat by (done || congruence).
  split; [exact IH1|]. cbn [concat]. by f_equal.
Qed.
Lemma heard_header_one m w : in_bytes a (In a m :: w) = m ++ in_bytes a w /\ in_bytes b (In a m :: w) = in_bytes b w.
Proof using Hab. split; [apply in_here|]. unfold in_bytes. cbn. by destruct (Z.eqb_spec a b). Qed.
Lemma heard_chunk_in q :
  in_bytes a (answering a (heard_chunk a b segsize q)) = flow_bytes H1 c q /\
  in_bytes b (answering a (heard_chunk a b segsize q)) = arrivals (data_at c) faults q.
Proof using Hab Hss.
  unfold heard_chunk. change [heard_data b segsize q 1 (data_at c q)] with (heard_data b segsize q 1 <$> [data_at c q]).
  rewrite answering_cons, answering_app. cbn [fst snd app].
  destruct (heard_header_one (flow_bytes H1 c q) (Out a (ack_bytes H2 1 q) :: answering a (heard_data b segsize q 0 <$> faults q) ++
    answering a (heard_data b segsize q 1 <$> [data_at c q]))) as [-> ->].
  rewrite !in_out, !in_bytes_app. destruct (heard_data_in q 0 (faults q)) as [-> ->].
  destruct (heard_data_in q 1 [data_at c q]) as [-> ->]. unfold arrivals. cbn [concat]. by rewrite !app_nil_r.
Qed.
Lemma heard_until_in seq :
  in_bytes a (answering a (heard_until a b segsize seq)) = send_bytes H1 c 0 ++ flows H1 c 1 (seq - 1) /\
  in_bytes b (answering a (heard_until a b segsize seq)) = data_heard (data_at c) faults 1 (seq - 1).
Proof using Hab Hss.
  unfold heard_until. rewrite answering_cons, !in_bytes_app, !in_out, !answering_in, !along_bytes. cbn [fst].
  destruct (heard_header_in (send_bytes H1 c 0)) as [-> ->]. cbn [app].
  split; [f_equal|]; apply along_ext; intros q _; rewrite <- answering_in with (fd' := a); apply heard_chunk_in.
Qed.

(** The two sides see the same turns: in each the receiver takes as many bytes as the
    sender puts, and the answers are RECV headers. *)
Lemma sent_turns_acks : Forall (fun t => len t.2 = 8) (sent_turns a b).
Proof using Type.
  apply Forall_app; split; [|by repeat constructor; apply len_ack_bytes].
  apply Forall_cons; split; [apply len_ack_bytes|]. apply along_forall. intros q _. apply Forall_cons; split; [apply len_ack_bytes|].
  apply Forall_app; split; [apply Forall_replicate|apply Forall_singleton]; apply len_ack_bytes.
Qed.
Lemma heard_turns_acks : Forall (fun t => len t.2 = 8) (heard_turns a b segsize).
Proof using Type.
  apply Forall_app; split; [|by repeat constructor; apply len_ack_bytes].
  apply Forall_cons; split; [apply len_ack_bytes|]. apply along_forall. intros q _. apply Forall_cons; split; [apply len_ack_bytes|].
  apply Forall_app; split; [apply Forall_fmap, Forall_true; intros d|apply Forall_singleton]; apply len_ack_bytes.
Qed.
End turns.

(** No message of a turn is empty. *)
Definition some_bytes (e : wev) : Prop := match e with Out _ d | In _ d => 0 < len d end.

Lemma heard_turns_some (H1 H2 : Host) `{Crc} c faults conn data segsize :
  0 < segsize -> (forall crc, sizeof_SendPacket < len (send_bytes H1 c crc)) ->
  Forall (fun t => Forall some_bytes t.1) (heard_turns H1 H2 c faults conn data segsize).
Proof.
  intros Hss Hsend.
  assert (Hhead : forall crc, Forall some_bytes (heard_header conn (send_bytes H1 c crc))).
  { intros crc. specialize (Hsend crc). unfold heard_header, sizeof_SendPacket in *.
    cbn [fmap list_fmap]. apply Forall_cons; split; [|apply Forall_singleton]; cbn [some_bytes]; [rewrite len_ztake|rewrite len_zdrop]; lia. }
  assert (Hdata : forall d, Forall some_bytes (In data <$> segments segsize d))
    by (intros d; by apply Forall_fmap, segments_some).
  apply Forall_app; split; [|apply Forall_singleton, Hhead]. apply Forall_cons; split; [apply Hhead|].
  apply along_forall. intros q _. apply Forall_cons; split.
  { apply Forall_singleton. cbn [some_bytes]. unfold flow_bytes, encode_FlowPacket. by rewrite flow_wire. }
  apply Forall_app; split; [apply Forall_fmap, Forall_true; intros d|apply Forall_singleton]; apply Hdata.
Qed.

(** A turn of a sender, whose sockets are [a] and [b], and one of a receiver, whose
    sockets are [c] and [d], of as many bytes. *)
Definition turns_match (a b c d : Z) (s r : turn) : Prop :=
  len (out_bytes a s.1) = len (in_bytes c r.1) /\ len (out_bytes b s.1) = len (in_bytes d r.1).

Lemma turns_match_all (H1 H2 : Host) `{Crc} c faults a b conn data segsize n :
  faults_ok (data_at c) (conf_chcount c) n faults -> a <> b -> conn <> data -> 0 < conf_segsize c -> 0 < segsize ->
  Forall2 (turns_match a b conn data) (sent_turns H1 H2 c faults a b) (heard_turns H1 H2 c faults conn data segsize).
Proof.
  intros Hfa Hab Hcd Hcs Hss.
  assert (Hhead : forall m ack, turns_match a b conn data ([Out a m], ack) (heard_header conn m, ack)).
  { intros m ack. split; cbn [fst].
    - by rewrite out_one, (proj1 (heard_header_in _ _ Hcd m)).
    - change [Out a m] with (Out a <$> [m]). by rewrite (proj2 (heard_header_in _ _ Hcd m)), out_elsewhere. }
  assert (Hdata : forall q k d, len d = len (data_at c q) ->
    turns_match a b conn data (Out b <$> segments (conf_segsize c) (data_at c q), ack_bytes H2 k q) (heard_data H2 data segsize q k d)).
  { intros q k d Hd. split; cbn [heard_data fst].
    - by rewrite out_elsewhere, in_elsewhere by congruence.
    - by rewrite out_bytes_outs, in_bytes_ins, !segments_concat. }
  apply Forall2_app; [|by repeat constructor; apply Hhead]. apply Forall2_cons; split; [apply Hhead|].
  apply along_forall2. intros q Hq. apply Forall2_cons; split.
  { split; cbn [fst]; [by rewrite out_one, in_one|]. change [Out a (flow_bytes H1 c q)] with (Out a <$> [flow_bytes H1 c q]).
    change [In conn (flow_bytes H1 c q)] with (In conn <$> [flow_bytes H1 c q]). by rewrite out_elsewhere, in_elsewhere. }
  apply Forall2_app; [|by repeat constructor; apply Hdata].
  assert (Hall : forall d, d ∈ faults q -> len d = len (data_at c q)) by (intros d Hd; apply (fa_bad _ _ _ _ Hfa q d); [lia|done]).
  induction (faults q) as [|d ds IH]; [constructor|]. cbn [length replicate fmap list_fmap]. apply Forall2_cons; split.
  - apply Hdata, Hall. left.
  - apply IH. intros d' Hd'. apply Hall. by right.
Qed.

(** Bytes of which those of [b] are the beginning, or that are the beginning of
    those. *)
Definition agrees (a b : list Z) : Prop := a `prefix_of` b \/ b `prefix_of` a.

Lemma agrees_cut a x b : agrees (a ++ x) b -> agrees a b.
Proof.
  intros [H|H]; [left; etrans; [by exists x|exact H]|].
  destruct (prefix_weak_total a b (a ++ x)) as [?|?]; [by exists x|done|by left|by right].
Qed.
Lemma agrees_tail a x y : agrees (a ++ x) (a ++ y) -> agrees x y.
Proof. intros [H|H]; apply prefix_app_inv in H; [by left|by right]. Qed.
Lemma agrees_len x m rest : len x = len m -> agrees x (m ++ rest) -> x = m.
Proof.
  intros Hl [H|H].
  - rewrite <- (app_nil_r x) in H. by apply prefix_app_len in H as [-> _].
  - assert (Hp : m `prefix_of` x) by (etrans; [by exists rest|exact H]).
    rewrite <- (app_nil_r x), <- (app_nil_r m) in Hp. by apply prefix_app_len in Hp as [-> _].
Qed.

(** A socket on which what is read, and what is peeked at, is what [bytes] says. *)
Definition follows (bytes : list Z) (fd : Z) (tr : list obs) : Prop :=
  agrees (in_bytes fd (wire tr)) bytes /\
  forall tr1 size n d tr2, tr = tr1 ++ Obs (RecvFrom fd size MSG_PEEK) (n, d) :: tr2 -> n <> -1 ->
    agrees (in_bytes fd (wire tr1) ++ d) bytes.

Lemma follows_l bytes fd tr tr' : follows bytes fd (tr ++ tr') -> follows bytes fd tr.
Proof.
  intros [Hp Hpk]. rewrite wire_app, in_bytes_app in Hp. split; [by eapply agrees_cut|].
  intros tr1 size n d tr2 -> Hn. apply (Hpk tr1 size n d (tr2 ++ tr')); [by rewrite <- app_assoc|done].
Qed.

(** Nothing but the expected type can be peeked at. *)
Lemma follows_typed bytes fd tr tr1 b type rest :
  follows bytes fd (tr ++ tr1 ++ [Obs (RecvFrom fd 1 MSG_PEEK) (1, [b])]) ->
  bytes = in_bytes fd (wire tr) ++ type :: rest -> in_bytes fd (wire tr1) = [] -> b = type.
Proof.
  intros [_ Hpk] -> Hw. rewrite app_assoc in Hpk. specialize (Hpk _ _ _ _ [] eq_refl ltac:(lia)).
  rewrite wire_app, in_bytes_app, Hw, app_nil_r in Hpk.
  apply agrees_tail, (agrees_len [b] [type] rest) in Hpk; [congruence|done].
Qed.

(** The next message of the connection. *)
Lemma follows_next bytes fd tr tr' m rest :
  follows bytes fd (tr ++ tr') -> bytes = in_bytes fd (wire tr) ++ m ++ rest ->
  len (in_bytes fd (wire tr')) = len m -> in_bytes fd (wire tr') = m.
Proof.
  intros [Hp _] Hs Hl. rewrite Hs, wire_app, in_bytes_app in Hp. apply agrees_tail in Hp. by eapply agrees_len.
Qed.

(** ** Programs in such a world

    [heard] holds of the calls since the trace was [tr0]. *)
Section world.
Context (heard : list obs -> Prop) (tr0 : list obs).

Definition hearing (tr : list obs) : Prop := exists tr1, tr = tr0 ++ tr1 /\ heard tr1.

Lemma hearing_app tr : hearing (tr0 ++ tr) -> heard tr.
Proof. by intros (tr1 & ->%app_inv_head & Hh). Qed.

(** Using a theorem about all environments: what it says the calls were, was
    heard. *)
Lemma wp_hear {A} (P : outcome A -> list obs -> InitConfig -> Prop) (Q : outcome A -> pstate -> Prop) m s tr :
  p_trace s = tr0 ++ tr -> heard tr -> wp posix (does P s) m s ->
  (forall o tr' c, P o tr' c -> heard (tr ++ tr') -> Q o (after_does tr' c s)) ->
  wp (posix_while hearing) Q m s.
Proof.
  intros Ht Hh Hw HQ. eapply wp_while_use; [by rewrite Ht; exists tr|exact Hw|].
  intros o tr' c HP Hhr. apply HQ; [done|]. rewrite Ht, <- app_assoc in Hhr. by apply hearing_app.
Qed.

Lemma wp_hear_calls {A} (P : outcome A -> list obs -> Prop) (Q : outcome A -> pstate -> Prop) m s tr :
  p_trace s = tr0 ++ tr -> heard tr -> wp posix (calls P s) m s ->
  (forall o tr', P o tr' -> heard (tr ++ tr') -> Q o (after_calls tr' s)) ->
  wp (posix_while hearing) Q m s.
Proof.
  intros Ht Hh Hw HQ. eapply wp_while_calls; [by rewrite Ht; exists tr|exact Hw|].
  intros o tr' HP Hhr. apply HQ; [done|]. rewrite Ht, <- app_assoc in Hhr. by apply hearing_app.
Qed.

Lemma wp_hear_get (Q : outcome InitConfig -> pstate -> Prop) s tr :
  p_trace s = tr0 ++ tr -> heard tr -> Q (Val (p_conf s)) s -> wp (posix_while hearing) Q (sys GetConf) s.
Proof. intros Ht Hh HQ. apply wp_while_get; [by rewrite Ht; exists tr|done]. Qed.

Lemma wp_hear_set (Q : outcome unit -> pstate -> Prop) f s :
  Q (Val tt) (with_conf f s) -> wp (posix_while hearing) Q (sys (SetConf f)) s.
Proof. intros HQ. apply wp_sys. by intros [] s' [-> _]. Qed.
End world.

(** ** The theorem *)

(** C5: the sender alone perseveres: on a file of less than 2^32 bytes whose size is
    not a multiple of the chunk size (such a one cannot be sent:
    [push_transfer_exact_multiple]) and stays the same, with a configuration that
    [push_file] accepts, a process whose calls go well, whose headers are not turned
    down and whose chunks are never refused [tf_trycount] times in a row, however
    often they are, always comes to the end of [push_file] and returns [SUCCESS],
    after the whole session. *)
Theorem push_file_succeeds `{Host} `{Crc} sz c path rest stack1 stack2 s :
  sender_ready sz path stack1 stack2 c -> sz mod conf_chsize c <> 0 -> p_conf s = c -> p_trace s = [] ->
  wp (posix_while (patient _ sz (conf_tf_trycount c)))
    (fun o s' => o = Val tt /\ sent_file _ sz c s s') (push_file (path ++ 0 :: rest) stack1 stack2) s.
Proof. apply push_file_patient. Qed.
