(* ===== verification/Hearing.v ===== *)
(** * The receiver of a transfer in which nothing goes wrong but the data

    A receiver that reads the script of a sender, and the data that goes with it
    with some faults in it, refuses the faults, rebuilds the file, and succeeds. *)
From S2P Require Import Prelude Protocol Types Sys Wire Turns Utils Error Mfile NetStream FileStream Cntl Data Pusher Puller Rufshare Session Delivery.

(** The connection a receiver accepts is [conn], and its data socket is [data]. *)
Definition listens (conn data : Z) (o : obs) : Prop :=
  match ob_call o in sysE X return X -> Prop with
  | Accept _ => fun r => fst r = conn
  | Socket type => fun fd => if type =? SOCK_DGRAM then fd = data else True
  | _ => fun _ => True
  end (ob_reply o).

(** The calls of a receiver that all go well, on a disk with room for [sz] bytes
    and a file that has them, and whose connection and data socket deliver
    [script] and [content]. *)
Record hears (conn data sz : Z) (script content : list Z) (tr : list obs) : Prop := {
  hr_well : Forall goes_well tr;
  hr_size : Forall (size_is sz) tr;
  hr_room : ~ full_disk sz tr;
  hr_fds : Forall (listens conn data) tr;
  hr_stream : follows script conn tr;
  hr_dgram : agrees (in_bytes data (wire tr)) content
}.

Lemma accepted_is conn data l fd sa tr :
  Forall (listens conn data) tr -> Obs (Accept l) (fd, sa) ∈ tr -> fd = conn.
Proof. intros Hall Hin. rewrite Forall_forall in Hall. exact (Hall _ Hin). Qed.
Lemma dgram_is conn data fd tr :
  Forall (listens conn data) tr -> Obs (Socket SOCK_DGRAM) fd ∈ tr -> fd = data.
Proof. intros Hall Hin. rewrite Forall_forall in Hall. exact (Hall _ Hin). Qed.

Lemma hears_l conn data sz script content tr tr' :
  hears conn data sz script content (tr ++ tr') -> hears conn data sz script content tr.
Proof.
  intros [Hw Hs Hr Hf Hp Hd]. constructor.
  - by apply Forall_app in Hw as [? _].
  - by apply Forall_app in Hs as [? _].
  - intros (f & b & n & Hin & Hle). apply Hr. exists f, b, n. split; [apply elem_of_app; by left|done].
  - by apply Forall_app in Hf as [? _].
  - by eapply follows_l.
  - rewrite wire_app, in_bytes_app in Hd. by eapply agrees_cut.
Qed.

Lemma hears_no_complaint conn data sz script content tr tr' st :
  hears conn data sz script content (tr ++ tr') -> st ∈ complaints tr' -> False.
Proof. intros Hh Hc. eapply no_complaint; [apply (hr_well _ _ _ _ _ _ Hh)|by apply complaints_r]. Qed.

(** Nothing but the expected type can be peeked at. *)
Lemma hears_typed conn data sz script content tr tr' type rest :
  hears conn data sz script content (tr ++ tr') ->
  script = in_bytes conn (wire tr) ++ type :: rest -> mistyped conn type tr' -> False.
Proof.
  intros Hh Hs (b & tr0 & Hb & Hw & ->). apply Hb.
  eapply follows_typed; [exact (hr_stream _ _ _ _ _ _ Hh)|exact Hs|by rewrite Hw].
Qed.

(** The next message of the connection. *)
Lemma hears_next conn data sz script content tr tr' m rest :
  hears conn data sz script content (tr ++ tr') ->
  script = in_bytes conn (wire tr) ++ m ++ rest -> len (in_bytes conn (wire tr')) = len m ->
  in_bytes conn (wire tr') = m.
Proof.
  intros Hh. apply follows_next, (hr_stream _ _ _ _ _ _ Hh).
Qed.

(** ** The transfer, heard *)

Section transfer.
Context (H1 H2 : Host) `{Crc} (c1 c2 : InitConfig) (Ha1 : announced c1) (Ha2 : announced c2).
Context (Hcs : conf_chsize c2 = conf_chsize c1) (Hps : conf_pchsize c2 = conf_pchsize c1)
  (Hcc : conf_chcount c2 = conf_chcount c1) (Hsz : mf_size (conf_mfile c2) = mf_size (conf_mfile c1))
  (Hpar : conf_pchsize c1 <> 0) (Hd2 : conf_conn_sock c2 <> conf_data_sock c2).
Context (faults : Z -> list (list Z)) (Hfa : faults_ok (data_at c1) (conf_chcount c1) (conf_tf_trycount c2) faults) (tr0 : list obs).

Let sz := mf_size (conf_mfile c1).
Let conn := conf_conn_sock c2.
Let data := conf_data_sock c2.
Let sent := mf_bytes (conf_mfile c1).
Let heard := hears conn data sz (script H1 c1) (data_heard (data_at c1) faults 1 (conf_chcount c1)).
Let P := hearing heard tr0.

(** What was heard when chunk [seq] is due, and what it made of the file. *)
Record due (seq : Z) (content : list Z) (tr : list obs) : Prop := {
  du_heard : heard tr;
  du_wire : wire tr = answering conn (heard_until H1 H2 c1 faults conn data (conf_segsize c2) seq);
  du_content : len content = sz /\ ztake ((seq - 1) * conf_chsize c1) content = ztake ((seq - 1) * conf_chsize c1) sent
}.

Lemma start_at seq : 1 <= seq <= conf_chcount c1 -> start_of c2 seq = (seq - 1) * conf_chsize c1.
Proof using All.
  intros Hs. unfold start_of. rewrite (chunk_at_same c1 c2 Hcs Hps Hcc).
  by rewrite (chunk_at_eq c1 Ha1) by done.
Qed.

Lemma data_eq seq : 1 <= seq <= conf_chcount c1 ->
  len (data_at c1 seq) = size_of c2 seq /\ ztake (size_of c2 seq) (zdrop (start_of c2 seq) sent) = data_at c1 seq.
Proof using All.
  intros Hs. unfold size_of, start_of. rewrite (chunk_at_same c1 c2 Hcs Hps Hcc). split; [|done].
  apply len_chunk_bytes; [apply Ha1|]. apply (chunk_at_in c1 Ha1). split; [done|by right].
Qed.

(** What comes in next: a fault, if one is left, and else the chunk. *)
Lemma heard_next seq past next tr tr' :
  heard (tr ++ tr') -> 1 <= seq <= conf_chcount c1 ->
  in_bytes data (wire tr) = data_heard (data_at c1) faults 1 (seq - 1) ++ past ->
  (exists rest, arrivals (data_at c1) faults seq = past ++ next ++ rest) ->
  len (in_bytes data (wire tr')) = len next -> in_bytes data (wire tr') = next.
Proof using All.
  intros Hh Hs Hin [rest Harr] Hl. pose proof (hr_dgram _ _ _ _ _ _ Hh) as Hp.
  unfold data_heard in *. rewrite (along_split _ seq), Harr, <- !app_assoc, wire_app, in_bytes_app, Hin, <- !app_assoc in Hp by done.
  do 2 apply agrees_tail in Hp. by eapply agrees_len.
Qed.

Definition try_turn : Z -> Z -> list Z -> turn := heard_data H2 data (conf_segsize c2).

Lemma try_wire seq a got tr :
  wire tr = (In data <$> segments (conf_segsize c2) got) ++ [Out conn (ack_bytes H2 a seq)] ->
  wire tr = answering conn [try_turn seq a got] /\ in_bytes data (wire tr) = got.
Proof using All.
  intros Hw. assert (Hw' : wire tr = answering conn [try_turn seq a got]) by (rewrite Hw; unfold answering; cbn; by rewrite app_nil_r).
  split; [done|]. rewrite Hw'. change [try_turn seq a got] with (try_turn seq a <$> [got]).
  unfold try_turn. rewrite (proj2 (heard_data_in H2 conn data _ Hd2 ltac:(apply Ha2) _ _ _)). cbn. apply app_nil_r.
Qed.

(** The data of a chunk: a try for every fault, and one more. *)
Lemma hear_tries seq content tr s :
  p_trace s = tr0 ++ tr -> heard tr -> 1 <= seq <= conf_chcount c1 ->
  in_bytes data (wire tr) = data_heard (data_at c1) faults 1 (seq - 1) ->
  with_file c2 seq content (p_conf s) -> len content = sz ->
  wp (posix_while P)
    (fun o s' => exists tr' t, p_trace s' = tr0 ++ tr ++ tr' /\ heard (tr ++ tr') /\ o = Val t /\ 0 < t /\
      with_file c2 seq (splice (start_of c2 seq) (data_at c1 seq) content) (p_conf s') /\
      wire tr' = answering conn ((try_turn seq 0 <$> faults seq) ++ [try_turn seq 1 (data_at c1 seq)]))
    (loop (pull_chunk_try (H := H2) (chunk_at c2 seq) (u32 (crc_32 (data_at c1 seq)))) (conf_tf_trycount c2)) s.
Proof using All.
  intros Ht Hh Hs Hin Hf Hl. destruct (data_eq seq Hs) as [Hld _].
  assert (Hfew : Z.of_nat (length (faults seq)) < conf_tf_trycount c2) by by apply (fa_few _ _ _ _ Hfa).
  apply (wp_loop _ (fun t s' => exists done left tr1, faults seq = done ++ left /\
      t = conf_tf_trycount c2 - Z.of_nat (length done) /\ p_trace s' = tr0 ++ tr ++ tr1 /\ heard (tr ++ tr1) /\
      being_written c2 seq content (p_conf s') /\ wire tr1 = answering conn (try_turn seq 0 <$> done))
    (fun t _ => Z.to_nat t)).
  { exists [], (faults seq), []. rewrite !app_nil_r. cbn [length]. split_and!; try done; [lia|].
    exists []. split; [by rewrite splice_nil|]. rewrite len_nil, <- Hld. apply len_nonneg. }
  intros ? s' (done & left & tr1 & Hfs & -> & Ht1 & Hh1 & Hbw & Hw1).
  assert (Hall : forall d, d ∈ faults seq -> len d = len (data_at c1 seq) /\ bytes_ok d /\ u32 (crc_32 d) <> u32 (crc_32 (data_at c1 seq)))
    by (intros d Hd; by apply (fa_bad _ _ _ _ Hfa)).
  assert (Hpast : in_bytes data (wire (tr ++ tr1)) = data_heard (data_at c1) faults 1 (seq - 1) ++ concat done)
    by (rewrite wire_app, in_bytes_app, Hin, Hw1; f_equal; exact (proj2 (heard_data_in H2 conn data _ Hd2 ltac:(apply Ha2) seq 0 done))).
  assert (Harr : arrivals (data_at c1) faults seq = concat done ++ concat left ++ data_at c1 seq)
    by (unfold arrivals; by rewrite Hfs, concat_app, <- app_assoc).
  rewrite Hfs, length_app in Hfew.
  eapply wp_hear; [exact Ht1|exact Hh1|apply (pull_try_ok (H := H2) c2 Ha2 seq content)|].
  { split; [lia|right; by rewrite Hps]. }
  { unfold content_ok. by rewrite Hsz. }
  { lia. }
  { done. }
  intros o tr' c' (Hbw' & Ho) Hhr. destruct o as [[t'|t']|st|?|]; [| | |done|done]; cbn [loop_post].
  - destruct Ho as (-> & (got & Hlg & Hcrc & Hw) & _). fold data conn in Hw.
    apply try_wire in Hw as [Hw Hd].
    destruct left as [|d left].
    { exfalso. apply Hcrc. f_equal. f_equal. rewrite <- Hd. eapply (heard_next seq (concat done)); try done.
      - exists []. by rewrite app_nil_r.
      - by rewrite Hd, Hlg. }
    assert (Hind : d ∈ faults seq) by (rewrite Hfs; apply elem_of_app; right; left).
    assert (got = d) as ->.
    { rewrite <- Hd. eapply (heard_next seq (concat done)); try done.
      - exists (concat left ++ data_at c1 seq). rewrite Harr. cbn [concat]. by rewrite <- app_assoc.
      - rewrite Hd, Hlg, <- Hld. symmetry. by apply Hall. }
    rewrite <- app_assoc in Hhr. split; [exists (done ++ [d]), left, (tr1 ++ tr')|cbn [length] in Hfew; lia].
    rewrite length_app. cbn [length]. split_and!; try done.
    + by rewrite <- app_assoc.
    + lia.
    + cbn. by rewrite Ht1, <- !app_assoc.
    + by rewrite wire_app, Hw1, Hw, fmap_app, answering_app.
  - destruct Ho as (-> & _ & got & [Hwf _] & Hlg & Hcrc & Hw). fold data conn in Hw.
    apply try_wire in Hw as [Hw Hd].
    destruct left as [|d left].
    2:{ exfalso. assert (Hind : d ∈ faults seq) by (rewrite Hfs; apply elem_of_app; right; left).
        destruct (Hall d Hind) as (Hl1 & _ & Hne). apply Hne. rewrite <- Hcrc. f_equal. f_equal. rewrite <- Hd. symmetry.
        eapply (heard_next seq (concat done)); try done.
        - exists (concat left ++ data_at c1 seq). rewrite Harr. cbn [concat]. by rewrite <- app_assoc.
        - by rewrite Hd, Hlg, <- Hld, Hl1. }
    assert (got = data_at c1 seq) as ->.
    { rewrite <- Hd. eapply (heard_next seq (concat done)); try done.
      - exists []. by rewrite app_nil_r.
      - by rewrite Hd, Hlg. }
    rewrite app_nil_r in Hfs. rewrite <- app_assoc in Hhr. cbn [length] in Hfew. eexists (tr1 ++ tr'), _. split_and!; try done.
    + cbn. by rewrite Ht1, <- !app_assoc.
    + lia.
    + by rewrite wire_app, Hw1, Hw, Hfs, answering_app.
  - destruct Ho as (_ & Hco & _). by destruct (hears_no_complaint _ _ _ _ _ _ _ _ Hhr Hco).
Qed.

Lemma script_at seq tr :
  1 <= seq <= conf_chcount c1 -> in_bytes conn (wire tr) = send_bytes H1 c1 0 ++ flows H1 c1 1 (seq - 1) ->
  exists rest, script H1 c1 = in_bytes conn (wire tr) ++ flow_bytes H1 c1 seq ++ rest.
Proof using All.
  intros Hs ->. eexists. unfold script, flows. rewrite (along_split _ seq _ Hs), <- !app_assoc. reflexivity.
Qed.

(** What has been sent after chunk [seq]. *)
Lemma sent_chunks n :
  0 <= n <= conf_chcount c1 -> ztake (n * conf_chsize c1) sent = concat (data_at c1 <$> seqZ 1 n).
Proof using All.
  intros Hn. rewrite <- (Z2Nat.id n) by lia. rewrite (chunks_prefix c1 Ha1) by lia.
  rewrite <- (len_old c1) by apply Ha1. symmetry. apply ztake_min.
Qed.

Lemma sent_snoc seq : 1 <= seq <= conf_chcount c1 ->
  ztake (seq * conf_chsize c1) sent = ztake ((seq - 1) * conf_chsize c1) sent ++ data_at c1 seq.
Proof using All.
  intros Hs. rewrite !sent_chunks by lia. replace seq with (seq - 1 + 1) at 1 by lia.
  rewrite seqZ_app, fmap_app, concat_app by lia. f_equal.
  replace (1 + (seq - 1)) with seq by lia. change (seqZ seq 1) with [0 + seq]. cbn. by rewrite Z.add_0_l, app_nil_r.
Qed.

Lemma chunk_end seq : 1 <= seq <= conf_chcount c1 ->
  (seq - 1) * conf_chsize c1 + len (data_at c1 seq) = Z.min (seq * conf_chsize c1) sz.
Proof using All.
  intros Hs. destruct (announced_bounds c1 Ha1) as (Hq & He & Hb & Hn & _). fold sz in He, Hq, Hn.
  rewrite (len_data_at c1 Ha1) by (split; [done|by right]).
  destruct (Z.eqb_spec seq (conf_chcount c1)); nia.
Qed.

(** The FLOW header of a chunk is the expected one. *)
Lemma flow_expected seq pos content p :
  1 <= seq <= conf_chcount c1 -> decode_FlowPacket H2 (flow_bytes H1 c1 seq) = Some p ->
  match_flow (at_file seq pos content c2) p = true /\ flow_crc p = u32 (crc_32 (data_at c1 seq)).
Proof using All.
  intros Hs. pose proof (an_count _ Ha1). pose proof (an_chsize _ Ha2) as Hch.
  destruct (announced_bounds c2 Ha2) as (_ & _ & Hb & _).
  unfold flow_bytes, encode_FlowPacket.
  rewrite flow_wire, decode_flow_wire; [|apply wrap_width; lia|unfold in_width; lia|apply wrap_width; lia].
  intros [= <-]. split; [|done]. unfold match_flow. cbn [flow_sequence flow_chunk_size].
  change (conf_seq (at_file seq pos content c2)) with seq.
  change (conf_chcount (at_file seq pos content c2)) with (conf_chcount c2).
  change (conf_chsize (at_file seq pos content c2)) with (conf_chsize c2).
  change (conf_pchsize (at_file seq pos content c2)) with (conf_pchsize c2).
  rewrite Z.eqb_refl. cbn [andb].
  rewrite <- Hcc, <- Hps, <- Hcs.
  destruct (Z.eqb_spec seq (conf_chcount c2)); cbn [negb]; unfold wrap; rewrite Z.mod_small by lia; apply Z.eqb_refl.
Qed.

(** Messages that are not data leave the data as it is. *)
Lemma no_data fd d w : fd = conn -> in_bytes data (In fd d :: w) = in_bytes data w.
Proof using All. intros ->. unfold in_bytes. cbn. by destruct (Z.eqb_spec conn data). Qed.

Lemma due_in seq content tr :
  due seq content tr ->
  in_bytes conn (wire tr) = send_bytes H1 c1 0 ++ flows H1 c1 1 (seq - 1) /\
  in_bytes data (wire tr) = data_heard (data_at c1) faults 1 (seq - 1).
Proof using All. intros [_ -> _]. exact (heard_until_in H1 H2 c1 faults conn data _ Hd2 ltac:(apply Ha2) seq). Qed.

(** One chunk. *)
Lemma hear_one_chunk seq content tr s :
  p_trace s = tr0 ++ tr -> due seq content tr -> 1 <= seq <= conf_chcount c1 ->
  with_file c2 seq content (p_conf s) ->
  wp (posix_while P)
    (fun o s' => exists tr' content', p_trace s' = tr0 ++ tr ++ tr' /\ o = Val (inl (conf_tf_trycount c2)) /\
      with_file c2 (seq + 1) content' (p_conf s') /\ due (seq + 1) content' (tr ++ tr'))
    (pull_one_chunk (H := H2) (conf_tf_trycount c2)) s.
Proof using All.
  intros Ht Hdue Hs (pos & Hpos & Hconf). destruct (due_in _ _ _ Hdue) as [Hst Hdt]. destruct Hdue as [Hh Hwire [Hlc Hcon]].
  destruct (script_at seq tr Hs Hst) as [rest Hscript].
  assert (Hch : len (flow_bytes H1 c1 seq) = 12) by (unfold flow_bytes, encode_FlowPacket; by rewrite flow_wire).
  unfold pull_one_chunk. apply wp_mbind. eapply wp_hear_get; [exact Ht|exact Hh|]. cbn [seq_post]. rewrite Hconf.
  change (conf_chcount (at_file seq pos content c2)) with (conf_chcount c2).
  change (conf_seq (at_file seq pos content c2)) with seq.
  change (chunk_context (at_file seq pos content c2)) with (chunk_at c2 seq).
  change (conf_conn_sock (at_file seq pos content c2)) with conn.
  destruct (Z.ltb_spec (conf_chcount c2) seq); [lia|]. apply wp_mbind.
  eapply wp_hear_calls; [exact Ht|exact Hh|apply pull_flow_ok|]. intros o tr1 (_ & _ & Ho) Hh1.
  destruct o as [args|st|?|]; [| |done..]; cbn [seq_post].
  2:{ exfalso. destruct Ho as [_ [Hco|Hty]]; [by eapply hears_no_complaint|].
      eapply hears_typed; [exact Hh1| |exact Hty].
      rewrite Hscript. unfold flow_bytes, encode_FlowPacket. rewrite flow_wire. reflexivity. }
  destruct Ho as (m & Hm & Hw1).
  assert (m = flow_bytes H1 c1 seq) as ->.
  { rewrite <- (hears_next _ _ _ _ _ _ _ _ _ Hh1 Hscript); rewrite Hw1; autorewrite with ruf; [done|].
    by rewrite (len_decoded_flow _ _ _ Hm), Hch. }
  destruct (flow_expected seq pos content _ Hs Hm) as [-> ->]. apply wp_mbind.
  assert (Ht1 : p_trace (after_calls tr1 s) = tr0 ++ tr ++ tr1) by (cbn; by rewrite Ht, app_assoc).
  eapply wp_hear_calls; [exact Ht1|exact Hh1|by eapply (push_ack_ok (H := H2) c2)|].
  intros o tr2 (_ & _ & Ho) Hh2. destruct o as [[]|st|?|]; [| |done..]; cbn [seq_post].
  2:{ exfalso. by eapply hears_no_complaint, Ho. }
  apply wp_mbind. rewrite <- app_assoc in Hh2. set (tr12 := tr1 ++ tr2) in *.
  assert (Hw12 : wire tr12 = [In conn (flow_bytes H1 c1 seq); Out conn (ack_bytes H2 1 seq)])
    by (unfold tr12; by rewrite wire_app, Hw1, Ho).
  assert (Hd12 : in_bytes data (wire (tr ++ tr12)) = data_heard (data_at c1) faults 1 (seq - 1)).
  { rewrite wire_app, in_bytes_app, Hdt, Hw12, no_data by done. autorewrite with ruf. done. }
  eapply wp_mono; [apply (hear_tries seq content (tr ++ tr12))|]; try done.
  { cbn. rewrite Ht. unfold tr12. by rewrite <- !app_assoc. }
  { cbn. rewrite Hconf. by exists pos. }
  intros o s3 (tr3 & t & Ht3 & Hh3 & -> & Htp & (pos' & Hpos' & Hs3) & Hw3). cbn [seq_post].
  apply wp_mbind. unfold CHECK_NOTEQUAL. destruct (Z.eqb_spec 0 t); [lia|]. apply wp_mret. cbn [seq_post].
  apply wp_mbind. eapply wp_hear_get; [exact Ht3|exact Hh3|]. cbn [seq_post]. rewrite Hs3.
  apply wp_mbind, wp_hear_set. cbn [seq_post]. apply wp_mret.
  destruct (data_eq seq Hs) as [Hld Hdat]. pose proof (an_chsize _ Ha1).
  assert (Hroom : sendable c2 seq) by (split; [lia|right; by rewrite Hps]).
  destruct (chunk_room c2 Ha2 seq Hroom) as (R1 & R2 & R3). rewrite start_at, <- Hld, Hsz in R3 by done. fold sz in R3. rewrite start_at in R1 by done.
  rewrite <- app_assoc in Ht3. exists (tr12 ++ tr3), (splice (start_of c2 seq) (data_at c1 seq) content).
  split_and!; [cbn; by rewrite Ht3|done| |].
  { exists pos'. split; [done|]. cbn. rewrite Hs3. unfold wrap. pose proof (an_count _ Ha1).
    change (conf_seq (at_file seq pos' _ c2)) with seq. by rewrite Z.mod_small by lia. }
  constructor.
  - by rewrite app_assoc.
  - unfold heard_until. rewrite !wire_app, Hwire, Hw12, Hw3, Z.add_simpl_r, (along_snoc _ seq) by lia.
    change [In conn (flow_bytes H1 c1 seq); Out conn (ack_bytes H2 1 seq)]
      with (answering conn [([In conn (flow_bytes H1 c1 seq)], ack_bytes H2 1 seq)]).
    by rewrite <- !answering_app.
  - rewrite Z.add_simpl_r, (sent_snoc seq Hs), <- Hcon, start_at by done.
    assert (Hls : len (splice ((seq - 1) * conf_chsize c1) (data_at c1 seq) content) = sz)
      by (rewrite len_splice; [done|lia|rewrite Hlc; exact R3]).
    split; [exact Hls|]. rewrite <- ztake_min, Hls, <- (chunk_end seq Hs). unfold splice.
    rewrite app_assoc. apply ztake_app. rewrite len_app, len_ztake; [done|]. pose proof (len_nonneg (data_at c1 seq)). lia.
Qed.

(** All the chunks: the file received is the file sent. *)
Lemma hear_transfer content tr s :
  p_trace s = tr0 ++ tr -> due 1 content tr -> with_file c2 1 content (p_conf s) ->
  wp (posix_while P)
    (fun o s' => exists tr', p_trace s' = tr0 ++ tr ++ tr' /\ heard (tr ++ tr') /\ o = Val tt /\
      with_file c2 (conf_chcount c1 + 1) sent (p_conf s') /\
      wire (tr ++ tr') = answering conn (heard_until H1 H2 c1 faults conn data (conf_segsize c2) (conf_chcount c1 + 1)))
    (pull_transfer (H := H2)) s.
Proof using All.
  intros Ht Hdue Hf. destruct (announced_bounds c1 Ha1) as (Hq & He & Hb & Hn & Hn32). fold sz in Hq, He, Hn.
  unfold pull_transfer. apply wp_mbind. eapply wp_hear_get; [exact Ht|apply (du_heard _ _ _ Hdue)|]. cbn [seq_post].
  assert (Htry : conf_tf_trycount (p_conf s) = conf_tf_trycount c2) by (by destruct Hf as (? & _ & ->)).
  rewrite Htry.
  apply (wp_loop _ (fun t s' => exists seq content1 tr1, t = conf_tf_trycount c2 /\
      1 <= seq <= conf_chcount c1 + 1 /\ with_file c2 seq content1 (p_conf s') /\
      p_trace s' = tr0 ++ tr ++ tr1 /\ due seq content1 (tr ++ tr1))
    (fun _ s' => Z.to_nat (conf_chcount c1 + 1 - conf_seq (p_conf s')))).
  { exists 1, content, []. rewrite app_nil_r. by split_and!; [|lia|lia|..]. }
  intros ? s' (seq & content1 & tr1 & -> & Hseq & Hin & Ht1 & Hdue1).
  assert (Hsq : conf_seq (p_conf s') = seq) by (by destruct Hin as (? & _ & ->)).
  destruct (Z.eq_dec seq (conf_chcount c1 + 1)) as [->|Hne].
  - unfold pull_one_chunk. apply wp_mbind. eapply wp_hear_get; [exact Ht1|apply (du_heard _ _ _ Hdue1)|].
    cbn [seq_post]. rewrite Hsq. replace (conf_chcount (p_conf s')) with (conf_chcount c1)
      by (destruct Hin as (? & _ & ->); symmetry; exact Hcc).
    destruct (Z.ltb_spec (conf_chcount c1) (conf_chcount c1 + 1)); [|lia]. apply wp_mret. cbn [loop_post].
    exists tr1. destruct Hdue1 as [Hh Hw [Hlc Hcon]]. rewrite Z.add_simpl_r in Hcon.
    split_and!; [done|done|done| |done].
    assert (Hls : len sent = sz) by (apply len_old, Ha1).
    rewrite !ztake_all in Hcon by (rewrite ?Hlc, ?Hls; nia). by rewrite <- Hcon.
  - eapply wp_mono; [by apply (hear_one_chunk seq content1 (tr ++ tr1)); [| |lia|]|].
    intros o s2 (tr2 & content2 & Ht2 & -> & Hf2 & Hdue2). cbn [loop_post]. rewrite <- app_assoc in Ht2, Hdue2.
    split; [exists (seq + 1), content2, (tr1 ++ tr2); split_and!; [done|lia|lia|done|done|done]|].
    destruct Hf2 as (p' & _ & ->). cbn. lia.
Qed.
End transfer.

(** ** The announcement and the checksum, heard *)

(** Strings of bytes that the information string can carry. *)
Record carried (a : CntlAddrs) : Prop := {
  ca_filename : field_ok 255 colon (cstr (addrs_filename a));
  ca_name : field_ok 31 at_sign (cstr (addrs_name a));
  ca_ip : field_ok 15 colon (cstr (addrs_local_ip a));
  ca_bytes : bytes_ok (addrs_filename a) /\ bytes_ok (addrs_name a) /\ bytes_ok (addrs_local_ip a)
}.

Lemma infostr_read (H : Host) a stack m h :
  addrs_wf a -> carried a -> addrs_wf (send_info stack) -> decode_SEND stack [m; infostr_of a] = Some h ->
  cstr (addrs_filename (send_info h)) = cstr (addrs_filename a) /\
  cstr (addrs_remote_ip (send_info h)) = cstr (addrs_local_ip a) /\
  addrs_remote_port (send_info h) = addrs_local_port a.
Proof.
  intros Ha [Hf Hn Hi] Hs. pose proof (with_info_ok [] a a Ha eq_refl) as Hw. unfold with_info in Hw.
  destruct (infostring_exchange (zeros INFOSTRSIZE) a (send_info stack))
    as (buf & a' & Hp & _ & Hu & Hfa & _ & Hia & Hpa); [done..|].
  rewrite Hp in Hw. injection Hw as <-. unfold decode_SEND.
  destruct (decode_SendPacket H m); [|done]. cbn [mbind option_bind]. rewrite Hu. by intros [= <-].
Qed.

Section header.
Context (H1 H2 : Host) `{Crc} (c1 : InitConfig) (Ha1 : announced c1) (Hwf : addrs_wf (conf_addrs c1)).

Lemma len_send_bytes crc : len (send_bytes H1 c1 crc) = sizeof_SendPacket + INFOSTRSIZE.
Proof using Ha1 Hwf.
  unfold send_bytes, encode_SendPacket. rewrite send_wire, len_app, (proj1 (infostr_terminated _ Hwf)). done.
Qed.

(** A SEND header taken from the connection is the sender's. *)
Lemma hear_header fd data sz content tr tr' crc rest m i :
  hears fd data sz (script H1 c1) content (tr ++ tr') -> in_width 16 crc ->
  script H1 c1 = in_bytes fd (wire tr) ++ send_bytes H1 c1 crc ++ rest ->
  in_bytes fd (wire tr') = m ++ i -> len m = sizeof_SendPacket -> len i = INFOSTRSIZE ->
  decode_SendPacket H2 m = Some (send_fields c1 crc) /\ i = infostr_of (conf_addrs c1) /\
  in_bytes fd (wire tr') = send_bytes H1 c1 crc.
Proof using Ha1 Hwf.
  intros Hh Hw Hs Hin Hm Hi.
  assert (He : in_bytes fd (wire tr') = send_bytes H1 c1 crc).
  { eapply hears_next; [exact Hh|exact Hs|]. rewrite Hin, len_send_bytes, len_app. lia. }
  destruct (send_read H1 H2 c1 Ha1 Hwf crc m i [] []) as [Hd _]; [done|done|done|by rewrite !app_nil_r, <- He, <- Hin|].
  split_and!; [done| |done]. rewrite Hin in He. unfold send_bytes, encode_SendPacket in He. rewrite send_wire in He.
  apply app_inj_2 in He as [_ ->]; [done|]. pose proof (proj1 (infostr_terminated _ Hwf)) as Hl.
  unfold len in *. lia.
Qed.
End header.

(** ** A whole reception, heard *)

(** The format check looks at the text only. *)
Lemma check_ipv4_text a b : cstr a = cstr b -> check_ipv4_format a = check_ipv4_format b.
Proof. unfold check_ipv4_format, inet_pton. by intros ->. Qed.

Section reception.
Context (H1 H2 : Host) `{Crc} (c1 : InitConfig) (Ha1 : announced c1) (Hwf1 : addrs_wf (conf_addrs c1)).
Context (Hca : carried (conf_addrs c1)) (Hdial : dialable (conf_addrs c1)) (Hpar : conf_pchsize c1 <> 0).
Context (stack1 stack2 : SendArgs) (Hst1 : addrs_wf (send_info stack1)) (Hst2 : addrs_wf (send_info stack2)).
Context (tries : Z) (faults : Z -> list (list Z)) (Hfa : faults_ok (data_at c1) (conf_chcount c1) tries faults).
Context (tr0 : list obs) (conn data : Z) (Hcd : conn <> data).

Let sz := mf_size (conf_mfile c1).
Let sent := mf_bytes (conf_mfile c1).
Let heard := hears conn data sz (script H1 c1) (data_heard (data_at c1) faults 1 (conf_chcount c1)).
Let P := hearing heard tr0.

Lemma fields_consistent : consistent sz (send_fields c1 0).
Proof using All.
  destruct (announced_bounds c1 Ha1) as (Hq & He & Hb & Hn & Hn32). fold sz in Hq, He, Hn.
  pose proof (an_chsize _ Ha1). pose proof (an_size _ Ha1) as Hs. fold sz in Hs.
  constructor; cbn [send_fields send_chunk_size send_chunk_count send_partial_chunk_size]; try done; [nia|].
  exact (an_pchsize _ Ha1).
Qed.

(** The configuration after the handshake. *)
Record greeted (c c4 : InitConfig) : Prop := {
  gr_seq : conf_seq c4 = 1;
  gr_conn : conf_conn_sock c4 = conf_conn_sock c;
  gr_try : conf_tf_trycount c4 = conf_tf_trycount c;
  gr_chsize : conf_chsize c4 = conf_chsize c1;
  gr_pchsize : conf_pchsize c4 = conf_pchsize c1;
  gr_chcount : conf_chcount c4 = conf_chcount c1;
  gr_fcsize : fc_size (conf_filec c4) = sz;
  gr_file : mfile_ok (conf_mfile c4) /\ mf_open (conf_mfile c4) = 1 /\ mf_size (conf_mfile c4) = sz;
  gr_addrs : dialable (conf_addrs c4)
}.

Lemma hear_handshake name tr s :
  p_trace s = tr0 ++ tr -> heard tr -> wire tr = [] ->
  conf_conn_sock (p_conf s) = conn -> addrs_wf (conf_addrs (p_conf s)) ->
  len (fc_name (conf_filec (p_conf s))) = MAXFILENAMESIZE -> len name = MAXNAMESIZE ->
  check_ipv4_format (addrs_local_ip (conf_addrs (p_conf s))) = true ->
  addrs_local_port (conf_addrs (p_conf s)) <> 0 ->
  wp (posix_while P)
    (fun o s' => exists tr' name', p_trace s' = tr0 ++ tr ++ tr' /\ heard (tr ++ tr') /\ o = Val name' /\
      greeted (p_conf s) (p_conf s') /\
      wire (tr ++ tr') = answering conn [(heard_header conn (send_bytes H1 c1 0), ack_bytes H2 1 0)])
    (pull_handshake (H := H2) name stack1) s.
Proof using All.
  intros Ht Hh Hw0 Hcn Hwf Hfn Hn Hlip Hlport. set (c := p_conf s) in *.
  pose proof fields_consistent as Hcons.
  assert (Hscript : exists rest, script H1 c1 = in_bytes conn (wire tr) ++ send_bytes H1 c1 0 ++ rest).
  { rewrite Hw0. eexists. reflexivity. }
  destruct Hscript as [rest Hscript].
  eapply wp_hear; [exact Ht|exact Hh|by eapply (pull_handshake_ok (H := H2) name stack1 c)|].
  intros o tr' c4 [Hhs _] Hh'. unfold handshaken in Hhs. rewrite Hcn in Hhs.
  pose proof (fun m i => hear_header H1 H2 c1 Ha1 Hwf1 conn data sz (data_heard (data_at c1) faults 1 (conf_chcount c1)) tr tr' 0 rest m i Hh' ltac:(done) Hscript)
    as Hhead.
  destruct o as [name'|st|?|]; [| |done|].
  2:{ exfalso. destruct Hhs as [_ [Hco|Hty]]; [by eapply hears_no_complaint|].
      eapply hears_typed; [exact Hh'| |exact Hty]. rewrite Hscript. unfold send_bytes, encode_SendPacket.
      rewrite send_wire. reflexivity. }
  2:{ exfalso. destruct Hhs as (m & i & Hw & Hm & Hi & Hnul).
      destruct (Hhead m i) as (_ & -> & _); [rewrite Hw; by autorewrite with ruf|done|done|].
      by apply (infostr_terminated _ Hwf1). }
  destruct Hhs as (m & i & h & ack & Hw & Hi & Hdec & Hsq & Hconn & Htry & Hcs & Hps & Hcc & Hfs & _ &
    (_ & Hip & Hport & Hlip' & Hlport') & Hack).
  pose proof (decode_SEND_packet _ _ _ _ Hdec) as Hdm. pose proof (len_decoded_send _ _ _ Hdm) as Hm.
  destruct (Hhead m i) as (Hd & -> & Hsb); [rewrite Hw; by autorewrite with ruf|done|done|].
  rewrite Hd in Hdm. injection Hdm as Hdm. rewrite <- Hdm in Hcs, Hps, Hcc, Hfs, Hack.
  rewrite (consistent_size sz) in Hfs by done.
  destruct (infostr_read H2 _ stack1 m h Hwf1 Hca Hst1 Hdec) as (_ & Hip' & Hport'). pose proof Hcons as [[Hpos Hlt] _ _ _ _ _].
  pose proof (hr_size _ _ _ _ _ _ Hh') as Hsize. apply Forall_app in Hsize as [_ Hsize].
  destruct Hack as [(-> & Hok & Hop & _ & _ & file & r & Hin)|(_ & _ & Hun)].
  2:{ exfalso. rewrite (consistent_size sz) in Hun by done.
      destruct Hun as [(st & Hco)|[(f & r & He)|[(f & b & n & Hin & Hle)|Hz]]]; [by eapply hears_no_complaint| | |lia].
      - rewrite (size_is_fstat _ _ _ _ _ Hsize He) in Hpos. lia.
      - apply (hr_room _ _ _ _ _ _ Hh'). exists f, b, n. split; [apply elem_of_app; by right|done]. }
  exists tr', name'. split_and!; [cbn; by rewrite Ht, app_assoc|done|done| |].
  2:{ rewrite Hw in Hsb. autorewrite with ruf in Hsb. by rewrite wire_app, Hw0, Hw, <- Hsb, <- heard_header_eq. }
  constructor; try done.
  - by etransitivity.
  - split_and!; [done|done|]. by eapply size_is_fstat.
  - destruct Hdial as (Hc1 & _ & Hp1 & _). unfold dialable. cbn [after_does p_conf].
    rewrite Hlip', Hlport', Hport, Hport'. split_and!; [done| |done|done].
    rewrite <- Hc1. apply check_ipv4_text. rewrite Hip, Hip'. destruct (ca_ip _ Hca) as (_ & Hl15 & _).
    by apply ztake_all.
Qed.

(** The end of a reception: the file has come in, and the answers have gone out. *)
Definition received {A} (ok : outcome A -> Prop) (o : outcome A) (s : pstate) : Prop :=
  ok o /\ mf_bytes (conf_mfile (p_conf s)) = sent /\
  exists tr z, p_trace s = tr0 ++ tr /\ 0 < z /\ wire tr = answering conn (heard_turns H1 H2 c1 faults conn data z).

(** The verification and the closing, when the file has come in whole. *)
Lemma hear_end name c2 tr s z :
  announced c2 -> fc_size (conf_filec c2) = sz -> mf_size (conf_mfile c2) = sz ->
  p_trace s = tr0 ++ tr -> heard tr -> conf_conn_sock c2 = conn ->
  with_file c2 (conf_chcount c1 + 1) sent (p_conf s) ->
  0 < z -> wire tr = answering conn (heard_until H1 H2 c1 faults conn data z (conf_chcount c1 + 1)) ->
  wp (posix_while P) (received (fun o : outcome (list Z) => o = Val name))
    (pull_verification (H := H2) stack2;;
     end_file_stream;;
     c ← sys GetConf;
     end_cntl (conf_cntl_sock c);;
     c ← sys GetConf;
     end_data (conf_data_sock c);;
     c ← sys GetConf;
     end_cntl (conf_conn_sock c);;
     mret name) s.
Proof using All.
  intros Ha2 Hfs Hms Ht Hh Hcn (pos & Hpos & Hs) Hz Hwire.
  set (seq := conf_chcount c1 + 1) in *. set (crc := u16 (crc_16 sent)).
  assert (Hok : transfer_ok (at_file seq pos sent c2)).
  { apply (at_file_ok c2 Ha2); [|done]. unfold content_ok. rewrite Hms. apply len_old, Ha1. }
  assert (Hscript : script H1 c1 = in_bytes conn (wire tr) ++ send_bytes H1 c1 crc ++ [])
    by (rewrite Hwire, (proj1 (heard_until_in H1 H2 c1 faults _ _ _ Hcd Hz _)); unfold seq; by rewrite Z.add_simpl_r, app_nil_r, <- app_assoc).
  apply wp_mbind. eapply wp_hear_calls; [exact Ht|exact Hh|eapply (pull_verification_ok (H := H2) stack2 _ s Hs Hst2 Hok)|].
  { change (fc_size (conf_filec c2) = mf_size (conf_mfile c2)). by rewrite Hfs, Hms. }
  change (conf_conn_sock (at_file seq pos sent c2)) with (conf_conn_sock c2). rewrite Hcn.
  intros o tr1 (_ & Ho) Hh1. destruct o as [[]|st|?|]; [| |done|]; cbn [seq_post].
  2:{ exfalso. destruct Ho as [_ [Hco|Hty]]; [by eapply hears_no_complaint|].
      eapply hears_typed; [exact Hh1| |exact Hty]. rewrite Hscript. unfold send_bytes, encode_SendPacket.
      rewrite send_wire. reflexivity. }
  2:{ exfalso. destruct Ho as (m & i & Hw & Hm & Hi & Hnul).
      destruct (hear_header H1 H2 c1 Ha1 Hwf1 conn data sz (data_heard (data_at c1) faults 1 (conf_chcount c1)) tr tr1 crc [] m i) as (_ & -> & _);
        [done|apply wrap_width; lia|done|rewrite Hw; by autorewrite with ruf|done|done|].
      by apply (infostr_terminated _ Hwf1). }
  assert (Ht1 : p_trace (after_calls tr1 s) = tr0 ++ tr ++ tr1) by (cbn; by rewrite Ht, app_assoc).
  eapply wp_hear_calls; [exact Ht1|exact Hh1|apply (close_all_ok name)|].
  intros o tr2 (Hw2 & Ho2) Hh2. cbn [after_calls p_conf] in Ho2 |- *. rewrite Hs in *.
  destruct Ho2 as [->|[-> Hco]].
  { split; [done|]. split; [cbn; rewrite Hs; apply (at_file_bytes c2 Ha2)|]. exists ((tr ++ tr1) ++ tr2), z.
    split_and!; [cbn; by rewrite Ht, <- !app_assoc|done|]. rewrite !wire_app, Hw2, app_nil_r, Hwire.
    destruct Ho as (m & i & h & Hi & Hdec & Hw1). rewrite Hw1.
    pose proof (decode_SEND_packet _ _ _ _ Hdec) as Hdm. pose proof (len_decoded_send _ _ _ Hdm) as Hm.
    destruct (hear_header H1 H2 c1 Ha1 Hwf1 conn data sz (data_heard (data_at c1) faults 1 (conf_chcount c1)) tr tr1 crc [] m i) as (Hd & _ & Hsb);
      [done|apply wrap_width; lia|done|rewrite Hw1; by autorewrite with ruf|done|done|].
    rewrite Hw1 in Hsb. autorewrite with ruf in Hsb. rewrite Hd in Hdm. injection Hdm as <-. unfold heard_turns.
    rewrite answering_app. f_equal.
    change (send_bytes H1 c1 (u16 _)) with (send_bytes H1 c1 crc). rewrite <- Hsb, <- heard_header_eq by done.
    cbn [send_fields send_crc]. by rewrite (at_file_bytes c2 Ha2), Z.eqb_refl. }
  exfalso. eapply hears_no_complaint; [exact Hh2|]. destruct Hok as [Hm Ho' _].
  destruct (ok_buf _ Hm Ho') as (b & Hb & _). apply Hco; [by rewrite Hb|by apply (ok_file _ Hm)].
Qed.

(** From the handshake on. *)
Lemma hear_rest name c tr s :
  p_trace s = tr0 ++ tr -> heard tr -> greeted c (p_conf s) -> 0 < conf_tf_trycount c -> conf_tf_trycount c = tries ->
  conf_conn_sock c = conn -> wire tr = answering conn [(heard_header conn (send_bytes H1 c1 0), ack_bytes H2 1 0)] ->
  wp (posix_while P) (received (fun o : outcome (list Z) => o = Val name))
    (start_data (H := H2) data_sock;;
     set_segsize;;
     pull_transfer (H := H2);;
     pull_verification (H := H2) stack2;;
     end_file_stream;;
     c ← sys GetConf;
     end_cntl (conf_cntl_sock c);;
     c ← sys GetConf;
     end_data (conf_data_sock c);;
     c ← sys GetConf;
     end_cntl (conf_conn_sock c);;
     mret name) s.
Proof using All.
  intros Ht Hh [Gsq Gconn Gtry Gcs Gps Gcc Gfs (Gok & Gop & Gms) Gad] Htry Htries Hcn Hw.
  set (c4 := p_conf s) in *.
  apply wp_mbind. eapply wp_hear; [exact Ht|exact Hh|apply (start_data_ok (H := H2))|].
  intros o tr1 c5 (Hw1 & _ & Ho) Hh1. destruct o as [[]|st|?|]; [| |done..]; cbn [seq_post].
  2:{ destruct Ho as (_ & _ & Hco). exfalso. eapply hears_no_complaint; [exact Hh1|by apply Hco]. }
  destruct Ho as (fd & Hfd & -> & Hsock). apply wp_mbind, wp_hear_set. cbn [seq_post].
  match goal with |- wp _ _ _ ?x => set (s5 := x) end. set (c2 := p_conf s5).
  pose proof (an_chsize _ Ha1) as Hch.
  assert (Hc2 : c2 = set_conf_segsize (calc_segment_size (conf_chsize c4)) (set_sock data_sock fd c4))
    by (unfold c2; cbn; fold c4; rewrite Gcs; destruct (Z.eqb_spec (conf_chsize c1) 0); [lia|done]).
  assert (Ha2 : announced c2).
  { apply (announced_after sz (set_sock data_sock fd c4) c2
      {| send_packet := send_fields c1 0; send_info := send_info stack1 |}); try done; [apply fields_consistent|].
    change (0 < conf_tf_trycount c4). by rewrite Gtry. }
  assert (Ht5 : p_trace s5 = tr0 ++ tr ++ tr1) by (cbn; by rewrite Ht, app_assoc).
  assert (fd = data) as -> by (eapply (dgram_is conn data); [apply (hr_fds _ _ _ _ _ _ Hh1)|apply elem_of_app; by right]).
  assert (Hconn : conf_conn_sock c2 = conn) by (rewrite Hc2; by etransitivity).
  assert (Hdata : conf_data_sock c2 = data) by (by rewrite Hc2).
  assert (Hms2 : mf_size (conf_mfile c2) = sz) by (by rewrite Hc2).
  assert (Ecs : conf_chsize c2 = conf_chsize c1) by (by rewrite Hc2).
  assert (Eps : conf_pchsize c2 = conf_pchsize c1) by (by rewrite Hc2).
  assert (Ecc : conf_chcount c2 = conf_chcount c1) by (by rewrite Hc2).
  assert (Efd : conf_conn_sock c2 <> conf_data_sock c2) by (by rewrite Hconn, Hdata).
  assert (Etr : conf_tf_trycount c2 = tries) by (by rewrite Hc2, <- Htries, <- Gtry).
  pose proof (hear_transfer H1 H2 c1 c2 Ha1 Ha2 Ecs Eps Ecc Hms2 Hpar Efd faults ltac:(by rewrite Etr) tr0 (mf_bytes (conf_mfile c2)) (tr ++ tr1) s5 Ht5)
    as Htransfer.
  rewrite Hconn, Hdata in Htransfer. apply wp_mbind. eapply wp_mono.
  - apply Htransfer.
    + constructor.
      * by rewrite Hconn, Hdata.
      * by rewrite Hconn, wire_app, Hw, Hw1, app_nil_r.
      * split; [|by rewrite Z.sub_diag]. exact (eq_trans (len_old c2 (an_transfer _ Ha2)) Hms2).
    + apply (with_file_self c2 Ha2). exact Gsq.
  - intros o s' (tr2 & Ht2 & Hh2 & -> & Hf & Hw2). cbn [seq_post]. fold sz sent in Hh2, Hf.
    by eapply (hear_end name c2 ((tr ++ tr1) ++ tr2) s' (conf_segsize c2)); try done; apply Ha2.
Qed.

(** From the connection on. *)
Lemma hear_start name pre s :
  p_trace s = tr0 ++ pre -> heard pre -> wire pre = [] -> addrs_wf (conf_addrs (p_conf s)) ->
  dialable (conf_addrs (p_conf s)) -> len (fc_name (conf_filec (p_conf s))) = MAXFILENAMESIZE ->
  len name = MAXNAMESIZE -> 0 < conf_tf_trycount (p_conf s) -> conf_tf_trycount (p_conf s) = tries ->
  wp (posix_while P) (received (fun o : outcome (list Z) => exists name', o = Val name'))
    (start_puller (H := H2) name stack1 stack2) s.
Proof using All.
  intros Ht Hh Hw Hwf Hd Hfn Hn Htry Htries. unfold start_puller. apply wp_mbind.
  eapply wp_hear; [exact Ht|exact Hh|apply (start_cntl_ok (H := H2))|].
  intros o tr1 c' (Hw1 & _ & Ho) Hh1. destruct o as [[]|st|?|]; [| |done..]; cbn [seq_post].
  2:{ destruct Ho as (_ & _ & Hco). exfalso. eapply hears_no_complaint; [exact Hh1|by apply Hco]. }
  destruct Ho as (fd1 & _ & -> & _). set (c' := set_sock cntl_sock fd1 (p_conf s)).
  assert (Ht1 : p_trace (after_does tr1 c' s) = tr0 ++ pre ++ tr1) by (cbn; by rewrite Ht, app_assoc).
  apply wp_mbind. eapply wp_hear_get; [exact Ht1|exact Hh1|]. cbn [seq_post]. apply wp_mbind.
  eapply wp_hear; [exact Ht1|exact Hh1|apply (accept_new_connection_ok (H := H2)); apply Hwf|].
  intros o tr2 c2 (Hw2 & _ & Ho) Hh2. destruct o as [[]|st|?|]; [| |done..]; cbn [seq_post].
  2:{ exfalso. destruct Ho as (_ & _ & Hco). by eapply hears_no_complaint. }
  destruct Ho as (lfd & fd2 & sa & ip & Hacc & Hfd2 & -> & _ & _ & Hip & Hport).
  match goal with |- context [after_does tr2 ?x _] => set (c3 := x) end.
  assert (Ht2 : p_trace (after_does tr2 c3 (after_does tr1 c' s)) = tr0 ++ (pre ++ tr1) ++ tr2)
    by (cbn; by rewrite Ht, <- !app_assoc).
  apply wp_mbind. eapply wp_hear_get; [exact Ht2|exact Hh2|]. cbn [seq_post]. apply wp_mbind.
  eapply wp_hear_calls; [exact Ht2|exact Hh2|apply close_socket_ok|].
  intros o tr3 (Hw3 & _ & Ho) Hh3. destruct Ho as [->|[-> Hco]]; cbn [seq_post].
  2:{ exfalso. by eapply hears_no_complaint. }
  match goal with |- wp _ _ _ ?x => set (s3 := x) end.
  assert (Ht3 : p_trace s3 = tr0 ++ ((pre ++ tr1) ++ tr2) ++ tr3) by (cbn; by rewrite Ht, <- !app_assoc).
  assert (Hwire : wire (((pre ++ tr1) ++ tr2) ++ tr3) = []) by (by rewrite !wire_app, Hw, Hw1, Hw2, Hw3).
  assert (fd2 = conn) as ->.
  { eapply (accepted_is conn data lfd); [apply (hr_fds _ _ _ _ _ _ Hh2)|].
    apply elem_of_app. right. exact Hacc. }
  destruct Hd as (Hd1 & Hd2 & Hd3 & Hd4). apply wp_mbind. eapply wp_mono.
  - apply (hear_handshake name _ s3 Ht3 Hh3 Hwire eq_refl); [|done..].
    destruct Hwf as [W1 W2 W3 W4 W5 W6]. by constructor; try done; apply ntohs_width.
  - intros o s4 (tr4 & name' & Ht4 & Hh4 & -> & Hg & Hw4). cbn [seq_post]. eapply wp_mono.
    + by eapply (hear_rest name' (p_conf s3) _ s4 Ht4 Hh4 Hg).
    + intros o s5 [-> Hb]. split; [by eexists|exact Hb].
Qed.

(** A receiver that hears the sender's script succeeds with the sender's file. *)
Lemma pull_file_well name c s :
  p_conf s = c -> p_trace s = tr0 -> receiver_ready name stack1 stack2 c -> conf_tf_trycount c = tries ->
  dialable (conf_addrs c) ->
  wp (posix_while P) (received (fun o : outcome unit => o = Val tt))
    (pull_file (H := H2) name stack1 stack2) s.
Proof using All.
  intros <- Ht [_ _ Hwf Hfn Hn _ _ Hck] Htries Hd. unfold pull_file.
  assert (Hh0 : heard []).
  { constructor; [constructor|constructor|by intros (? & ? & ? & ?%elem_of_nil & _)|constructor| |left; apply prefix_nil].
    split; [left; apply prefix_nil|]. by intros [|] ? ? ? ?. }
  assert (Ht0 : p_trace s = tr0 ++ []) by (by rewrite app_nil_r).
  apply wp_mbind. eapply wp_hear_get; [exact Ht0|exact Hh0|]. cbn [seq_post].
  eapply (wp_guards _ _ _ (pull_checks (p_conf s))); [guards_go|]. rewrite Hck. apply wp_mbind.
  eapply wp_hear_calls with (P := fun o tr => exists r, o = Val r /\ tr = [Obs (PthreadCreate thread_broadcast) r]);
    [exact Ht0|exact Hh0|wp_go; calls_go; by eexists|].
  intros o tr (r & -> & ->) Hh1. cbn [seq_post]. apply wp_mbind. unfold CHECK_THREAD.
  destruct (Z.eqb_spec r 0) as [->|Hr]; cbn [negb].
  2:{ exfalso. eapply (hears_no_complaint _ _ _ _ _ _ _ ETHREAD Hh1). complains. }
  apply wp_mret. cbn [seq_post]. unfold tryexec_call. apply wp_mbind, wp_status_of, wp_mbind.
  eapply wp_mono; [apply (hear_start name [Obs (PthreadCreate thread_broadcast) 0]); try done|].
  - cbn. by rewrite Ht.
  - cbn. eapply (positive_pass _ _ _ Hck); in_list.
  - intros o s' [(name' & ->) Hb]. cbn [seq_post]. apply wp_mret. cbn [seq_post tryexec]. by apply wp_mret.
Qed.
End reception.

