(* ===== verification/Answered.v ===== *)
(** * The sender of a transfer in which nothing goes wrong but the data

    A sender that is told, in answer to what it sends, what a receiver says who
    refuses some chunks some times, and whose calls go well, sends its headers,
    repeats every chunk that is refused, and succeeds. *)
From S2P Require Import Prelude Protocol Types Sys Wire Turns Utils Error Mfile NetStream FileStream Cntl Data Pusher Puller Rufshare Session Delivery.

(** The sender's stream socket is [cntl], and its datagram socket is [data]. *)
Definition dials (cntl data : Z) (o : obs) : Prop :=
  match ob_call o in sysE X return X -> Prop with
  | Socket type => fun fd => (type = SOCK_STREAM -> fd = cntl) /\ (type = SOCK_DGRAM -> fd = data)
  | _ => fun _ => True
  end (ob_reply o).

(** The file that is mapped, in its whole length, holds [content]. *)
Definition maps (content : list Z) (o : obs) : Prop :=
  match ob_call o in sysE X return X -> Prop with
  | Mmap _ _ _ _ => fun r => forall b, r = Some b -> len (map_bytes b) = len content -> map_bytes b = content
  | _ => fun _ => True
  end (ob_reply o).

Lemma mapped_is content content' tr :
  Forall (maps content) tr -> mapped content' tr -> len content' = len content -> content' = content.
Proof.
  intros Hall (n & p & f & fd & b & Hin & <-). rewrite Forall_forall in Hall. exact (Hall _ Hin b eq_refl).
Qed.

(** The calls of a sender that all go well, over the sockets [cntl] and [data], with
    a file of [content], which reads [answers]. *)
Record told (cntl data : Z) (content answers : list Z) (tr : list obs) : Prop := {
  td_well : Forall goes_well tr;
  td_size : Forall (size_is (len content)) tr;
  td_fds : Forall (dials cntl data) tr;
  td_maps : Forall (maps content) tr;
  td_stream : follows answers cntl tr
}.

Lemma told_l cntl data content answers tr tr' :
  told cntl data content answers (tr ++ tr') -> told cntl data content answers tr.
Proof.
  intros [Hw Hs Hf Hm Hst]. apply Forall_app in Hw as [? _], Hs as [? _], Hf as [? _], Hm as [? _].
  constructor; try done. by eapply follows_l.
Qed.

Lemma told_no_complaint cntl data content answers tr tr' st :
  told cntl data content answers (tr ++ tr') -> st ∈ complaints tr' -> False.
Proof. intros Hh Hc. eapply no_complaint; [apply (td_well _ _ _ _ _ Hh)|by apply complaints_r]. Qed.

(** There is an answer, and it is the next one. *)
Lemma told_answered (H : Host) cntl data content answers tr tr' a q rest st :
  told cntl data content answers (tr ++ tr') -> answers = in_bytes cntl (wire tr) ++ ack_bytes H a q ++ rest ->
  unanswered cntl st tr' -> False.
Proof.
  intros Hh Ha [Hc|[_ (tr1 & b & Hb & Hw & ->)]]; [by eapply told_no_complaint|]. apply Hb.
  assert (Hr : exists r, ack_bytes H a q = RECV :: r)
    by (unfold ack_bytes, encode_RecvPacket; rewrite recv_wire; by eexists).
  destruct Hr as [r Hr]. rewrite Hr in Ha. eapply follows_typed; [apply (td_stream _ _ _ _ _ Hh)|exact Ha|exact Hw].
Qed.

Lemma told_next (H1 H2 : Host) cntl data content answers tr tr' a a' q rest r :
  told cntl data content answers (tr ++ tr') -> answers = in_bytes cntl (wire tr) ++ ack_bytes H2 a q ++ rest ->
  in_bytes cntl (wire tr') = r -> ack_of H1 r = Some a' -> r = ack_bytes H2 a q /\ a' = a mod 256.
Proof.
  intros Hh Ha Hin Hr. assert (r = ack_bytes H2 a q) as ->.
  { rewrite <- Hin. eapply follows_next; [apply (td_stream _ _ _ _ _ Hh)|exact Ha|].
    by rewrite Hin, (len_ack_of _ _ _ Hr), len_ack_bytes. }
  split; [done|]. rewrite ack_of_bytes in Hr. by injection Hr.
Qed.

(** ** The transfer, told *)

Section transfer.
Context (H1 H2 : Host) `{Crc} (c : InitConfig) (Ha : announced c) (Hpar : conf_pchsize c <> 0).
Context (content : list Z) (faults : Z -> list (list Z)) (tr0 : list obs).
Context (Hfds : conf_cntl_sock c <> conf_data_sock c).
Context (Hfew : forall q, 1 <= q <= conf_chcount c -> Z.of_nat (length (faults q)) < conf_tf_trycount c).

Let cntl := conf_cntl_sock c.
Let data := conf_data_sock c.
Let heard := told cntl data content (answer_script H2 faults (conf_chcount c)).
Let P := hearing heard tr0.

(** A try for every refusal, and one more. *)
Lemma refused_in msg k q :
  Forall is_out msg -> in_bytes cntl (asking cntl (replicate k (msg, ack_bytes H2 0 q))) = concat (replicate k (ack_bytes H2 0 q)).
Proof using Type. intros Hm. rewrite asking_in by by apply Forall_replicate. by rewrite fmap_replicate. Qed.

Lemma tell_tries (K : InitConfig -> Prop) msg body k q rest tr s :
  (forall t s, 0 < t -> K (p_conf s) -> wp posix (does (tried (H := H1) c K msg t) s) (body t) s) ->
  K (p_conf s) -> Forall is_out msg -> p_trace s = tr0 ++ tr -> heard tr ->
  answer_script H2 faults (conf_chcount c) = in_bytes cntl (wire tr) ++ answers_of H2 k q ++ rest ->
  Z.of_nat k < conf_tf_trycount c ->
  wp (posix_while P)
    (fun o s' => exists tr' t, p_trace s' = tr0 ++ tr ++ tr' /\ heard (tr ++ tr') /\ o = Val t /\ 0 < t /\
      K (p_conf s') /\ wire tr' = asking cntl (replicate k (msg, ack_bytes H2 0 q) ++ [(msg, ack_bytes H2 1 q)]))
    (loop body (conf_tf_trycount c)) s.
Proof using All.
  intros Hbody HK Hmsg Ht Hh Hans Hk.
  assert (Hlast : forall n m r tr1 tr2, wire tr1 = asking cntl (replicate n (msg, ack_bytes H2 0 q)) -> wire tr2 = msg ++ [In cntl r] ->
    m = (msg, r) -> wire (tr1 ++ tr2) = asking cntl (replicate n (msg, ack_bytes H2 0 q) ++ [m])).
  { intros n m r tr1 tr2 Hw1 Hw2 ->. rewrite wire_app, asking_app, Hw1, Hw2. f_equal. unfold asking. cbn. by rewrite app_nil_r. }
  apply (wp_loop _ (fun t s' => exists done left tr1, k = (done + left)%nat /\ t = conf_tf_trycount c - Z.of_nat done /\
      p_trace s' = tr0 ++ tr ++ tr1 /\ heard (tr ++ tr1) /\ K (p_conf s') /\
      wire tr1 = asking cntl (replicate done (msg, ack_bytes H2 0 q)))
    (fun t _ => Z.to_nat t)).
  { exists O, k, []. rewrite !app_nil_r. by split_and!; [|lia|..]. }
  intros ? s' (done & left & tr1 & -> & -> & Ht1 & Hh1 & HK1 & Hw1).
  assert (Hnext : answer_script H2 faults (conf_chcount c)
    = in_bytes cntl (wire (tr ++ tr1)) ++ answers_of H2 left q ++ rest).
  { rewrite Hans, wire_app, in_bytes_app, Hw1, refused_in by done. unfold answers_of.
    by rewrite replicate_add, concat_app, <- !app_assoc. }
  eapply wp_hear; [exact Ht1|exact Hh1|apply Hbody; [lia|done]|]. intros o tr' c' (HK' & _ & Ho) Hh'.
  destruct o as [[t'|t']|st|?|]; [| |exfalso|done|done]; cbn [loop_post].
  - destruct Ho as (-> & r & a & Hr & Hne & Hw).
    assert (Hin : in_bytes cntl (wire tr') = r) by (rewrite Hw, in_bytes_app, outs_in by done; by autorewrite with ruf).
    destruct left as [|left].
    { exfalso. destruct (told_next H1 H2 cntl data content _ _ _ 1 a q rest r Hh' Hnext Hin Hr) as [_ ->]. by apply Hne. }
    destruct (told_next H1 H2 cntl data content _ _ _ 0 a q (answers_of H2 left q ++ rest) r Hh') as [-> _]; [|done..|].
    { by rewrite Hnext, answers_of_split, <- !app_assoc. }
    rewrite <- app_assoc in Hh'. split; [|lia]. exists (S done), left, (tr1 ++ tr'). split_and!; try done; [lia|lia| |].
    + cbn. by rewrite Ht1, <- !app_assoc.
    + rewrite replicate_S_end. by eapply Hlast.
  - destruct Ho as (-> & r & Hr & Hw).
    assert (Hin : in_bytes cntl (wire tr') = r) by (rewrite Hw, in_bytes_app, outs_in by done; by autorewrite with ruf).
    destruct left as [|left].
    2:{ exfalso. destruct (told_next H1 H2 cntl data content _ _ _ 0 1 q (answers_of H2 left q ++ rest) r Hh') as [_ [=]]; [|done..].
        by rewrite Hnext, answers_of_split, <- !app_assoc. }
    destruct (told_next H1 H2 cntl data content _ _ _ 1 1 q rest r Hh' Hnext Hin Hr) as [-> _].
    rewrite <- app_assoc in Hh'. eexists (tr1 ++ tr'), _. split_and!; try done; [| |].
    + cbn. by rewrite Ht1, <- !app_assoc.
    + lia.
    + rewrite Nat.add_0_r. by eapply Hlast.
  - destruct Ho as [_ Hu].
    assert (Hhd : exists a rest', answers_of H2 left q ++ rest = ack_bytes H2 a q ++ rest').
    { destruct left as [|left]; [by exists 1, rest|]. exists 0, (answers_of H2 left q ++ rest).
      by rewrite answers_of_split, <- app_assoc. }
    destruct Hhd as (a & rest' & Hhd). rewrite Hhd in Hnext. by eapply (told_answered H2).
Qed.

(** What was told when chunk [seq] is next. *)
Record up_to (seq : Z) (tr : list obs) : Prop := {
  ut_told : heard tr;
  ut_wire : wire tr = asking cntl (sent_until H1 H2 c faults cntl data seq)
}.

Lemma answers_at seq tr :
  1 <= seq <= conf_chcount c -> up_to seq tr ->
  exists rest, answer_script H2 faults (conf_chcount c) = in_bytes cntl (wire tr) ++ chunk_answers H2 faults seq ++ rest.
Proof using All.
  intros Hs [_ ->]. rewrite asking_in by apply sent_until_asks. rewrite sent_until_answers.
  eexists. unfold answer_script, answers_to. rewrite (along_split _ seq _ Hs), <- !app_assoc. reflexivity.
Qed.

Lemma tell_one_chunk seq tr s :
  p_trace s = tr0 ++ tr -> up_to seq tr -> 1 <= seq <= conf_chcount c -> in_chunk c seq (p_conf s) ->
  wp (posix_while P)
    (fun o s' => exists tr', p_trace s' = tr0 ++ tr ++ tr' /\ o = Val (inl (conf_tf_trycount c)) /\
      in_chunk c (seq + 1) (p_conf s') /\ up_to (seq + 1) (tr ++ tr'))
    (push_one_chunk (H := H1) (conf_tf_trycount c)) s.
Proof using All.
  intros Ht Hup Hs (pos & Hpos & Hconf). destruct (answers_at seq tr Hs Hup) as [rest Hans]. destruct Hup as [Hh Hwire].
  unfold chunk_answers in Hans. rewrite <- app_assoc in Hans.
  assert (Hsend : sendable c seq) by (by split; [|right]).
  destruct (announced_bounds c Ha) as (_ & _ & _ & _ & Hcc).
  unfold push_one_chunk. apply wp_mbind. eapply wp_hear_get; [exact Ht|exact Hh|]. cbn [seq_post]. rewrite Hconf.
  change (conf_chcount (at_chunk seq pos c)) with (conf_chcount c).
  change (conf_seq (at_chunk seq pos c)) with seq.
  change (chunk_context (at_chunk seq pos c)) with (chunk_at c seq).
  destruct (Z.ltb_spec (conf_chcount c) seq); [lia|].
  destruct (chunk_at_in c Ha seq Hsend) as (Hc1 & Hc2 & Hc3).
  rewrite chunk_crc_ok by (first [by apply (transfer_at c Ha)|apply Hc1|exact Hc2|exact Hc3]).
  apply wp_mbind, wp_mret. cbn [seq_post]. apply wp_mbind. eapply wp_mono.
  { eapply (tell_tries (fun c' => c' = at_chunk seq pos c) [Out cntl (flow_bytes H1 c seq)] _ O seq
      (answers_of H2 (length (faults seq)) seq ++ rest)); [|done|by repeat constructor|exact Ht|exact Hh| |pose proof (an_trycount _ Ha); lia].
    - intros t s' Htp Hc'. pose proof (fun p => push_flow_try_ok (H := H1) c p t s') as Htry. rewrite Hc' in Htry.
      by apply Htry.
    - rewrite Hans. unfold answers_of at 1. cbn [replicate concat app]. done. }
  intros o s2 (tr1 & t & Ht1 & Hh1 & -> & Htp & Hc2' & Hw1). cbn [replicate app seq_post] in Hw1 |- *.
  apply wp_mbind. unfold CHECK_NOTEQUAL. destruct (Z.eqb_spec 0 t); [lia|]. apply wp_mret. cbn [seq_post].
  apply wp_mbind. eapply wp_mono.
  { eapply (tell_tries (in_chunk c seq) (Out data <$> segments (conf_segsize c) (data_at c seq)) _
      (length (faults seq)) seq rest _ s2); [|by exists pos|by apply Forall_fmap, Forall_true|exact Ht1|exact Hh1| |by apply Hfew].
    - intros t' s' Htp' Hc'. by apply (push_chunk_try_ok (H := H1)).
    - rewrite wire_app, in_bytes_app, Hw1, Hans. rewrite asking_in; [|apply Forall_singleton, asks_one].
      cbn [fmap list_fmap concat snd]. by rewrite app_nil_r, <- !app_assoc. }
  intros o s3 (tr2 & t' & Ht2 & Hh2 & -> & Htp' & (pos' & Hp' & Hs3) & Hw2). cbn [seq_post].
  apply wp_mbind. destruct (Z.eqb_spec 0 t'); [lia|]. apply wp_mret. cbn [seq_post].
  apply wp_mbind. eapply wp_hear_get; [exact Ht2|exact Hh2|]. cbn [seq_post]. rewrite Hs3.
  apply wp_mbind, wp_hear_set. cbn [seq_post]. apply wp_mret.
  rewrite <- app_assoc in Ht2, Hh2. exists (tr1 ++ tr2). split_and!; [exact Ht2|done| |].
  - exists pos'. split; [done|]. cbn. rewrite Hs3. unfold wrap. change (conf_seq (at_chunk seq pos' c)) with seq.
    by rewrite Z.mod_small by lia.
  - constructor; [done|]. unfold sent_until. rewrite !wire_app, Hwire, Hw1, Hw2, Z.add_simpl_r, (along_snoc _ seq) by lia.
    by rewrite <- !asking_app.
Qed.

(** All the chunks. *)
Lemma tell_transfer tr s :
  p_trace s = tr0 ++ tr -> up_to 1 tr -> in_chunk c 1 (p_conf s) ->
  wp (posix_while P)
    (fun o s' => exists tr', p_trace s' = tr0 ++ tr ++ tr' /\ o = Val tt /\
      in_chunk c (conf_chcount c + 1) (p_conf s') /\ up_to (conf_chcount c + 1) (tr ++ tr'))
    (push_transfer (H := H1)) s.
Proof using All.
  intros Ht Hup (pos & Hpos & Hs). destruct (announced_bounds c Ha) as (Hq & _ & _ & Hcc & Hcc32).
  unfold push_transfer. apply wp_mbind. eapply wp_hear_get; [exact Ht|apply (ut_told _ _ Hup)|]. cbn [seq_post]. rewrite Hs.
  change (conf_tf_trycount (at_chunk 1 pos c)) with (conf_tf_trycount c).
  apply (wp_loop _ (fun t s' => exists seq tr1, t = conf_tf_trycount c /\ 1 <= seq <= conf_chcount c + 1 /\
      in_chunk c seq (p_conf s') /\ p_trace s' = tr0 ++ tr ++ tr1 /\ up_to seq (tr ++ tr1))
    (fun _ s' => Z.to_nat (conf_chcount c + 1 - conf_seq (p_conf s')))).
  { exists 1, []. rewrite app_nil_r. split_and!; [done|lia|lia|by exists pos|done|done]. }
  intros ? s' (seq & tr1 & -> & Hseq & Hin & Ht1 & Hup1).
  assert (Hsq : conf_seq (p_conf s') = seq) by (by destruct Hin as (? & _ & ->)).
  destruct (Z.eq_dec seq (conf_chcount c + 1)) as [->|Hne].
  - unfold push_one_chunk. apply wp_mbind. eapply wp_hear_get; [exact Ht1|apply (ut_told _ _ Hup1)|]. cbn [seq_post].
    rewrite Hsq. replace (conf_chcount (p_conf s')) with (conf_chcount c) by (by destruct Hin as (? & _ & ->)).
    destruct (Z.ltb_spec (conf_chcount c) (conf_chcount c + 1)); [|lia]. apply wp_mret. cbn [loop_post].
    by exists tr1.
  - eapply wp_mono; [by apply (tell_one_chunk seq (tr ++ tr1)); [| |lia|]|].
    intros o s2 (tr2 & Ht2 & -> & Hin2 & Hup2). cbn [loop_post]. rewrite <- app_assoc in Ht2, Hup2.
    split; [exists (seq + 1), (tr1 ++ tr2); split_and!; [done|lia|lia|done|done|done]|].
    destruct Hin2 as (p' & _ & ->). cbn. lia.
Qed.
End transfer.

(** ** The announcement and the checksum, told *)

(** A header whose answer is the next one, an ACK, is acknowledged. *)
Lemma told_exchange (H1 H2 : Host) cntl data content answers tr tr' bytes q rest o :
  told cntl data content answers (tr ++ tr') -> answers = in_bytes cntl (wire tr) ++ ack_bytes H2 1 q ++ rest ->
  exchanged (H := H1) cntl bytes o tr' ->
  o = Val tt /\ wire tr' = [Out cntl bytes; In cntl (ack_bytes H2 1 q)].
Proof.
  intros Hh Hans [_ Ho].
  assert (Hno : forall st, unanswered cntl st tr' -> False) by (intros st; by eapply (told_answered H2)).
  assert (Hnext : forall r a, ack_of H1 r = Some a -> wire tr' = [Out cntl bytes; In cntl r] ->
    r = ack_bytes H2 1 q /\ a = 1).
  { intros r a Hr Hw. eapply (told_next H1 H2 cntl data content answers tr tr' 1); try done.
    rewrite Hw. by autorewrite with ruf. }
  destruct o as [[]|st|?|]; [| |done|done].
  - destruct Ho as (r & a & Hr & _ & Hw). by destruct (Hnext r a Hr Hw) as [-> _].
  - exfalso. destruct (decide (st = ZEROACK)) as [->|Hne].
    + destruct Ho as (r & Hr & Hw). by destruct (Hnext r 0 Hr Hw).
    + apply (Hno st). destruct st; by destruct Ho.
Qed.

Section sending.
Context (H1 H2 : Host) `{Crc} (c : InitConfig) (content : list Z) (cntl data : Z) (Hfds : cntl <> data).
Context (faults : Z -> list (list Z)) (tr0 : list obs).

Let sz := len content.
Let n := sz / conf_chsize c + 1.
Let heard := told cntl data content (answer_script H2 faults n).
Let P := hearing heard tr0.

(** What a sending leaves: the file went out, once and for every fault. *)
Definition delivered (o : outcome unit) (s : pstate) : Prop :=
  o = Val tt /\ exists c1 tr, p_trace s = tr0 ++ tr /\ prepared sz c c1 /\ mf_bytes (conf_mfile c1) = content /\
    mf_bytes (conf_mfile (p_conf s)) = content /\ wire tr = asking cntl (sent_turns H1 H2 c1 faults cntl data).

Lemma tell_end c1 stack tr s :
  prepared sz c c1 -> addrs_wf stack -> addrs_wf (conf_addrs c) -> mf_bytes (conf_mfile c1) = content ->
  conf_cntl_sock c1 = cntl -> conf_data_sock c1 = data ->
  p_trace s = tr0 ++ tr -> up_to H1 H2 c1 content faults (n + 1) tr -> in_chunk c1 (n + 1) (p_conf s) ->
  wp (posix_while P) delivered
    (push_verification (H := H1) stack;;
     end_file_stream;;
     c ← sys GetConf;
     end_cntl (conf_cntl_sock c);;
     c ← sys GetConf;
     end_data (conf_data_sock c)) s.
Proof using All.
  intros Hpr Hst Hwf Hmb Hcntl Hdata Ht [Hh Hwire] (pos & Hpos & Hs). pose proof Hpr as [Ha Hms Hcs _ Hadr _ Hfc Htry _].
  rewrite ?Hcntl, ?Hdata in *.
  assert (Hn : conf_chcount c1 = n) by (unfold n; by rewrite (an_chcount _ Ha), Hms, Hcs).
  rewrite Hn in Hh. fold heard in Hh.
  pose proof (transfer_at c1 Ha (n + 1) pos Hpos) as Htr. apply wp_mbind.
  eapply wp_hear_calls; [exact Ht|exact Hh|eapply (push_verification_ok (H := H1)); [reflexivity|done|..]|].
  { rewrite Hs. cbn. by rewrite Hadr. }
  { by rewrite Hs. }
  { rewrite Hs. cbn. by rewrite Hfc, <- Hms. }
  rewrite Hs. change (conf_cntl_sock (at_chunk (n + 1) pos c1)) with (conf_cntl_sock c1). rewrite Hcntl.
  intros o tr1 Hex Hh1. eapply (told_exchange H1 H2) in Hex as [-> Hw1]; [|exact Hh1|].
  2:{ rewrite Hwire, asking_in by apply sent_until_asks. rewrite sent_until_answers, Z.add_simpl_r, <- app_assoc.
      unfold answer_script. rewrite <- (app_nil_r (ack_bytes H2 1 (n + 1))). reflexivity. }
  cbn [seq_post].
  assert (Ht1 : p_trace (after_calls tr1 s) = tr0 ++ tr ++ tr1) by (cbn; by rewrite Ht, app_assoc).
  apply wp_mbind. eapply wp_hear_calls; [exact Ht1|exact Hh1|apply end_file_stream_ok|].
  intros o tr2 (Hw2 & _ & Ho) Hh2. cbn [after_calls p_conf] in Ho. rewrite Hs in Ho. destruct Ho as [->|[-> Hco]].
  2:{ exfalso. eapply told_no_complaint; [exact Hh2|]. destruct Htr as [Hm Hop _].
      destruct (ok_buf _ Hm Hop) as (b & Hb & _). apply Hco; [by rewrite Hb|exact (ok_file _ Hm Hop)]. }
  cbn [seq_post].
  assert (Ht2 : p_trace (after_calls tr2 (after_calls tr1 s)) = tr0 ++ (tr ++ tr1) ++ tr2) by (cbn; by rewrite Ht, <- !app_assoc).
  apply wp_mbind. eapply wp_hear_get; [exact Ht2|exact Hh2|]. cbn [seq_post]. apply wp_mbind.
  eapply wp_hear_calls; [exact Ht2|exact Hh2|apply close_socket_ok|].
  intros o tr3 (Hw3 & _ & [->|[-> Hco]]) Hh3; [|exfalso; by eapply told_no_complaint]. cbn [seq_post].
  assert (Ht3 : p_trace (after_calls tr3 (after_calls tr2 (after_calls tr1 s))) = tr0 ++ ((tr ++ tr1) ++ tr2) ++ tr3)
    by (cbn; by rewrite Ht, <- !app_assoc).
  apply wp_mbind. eapply wp_hear_get; [exact Ht3|exact Hh3|]. cbn [seq_post].
  eapply wp_hear_calls; [exact Ht3|exact Hh3|apply close_socket_ok|].
  intros o tr4 (Hw4 & _ & [->|[-> Hco]]) Hh4; [|exfalso; by eapply told_no_complaint].
  split; [done|]. exists c1, ((((tr ++ tr1) ++ tr2) ++ tr3) ++ tr4). split_and!; [cbn; by rewrite Ht, <- !app_assoc|done|done| |].
  - cbn. by rewrite Hs.
  - rewrite !wire_app, Hw1, Hw2, Hw3, Hw4, !app_nil_r, Hwire. unfold sent_turns. by rewrite asking_app, Hn.
Qed.

(** From the file to the closed sockets. *)
Lemma tell_start path rest stack1 stack2 pre s :
  sender_ready sz path stack1 stack2 c -> 0 < conf_chsize c < 2 ^ 16 -> 0 < conf_tf_trycount c ->
  sz mod conf_chsize c <> 0 -> dialable (conf_addrs c) ->
  (forall q, 1 <= q <= n -> Z.of_nat (length (faults q)) < conf_tf_trycount c) ->
  p_conf s = c -> p_trace s = tr0 ++ pre -> heard pre -> wire pre = [] ->
  wp (posix_while P) delivered (start_pusher (H := H1) (path ++ 0 :: rest) stack1 stack2) s.
Proof using All.
  intros [Hnn Hpl Hnl Hwf Hs1 Hs2 _ _ Hsz Hcount] Hcs Htry Hmod Hdial Hfew Hs Ht Hh Hw0. unfold start_pusher.
  apply wp_mbind. eapply wp_hear; [exact Ht|exact Hh|by apply (start_file_stream_ok path rest MRD c)|].
  intros o tr1 c' (_ & Hw1 & f & -> & Ho) Hh1.
  assert (Hsize : forall fl r z, Obs (Fstat fl) (r, z) ∈ tr1 -> z = sz).
  { intros fl r z Hin. eapply (size_is_fstat sz); [apply (td_size _ _ _ _ _ Hh1)|apply elem_of_app; by right]. }
  destruct o as [[]|st|?|]; [| |done..]; cbn [seq_post].
  2:{ exfalso. destruct Ho as (_ & _ & _ & [Hd|[(fl & r & He)|[? _]]]); [by eapply told_no_complaint| |done].
      apply Hmod. by rewrite <- (Hsize _ _ _ He). }
  destruct Ho as (Hok & Hop & Hpos & _ & (fl & r & Hfstat) & [Hbytes Hmap] & (p & r' & Hstat) & _).
  assert (Hfs : fc_size f = sz).
  { eapply (size_is_stat sz); [apply (td_size _ _ _ _ _ Hh1)|apply elem_of_app; right; exact Hstat]. }
  pose proof (Hsize _ _ _ Hfstat) as Hms.
  assert (Hmb : mf_bytes (fc_mfile f) = content).
  { eapply mapped_is; [|exact Hmap|]; [eapply Forall_app, (td_maps _ _ _ _ _ Hh1)|].
    destruct (ok_buf _ Hok) as (b & Hb & Hl); [by rewrite Hop|]. unfold mf_bytes. rewrite Hb, Hl. exact Hms. }
  match goal with |- wp _ _ _ ?x => set (sa := x) end.
  assert (Hta : p_trace sa = tr0 ++ pre ++ tr1) by (cbn; by rewrite Ht, <- !app_assoc).
  apply wp_mbind. eapply wp_hear; [exact Hta|exact Hh1|apply (start_cntl_ok (H := H1))|].
  intros o tr2 c' (Hw2 & _ & Ho) Hh2. destruct o as [[]|st|?|]; [| |done..]; cbn [seq_post].
  2:{ exfalso. destruct Ho as (_ & _ & Hd). eapply told_no_complaint; [exact Hh2|by apply Hd]. }
  destruct Ho as (fd & _ & -> & Hfd).
  pose proof (td_fds _ _ _ _ _ Hh2) as Hd2. rewrite Forall_forall in Hd2.
  destruct (Hd2 (Obs (Socket SOCK_STREAM) fd)) as [Hcn _]; [apply elem_of_app; by right|]. specialize (Hcn eq_refl). cbn in Hcn. subst fd. clear Hd2.
  match goal with |- wp _ _ _ ?x => set (sb := x) end.
  assert (Htb : p_trace sb = tr0 ++ (pre ++ tr1) ++ tr2) by (cbn; by rewrite Ht, <- !app_assoc).
  apply wp_mbind. eapply wp_hear; [exact Htb|exact Hh2|eapply (push_handshake_ok (H := H1)); [reflexivity|done|done|]|].
  { cbn. rewrite Hfs. apply calc_count_ok; try done. split; [apply len_nonneg|done]. }
  intros o tr3 c' [Hex Hc'] Hh3.
  change (conf_cntl_sock (p_conf sb)) with cntl in Hex. eapply (told_exchange H1 H2) in Hex as [-> Hw3]; [|exact Hh3|].
  2:{ rewrite !wire_app, Hw0, Hw1, Hw2. reflexivity. }
  destruct Hc' as [->|(_ & st & [=] & _)]. cbn [seq_post].
  match goal with |- wp _ _ _ ?x => set (sc := x) end.
  assert (Htc : p_trace sc = tr0 ++ ((pre ++ tr1) ++ tr2) ++ tr3) by (cbn; by rewrite Ht, <- !app_assoc).
  apply wp_mbind. eapply wp_hear; [exact Htc|exact Hh3|apply (start_data_ok (H := H1))|].
  intros o tr4 c' (Hw4 & _ & Ho) Hh4. destruct o as [[]|st|?|]; [| |done..]; cbn [seq_post].
  2:{ exfalso. destruct Ho as (_ & _ & Hd). eapply told_no_complaint; [exact Hh4|by apply Hd]. }
  destruct Ho as (fd2 & _ & -> & Hfd2).
  pose proof (td_fds _ _ _ _ _ Hh4) as Hd4. rewrite Forall_forall in Hd4.
  destruct (Hd4 (Obs (Socket SOCK_DGRAM) fd2)) as [_ Hdn]; [apply elem_of_app; by right|]. specialize (Hdn eq_refl). cbn in Hdn. subst fd2. clear Hd4.
  apply wp_mbind, wp_hear_set. cbn [seq_post].
  match goal with |- wp _ _ _ ?x => set (s5 := x) end.
  assert (Hs5 : p_conf s5 = ready_conf sz c f cntl data) by (cbn; by destruct (Z.eqb_spec (conf_chsize c) 0); [lia|]).
  assert (Ht5 : p_trace s5 = tr0 ++ (((pre ++ tr1) ++ tr2) ++ tr3) ++ tr4) by (cbn; by rewrite Ht, <- !app_assoc).
  assert (Hpr : prepared sz c (p_conf s5)) by (rewrite Hs5; by apply prepared_at).
  pose proof (pr_announced _ _ _ Hpr) as Ha.
  assert (Ecc : conf_chcount (p_conf s5) = n) by (by rewrite Hs5).
  apply wp_mbind. eapply wp_mono.
  { apply (tell_transfer H1 H2 (p_conf s5) Ha) with (content := content) (faults := faults) (tr0 := tr0) (s := s5);
      [by rewrite Hs5|by rewrite Hs5|rewrite Ecc, Hs5; exact Hfew|exact Ht5| |].
    - constructor.
      + rewrite Ecc, Hs5. exact Hh4.
      + rewrite Hs5, !wire_app, Hw0, Hw1, Hw2, Hw3, Hw4. done.
    - exists (mf_pos (conf_mfile (p_conf s5))). split; [apply (ok_pos _ Hok)|]. unfold at_chunk.
      rewrite set_mfile_self, <- (pr_seq _ _ _ Hpr). by destruct (p_conf s5). }
  intros o s6 (tr5 & Ht6 & -> & Hin & Hup). cbn [seq_post]. rewrite Ecc in *.
  eapply (tell_end (p_conf s5) stack2 _ s6 Hpr); [assumption|assumption|rewrite Hs5; exact Hmb|by rewrite Hs5|by rewrite Hs5|exact Ht6|exact Hup|exact Hin].
Qed.

(** A sender that is told all this succeeds. *)
Lemma push_file_told path rest stack1 stack2 s :
  sender_ready sz path stack1 stack2 c -> sz mod conf_chsize c <> 0 ->
  (forall q, 1 <= q <= n -> Z.of_nat (length (faults q)) < conf_tf_trycount c) ->
  p_conf s = c -> p_trace s = tr0 ->
  wp (posix_while P) delivered (push_file (H := H1) (path ++ 0 :: rest) stack1 stack2) s.
Proof using All.
  intros Hready Hmod Hfew Hs Ht. pose proof (sr_checks _ _ _ _ _ Hready) as Hck. pose proof (sr_chsize _ _ _ _ _ Hready) as Hw.
  assert (Hh0 : heard []).
  { constructor; [constructor|constructor|constructor|constructor|].
    split; [left; apply prefix_nil|]. by intros [|] ? ? ? ?. }
  assert (Ht0 : p_trace s = tr0 ++ []) by (by rewrite app_nil_r).
  unfold push_file. apply wp_mbind. eapply wp_hear_get; [exact Ht0|exact Hh0|]. cbn [seq_post]. rewrite Hs.
  eapply (wp_guards _ _ _ (push_checks c)); [guards_go|]. rewrite Hck.
  assert (Htry : 0 < conf_tf_trycount c) by (eapply (positive_pass _ _ _ Hck); in_list).
  assert (Hcs : 0 < conf_chsize c < 2 ^ 16).
  { assert (Hnz : nonzero (conf_chsize c) = true) by (eapply (checks_pass _ _ BADCONF Hck); in_list).
    unfold nonzero in Hnz. unfold in_width in Hw. lia. }
  unfold tryexec_call. apply wp_mbind, wp_status_of. eapply wp_mono; [apply (tell_start path rest stack1 stack2 [] s); try done|].
  { by apply (push_checks_dialable c). }
  intros o s' [-> Hd]. cbn [seq_post tryexec]. by apply wp_mret.
Qed.
End sending.
