(* ===== verification/Joint.v ===== *)
(** * A sender and a receiver run together

    The calls of the two processes in the order in which they are made, over a
    network that delivers in order what it delivers, the messages of the connection
    unchanged, the data with some bytes changed: what either reads is what the
    other has written by then.  When no call goes wrong, and the CRC-32 tells every
    chunk that arrives spoiled, and not too often, both succeed, and the file
    received is the file sent.  Neither process is assumed to do anything: what the
    sender is answered and what the receiver is sent follows from what the two
    programs do on the beginnings of their executions. *)
From stdpp Require Import gmap.
From S2P Require Import Prelude Protocol Types Sys Prefix Wire Turns Utils Error Mfile NetStream FileStream Cntl Data Pusher Puller Rufshare Session Delivery Hearing Answered.

(** ** Environments that can always answer *)

(** A reply to a call that goes well: sockets get the descriptors of [sock] and
    [conn], receives the bytes of [data], and the file is [file]. *)
Definition answered (file : list Z) (sock : Z -> Z) (conn : Z) (data : Z -> Z -> Z -> list Z) {X} (e : sysE X) : X -> Prop :=
  match e in sysE X return X -> Prop with
  | Poll _ events _ => fun r => events <> POLLIN -> Z.land (snd r) POLLIN = 0
  | Socket type => fun r => r = sock type
  | Accept _ => fun r => fst r = conn
  | RecvFrom fd size flags => fun r => if size <? 0 then fst r = -1 else r = (size, data fd size flags)
  | Stat _ => fun r => snd r = len file
  | Fstat _ => fun r => snd r = len file
  | Fstatvfs _ => fun r => len file < size_t (fst (snd r) * snd (snd r))
  | Mmap _ _ _ _ => fun r => forall b, r = Some b -> len (map_bytes b) = len file -> map_bytes b = file
  | _ => fun _ => True
  end.

Ltac answer w := exists w; split_and!; cbn; unfold minus_one_or_zero; first [done|lia|by auto|idtac].

Lemma can_answer file sock conn data X (e : sysE X) :
  is_conf e = false -> bytes_ok file -> len file < 2 ^ 63 -> (forall type, 0 <= sock type) -> 0 <= conn ->
  (forall fd size flags, 0 <= size -> len (data fd size flags) = size /\ bytes_ok (data fd size flags)) ->
  exists x, reply_ok e x /\ complaint _ e x = [] /\ answered file sock conn data e x.
Proof.
  intros Hc Hfile Hsz Hsock Hconn Hdata. pose proof (len_nonneg file). destruct e; try discriminate Hc; cbn [reply_ok complaint answered].
  - answer true.
  - answer true.
  - answer tt.
  - destruct (Z.eqb_spec events POLLIN) as [->|]; [|destruct (Z.eqb_spec events POLLOUT) as [->|]]; cbn [orb negb].
    + answer (1, 1).
    + answer (1, 4).
    + answer (0, 0).
  - answer (len buf); pose proof (len_nonneg buf); [lia|].
    destruct (Z.eqb_spec (len buf) (-1)); [lia|]. by rewrite Z.ltb_irrefl.
  - destruct (Z.ltb_spec size 0) as [|Hs]; [answer (-1, @nil Z)|].
    destruct (Hdata fd size flags Hs) as [Hl Hb]. answer (size, data fd size flags); [right; by split_and!|].
    destruct (Z.eqb_spec size (-1)); [lia|]. by rewrite Z.ltb_irrefl.
  - pose proof (Hsock type). answer (sock type). by destruct (Z.eqb_spec (sock type) (-1)); [lia|].
  - answer 0.
  - answer 0.
  - answer 0.
  - answer 0.
  - answer (conn, {| sin_family := AF_INET; sin_port := 0; sin_addr := zeros 4 |}).
    + apply bytes_ok_zeros.
    + by destruct (Z.eqb_spec conn (-1)); [lia|].
  - answer 0.
  - answer (Some 0).
  - answer 0.
  - answer (0, len file).
  - answer (0, len file).
  - answer (0, (1, 2 ^ 64 - 1)). unfold wrap. rewrite Z.mod_small; lia.
  - answer 0.
  - destruct (Z.ltb_spec 0 size) as [Hs|Hs]; [|answer (@None mapping)].
    destruct (Z.eq_dec (len file) size) as [He|Hne].
    + answer (Some {| map_addr := 0; map_bytes := file |}). by intros b [= <-].
    + pose proof (len_zeros size ltac:(lia)) as Hz. answer (Some {| map_addr := 0; map_bytes := zeros size |}).
      * apply bytes_ok_zeros.
      * intros b [= <-]. cbn. lia.
  - answer 0.
  - answer 0.
  - answer 4096.
  - answer 0.
  - answer tt.
  - answer tt.
  - answer 0.
  - answer 0.
Qed.

(** A beginning that was heard is one of an execution all of whose calls are heard,
    and the end of that execution satisfies what it should. *)
Section beginnings.
Context {B : Type} (heard : list obs -> Prop) (Q : outcome B -> pstate -> Prop) (t t1 : M B) (s s1 : pstate) (tr : list obs).
Context (Hl : forall tr tr', heard (tr ++ tr') -> heard tr).
Context (Hr : reaches posix (t, s) (t1, s1)) (Ht : p_trace s1 = p_trace s ++ tr) (Hheard : heard tr).

Lemma heard_reaches : reaches (posix_while (hearing heard (p_trace s))) (t, s) (t1, s1).
Proof using Hl Hr Ht Hheard.
  apply reaches_while; [done|]. intros trA trB Hsplit. exists trA. split; [done|].
  unfold state_trace in Hsplit. cbn in Hsplit. rewrite Ht in Hsplit. apply app_inv_head in Hsplit.
  rewrite Hsplit in Hheard. by eapply Hl.
Qed.

Lemma hearing_reaches :
  wp (posix_while (hearing heard (p_trace s))) Q t s -> wp (posix_while (hearing heard (p_trace s))) Q t1 s1.
Proof using Hl Hr Ht Hheard. intros Hw. exact (wp_reaches _ _ (t, s) (t1, s1) Hw heard_reaches). Qed.

Lemma hearing_completes :
  (forall X (e : sysE X) tr, is_conf e = false -> heard tr -> exists x, reply_ok e x /\ heard (tr ++ [Obs e x])) ->
  wp (posix_while (hearing heard (p_trace s))) Q t s ->
  exists a2 s2 post, exec posix t1 s1 a2 s2 /\ Q a2 s2 /\ p_trace s2 = p_trace s ++ tr ++ post /\ heard (tr ++ post).
Proof using Hl Hr Ht Hheard.
  intros Hmore Hw. pose proof (hearing_reaches Hw) as Hw1.
  destruct (while_completes (hearing heard (p_trace s)) Q t1 s1) as (a2 & s2 & He & HQ & Hh); [| |done|].
  - intros X e tr' Hcf (tr1 & -> & Hh1). destruct (Hmore X e tr1 Hcf Hh1) as (x & Hx & Hh2).
    exists x. split; [done|]. exists (tr1 ++ [Obs e x]). by rewrite app_assoc.
  - by exists tr.
  - apply (exec_fewer _ _ _ _ _ _ (posix_while_posix _)) in He. destruct (exec_trace _ _ _ _ He) as [post Hp].
    rewrite Ht, <- app_assoc in Hp. exists a2, s2, post. split_and!; [done|done|done|]. rewrite Hp in Hh. by apply hearing_app in Hh.
Qed.
End beginnings.

(** The bytes a process can be given to read: those that come next. *)
Definition next_data (stream : Z -> list Z) (tr : list obs) (fd size flags : Z) : list Z :=
  ztake size (zdrop (len (in_bytes fd (wire tr))) (stream fd) ++ zeros size).

Lemma next_data_ok stream tr fd size flags :
  (forall fd, bytes_ok (stream fd)) -> 0 <= size ->
  len (next_data stream tr fd size flags) = size /\ bytes_ok (next_data stream tr fd size flags).
Proof.
  intros Hs Hsz. unfold next_data. split.
  - rewrite len_ztake; [done|]. rewrite len_app, len_zeros by done.
    pose proof (len_nonneg (zdrop (len (in_bytes fd (wire tr))) (stream fd))). lia.
  - apply bytes_ok_take, bytes_ok_app; [|apply bytes_ok_zeros]. by apply bytes_ok_drop.
Qed.

Lemma next_agrees a b size : 0 <= size -> agrees a b -> agrees (a ++ ztake size (zdrop (len a) b ++ zeros size)) b.
Proof.
  intros Hs [[r ->]|[r ->]].
  2:{ right. exists (r ++ ztake size (zdrop (len (b ++ r)) b ++ zeros size)). by rewrite app_assoc. }
  rewrite zdrop_app by done. destruct (Z.le_gt_cases size (len r)).
  - left. rewrite ztake_app_le by done. exists (zdrop size r). by rewrite <- app_assoc, ztake_zdrop.
  - right. exists (ztake (size - len r) (zeros size)). rewrite <- app_assoc. f_equal.
    unfold ztake, len in *. rewrite take_app, firstn_all2 by lia. do 2 f_equal. lia.
Qed.

Definition answered_as (file : list Z) (sock : Z -> Z) (conn : Z) (data : Z -> Z -> Z -> list Z) (o : obs) : Prop :=
  answered file sock conn data (ob_call o) (ob_reply o).

(** What a receive brings in, when it is answered with [data]. *)
Lemma answered_in file sock conn data o fd w :
  answered_as file sock conn data o -> w = wire [o] ->
  in_bytes fd w = [] \/ exists size flags, 0 <= size /\ in_bytes fd w = data fd size flags.
Proof.
  intros Ha ->. destruct o as [X e x]. destruct e; try by left.
  - left. unfold in_bytes. cbn. by destruct (x =? -1).
  - unfold answered_as in Ha. cbn in Ha. destruct (Z.ltb_spec size 0).
    + left. unfold in_bytes. cbn. by rewrite Ha.
    + subst x. unfold in_bytes. cbn. destruct (Z.eqb_spec size (-1)); [lia|]. cbn.
      destruct (flags =? MSG_PEEK); [by left|]. cbn. destruct (Z.eqb_spec fd0 fd) as [->|]; [|by left].
      right. exists size, flags. by rewrite app_nil_r.
Qed.

(** What comes next is what the stream says. *)
Lemma agrees_more file sock conn stream tr o fd :
  answered_as file sock conn (next_data stream tr) o -> agrees (in_bytes fd (wire tr)) (stream fd) ->
  agrees (in_bytes fd (wire (tr ++ [o]))) (stream fd).
Proof.
  intros Ha Hag. rewrite wire_app, in_bytes_app.
  destruct (answered_in _ _ _ _ _ fd _ Ha eq_refl) as [->|(size & flags & Hsz & ->)]; [by rewrite app_nil_r|].
  by apply next_agrees.
Qed.

Lemma follows_more file sock conn stream tr o fd :
  answered_as file sock conn (next_data stream tr) o -> follows (stream fd) fd tr -> follows (stream fd) fd (tr ++ [o]).
Proof.
  intros Ha [Hp Hpk]. split; [by eapply agrees_more|].
  intros tr1 size n d tr2 Ht Hn. destruct tr2 as [|o2 tr2 _] using rev_ind.
  - apply app_inj_tail in Ht as [<- ->]. unfold answered_as in Ha. cbn in Ha.
    destruct (Z.ltb_spec size 0); [done|]. injection Ha as -> ->. by apply next_agrees.
  - rewrite app_comm_cons, app_assoc in Ht. apply app_inj_tail in Ht as [-> _]. by eapply Hpk.
Qed.

Lemma size_answered file sock conn data o : answered_as file sock conn data o -> size_is (len file) o.
Proof. intros Ha. destruct o as [X e x]. destruct e; try done; exact Ha. Qed.

(** ** Beginnings of a sending *)

Lemma bytes_ok_ack (H : Host) a seq : bytes_ok (ack_bytes H a seq).
Proof.
  unfold ack_bytes, encode_RecvPacket. rewrite recv_wire. apply bytes_ok_app; [|auto with ruf].
  apply bytes_ok_cons; [done|auto with ruf].
Qed.

Lemma bytes_ok_along (f : Z -> list Z) seq n :
  (forall q, seq <= q < seq + n -> bytes_ok (f q)) -> bytes_ok (along f seq n).
Proof.
  intros Hf. apply bytes_ok_concat, Forall_fmap, Forall_forall. intros q Hq%elem_of_seqZ. by apply Hf.
Qed.

Lemma bytes_ok_answers (H : Host) faults n : bytes_ok (answer_script H faults n).
Proof.
  unfold answer_script. apply bytes_ok_app; [apply bytes_ok_ack|]. apply bytes_ok_app; [|apply bytes_ok_ack].
  apply bytes_ok_along. intros q _. unfold chunk_answers, answers_of. apply bytes_ok_app; [apply bytes_ok_ack|].
  apply bytes_ok_app; [|apply bytes_ok_ack]. apply bytes_ok_concat, Forall_replicate, bytes_ok_ack.
Qed.

(** The streams of a sender. *)
Definition answer_stream (cntl : Z) (answers : list Z) (fd : Z) : list Z := if fd =? cntl then answers else [].

Lemma told_more cntl data content answers tr o :
  told cntl data content answers tr -> goes_well o ->
  answered_as content (fun type => if type =? SOCK_STREAM then cntl else data) 0
    (next_data (answer_stream cntl answers) tr) o ->
  told cntl data content answers (tr ++ [o]).
Proof.
  intros [Hw Hs Hf Hm Hst] Hgo Ha. constructor.
  - apply Forall_app. by repeat constructor.
  - apply Forall_app. split; [done|]. repeat constructor. by eapply size_answered.
  - apply Forall_app. split; [done|]. repeat constructor. destruct o as [X e x]. destruct e; try done.
    unfold answered_as in Ha. cbn in Ha |- *. subst x. split; by intros ->.
  - apply Forall_app. split; [done|]. repeat constructor. destruct o as [X e x]. destruct e; try done; exact Ha.
  - assert (Hc : answer_stream cntl answers cntl = answers) by (unfold answer_stream; by rewrite Z.eqb_refl).
    pose proof (follows_more _ _ _ _ tr o cntl Ha) as Hmore. rewrite Hc in Hmore. by apply Hmore.
Qed.

Lemma told_answers cntl data content answers :
  bytes_ok content -> bytes_ok answers -> len content < 2 ^ 63 -> 0 <= cntl -> 0 <= data ->
  forall X (e : sysE X) tr, is_conf e = false -> told cntl data content answers tr ->
  exists x, reply_ok e x /\ told cntl data content answers (tr ++ [Obs e x]).
Proof.
  intros Hb Ha Hl Hc0 Hd0 X e tr Hcf Hh.
  destruct (can_answer content (fun type => if type =? SOCK_STREAM then cntl else data) 0
    (next_data (answer_stream cntl answers) tr) X e Hcf Hb Hl) as (x & Hx & Hgo & Hans); [|done| |].
  - intros type. by destruct (type =? _).
  - intros. apply next_data_ok; [|done]. intros fd'. unfold answer_stream.
    destruct (fd' =? cntl); [done|apply bytes_ok_nil].
  - exists x. split; [done|]. by apply told_more.
Qed.

(** A sending that was answered as it should be so far can go on so, to the end of
    its turns. *)
Lemma sending_completes (H1 H2 : Host) `{Crc} content cntl data faults c path rest st1 st2 s t s' pre :
  bytes_ok content -> 0 <= cntl -> 0 <= data -> cntl <> data ->
  sender_ready (len content) path st1 st2 c -> len content mod conf_chsize c <> 0 -> p_conf s = c ->
  (forall q, 1 <= q <= len content / conf_chsize c + 1 -> Z.of_nat (length (faults q)) < conf_tf_trycount c) ->
  reaches posix (push_file (H := H1) (path ++ 0 :: rest) st1 st2, s) (t, s') -> p_trace s' = p_trace s ++ pre ->
  told cntl data content (answer_script H2 faults (len content / conf_chsize c + 1)) pre ->
  exists c1 s2 post, prepared (len content) c c1 /\ mf_bytes (conf_mfile c1) = content /\
    exec posix t s' (Val tt) s2 /\ p_trace s2 = p_trace s ++ pre ++ post /\
    told cntl data content (answer_script H2 faults (len content / conf_chsize c + 1)) (pre ++ post) /\
    wire (pre ++ post) = asking cntl (sent_turns H1 H2 c1 faults cntl data).
Proof.
  intros Hb Hc0 Hd0 Hne Hsr Hmod Hs Hfew He Ht Hpre. pose proof (sr_size _ _ _ _ _ Hsr).
  pose proof (push_file_told H1 H2 c content cntl data Hne faults (p_trace s) path rest st1 st2 s Hsr Hmod Hfew Hs eq_refl) as Hw.
  destruct (hearing_completes _ _ _ _ _ _ _ (told_l _ _ _ _) He Ht Hpre
    (told_answers cntl data content _ Hb (bytes_ok_answers _ _ _) ltac:(lia) Hc0 Hd0) Hw)
    as (o2 & s2 & post & He2 & (-> & c1 & tr & Ht3 & Hpr & Hmb & _ & Hwire) & Ht2 & Hpost).
  assert (tr = pre ++ post) as -> by (rewrite Ht2 in Ht3; by apply app_inv_head in Ht3).
  by exists c1, s2, post.
Qed.

(** ** Beginnings of a reception *)

(** The streams of a receiver. *)
Definition script_stream (conn data : Z) (script stream : list Z) (fd : Z) : list Z :=
  if fd =? conn then script else if fd =? data then stream else [].

Lemma hears_more conn data content script stream tr o :
  hears conn data (len content) script stream tr -> conn <> data -> goes_well o ->
  answered_as content (fun _ => data) conn (next_data (script_stream conn data script stream) tr) o ->
  hears conn data (len content) script stream (tr ++ [o]).
Proof.
  intros [Hw Hs Hr Hf Hst Hd] Hne Hgo Ha.
  assert (Hc : script_stream conn data script stream conn = script) by (unfold script_stream; by rewrite Z.eqb_refl).
  assert (Hdt : script_stream conn data script stream data = stream)
    by (unfold script_stream; rewrite Z.eqb_refl; by destruct (Z.eqb_spec data conn)).
  constructor.
  - apply Forall_app. by repeat constructor.
  - apply Forall_app. split; [done|]. repeat constructor. by eapply size_answered.
  - intros (f & b & n & [Hin'|Ho]%elem_of_app & Hle); [by apply Hr; exists f, b, n|].
    apply list_elem_of_singleton in Ho. rewrite <- Ho in Ha. unfold answered_as in Ha. cbn in Ha. lia.
  - apply Forall_app. split; [done|]. repeat constructor. destruct o as [X e x]. destruct e; try done.
    unfold answered_as, listens in *. cbn in Ha |- *. subst x. by destruct (_ =? _).
  - pose proof (follows_more _ _ _ _ tr o conn Ha) as Hmore. rewrite Hc in Hmore. by apply Hmore.
  - pose proof (agrees_more _ _ _ _ tr o data Ha) as Hmore. rewrite Hdt in Hmore. by apply Hmore.
Qed.

Lemma hears_answers conn data content script stream :
  bytes_ok content -> bytes_ok script -> bytes_ok stream -> len content < 2 ^ 63 -> 0 <= conn -> 0 <= data -> conn <> data ->
  forall X (e : sysE X) tr, is_conf e = false -> hears conn data (len content) script stream tr ->
  exists x, reply_ok e x /\ hears conn data (len content) script stream (tr ++ [Obs e x]).
Proof.
  intros Hb Hbs Hbd Hl Hc0 Hd0 Hne X e tr Hcf Hh.
  destruct (can_answer content (fun _ => data) conn (next_data (script_stream conn data script stream) tr) X e Hcf Hb Hl)
    as (x & Hx & Hgo & Hans); [done|done| |].
  - intros. apply next_data_ok; [|done]. intros fd'. unfold script_stream.
    destruct (fd' =? conn); [done|]. destruct (fd' =? data); [done|apply bytes_ok_nil].
  - exists x. split; [done|]. by apply hears_more.
Qed.

(** The script of a sender is made of bytes. *)
Lemma bytes_ok_infostr a : addrs_wf a -> carried a -> bytes_ok (infostr_of a).
Proof.
  intros Ha [_ _ _ (Hf & Hn & Hi)]. unfold infostr_of. rewrite infostring_eq by done.
  pose proof (wf_local_port _ Ha) as Hp. unfold in_width in Hp.
  repeat first [apply bytes_ok_dec; lia|apply bytes_ok_zeros|apply bytes_ok_take, bytes_ok_cstr; done|
    simple apply bytes_ok_app|apply bytes_ok_cons; [by unfold byte_ok|apply bytes_ok_nil]].
Qed.

Lemma bytes_ok_script (H : Host) `{Crc} c : addrs_wf (conf_addrs c) -> carried (conf_addrs c) -> bytes_ok (script H c).
Proof.
  intros Hwf Hca. pose proof (bytes_ok_infostr _ Hwf Hca) as Hi.
  assert (Hsend : forall crc, bytes_ok (send_bytes H c crc)).
  { intros crc. unfold send_bytes, encode_SendPacket. rewrite send_wire.
    apply bytes_ok_app; [|done]. apply bytes_ok_app; [by repeat constructor|auto 10 with ruf]. }
  assert (Hflow : forall seq, bytes_ok (flow_bytes H c seq)).
  { intros seq. unfold flow_bytes, encode_FlowPacket. rewrite flow_wire.
    apply bytes_ok_app; [by repeat constructor|auto 10 with ruf]. }
  unfold script, flows. apply bytes_ok_app; [done|apply bytes_ok_app; [|done]]. apply bytes_ok_concat.
  rewrite Forall_fmap. apply Forall_true. intros seq. apply Hflow.
Qed.

Lemma bytes_ok_heard `{Crc} chunk count n faults :
  (forall q, bytes_ok (chunk q)) -> faults_ok chunk count n faults -> bytes_ok (data_heard chunk faults 1 count).
Proof.
  intros Hb Hfa. apply bytes_ok_along. intros q Hq. unfold arrivals. apply bytes_ok_app; [|done].
  apply bytes_ok_concat, Forall_forall. intros d Hd. apply (fa_bad _ _ _ _ Hfa q); [lia|done].
Qed.

(** A reception that has heard the beginnings of a script and of the data can go on
    hearing them, to the end of its turns. *)
Lemma receiving_completes (H1 H2 : Host) `{Crc} content c1 faults conn data name st1 st2 s t s' pre :
  announced c1 -> addrs_wf (conf_addrs c1) -> carried (conf_addrs c1) -> dialable (conf_addrs c1) ->
  conf_pchsize c1 <> 0 -> bytes_ok content -> mf_bytes (conf_mfile c1) = content ->
  faults_ok (data_at c1) (conf_chcount c1) (conf_tf_trycount (p_conf s)) faults ->
  0 <= conn -> 0 <= data -> conn <> data ->
  receiver_ready name st1 st2 (p_conf s) -> dialable (conf_addrs (p_conf s)) ->
  reaches posix (pull_file (H := H2) name st1 st2, s) (t, s') -> p_trace s' = p_trace s ++ pre ->
  hears conn data (len content) (script H1 c1) (data_heard (data_at c1) faults 1 (conf_chcount c1)) pre ->
  exists s2 post z, exec posix t s' (Val tt) s2 /\ p_trace s2 = p_trace s ++ pre ++ post /\
    hears conn data (len content) (script H1 c1) (data_heard (data_at c1) faults 1 (conf_chcount c1)) (pre ++ post) /\
    0 < z /\ wire (pre ++ post) = answering conn (heard_turns H1 H2 c1 faults conn data z).
Proof.
  intros Ha Hwf Hca Hdial Hp Hb Hmb Hfa Hc0 Hd0 Hne Hrr Hd He Ht Hh.
  pose proof Hrr as [Hst1 Hst2 _ _ _ _ _ _].
  assert (Hms : mf_size (conf_mfile c1) = len content) by (rewrite <- Hmb; symmetry; apply len_old, Ha).
  pose proof (an_size _ Ha) as Hsz. rewrite Hms in Hsz.
  pose proof (pull_file_well H1 H2 c1 Ha Hwf Hca Hdial Hp st1 st2 Hst1 Hst2 _ faults Hfa (p_trace s) conn data Hne name (p_conf s) s
    eq_refl eq_refl Hrr eq_refl Hd) as Hw. rewrite Hms in Hw.
  assert (Hbd : bytes_ok (data_heard (data_at c1) faults 1 (conf_chcount c1))).
  { eapply bytes_ok_heard, Hfa. intros q. unfold data_at, chunk_bytes. rewrite Hmb. by apply bytes_ok_take, bytes_ok_drop. }
  destruct (hearing_completes _ _ _ _ _ _ _ (hears_l _ _ _ _ _) He Ht Hh
    (hears_answers conn data content _ _ Hb (bytes_ok_script H1 c1 Hwf Hca) Hbd ltac:(lia) Hc0 Hd0 Hne) Hw)
    as (o2 & s2 & post & He2 & (-> & _ & tr & z & Ht3 & Hz & Hwire) & Ht2 & Hpost).
  assert (tr = pre ++ post) as -> by (rewrite Ht2 in Ht3; by apply app_inv_head in Ht3).
  by exists s2, post, z.
Qed.

(** ** Two processes and a network *)

(** The calls of the two processes in the order in which they are made: the
    sender's on the left, the receiver's on the right. *)
Definition joint : Type := list (obs + obs).
Definition ours : joint -> list obs := omap (fun e => match e with inl o => Some o | inr _ => None end).
Definition theirs : joint -> list obs := omap (fun e => match e with inl _ => None | inr o => Some o end).

Lemma ours_app J J' : ours (J ++ J') = ours J ++ ours J'.
Proof. apply omap_app. Qed.
Lemma theirs_app J J' : theirs (J ++ J') = theirs J ++ theirs J'.
Proof. apply omap_app. Qed.

(** The sockets of the transfer: the sender's control socket and data socket, the
    receiver's connection and data socket. *)
Record channels := { ch_cntl : Z; ch_send : Z; ch_conn : Z; ch_recv : Z }.
Record channels_ok (n : channels) : Prop := {
  ch_cntl_fd : 0 <= ch_cntl n;
  ch_send_fd : 0 <= ch_send n;
  ch_conn_fd : 0 <= ch_conn n;
  ch_recv_fd : 0 <= ch_recv n;
  ch_sender : ch_cntl n <> ch_send n;
  ch_receiver : ch_conn n <> ch_recv n
}.

(** What arrives of the data: bytes at some places are others. *)
Definition spoil (errors : gmap nat Z) (data : list Z) : list Z := imap (fun i b => default b (errors !! i)) data.

Lemma spoil_prefix errors l l' : l `prefix_of` l' -> spoil errors l `prefix_of` spoil errors l'.
Proof. intros [r ->]. unfold spoil. rewrite imap_app. by eexists. Qed.

Lemma spoil_clean l : spoil ∅ l = l.
Proof. unfold spoil. induction l as [|b l IH]; [done|]. rewrite imap_cons. cbn. f_equal. exact IH. Qed.

(** What is read from [fd], and what is peeked at, is a beginning of [bytes]. *)
Definition reads_from (bytes : list Z) (fd : Z) (tr : list obs) : Prop :=
  in_bytes fd (wire tr) `prefix_of` bytes /\
  forall tr1 size n d tr2, tr = tr1 ++ Obs (RecvFrom fd size MSG_PEEK) (n, d) :: tr2 -> n <> -1 ->
    in_bytes fd (wire tr1) ++ d `prefix_of` bytes.

Lemma reads_follows bytes bytes' fd tr : reads_from bytes fd tr -> bytes `prefix_of` bytes' -> follows bytes' fd tr.
Proof.
  intros [Hp Hpk] Hb. split; [left; by etrans|]. intros tr1 size n d tr2 Ht Hn. left. etrans; [by eapply Hpk|done].
Qed.

(** The sockets that listen: to poll one of these is to wait for a connection. *)
Definition listens_on (o : obs) : list Z := match ob_call o with Listen fd _ => [fd] | _ => [] end.
Definition listeners (tr : list obs) : list Z := concat (listens_on <$> tr).

Lemma listeners_app tr tr' : listeners (tr ++ tr') = listeners tr ++ listeners tr'.
Proof. unfold listeners. by rewrite fmap_app, concat_app. Qed.

(** What a receive brings in, after the bytes [past] of the same socket, is what
    comes next in [bytes]; and a socket is said to be readable when there is
    something to come. *)
Definition brings (bytes past : list Z) (o : obs) : Prop :=
  match ob_call o in sysE X return X -> Prop with
  | RecvFrom _ _ _ => fun r => fst r <> -1 -> past ++ snd r `prefix_of` bytes
  | Poll _ _ _ => fun r => fst r = 1 -> Z.land (snd r) POLLIN <> 0 -> len past < len bytes
  | _ => fun _ => True
  end (ob_reply o).
Definition from_socket (tr : list obs) (o : obs) : option Z :=
  match ob_call o with
  | RecvFrom fd _ _ => Some fd
  | Poll fd _ _ => if decide (fd ∈ listeners tr) then None else Some fd
  | _ => None
  end.

(** The next call, after those of [J]: the sender reads what the receiver has
    written on its connection, and the receiver what the sender has written on its
    control socket and, with the errors, on its data socket. *)
Definition carries (n : channels) (errors : gmap nat Z) (J : joint) (e : obs + obs) : Prop :=
  match e with
  | inl o => from_socket (ours J) o = Some (ch_cntl n) ->
      brings (out_bytes (ch_conn n) (wire (theirs J))) (in_bytes (ch_cntl n) (wire (ours J))) o
  | inr o =>
      (from_socket (theirs J) o = Some (ch_conn n) ->
        brings (out_bytes (ch_cntl n) (wire (ours J))) (in_bytes (ch_conn n) (wire (theirs J))) o) /\
      (from_socket (theirs J) o = Some (ch_recv n) ->
        brings (spoil errors (out_bytes (ch_send n) (wire (ours J)))) (in_bytes (ch_recv n) (wire (theirs J))) o)
  end.

(** A network that delivers, in order and with these errors in the data, what it
    delivers. *)
Inductive delivers (n : channels) (errors : gmap nat Z) : joint -> Prop :=
| delivers_nil : delivers n errors []
| delivers_step J e : delivers n errors J -> carries n errors J e -> delivers n errors (J ++ [e]).

Lemma delivers_l n errors J J' : delivers n errors (J ++ J') -> delivers n errors J.
Proof.
  induction J' as [|e J' IH] using rev_ind; [by rewrite app_nil_r|].
  rewrite app_assoc. intros Hd. apply IH. inversion Hd as [Hnil|J0 e0 Hd0 _ Heq].
  - by destruct (J ++ J').
  - by apply app_inj_tail in Heq as [-> _].
Qed.

Lemma in_bytes_call fd tr o past bytes :
  (from_socket tr o = Some fd -> brings bytes past o) -> past `prefix_of` bytes ->
  past ++ in_bytes fd (wire [o]) `prefix_of` bytes.
Proof.
  intros Hb Hp. destruct o as [X e x]. destruct e; cbn [wire wire_event ob_call ob_reply app];
    try (rewrite in_nil, app_nil_r; exact Hp).
  - destruct (x =? -1); cbn [app]; rewrite ?in_out, ?in_nil, app_nil_r; exact Hp.
  - destruct x as [r d]. cbn [fst snd]. destruct (Z.eqb_spec r (-1)); [by rewrite in_nil, app_nil_r|].
    destruct (flags =? MSG_PEEK); [by rewrite in_nil, app_nil_r|]. cbn [orb app].
    unfold in_bytes. cbn. destruct (Z.eqb_spec fd0 fd) as [->|]; [|by rewrite app_nil_r].
    cbn. rewrite app_nil_r. by apply Hb.
Qed.

Lemma reads_from_snoc bytes bytes' fd tr o :
  reads_from bytes fd tr -> bytes `prefix_of` bytes' ->
  (from_socket tr o = Some fd -> brings bytes' (in_bytes fd (wire tr)) o) -> reads_from bytes' fd (tr ++ [o]).
Proof.
  intros [Hp Hpk] Hb Ho. split.
  - rewrite wire_app, in_bytes_app. apply (in_bytes_call _ tr); [done|by etrans].
  - intros tr1 size r d tr2 Ht Hr. destruct tr2 as [|o2 tr2 _] using rev_ind.
    + apply app_inj_tail in Ht as [<- ->]. by apply Ho.
    + rewrite app_comm_cons, app_assoc in Ht. apply app_inj_tail in Ht as [-> _]. etrans; [by eapply Hpk|done].
Qed.

Lemma reads_from_more bytes bytes' fd tr : reads_from bytes fd tr -> bytes `prefix_of` bytes' -> reads_from bytes' fd tr.
Proof.
  intros [Hp Hpk] Hb. split; [by etrans|]. intros tr1 size r d tr2 Ht Hr. etrans; [by eapply Hpk|done].
Qed.

Lemma reads_from_nil bytes fd : reads_from bytes fd [].
Proof. split; [apply prefix_nil|]. by intros [|] ? ? ? ?. Qed.

Lemma out_grows fd tr tr' : out_bytes fd (wire tr) `prefix_of` out_bytes fd (wire (tr ++ tr')).
Proof. rewrite wire_app, out_bytes_app. by eexists. Qed.

(** At any time, what a process has read is a beginning of what the other has
    written by then. *)
Lemma delivers_reads n errors J :
  delivers n errors J ->
  reads_from (out_bytes (ch_cntl n) (wire (ours J))) (ch_conn n) (theirs J) /\
  reads_from (spoil errors (out_bytes (ch_send n) (wire (ours J)))) (ch_recv n) (theirs J) /\
  reads_from (out_bytes (ch_conn n) (wire (theirs J))) (ch_cntl n) (ours J).
Proof.
  induction 1 as [|J [o|o] _ (IH1 & IH2 & IH3) Hc]; [split_and!; intros; apply reads_from_nil|..];
    rewrite ours_app, theirs_app; cbn [ours theirs omap list_omap]; rewrite ?app_nil_r.
  - split_and!; [eapply reads_from_more, out_grows; exact IH1|eapply reads_from_more, spoil_prefix, out_grows; exact IH2|].
    eapply reads_from_snoc; [exact IH3|done|exact Hc].
  - destruct Hc as [Hc1 Hc2]. split_and!; [by eapply reads_from_snoc..|].
    eapply reads_from_more, out_grows. exact IH3.
Qed.

(** The chunks of a file, counted from 1, and errors in a stream of [count] of them
    that are no worse than [n] tries can stand: what is sent with some repetitions
    arrives as the same chunks with some faults, which the CRC-32 tells. *)
Definition chunks (cs : Z) (content : list Z) (q : Z) : list Z := chunk_of cs content (q - 1).
Definition recoverable `{Crc} (chunk : Z -> list Z) (count n : Z) (errors : gmap nat Z) : Prop :=
  exists faults, faults_ok chunk count n faults /\ spoil errors (data_sent chunk faults 1 count) = data_heard chunk faults 1 count.

Lemma recoverable_clean `{Crc} chunk count n : 0 < n -> recoverable chunk count n ∅.
Proof.
  intros Hn. exists (fun _ => []). split; [constructor; [by intros q d _ ?%elem_of_nil|done]|].
  rewrite spoil_clean. apply along_ext. intros q _. unfold repeats, arrivals. cbn. apply app_nil_r.
Qed.

(** No call of either process goes wrong: every call gets a reply the code has no
    complaint about, the file that is sent is [content], the file that is written
    has its size, there is room for it, and the sockets are those of [n]. *)
Record smooth (n : channels) (content : list Z) (J : joint) : Prop := {
  sm_well : Forall goes_well (ours J ++ theirs J);
  sm_size : Forall (size_is (len content)) (ours J ++ theirs J);
  sm_room : ~ full_disk (len content) (theirs J);
  sm_dials : Forall (dials (ch_cntl n) (ch_send n)) (ours J);
  sm_listens : Forall (listens (ch_conn n) (ch_recv n)) (theirs J);
  sm_maps : Forall (maps content) (ours J)
}.

Lemma smooth_l n content J J' : smooth n content (J ++ J') -> smooth n content J.
Proof.
  intros [Hw Hs Hr Hd Hl Hm]. rewrite ours_app, theirs_app in *.
  repeat match goal with Hall : context [Forall _ (_ ++ _)] |- _ => rewrite Forall_app in Hall end.
  constructor; rewrite ?Forall_app; try tauto.
  intros (f & b & k & Hin & Hle). apply Hr. exists f, b, k. split; [apply elem_of_app; by left|done].
Qed.

Section together.
Context (H1 H2 : Host) `{Crc} (n : channels) (Hn : channels_ok n) (content : list Z) (Hb : bytes_ok content) (J : joint).
Context (c : InitConfig) (path rest : list Z) (st1 st2 : CntlAddrs) (s1 : pstate) (t1 : M unit) (s1' : pstate).
Context (Hsr : sender_ready (len content) path st1 st2 c) (Hmod : len content mod conf_chsize c <> 0)
  (Hca : carried (conf_addrs c))
  (Hs1 : p_conf s1 = c) (He1 : reaches posix (@push_file H1 _ (path ++ 0 :: rest) st1 st2, s1) (t1, s1'))
  (Ht1 : p_trace s1' = p_trace s1 ++ ours J).
Context (name : list Z) (st3 st4 : SendArgs) (s2 : pstate) (t2 : M unit) (s2' : pstate).
Context (Hrr : receiver_ready name st3 st4 (p_conf s2)) (Hdial : dialable (conf_addrs (p_conf s2)))
  (He2 : reaches posix (@pull_file H2 _ name st3 st4, s2) (t2, s2')) (Ht2 : p_trace s2' = p_trace s2 ++ theirs J).

Let count := len content / conf_chsize c + 1.
Let chunk := chunks (conf_chsize c) content.

Context (faults : Z -> list (list Z)).

(** Two configurations of the same transfer send the same. *)
Lemma chunk_count c1 : prepared (len content) c c1 -> conf_chcount c1 = count.
Proof using Type. intros Hpr. by rewrite (an_chcount _ (pr_announced _ _ _ Hpr)), (pr_size _ _ _ Hpr), (pr_chsize _ _ _ Hpr). Qed.

Lemma data_chunk c1 q :
  prepared (len content) c c1 -> mf_bytes (conf_mfile c1) = content -> 1 <= q <= count -> data_at c1 q = chunk q.
Proof using Type.
  intros Hpr Hmb Hq. pose proof (piece_chunk c1 content (q - 1) (pr_announced _ _ _ Hpr)) as Hp.
  rewrite Z.sub_add, (pr_size _ _ _ Hpr), (chunk_count _ Hpr), (pr_chsize _ _ _ Hpr) in Hp.
  unfold chunk, chunks. rewrite <- Hp by (done || lia). unfold data_at, chunk_bytes. by rewrite Hmb.
Qed.

Lemma same_data c1 : prepared (len content) c c1 -> mf_bytes (conf_mfile c1) = content ->
  data_sent (data_at c1) faults 1 count = data_sent chunk faults 1 count /\
  data_heard (data_at c1) faults 1 count = data_heard chunk faults 1 count.
Proof using Type.
  intros Hpr Hmb. split; apply along_ext; intros q Hq; unfold repeats, arrivals; rewrite data_chunk; try done; lia.
Qed.

Lemma same_turns c1 c2 a b :
  prepared (len content) c c1 -> mf_bytes (conf_mfile c1) = content ->
  prepared (len content) c c2 -> mf_bytes (conf_mfile c2) = content ->
  sent_turns H1 H2 c1 faults a b = sent_turns H1 H2 c2 faults a b.
Proof using Type.
  intros Hp1 Hm1 Hp2 Hm2. pose proof (chunk_count _ Hp1) as Hc1. pose proof (chunk_count _ Hp2) as Hc2.
  assert (Hps : conf_pchsize c1 = conf_pchsize c2).
  { by rewrite (an_pchsize _ (pr_announced _ _ _ Hp1)), (an_pchsize _ (pr_announced _ _ _ Hp2)), (pr_size _ _ _ Hp1),
      (pr_size _ _ _ Hp2), (pr_chsize _ _ _ Hp1), (pr_chsize _ _ _ Hp2). }
  assert (Hcs : conf_chsize c1 = conf_chsize c2) by (by rewrite (pr_chsize _ _ _ Hp1), (pr_chsize _ _ _ Hp2)).
  assert (Hss : conf_segsize c1 = conf_segsize c2) by (by rewrite (pr_segsize _ _ _ Hp1), (pr_segsize _ _ _ Hp2)).
  assert (Hsend : forall crc, send_bytes H1 c1 crc = send_bytes H1 c2 crc).
  { intros crc. unfold send_bytes. by rewrite Hcs, Hps, Hc1, Hc2, (pr_addrs _ _ _ Hp1), (pr_addrs _ _ _ Hp2). }
  unfold sent_turns, sent_until. rewrite !Hsend, Hm1, Hm2, Hc1, Hc2. do 2 f_equal. apply along_ext. intros q Hq.
  unfold sent_chunk, flow_bytes. rewrite !data_chunk, Hss by (done || lia). by rewrite (chunk_at_same c2 c1) by congruence.
Qed.

(** The sender's configuration has what the receiver needs. *)
Lemma sender_addrs c1 :
  prepared (len content) c c1 -> addrs_wf (conf_addrs c1) /\ carried (conf_addrs c1) /\ dialable (conf_addrs c1).
Proof using Hsr Hca.
  intros Hpr. rewrite (pr_addrs _ _ _ Hpr). split; [apply Hsr|]. split; [done|].
  apply (push_checks_dialable c), Hsr.
Qed.

Lemma partial_chunk c1 : prepared (len content) c c1 -> conf_pchsize c1 <> 0.
Proof using Hmod. intros Hpr. by rewrite (an_pchsize _ (pr_announced _ _ _ Hpr)), (pr_size _ _ _ Hpr), (pr_chsize _ _ _ Hpr). Qed.

Context (errors : gmap nat Z)
  (Hfa : faults_ok chunk count (Z.min (conf_tf_trycount c) (conf_tf_trycount (p_conf s2))) faults)
  (Herr : spoil errors (data_sent chunk faults 1 count) = data_heard chunk faults 1 count).
Context (Hsm : smooth n content J) (Hdv : delivers n errors J).

(** The script of the transfer, as a configuration [c0] of it sends it. *)
Context (c0 : InitConfig) (Hpr0 : prepared (len content) c c0) (Hmb0 : mf_bytes (conf_mfile c0) = content).

Let answers := answer_script H2 faults count.
Let stream := data_heard (data_at c0) faults 1 count.

Lemma sender_tries : forall q, 1 <= q <= count -> Z.of_nat (length (faults q)) < conf_tf_trycount c.
Proof using Hfa. intros q Hq. pose proof (fa_few _ _ _ _ Hfa q Hq). lia. Qed.

(** What the sender has said and read when it was told the answers, and what is to
    come. *)
Lemma sender_tells J1 J2 :
  J = J1 ++ J2 -> told (ch_cntl n) (ch_send n) content answers (ours J1) ->
  exists w, wire (ours J1) ++ w = asking (ch_cntl n) (sent_turns H1 H2 c0 faults (ch_cntl n) (ch_send n)).
Proof using All.
  intros HJ Htold. destruct Hn as [F1 F2 F3 F4 F5 F6].
  destruct (reaches_split _ _ (ours J1) (ours J2) He1) as ([t s] & He & Ht); [by rewrite <- ours_app, <- HJ|].
  destruct (sending_completes H1 H2 content _ _ faults c path rest st1 st2 s1 t s (ours J1) Hb F1 F2 F5 Hsr Hmod Hs1)
    as (c1 & s3 & post & Hpr & Hmb & _ & _ & _ & Hwire); [exact sender_tries|exact He|exact Ht|exact Htold|].
  exists (wire post). by rewrite <- wire_app, Hwire, (same_turns c1 c0).
Qed.

Lemma faults_here : faults_ok (data_at c0) (conf_chcount c0) (conf_tf_trycount (p_conf s2)) faults.
Proof using Hfa Hpr0 Hmb0.
  destruct Hfa as [Hbad Hfew]. rewrite chunk_count by done. constructor; intros q.
  - intros d Hq Hd. rewrite data_chunk by done. by apply Hbad.
  - intros Hq. specialize (Hfew q Hq). lia.
Qed.

Lemma sender_writes J1 J2 :
  J = J1 ++ J2 -> told (ch_cntl n) (ch_send n) content answers (ours J1) ->
  out_bytes (ch_cntl n) (wire (ours J1)) `prefix_of` script H1 c0 /\
  spoil errors (out_bytes (ch_send n) (wire (ours J1))) `prefix_of` stream.
Proof using All.
  intros HJ Htold. destruct (sender_tells _ _ HJ Htold) as [w Hw]. destruct Hn as [F1 F2 F3 F4 F5 F6].
  assert (Hss : 0 < conf_segsize c0) by apply (pr_announced _ _ _ Hpr0).
  rewrite <- (sent_turns_script H1 H2 c0 faults _ _ F5), <- Hw, out_bytes_app. split; [by eexists|].
  destruct (same_data c0 Hpr0 Hmb0) as [E1 E2]. unfold stream. rewrite E2, <- Herr, <- E1, <- (chunk_count _ Hpr0).
  rewrite <- (sent_turns_data H1 H2 c0 faults _ _ F5 Hss), <- Hw, out_bytes_app. apply spoil_prefix. by eexists.
Qed.

(** And the receiver when it heard the script and the data. *)
Lemma receiver_tells J1 J2 :
  J = J1 ++ J2 -> hears (ch_conn n) (ch_recv n) (len content) (script H1 c0) stream (theirs J1) ->
  exists w z, 0 < z /\ wire (theirs J1) ++ w = answering (ch_conn n) (heard_turns H1 H2 c0 faults (ch_conn n) (ch_recv n) z).
Proof using All.
  intros HJ Hh. destruct Hn as [F1 F2 F3 F4 F5 F6]. destruct (sender_addrs c0 Hpr0) as (Hwf0 & Hca0 & Hd0).
  destruct (reaches_split _ _ (theirs J1) (theirs J2) He2) as ([t s] & He & Ht); [by rewrite <- theirs_app, <- HJ|].
  destruct (receiving_completes H1 H2 content c0 faults (ch_conn n) (ch_recv n) name st3 st4 s2 t s (theirs J1)
    (pr_announced _ _ _ Hpr0) Hwf0 Hca0 Hd0 (partial_chunk _ Hpr0) Hb Hmb0 faults_here F3 F4 F6 Hrr Hdial He Ht)
    as (s3 & post & z & _ & _ & _ & Hz & Hwire); [by rewrite chunk_count|].
  exists (wire post), z. by rewrite <- wire_app, Hwire.
Qed.

Lemma receiver_writes J1 J2 :
  J = J1 ++ J2 -> hears (ch_conn n) (ch_recv n) (len content) (script H1 c0) stream (theirs J1) ->
  out_bytes (ch_conn n) (wire (theirs J1)) `prefix_of` answers.
Proof using All.
  intros HJ Hh. destruct (receiver_tells _ _ HJ Hh) as (w & z & _ & Hw). unfold answers. rewrite <- (chunk_count _ Hpr0).
  rewrite <- (heard_turns_answers H1 H2 c0 faults (ch_conn n) (ch_recv n) z), <- (answering_out (ch_conn n)) by apply heard_turns_asked.
  rewrite <- Hw, out_bytes_app. by eexists.
Qed.

(** So both have been told, and have heard, what they should, at every time. *)
Lemma joint_told J1 J2 :
  J = J1 ++ J2 ->
  told (ch_cntl n) (ch_send n) content answers (ours J1) /\
  hears (ch_conn n) (ch_recv n) (len content) (script H1 c0) stream (theirs J1).
Proof using All.
  revert J2. induction J1 as [|e J1 IH] using rev_ind; intros J2 HJ.
  { split; constructor; try by constructor.
    - split; [left; apply prefix_nil|]. by intros [|] ? ? ? ?.
    - by intros (? & ? & ? & ?%elem_of_nil & _).
    - split; [left; apply prefix_nil|]. by intros [|] ? ? ? ?.
    - left. apply prefix_nil. }
  assert (HJ1 : J = J1 ++ e :: J2) by (by rewrite HJ, <- app_assoc).
  destruct (IH _ HJ1) as [Htold Hhear]. destruct (sender_writes _ _ HJ1 Htold) as [Hs Hd].
  pose proof (receiver_writes _ _ HJ1 Hhear) as Ha.
  pose proof Hsm as Hsm1. rewrite HJ in Hsm1. apply smooth_l in Hsm1 as [Hw Hsize Hr Hdl Hl Hm].
  apply Forall_app in Hw as [Hw1 Hw2]. apply Forall_app in Hsize as [Hsz1 Hsz2].
  pose proof Hdv as Hdv1. rewrite HJ in Hdv1. apply delivers_l, delivers_reads in Hdv1 as (R1 & R2 & R3).
  rewrite ours_app, theirs_app in *. destruct e as [o|o]; cbn [ours theirs omap list_omap] in *; rewrite ?app_nil_r in *.
  - split; [|done]. constructor; try done. by eapply reads_follows.
  - split; [done|]. constructor; try done; [by eapply reads_follows|]. left. by etrans; [apply R2|].
Qed.

(** What is left of either does what the whole does. *)
Lemma sender_rest :
  wp (posix_while (hearing (told (ch_cntl n) (ch_send n) content answers) (p_trace s1)))
    (delivered H1 H2 c content (ch_cntl n) (ch_send n) faults (p_trace s1)) t1 s1'.
Proof using All.
  destruct (joint_told J [] ltac:(by rewrite app_nil_r)) as [Htold _]. pose proof Hn as [F1 F2 F3 F4 F5 F6].
  apply (hearing_reaches _ _ _ _ _ _ _ (told_l _ _ _ _) He1 Ht1 Htold), push_file_told; try done.
  exact sender_tries.
Qed.

Lemma receiver_rest :
  wp (posix_while (hearing (hears (ch_conn n) (ch_recv n) (len content) (script H1 c0) stream) (p_trace s2)))
    (received H1 H2 c0 faults (p_trace s2) (ch_conn n) (ch_recv n) (fun o => o = Val tt)) t2 s2'.
Proof using All.
  destruct (joint_told J [] ltac:(by rewrite app_nil_r)) as [_ Hhear]. pose proof Hn as [F1 F2 F3 F4 F5 F6].
  destruct (sender_addrs c0 Hpr0) as (Hwf0 & Hca0 & Hd0). pose proof Hrr as [Hst3 Hst4 _ _ _ _ _ _].
  apply (hearing_reaches _ _ _ _ _ _ _ (hears_l _ _ _ _ _) He2 Ht2 Hhear).
  pose proof (pull_file_well H1 H2 c0 (pr_announced _ _ _ Hpr0) Hwf0 Hca0 Hd0 (partial_chunk _ Hpr0) st3 st4 Hst3 Hst4
    _ faults faults_here (p_trace s2) (ch_conn n) (ch_recv n) F6 name (p_conf s2) s2 eq_refl eq_refl Hrr eq_refl Hdial) as Hwp.
  by rewrite (pr_size _ _ _ Hpr0), (chunk_count _ Hpr0) in Hwp.
Qed.

(** When both have returned, all is well. *)
Lemma joint_well o1 o2 :
  observe t1 = RetF o1 -> observe t2 = RetF o2 ->
  o1 = Val tt /\ o2 = Val tt /\
  mf_bytes (conf_mfile (p_conf s1')) = content /\ mf_bytes (conf_mfile (p_conf s2')) = content.
Proof using All.
  intros E1 E2. destruct (wp_returned _ _ _ _ _ sender_rest E1) as (-> & _ & _ & _ & _ & _ & Hsent & _).
  destruct (wp_returned _ _ _ _ _ receiver_rest E2) as (-> & Hgot & _). split_and!; [done|done|done|]. by rewrite Hgot.
Qed.
End together.

(** A configuration of the sender's transfer. *)
Lemma sender_start (H1 H2 : Host) `{Crc} n content c path (rest : list Z) st1 st2 s (faults : Z -> list (list Z)) :
  channels_ok n -> bytes_ok content -> sender_ready (len content) path st1 st2 c ->
  len content mod conf_chsize c <> 0 -> p_conf s = c ->
  (forall q, 1 <= q <= len content / conf_chsize c + 1 -> Z.of_nat (length (faults q)) < conf_tf_trycount c) ->
  exists c0, prepared (len content) c c0 /\ mf_bytes (conf_mfile c0) = content.
Proof.
  intros [F1 F2 _ _ F5 _] Hb Hsr Hmod Hs Hfew.
  destruct (sending_completes H1 H2 content _ _ faults c path rest st1 st2 s (push_file (H := H1) (path ++ 0 :: rest) st1 st2) s []
    Hb F1 F2 F5 Hsr Hmod Hs Hfew) as (c0 & _ & _ & Hpr & Hmb & _); [apply rtc_refl|by rewrite app_nil_r| |by exists c0].
  constructor; try by constructor. split; [left; apply prefix_nil|]. by intros [|] ? ? ? ?.
Qed.

(** Two processes that run together over a network that spoils the data so. *)
Lemma joint_succeeds (H1 H2 : Host) `{Crc} n content errors J c path rest st1 st2 s1 o1 s1' name st3 st4 s2 o2 s2' :
  channels_ok n -> bytes_ok content -> sender_ready (len content) path st1 st2 c ->
  len content mod conf_chsize c <> 0 -> carried (conf_addrs c) ->
  p_conf s1 = c -> exec posix (@push_file H1 _ (path ++ 0 :: rest) st1 st2) s1 o1 s1' ->
  p_trace s1' = p_trace s1 ++ ours J ->
  receiver_ready name st3 st4 (p_conf s2) -> dialable (conf_addrs (p_conf s2)) ->
  exec posix (@pull_file H2 _ name st3 st4) s2 o2 s2' -> p_trace s2' = p_trace s2 ++ theirs J ->
  recoverable (chunks (conf_chsize c) content) (len content / conf_chsize c + 1)
    (Z.min (conf_tf_trycount c) (conf_tf_trycount (p_conf s2))) errors ->
  smooth n content J -> delivers n errors J ->
  o1 = Val tt /\ o2 = Val tt /\
  mf_bytes (conf_mfile (p_conf s1')) = content /\ mf_bytes (conf_mfile (p_conf s2')) = content.
Proof.
  intros Hn Hb Hsr Hmod Hca Hs1 He1 Ht1 Hrr Hdial He2 Ht2 (faults & Hfa & Herr) Hsm Hdv.
  destruct (exec_steps _ _ _ _ _ He1) as (t1 & Hr1 & Ho1). destruct (exec_steps _ _ _ _ _ He2) as (t2 & Hr2 & Ho2).
  destruct (sender_start H1 H2 n content c path rest st1 st2 s1 faults) as (c0 & Hpr0 & Hmb0); try done.
  { intros q Hq. pose proof (fa_few _ _ _ _ Hfa q Hq). lia. }
  by eapply (joint_well H1 H2 n Hn content Hb J c path rest st1 st2 s1 t1 s1' Hsr Hmod Hca Hs1 Hr1 Ht1
      name st3 st4 s2 t2 s2' Hrr Hdial Hr2 Ht2 faults errors Hfa Herr Hsm Hdv c0 Hpr0 Hmb0).
Qed.

(** ** Concrete interleavings *)

#[export] Instance goes_well_dec o : Decision (goes_well o).
Proof. unfold goes_well. apply _. Defined.
#[export] Instance size_is_dec sz o : Decision (size_is sz o).
Proof. destruct o as [X e x]. unfold size_is. destruct e; cbn; apply _. Defined.
#[export] Instance dials_dec cntl data o : Decision (dials cntl data o).
Proof. destruct o as [X e x]. unfold dials. destruct e; cbn; apply _. Defined.
#[export] Instance listens_dec conn data o : Decision (listens conn data o).
Proof. destruct o as [X e x]. unfold listens. destruct e; cbn; try apply _. destruct (_ =? _); apply _. Defined.
#[export] Instance brings_dec bytes past o : Decision (brings bytes past o).
Proof. destruct o as [X e x]. unfold brings. destruct e; cbn; apply _. Defined.
#[export] Instance maps_dec content o : Decision (maps content o).
Proof.
  destruct o as [X e x]. unfold maps. destruct e; cbn; try apply _.
  destruct x as [b|]; [|by left]. destruct (decide (len (map_bytes b) = len content -> map_bytes b = content)) as [Hm|Hm].
  - left. by intros b' [= <-].
  - right. intros Hall. by apply Hm, Hall.
Defined.
#[export] Instance carries_dec n errors J e : Decision (carries n errors J e).
Proof. destruct e as [o|o]; apply _. Defined.

Fixpoint deliversb (n : channels) (errors : gmap nat Z) (past J : joint) : bool :=
  match J with
  | [] => true
  | e :: J => bool_decide (carries n errors past e) && deliversb n errors (past ++ [e]) J
  end.

Lemma deliversb_ok n errors past J : delivers n errors past -> deliversb n errors past J = true -> delivers n errors (past ++ J).
Proof.
  revert past. induction J as [|e J IH]; intros past Hp; cbn [deliversb]; [by rewrite app_nil_r|].
  intros [Hc%bool_decide_eq_true Hd]%andb_prop. change (e :: J) with ([e] ++ J). rewrite app_assoc.
  apply IH; [by constructor|done].
Qed.

Definition statvfs_event X (e : sysE X) : X -> list (Z * Z) :=
  match e in sysE X return X -> list (Z * Z) with
  | Fstatvfs _ => fun r => [snd r]
  | _ => fun _ => []
  end.

Definition smoothb (n : channels) (content : list Z) (l r : list obs) : bool :=
  bool_decide (Forall goes_well (l ++ r)) && bool_decide (Forall (size_is (len content)) (l ++ r)) &&
  bool_decide (Forall (fun p => len content < size_t (p.1 * p.2)) (gather statvfs_event r)) &&
  bool_decide (Forall (dials (ch_cntl n) (ch_send n)) l) && bool_decide (Forall (listens (ch_conn n) (ch_recv n)) r) &&
  bool_decide (Forall (maps content) l).

Lemma smoothb_ok n content J : smoothb n content (ours J) (theirs J) = true -> smooth n content J.
Proof.
  unfold smoothb. rewrite !andb_true_iff, !bool_decide_eq_true. intros (((((Hw & Hs) & Hr) & Hd) & Hl) & Hm).
  constructor; try done. intros (f & b & k & Hin & Hle). rewrite Forall_forall in Hr.
  specialize (Hr (b, k)). cbn in Hr. pose proof (Hr ltac:(eapply gather_in; [exact Hin|in_list])). lia.
Qed.

(** Two lists of calls interleaved: [true] takes the sender's next call. *)
Fixpoint interleave (choices : list bool) (l r : list obs) : joint :=
  match choices, l, r with
  | true :: choices, o :: l, r => inl o :: interleave choices l r
  | false :: choices, l, o :: r => inr o :: interleave choices l r
  | _, l, r => (inl <$> l) ++ (inr <$> r)
  end.

Lemma ours_rest l r : ours ((inl <$> l) ++ (inr <$> r)) = l.
Proof.
  rewrite ours_app. replace (ours (inr <$> r)) with (@nil obs) by (by induction r). rewrite app_nil_r.
  induction l as [|o l IH]; cbn; [done|]. by f_equal.
Qed.
Lemma theirs_rest l r : theirs ((inl <$> l) ++ (inr <$> r)) = r.
Proof.
  rewrite theirs_app. replace (theirs (inl <$> l)) with (@nil obs) by (by induction l).
  induction r as [|o r IH]; cbn; [done|]. by f_equal.
Qed.
Lemma interleave_ours choices l r : ours (interleave choices l r) = l.
Proof.
  revert l r. induction choices as [|[|] choices IH]; intros l r; [apply ours_rest|..].
  - destruct l as [|o l]; [apply ours_rest|]. cbn. f_equal. apply IH.
  - destruct r as [|o r]; [destruct l; apply ours_rest|]. destruct l; cbn; apply IH.
Qed.
Lemma interleave_theirs choices l r : theirs (interleave choices l r) = r.
Proof.
  revert l r. induction choices as [|[|] choices IH]; intros l r; [apply theirs_rest|..].
  - destruct l as [|o l]; [apply theirs_rest|]. cbn. apply IH.
  - destruct r as [|o r]; [destruct l; apply theirs_rest|]. destruct l; cbn; f_equal; apply IH.
Qed.

(** A schedule: the sender goes first, whenever the network can. *)
Fixpoint schedule (fuel : nat) (n : channels) (errors : gmap nat Z) (past : joint) (l r : list obs) : list bool :=
  match fuel, l, r with
  | S fuel, o :: l', r =>
      if bool_decide (carries n errors past (inl o)) then true :: schedule fuel n errors (past ++ [inl o]) l' r
      else match r with
           | o' :: r' => false :: schedule fuel n errors (past ++ [inr o']) l r'
           | [] => []
           end
  | _, _, _ => []
  end.

(** ** The theorem *)

(** C3: two processes over a network, their calls interleaved in any order: if no
    call of either goes wrong (in particular the files have the announced size and
    nobody times out), the network delivers what it delivers in order, each receive
    reading what the other side has sent by then, and it changes bytes of the data
    at the places [errors] only, so that the CRC-32 tells every chunk that arrives
    spoiled and no chunk arrives spoiled as often as there are tries, then
    [push_file] and [pull_file] both return [SUCCESS], and the file received is the
    file sent, byte for byte: the receiver refuses the spoiled chunks, and the
    sender repeats them.  The file's size is less than 2^32 and not a multiple of the
    chunk size, both configurations are ones that the functions accept, the machines may have different byte orders, and the strings must survive the
    information string: no colon in the file name, no at sign in the user name ([carried]). *)
Theorem transfer_succeeds (H1 H2 : Host) `{Crc} n content errors J c path rest st1 st2 s1 o1 s1' name st3 st4 s2 o2 s2' :
  channels_ok n -> bytes_ok content -> sender_ready (len content) path st1 st2 c ->
  len content mod conf_chsize c <> 0 -> carried (conf_addrs c) ->
  p_conf s1 = c -> exec posix (@push_file H1 _ (path ++ 0 :: rest) st1 st2) s1 o1 s1' ->
  p_trace s1' = p_trace s1 ++ ours J ->
  receiver_ready name st3 st4 (p_conf s2) -> dialable (conf_addrs (p_conf s2)) ->
  exec posix (@pull_file H2 _ name st3 st4) s2 o2 s2' -> p_trace s2' = p_trace s2 ++ theirs J ->
  recoverable (chunks (conf_chsize c) content) (len content / conf_chsize c + 1)
    (Z.min (conf_tf_trycount c) (conf_tf_trycount (p_conf s2))) errors ->
  smooth n content J -> delivers n errors J ->
  o1 = Val tt /\ o2 = Val tt /\
  mf_bytes (conf_mfile (p_conf s1')) = content /\ mf_bytes (conf_mfile (p_conf s2')) = content.
Proof. apply joint_succeeds. Qed.
