(* ===== verification/Threads.v ===== *)
(** * The receiver and its broadcasting thread (source/rufshare.c, puller.c)

    [pull_file] starts a thread that runs [broadcast] on the configuration the
    reception itself works on.  Of that configuration the thread writes one field,
    [cast_sock], and the reception reads that field once, to close the socket.  So
    the thread, wherever its calls fall between those of the reception, changes
    nothing of it but which descriptor is closed: what the theorems on [pull_file]
    say, they say of a [pull_file] with its thread.

    The threads take turns ([thread_step]); a turn is a call, a read or a write of
    [*conf], or a silent step of the program.  The reduction to a receiver alone
    goes through [shared], the environment in which [cast_sock] may change before
    any call, and [once], the programs that look at that field at most once. *)
From Stdlib Require Import Eqdep.
From stdpp Require Import relations.
From S2P Require Import Prelude Protocol Types Sys Prefix Wire Utils Error Mfile NetStream FileStream Cntl Data Pusher Puller Broadcast Rufshare Session Delivery Hearing Answered Joint.

(** ** Properties of all the calls of a program

    [always ok t]: every call [e] that [t] can come to, and what follows it, satisfy
    [ok]. *)
Definition call_prop : Type := forall A X, sysE X -> (X -> itree sysE A) -> Prop.

Definition step_of {A} (ok : call_prop) (Rel : itree sysE A -> Prop) (t : itree' sysE A) : Prop :=
  match t with
  | RetF _ => True
  | TauF u => Rel u
  | VisF e k => ok A _ e k /\ forall x, Rel (k x)
  end.

Definition always {A} (ok : call_prop) (t : itree sysE A) : Prop :=
  exists Rel : itree sysE A -> Prop, Rel t /\ forall u, Rel u -> step_of ok Rel (observe u).

(** What follows a call may be followed by more. *)
Class Extends (ok : call_prop) : Prop :=
  extends A B X (e : sysE X) (k : X -> itree sysE A) (h : A -> itree sysE B) :
    ok A X e k -> ok B X e (fun x => ITree.bind (k x) h).

Lemma step_of_mono {A} (ok : call_prop) (Rel Rel' : itree sysE A -> Prop) t :
  (forall u, Rel u -> Rel' u) -> step_of ok Rel t -> step_of ok Rel' t.
Proof. intros HR. destruct t; cbn; [done|apply HR|]. intros [Hok Hk]. auto. Qed.

Section sys.
Context {X A : Type} (e : sysE X) (k : X -> M A).

Definition answer (x : X) : M A := ITree.bind (ITree.bind (Ret x) (fun x => Ret (Val x))) (after k).
Lemma observe_sys : observe (sys e ≫= k) = VisF e answer.
Proof using Type. reflexivity. Qed.
Lemma observe_answer x : observe (answer x) = observe (k x).
Proof using Type. reflexivity. Qed.
End sys.

Section always.
Context (ok : call_prop) `{!Extends ok}.

Lemma always_step {A} (t : itree sysE A) : always ok t -> step_of ok (always ok) (observe t).
Proof using Type.
  intros (Rel & Ht & HR). eapply step_of_mono; [|by apply HR]. intros u Hu. by exists Rel.
Qed.

Lemma always_fold {A} (t : itree sysE A) : step_of ok (always ok) (observe t) -> always ok t.
Proof using Type.
  intros Hs. exists (fun u => u = t \/ always ok u). split; [by left|]. intros u [->|Hu].
  - eapply step_of_mono; [|exact Hs]. auto.
  - eapply step_of_mono; [|by apply always_step]. auto.
Qed.

Lemma always_observe {A} (t u : itree sysE A) : observe u = observe t -> always ok t -> always ok u.
Proof using Type. intros He Ht. apply always_fold. rewrite He. by apply always_step. Qed.

Lemma always_ret {A} (a : A) : always ok (Ret a).
Proof using Type. by apply always_fold. Qed.

Lemma always_bind {A B} (t : itree sysE A) (k : A -> itree sysE B) :
  always ok t -> (forall a, always ok (k a)) -> always ok (ITree.bind t k).
Proof using All.
  intros Ht Hk. exists (fun u => always ok u \/ exists m, u = ITree.bind m k /\ always ok m).
  split; [right; by exists t|]. intros u [Hu|(m & -> & Hm)].
  - eapply step_of_mono; [|by apply always_step]. auto.
  - rewrite observe_bind. pose proof (always_step _ Hm) as Hs. destruct (observe m) as [a|v|X e h]; cbn in *.
    + eapply step_of_mono; [|by apply always_step]. auto.
    + right. by exists v.
    + destruct Hs as [Hok Hh]. split; [by apply extends|]. intros x. right. by exists (h x).
Qed.

Lemma always_iter {A B} (body : A -> itree sysE (A + B)) x :
  (forall x, always ok (body x)) -> always ok (ITree.iter body x).
Proof using All.
  intros Hb. set (K := fun lr : A + B => match lr with inl l => Tau (ITree.iter body l) | inr r => Ret r end).
  exists (fun u => exists m, observe u = observe (ITree.bind m K) /\ always ok m).
  split; [by exists (body x)|]. intros u (m & -> & Hm). rewrite observe_bind. pose proof (always_step _ Hm) as Hs.
  destruct (observe m) as [[l|r]|v|X e h]; cbn in *; [by exists (body l)|done|by exists v|].
  destruct Hs as [Hok Hh]. split; [by apply extends|]. intros y. by exists (h y).
Qed.

(** The program monad. *)
Lemma always_mbind {A B} (m : M A) (k : A -> M B) :
  always ok m -> (forall a, always ok (k a)) -> always ok (m ≫= k).
Proof using All. intros Hm Hk. apply always_bind; [done|]. intros [a|st|c|]; [apply Hk|apply always_ret..]. Qed.

Lemma always_mret {A} (a : A) : always ok (mret a : M A).
Proof using Type. apply always_ret. Qed.
Lemma always_fail {A} st : always ok (fail st : M A).
Proof using Type. apply always_ret. Qed.
Lemma always_exit {A} c : always ok (exit c : M A).
Proof using Type. apply always_ret. Qed.
Lemma always_undef {A} : always ok (undef : M A).
Proof using Type. apply always_ret. Qed.
Lemma always_defined {A} (o : option A) : always ok (defined o).
Proof using Type. destruct o; apply always_ret. Qed.

Lemma always_sys {X} (e : sysE X) :
  (forall A (k : X -> itree sysE A), ok A X e k) -> always ok (sys e).
Proof using All.
  intros Hok. apply always_fold. cbn. split; [apply Hok|]. intros x. apply always_bind; [apply always_ret|].
  intros a. apply always_ret.
Qed.

Lemma always_status_of (m : M unit) : always ok m -> always ok (status_of m).
Proof using All. intros Hm. apply always_bind; [done|]. intros [a|st|c|]; apply always_ret. Qed.

Lemma always_free_on_fail {A} (m : M A) : always ok m -> always ok (sys Free) -> always ok (free_on_fail m).
Proof using All.
  intros Hm Hf. apply always_bind; [done|]. intros [a|st|c|]; try apply always_ret.
  apply always_mbind; [done|]. intros _. apply always_fail.
Qed.

Lemma always_loop {St A} (body : St -> M (St + A)) x : (forall x, always ok (body x)) -> always ok (loop body x).
Proof using All.
  intros Hb. apply always_iter. intros y. apply always_bind; [apply Hb|].
  intros [[l|r]|st|c|]; apply always_ret.
Qed.
End always.

(** ** Programs that do not look at [cast_sock] *)

Definition recast (v : Z) (c : InitConfig) : InitConfig := set_sock cast_sock v c.
Definition recasts (v : Z) (s : pstate) : pstate := with_conf (recast v) s.

Lemma recast_self c : recast (conf_cast_sock c) c = c.
Proof. by destruct c. Qed.
Lemma recast_twice v w c : recast v (recast w c) = recast v c.
Proof. reflexivity. Qed.

(** What a program does after it has read [*conf] does not depend on the field,
    and what it writes leaves the field as it is. *)
Definition unseen : call_prop := fun A X e =>
  match e in sysE X return (X -> itree sysE A) -> Prop with
  | GetConf => fun k => forall c v, observe (k (recast v c)) = observe (k c)
  | SetConf f => fun _ => forall c v, recast v (f c) = f (recast v c)
  | _ => fun _ => True
  end.
#[export] Instance unseen_extends : Extends unseen.
Proof.
  intros A B X e k h. destruct e; cbn; try done. intros Hk c v. by rewrite !observe_bind, Hk.
Qed.
#[warnings="-notation-for-abbreviation"] Notation blind := (always unseen) (only parsing).

Lemma blind_get {A} (k : InitConfig -> M A) :
  (forall c, blind (k c)) -> (forall c v, k (recast v c) = k c) -> blind (sys GetConf ≫= k).
Proof.
  intros Hk He. apply always_fold. rewrite observe_sys. split.
  - intros c v. by rewrite !observe_answer, He.
  - intros c. apply (always_observe _ (k c)); [by rewrite observe_answer|apply Hk].
Qed.

Lemma blind_set f : (forall c v, recast v (f c) = f (recast v c)) -> blind (sys (SetConf f)).
Proof. intros Hf. apply always_sys; [apply _|]. intros A k. exact Hf. Qed.

Lemma blind_call {X} (e : sysE X) : is_conf e = false -> blind (sys e).
Proof. intros He. apply always_sys; [apply _|]. by destruct e. Qed.

(** A property of all the calls follows the program; [leaf] proves it of the uses
    of [*conf]. *)
Create HintDb threads.
Ltac program_step leaf :=
  match goal with
  | |- always _ (match ?x with _ => _ end) => destruct x
  | |- always _ (mret _) => apply always_mret
  | |- always _ (fail _) => apply always_fail
  | |- always _ (exit _) => apply always_exit
  | |- always _ undef => apply always_undef
  | |- always _ (defined _) => apply always_defined
  | _ => leaf
  | |- always _ (status_of _) => apply always_status_of; [apply _|]
  | |- always _ (loop _ _) => apply always_loop; [apply _|intros ?]
  | |- always _ (free_on_fail _) => apply always_free_on_fail; [apply _| |]
  | |- always _ (_ ≫= _) => apply always_mbind; [apply _| |intros ?]
  | |- always _ (tryexec _) => rewrite tryexec_reports; unfold raise
  | |- always _ (CHECK_STAT _) => unfold CHECK_STAT
  | |- always _ (CHECK_SSTAT _) => unfold CHECK_SSTAT
  | |- always _ (CHECK_EQUAL _ _ _) => unfold CHECK_EQUAL
  | |- always _ (CHECK_NOTEQUAL _ _ _) => unfold CHECK_NOTEQUAL
  | |- always _ (CHECK_INT _ _) => unfold CHECK_INT
  | |- always _ (CHECK_PTR _ _) => unfold CHECK_PTR
  | |- always _ (CHECK_SIZE _ _) => unfold CHECK_SIZE
  | |- always _ (CHECK_IPV4 _) => unfold CHECK_IPV4
  | |- always _ (CHECK_PORT _) => unfold CHECK_PORT
  | |- always _ (CHECK_MFILE _) => unfold CHECK_MFILE
  | |- always _ (CHECK_THREAD _) => unfold CHECK_THREAD
  end.
Ltac blind_leaf :=
  idtac; match goal with
  | |- always _ (sys GetConf ≫= _) => apply blind_get; [intros ?; cbn beta|intros ? ?; reflexivity]
  | |- always _ (sys (SetConf _)) => apply blind_set; intros ? ?; reflexivity
  | |- always _ (sys _) => apply blind_call; reflexivity
  end.
Ltac blind_go := repeat first [solve [auto with threads]|program_step blind_leaf].

Section programs.
Context `{Host} `{Crc}.

Lemma blind_deref sock : sock <> cast_sock -> blind (deref sock).
Proof. intros Hs. unfold deref. destruct sock; try done; blind_go. Qed.
Lemma blind_set_sock sock fd : sock <> cast_sock -> blind (sys (SetConf (set_sock sock fd))).
Proof. intros Hs. destruct sock; try done; blind_go. Qed.
#[local] Hint Resolve blind_deref blind_set_sock : threads.

Lemma blind_init_tcp_socket sock a b c d e : sock <> cast_sock -> blind (init_tcp_socket sock a b c d e).
Proof. intros Hs. unfold init_tcp_socket, network_byteorder. blind_go. Qed.
Lemma blind_init_udp_socket sock a b c d e : sock <> cast_sock -> blind (init_udp_socket sock a b c d e).
Proof. intros Hs. unfold init_udp_socket, network_byteorder. blind_go. Qed.
Lemma blind_accept sock fd timeout : sock <> cast_sock -> blind (accept_new_connection sock fd timeout).
Proof. intros Hs. unfold accept_new_connection, host_ipstring. blind_go. Qed.
Lemma blind_close_socket sock : blind (close_socket sock).
Proof. unfold close_socket. blind_go. Qed.
#[local] Hint Resolve blind_init_tcp_socket blind_init_udp_socket blind_accept blind_close_socket : threads.

Lemma blind_start_cntl sock conn : sock <> cast_sock -> blind (start_cntl sock conn).
Proof. intros Hs. unfold start_cntl. blind_go. Qed.
Lemma blind_accept_cntl sock fd timeout : sock <> cast_sock -> blind (accept_cntl sock fd timeout).
Proof. apply blind_accept. Qed.
Lemma blind_pull_tcp_data sock buf size peek : blind (pull_tcp_data sock buf size peek).
Proof. unfold pull_tcp_data. blind_go. Qed.
#[local] Hint Resolve blind_pull_tcp_data : threads.
Lemma blind_poll_in sock timeout type : blind (poll_in sock timeout type).
Proof. unfold poll_in. blind_go. Qed.
#[local] Hint Resolve blind_poll_in : threads.
Lemma blind_pull_SEND_header sock args timeout : blind (pull_SEND_header sock args timeout).
Proof. unfold pull_SEND_header. blind_go. Qed.
Lemma blind_pull_FLOW_header sock timeout : blind (pull_FLOW_header sock timeout).
Proof. unfold pull_FLOW_header. blind_go. Qed.
Lemma blind_push_RECV_header sock args timeout : blind (push_RECV_header sock args timeout).
Proof. unfold push_RECV_header, poll_out, push_tcp_data. blind_go. Qed.
#[local] Hint Resolve blind_pull_SEND_header blind_pull_FLOW_header blind_push_RECV_header : threads.
Lemma blind_push_ack ack seq timeout : blind (push_ack ack seq timeout).
Proof. unfold push_ack. blind_go. Qed.
#[local] Hint Resolve blind_push_ack : threads.

Lemma blind_start_file_stream path mode : blind (start_file_stream path mode).
Proof. unfold start_file_stream, create_file, mfopen, set_filec. blind_go. Qed.
#[local] Hint Resolve blind_start_file_stream : threads.
Lemma blind_pull_handshake name stack : blind (pull_handshake name stack).
Proof. unfold pull_handshake, set_filec. blind_go. Qed.
Lemma blind_start_data sock : sock <> cast_sock -> blind (start_data sock).
Proof. intros Hs. unfold start_data. blind_go. Qed.

Lemma blind_on_mfile {A} (f : MFILE -> option (A * MFILE)) : blind (on_mfile f).
Proof. unfold on_mfile. blind_go. Qed.
#[local] Hint Resolve blind_on_mfile : threads.
Lemma blind_pull_udp_data sock buf size : blind (pull_udp_data sock buf size).
Proof. unfold pull_udp_data. blind_go. Qed.
#[local] Hint Resolve blind_pull_udp_data : threads.
Lemma blind_pull_chunk_data sock chunk timeout : blind (pull_chunk_data sock chunk timeout).
Proof. unfold pull_chunk_data, set_socket_rcvlowsize, pull_segment, mfsync. blind_go. Qed.
#[local] Hint Resolve blind_pull_chunk_data : threads.
Lemma blind_pull_transfer : blind pull_transfer.
Proof. unfold pull_transfer, pull_one_chunk, pull_chunk_try. blind_go. Qed.
Lemma blind_pull_verification stack : blind (pull_verification stack).
Proof. unfold pull_verification. blind_go. Qed.
Lemma blind_end_file_stream : blind end_file_stream.
Proof. unfold end_file_stream, mfclose. blind_go. Qed.
End programs.

(** ** In the company of a thread that writes [cast_sock]

    In [shared R], each call happens after the other thread has written any number
    of times. *)
Definition shared (R : env pstate) : env pstate :=
  fun X e s x s' => exists v, R X e (recasts v s) x s'.

Lemma recasts_twice v w s : recasts v (recasts w s) = recasts v s.
Proof. reflexivity. Qed.
Lemma recasts_self s : recasts (conf_cast_sock (p_conf s)) s = s.
Proof. destruct s. unfold recasts, with_conf. cbn. by rewrite recast_self. Qed.
Lemma recasts_logged {X} v (e : sysE X) x s : recasts v (logged e x s) = logged e x (recasts v s).
Proof. reflexivity. Qed.

(** A call of such a program, made in company, could as well have been made alone,
    whatever the field holds. *)
Lemma unseen_step {A X} (e : sysE X) (k : X -> itree sysE A) s x s1 v :
  unseen A X e k -> shared posix X e s x s1 ->
  exists x', posix X e (recasts v s) x' (recasts v s1) /\ observe (k x') = observe (k x).
Proof.
  intros Hok [w Hx]. destruct (is_conf e) eqn:Ec.
  - destruct e; try discriminate Ec; cbn in Hok, Hx.
    + destruct Hx as [-> ->]. exists (recast v (p_conf s)). split; [by rewrite recasts_twice|].
      by rewrite Hok, (Hok (p_conf s) w).
    + subst s1. exists x. split; [|done]. cbn. unfold recasts, with_conf. cbn. f_equal. by rewrite !Hok.
  - apply posix_call in Hx as [Hx ->]; [|done]. exists x. split; [|done].
    apply posix_call; [done|]. split; [done|]. by rewrite recasts_logged.
Qed.

Lemma exec_observe {S A} (R : env S) (t u : itree sysE A) s a s' :
  observe u = observe t -> exec R t s a s' -> exec R u s a s'.
Proof.
  intros Ho He. revert Ho. destruct He as [? ? ? Hob|? ? ? ? ? Hob He|? ? ? ? ? ? ? ? ? Hob Hx He];
    intros Ho; rewrite Hob in Ho; [by constructor|by eapply exec_tau|by eapply exec_vis].
Qed.

(** So could all its calls. *)
Lemma blind_exec {A} (t : itree sysE A) s a s' v :
  blind t -> exec (shared posix) t s a s' -> exec posix t (recasts v s) a (recasts v s').
Proof.
  intros Hb He. revert Hb. induction He as [t s a Hob|t u s a s' Hob He IH|X e k x t s s1 a s' Hob Hx He IH]; intros Hb;
    apply (always_step unseen) in Hb; rewrite Hob in Hb.
  - by constructor.
  - eapply exec_tau; [done|by apply IH].
  - destruct Hb as [Hok Hk]. destruct (unseen_step e k s x s1 v Hok Hx) as (x' & Hx' & Hkx).
    eapply exec_vis; [exact Hob|exact Hx'|]. by apply (exec_observe _ (k x)), IH.
Qed.

(** A program that looks at the field once: at one of its reads of [*conf], what
    follows may depend on the field, and does not look at it again. *)
Definition seen_once : call_prop := fun A X e =>
  match e in sysE X return (X -> itree sysE A) -> Prop with
  | GetConf => fun k => unseen A _ GetConf k \/ forall c, blind (k c)
  | e => unseen A _ e
  end.
#[warnings="-notation-for-abbreviation"] Notation once := (always seen_once) (only parsing).

Lemma unseen_once A X e k : unseen A X e k -> seen_once A X e k.
Proof. destruct e; cbn; auto. Qed.

Lemma once_step {A X} (e : sysE X) (k : X -> itree sysE A) :
  seen_once A X e k -> unseen A X e k \/ (is_conf e = true /\ forall x, blind (k x)).
Proof. destruct e; cbn; auto. intros [?|?]; auto. Qed.

Lemma once_conf {A X} (e : sysE X) (k : X -> itree sysE A) v s x s1 :
  seen_once A X e k -> is_conf e = true -> posix X e (recasts v s) x s1 -> posix X e (recasts v s) x (recasts v s1).
Proof.
  intros Hok Hc Hx. destruct e; try discriminate Hc; cbn in Hx |- *; [by destruct Hx as [-> ->]|].
  subst s1. cbn in Hok. unfold recasts, with_conf. cbn. by rewrite !Hok.
Qed.

Lemma blind_once {A} (t : itree sysE A) : blind t -> once t.
Proof.
  intros (Rel & Ht & HR). exists Rel. split; [done|]. intros u Hu. specialize (HR u Hu).
  destruct (observe u); cbn in *; [done..|]. destruct HR as [Hok Hk]. split; [by apply unseen_once|done].
Qed.

Lemma once_bind {A B} (t : itree sysE A) (k : A -> itree sysE B) :
  blind t -> (forall a, once (k a)) -> once (ITree.bind t k).
Proof.
  intros Ht Hk. exists (fun u => once u \/ exists m, u = ITree.bind m k /\ blind m).
  split; [right; by exists t|]. intros u [Hu|(m & -> & Hm)].
  - eapply step_of_mono; [|by apply (always_step seen_once)]. auto.
  - rewrite observe_bind. pose proof (always_step _ _ Hm) as Hs. destruct (observe m) as [a|v|X e h]; cbn in *.
    + eapply step_of_mono; [|by apply (always_step seen_once)]. auto.
    + right. by exists v.
    + destruct Hs as [Hok Hh]. split; [by apply unseen_once, extends|]. intros x. right. by exists (h x).
Qed.

Lemma once_then {A B} (t : itree sysE A) (k : A -> itree sysE B) :
  once t -> (forall a, blind (k a)) -> once (ITree.bind t k).
Proof.
  intros Ht Hk. exists (fun u => once u \/ exists m, u = ITree.bind m k /\ once m).
  split; [right; by exists t|]. intros u [Hu|(m & -> & Hm)].
  - eapply step_of_mono; [|by apply (always_step seen_once)]. auto.
  - rewrite observe_bind. pose proof (always_step _ _ Hm) as Hs. destruct (observe m) as [a|v|X e h]; cbn in *.
    + eapply step_of_mono; [|apply (always_step seen_once), blind_once, Hk]. auto.
    + right. by exists v.
    + destruct Hs as [Hok Hh]. split; [|intros x; right; by exists (h x)].
      destruct (once_step e h Hok) as [Hu|[Hc Hb]]; [by apply unseen_once, extends|].
      destruct e; try discriminate Hc; cbn; [right; intros c; apply always_bind; [apply _|done|done]|].
      exact Hok.
Qed.

(** Alone, with some value in the field, it goes the same way. *)
Lemma once_exec {A} (t : itree sysE A) s a s' :
  once t -> exec (shared posix) t s a s' -> exists v, exec posix t (recasts v s) a (recasts v s').
Proof.
  intros Hb He. revert Hb. induction He as [t s a Hob|t u s a s' Hob He IH|X e k x t s s1 a s' Hob Hx He IH]; intros Hb;
    apply (always_step seen_once) in Hb; rewrite Hob in Hb.
  - exists 0. by constructor.
  - destruct (IH Hb) as [v Hv]. exists v. by eapply exec_tau.
  - destruct Hb as [Hok Hk]. destruct (once_step e k Hok) as [Hu|[Hc Hkb]].
    + destruct (IH (Hk x)) as [v Hv]. exists v. destruct (unseen_step e k s x s1 v Hu Hx) as (x' & Hx' & Hkx).
      eapply exec_vis; [exact Hob|exact Hx'|]. by apply (exec_observe _ (k x)).
    + destruct Hx as [v Hx]. exists v. eapply exec_vis; [exact Hob|by apply (once_conf e k)|by apply blind_exec].
Qed.

(** The same of total correctness.  [R] is the environment of one process in an
    outside world that its calls so far determine. *)
Lemma wp_tau_inv {S A} (R : env S) (Q : A -> S -> Prop) t s u :
  wp R Q t s -> observe t = TauF u -> wp R Q u s.
Proof. intros [a Hob HQ|u' Hob Hw|X e k Hob Hk] Ht; rewrite Ht in Hob; try discriminate. by injection Hob as <-. Qed.

Lemma wp_vis_inv {S A X} (R : env S) (Q : A -> S -> Prop) t s (e : sysE X) k x s1 :
  wp R Q t s -> observe t = VisF e k -> R X e s x s1 -> wp R Q (k x) s1.
Proof.
  intros [a Hob HQ|u' Hob Hw|X' e' k' Hob Hk] Ht Hx; rewrite Ht in Hob; try discriminate.
  inversion Hob; subst. repeat match goal with E : existT _ _ = existT _ _ |- _ => apply inj_pair2 in E end. subst.
  by apply Hk.
Qed.

Section company.
Context (P : list obs -> Prop).
Let R : env pstate := posix_while P.

Lemma unseen_while {A X} (e : sysE X) (k : X -> itree sysE A) s x s1 v :
  unseen A X e k -> shared R X e s x s1 ->
  exists x', R X e (recasts v s) x' (recasts v s1) /\ observe (k x') = observe (k x).
Proof using Type.
  intros Hok (w & Hx & HP). destruct (unseen_step e k s x s1 v Hok) as (x' & Hx' & Hkx); [by exists w|].
  by exists x'.
Qed.

Lemma blind_wp {A} (Q : A -> pstate -> Prop) t s s0 v :
  wp R Q t s0 -> s0 = recasts v s -> blind t -> wp (shared R) (fun a s' => Q a (recasts v s')) t s.
Proof using Type.
  intros Hw. revert s. induction Hw as [t s0 a Hob HQ|t s0 u Hob _ IH|t s0 X e k Hob _ IH]; intros s -> Hb;
    apply (always_step unseen) in Hb; rewrite Hob in Hb.
  - by eapply wp_done.
  - eapply wp_tau; [exact Hob|]. by apply IH.
  - destruct Hb as [Hok Hk]. eapply wp_vis; [exact Hob|]. intros x s1 Hx.
    destruct (unseen_while e k s x s1 v Hok Hx) as (x' & Hx' & Hkx).
    eapply wp_observe; [exact Hkx|]. by eapply IH.
Qed.

Lemma once_wp {A} (Q : A -> pstate -> Prop) t s :
  once t -> (forall v, wp R Q t (recasts v s)) -> wp (shared R) (fun a s' => exists v, Q a (recasts v s')) t s.
Proof using Type.
  intros Hb Hw. pose proof (Hw 0) as Hw0. remember (recasts 0 s) as s0 eqn:Hs0. revert s Hs0 Hb Hw.
  induction Hw0 as [t s0 a Hob HQ|t s0 u Hob _ IH|t s0 X e k Hob _ IH]; intros s -> Hb Hw;
    apply (always_step seen_once) in Hb; rewrite Hob in Hb.
  - eapply wp_done; [exact Hob|]. by exists 0.
  - eapply wp_tau; [exact Hob|]. apply IH; [done|done|]. intros v. by eapply wp_tau_inv.
  - destruct Hb as [Hok Hk]. eapply wp_vis; [exact Hob|]. intros x s1 Hx.
    destruct (once_step e k Hok) as [Hu|[Hc Hkb]].
    + destruct (unseen_while e k s x s1 0 Hu Hx) as (x' & Hx' & Hkx).
      eapply wp_observe; [exact Hkx|]. eapply IH; [exact Hx'|reflexivity|apply Hk|]. intros v.
      destruct (unseen_while e k s x s1 v Hu Hx) as (xv & Hxv & Hkv).
      eapply wp_observe; [|by eapply wp_vis_inv]. by rewrite Hkv, Hkx.
    + destruct Hx as (v & Hx & HP).
      apply (wp_mono _ (fun a s' => Q a (recasts v s'))); [|intros a s' HQ; by exists v].
      eapply blind_wp; [eapply wp_vis_inv; [exact (Hw v)|exact Hob|]|reflexivity|apply Hkb].
      split; [by apply (once_conf e k)|exact HP].
Qed.
End company.

(** ** The two threads of a process

    The main thread, the thread it may have started, the configuration they share
    and the calls each has made. *)
Record threads (A B : Type) := {
  th_main : M A;
  th_other : option (M B);
  th_conf : InitConfig;
  th_main_calls : list obs;
  th_other_calls : list obs
}.
Arguments th_main {A B} _.
Arguments th_other {A B} _.
Arguments th_conf {A B} _.
Arguments th_main_calls {A B} _.
Arguments th_other_calls {A B} _.

(** What one of them sees of the process. *)
Definition main_state {A B} (p : threads A B) : pstate :=
  {| p_conf := th_conf p; p_trace := th_main_calls p |}.
Definition other_state {A B} (p : threads A B) : pstate :=
  {| p_conf := th_conf p; p_trace := th_other_calls p |}.

(** One step of one of them. *)
Definition main_steps {A B} (p : threads A B) (t : M A) (o : option (M B)) (s : pstate) : threads A B :=
  {| th_main := t; th_other := o; th_conf := p_conf s;
     th_main_calls := p_trace s; th_other_calls := th_other_calls p |}.
Definition other_steps {A B} (p : threads A B) (u : M B) (s : pstate) : threads A B :=
  {| th_main := th_main p; th_other := Some u; th_conf := p_conf s;
     th_main_calls := th_main_calls p; th_other_calls := p_trace s |}.

(** The call that starts the broadcasting thread, when it succeeds. *)
Definition starts {X} (e : sysE X) : X -> bool :=
  match e in sysE X return X -> bool with
  | PthreadCreate thread_broadcast => fun r => r =? 0
  | _ => fun _ => false
  end.

(** A call of [exit] by either ends the process. *)
Definition exited {A} (t : M A) : bool :=
  match observe t with RetF (Exited _) => true | _ => false end.
Definition process_ended {A B} (p : threads A B) : bool :=
  exited (th_main p) || match th_other p with Some u => exited u | None => false end.

Section interleaving.
Context {A B : Type} (body : M B).

(** The process takes a step: one of its threads goes on, with any documented reply
    to its call. *)
Inductive thread_step (p : threads A B) : threads A B -> Prop :=
| main_tau t : process_ended p = false -> observe (th_main p) = TauF t ->
    thread_step p (main_steps p t (th_other p) (main_state p))
| main_call X (e : sysE X) k x s : process_ended p = false -> observe (th_main p) = VisF e k ->
    posix X e (main_state p) x s ->
    thread_step p (main_steps p (k x) (if starts e x then Some body else th_other p) s)
| other_tau u u' : process_ended p = false -> th_other p = Some u -> observe u = TauF u' ->
    thread_step p (other_steps p u' (other_state p))
| other_call X (e : sysE X) k x s u : process_ended p = false -> th_other p = Some u -> observe u = VisF e k ->
    posix X e (other_state p) x s -> thread_step p (other_steps p (k x) s).

(** The process at the start of [t]. *)
Definition alone (t : M A) (s : pstate) : threads A B :=
  {| th_main := t; th_other := None; th_conf := p_conf s; th_main_calls := p_trace s; th_other_calls := [] |}.
End interleaving.

(** *** Scheduled runs *)

(** Turns of the two threads against a function that answers their calls; a thread
    that has nothing to do passes. *)
Definition take_turn {A B W} (body : M B) (h : handler (pstate * W)) (main : bool)
    (p : threads A B) (w : W) : threads A B * W :=
  if process_ended p then (p, w) else
  if main then
    match observe (th_main p) with
    | RetF _ => (p, w)
    | TauF t => (main_steps p t (th_other p) (main_state p), w)
    | VisF e k =>
        let '(x, (s, w)) := h _ e (main_state p, w) in
        (main_steps p (k x) (if starts e x then Some body else th_other p) s, w)
    end
  else
    match observe <$> th_other p with
    | None | Some (RetF _) => (p, w)
    | Some (TauF u) => (other_steps p u (other_state p), w)
    | Some (VisF e k) =>
        let '(x, (s, w)) := h _ e (other_state p, w) in (other_steps p (k x) s, w)
    end.

Fixpoint take_turns {A B W} (body : M B) (h : handler (pstate * W)) (turns : list bool)
    (p : threads A B) (w : W) : threads A B * W :=
  match turns with
  | [] => (p, w)
  | main :: turns => let '(p, w) := take_turn body h main p w in take_turns body h turns p w
  end.

Section scheduled.
Context {A B W : Type} (body : M B) (h : handler (pstate * W)) (I : W -> Prop).
Context (Hh : forall X (e : sysE X) s w, I w ->
  posix X e s (h X e (s, w)).1 (h X e (s, w)).2.1 /\ I (h X e (s, w)).2.2).

Lemma take_turn_ok main (p : threads A B) w :
  I w -> rtc (thread_step body) p (take_turn body h main p w).1 /\ I (take_turn body h main p w).2.
Proof using Hh.
  intros HI. unfold take_turn. destruct (process_ended p) eqn:Hend; [by split; [apply rtc_refl|]|]. destruct main.
  - destruct (observe (th_main p)) as [a|t|X e k] eqn:Hob; [by split; [apply rtc_refl|]| |].
    + split; [|done]. by apply rtc_once, main_tau.
    + destruct (Hh X e (main_state p) w HI) as [Hx HI']. destruct (h X e _) as [x [s w']].
      split; [|done]. by apply rtc_once, main_call.
  - destruct (th_other p) as [u|] eqn:Hu; [|by split; [apply rtc_refl|]]. cbn.
    destruct (observe u) as [a|t|X e k] eqn:Hob; [by split; [apply rtc_refl|]| |].
    + split; [|done]. by eapply rtc_once, other_tau.
    + destruct (Hh X e (other_state p) w HI) as [Hx HI']. destruct (h X e _) as [x [s w']].
      split; [|done]. by eapply rtc_once, other_call.
Qed.

Lemma take_turns_ok turns (p : threads A B) w :
  I w -> rtc (thread_step body) p (take_turns body h turns p w).1.
Proof using Hh.
  revert p w. induction turns as [|main turns IH]; intros p w HI; [apply rtc_refl|]. cbn [take_turns].
  destruct (take_turn_ok main p w HI) as [Hr HI']. destruct (take_turn body h main p w) as [p' w'].
  etrans; [exact Hr|by apply IH].
Qed.
End scheduled.

(** A thread that writes only [cast_sock]. *)
Definition casts_only : call_prop := fun A X e =>
  match e in sysE X return (X -> itree sysE A) -> Prop with
  | SetConf f => fun _ => exists v, forall c, f c = recast v c
  | _ => fun _ => True
  end.
#[export] Instance casts_only_extends : Extends casts_only.
Proof. intros A B X e k h. by destruct e. Qed.

(** States that differ in what [cast_sock] holds. *)
Definition similar (s s' : pstate) : Prop := forall v, recasts v s = recasts v s'.

Lemma casts_step {A X} (e : sysE X) (k : X -> itree sysE A) s x s' :
  casts_only A X e k -> posix X e s x s' -> exists v, p_conf s' = p_conf s \/ p_conf s' = recast v (p_conf s).
Proof.
  destruct e; cbn; intros Hok Hx; [by destruct Hx as [_ ->]; exists 0; left| |by destruct Hx as [_ ->]; exists 0; left..].
  destruct Hok as [v Hv]. exists v. right. subst s'. apply Hv.
Qed.

Lemma exec_similar {A} (t : itree sysE A) s s1 a s' :
  similar s s1 -> exec (shared posix) t s1 a s' ->
  exists s'', exec (shared posix) t s a s'' /\ similar s'' s'.
Proof.
  intros Hs He. revert s Hs.
  induction He as [t s1 a Hob|t u s1 a s' Hob He IH|X e k x t s1 s2 a s' Hob Hx He IH]; intros s Hs.
  - exists s. split; [by constructor|done].
  - destruct (IH s Hs) as (s'' & He' & Hs'). exists s''. split; [by eapply exec_tau|done].
  - exists s'. split; [|done]. destruct Hx as [v Hx]. eapply exec_vis; [exact Hob| |exact He].
    exists v. by rewrite Hs.
Qed.

Lemma main_state_steps {A B} (p : threads A B) t o s : main_state (main_steps p t o s) = s.
Proof. by destruct s. Qed.
Lemma main_state_alone {A B} (t : M A) s : main_state (alone (B := B) t s) = s.
Proof. by destruct s. Qed.

(** What the main thread has done, it does alone, with a thread that comes and goes
    as it may. *)
Definition only_casts {A B} (body : M B) (p : threads A B) : Prop :=
  always casts_only body /\ forall u, th_other p = Some u -> always casts_only u.

Lemma threads_exec {A B} (body : M B) (p q : threads A B) o :
  only_casts body p -> rtc (thread_step body) p q -> observe (th_main q) = RetF o ->
  exists s', exec (shared posix) (th_main p) (main_state p) o s' /\ similar s' (main_state q).
Proof.
  intros Hc Hr Ho. revert Hc. induction Hr as [p|p p1 q Hs _ IH]; intros [Hbody Hc].
  { exists (main_state p). split; [by constructor|done]. }
  specialize (IH Ho).
  destruct Hs as [t _ Hob|X e k x s _ Hob Hx|u u' _ Hu Hob|X e k x s u _ Hu Hob Hx].
  - destruct IH as (s' & He & Hs'); [by split|]. exists s'. split; [by eapply exec_tau|done].
  - destruct IH as (s' & He & Hs').
    { split; [done|]. cbn [th_other main_steps]. destruct (starts e x); [by intros u [= <-]|done]. }
    rewrite main_state_steps in He. exists s'. split; [|done]. eapply exec_vis; [exact Hob| |exact He].
    exists (conf_cast_sock (p_conf (main_state p))). by rewrite recasts_self.
  - apply IH. split; [done|]. cbn. intros ? [= <-]. pose proof (always_step _ _ (Hc u Hu)) as Hstep.
    by rewrite Hob in Hstep.
  - pose proof (always_step _ _ (Hc u Hu)) as Hstep. rewrite Hob in Hstep. destruct Hstep as [Hok Hk].
    destruct IH as (s' & He & Hs'); [split; [done|]; cbn; by intros ? [= <-]|].
    assert (Hsim : similar (main_state p) (main_state (other_steps p (k x) s))).
    { destruct (casts_step e k _ _ _ Hok Hx) as (v & [Hv|Hv]); intros w; unfold recasts, with_conf;
        cbn in Hv |- *; by rewrite Hv, ?recast_twice. }
    destruct (exec_similar _ _ _ _ _ Hsim He) as (s'' & He' & Hs'').
    exists s''. split; [exact He'|]. intros v. by rewrite Hs'', Hs'.
Qed.

Lemma once_threads {A B} (body : M B) (t : M A) s q o :
  always casts_only body -> once t -> rtc (thread_step body) (alone t s) q -> observe (th_main q) = RetF o ->
  exists v, exec posix t (recasts v s) o (recasts v (main_state q)).
Proof.
  intros Hb Ht Hr Ho. destruct (threads_exec body (alone t s) q o) as (s' & He & Hs'); [by split|done|done|].
  rewrite main_state_alone in He.
  destruct (once_exec _ _ _ _ Ht He) as [v Hv]. exists v. by rewrite <- Hs'.
Qed.

(** ** The two programs *)

Lemma once_mbind {A B} (m : M A) (k : A -> M B) : blind m -> (forall a, once (k a)) -> once (m ≫= k).
Proof. intros Hm Hk. apply once_bind; [done|]. intros [a|st|c|]; [apply Hk|apply always_ret..]. Qed.

Lemma once_mthen {A B} (m : M A) (k : A -> M B) : once m -> (forall a, blind (k a)) -> once (m ≫= k).
Proof. intros Hm Hk. apply once_then; [done|]. intros [a|st|c|]; [apply Hk|apply always_ret..]. Qed.

Lemma once_get {A} (k : InitConfig -> M A) : (forall c, blind (k c)) -> once (sys GetConf ≫= k).
Proof.
  intros Hk. apply always_fold. rewrite observe_sys. split.
  - right. intros c. apply (always_observe _ (k c)); [by rewrite observe_answer|apply Hk].
  - intros c. apply blind_once, (always_observe _ (k c)); [by rewrite observe_answer|apply Hk].
Qed.

Lemma once_get_unseen {A} (k : InitConfig -> M A) :
  (forall c, once (k c)) -> (forall c v, k (recast v c) = k c) -> once (sys GetConf ≫= k).
Proof.
  intros Hk He. apply always_fold. rewrite observe_sys. split.
  - left. intros c v. by rewrite !observe_answer, He.
  - intros c. apply (always_observe _ (k c)); [by rewrite observe_answer|apply Hk].
Qed.

Section pull.
Context `{Host} `{Crc}.

#[local] Hint Resolve blind_start_cntl blind_accept_cntl blind_close_socket blind_pull_handshake blind_start_data
  blind_pull_transfer blind_pull_verification blind_end_file_stream : threads.

(** The reception looks at the field once, to close the socket. *)
Lemma once_start_puller name stack1 stack2 : once (start_puller name stack1 stack2).
Proof.
  unfold start_puller, set_segsize, end_cntl, end_data. apply once_mbind; [blind_go|intros []].
  apply once_get_unseen; [intros c|reflexivity]. apply once_mbind; [blind_go|intros []].
  apply once_get. intros c'. blind_go.
Qed.

Lemma once_pull_file name stack1 stack2 : once (pull_file name stack1 stack2).
Proof.
  unfold pull_file. apply once_get_unseen; [intros c|reflexivity].
  repeat (apply once_mbind; [solve [blind_go]|intros ?]).
  unfold tryexec_call. apply once_mthen.
  - apply once_then; [apply once_mthen; [apply once_start_puller|intros ?; blind_go]|].
    intros [?|?|?|]; apply always_ret.
  - intros st. blind_go.
Qed.

(** The broadcasting thread writes no other field. *)
Lemma casts_call {X} (e : sysE X) : (if e is SetConf _ then False else True) -> always casts_only (sys e).
Proof. intros He. apply always_sys; [apply _|]. by destruct e. Qed.

Lemma casts_set fd : always casts_only (sys (SetConf (set_sock cast_sock fd))).
Proof. apply always_sys; [apply _|]. intros A k. by exists fd. Qed.

Ltac casts_leaf :=
  idtac; match goal with
  | |- always _ (sys (SetConf _)) => apply casts_set
  | |- always _ (sys _) => apply casts_call; exact I
  end.
Ltac casts_go := repeat program_step casts_leaf.

Lemma casts_thread_broadcast stack : always casts_only (thread_broadcast_routine stack).
Proof.
  unfold thread_broadcast_routine, broadcast, start_broadcast, broadcast_loop, broadcast_turn, tryexec_call,
    init_udp_socket, network_byteorder, deref, copy_info, push_broadcast_header, poll_out, push_udp_data,
    close_socket.
  casts_go.
Qed.

(** What a reception does with its thread beside it, it does alone, with some value
    in [cast_sock]. *)
Lemma pull_file_threads name stack1 stack2 stack s q o :
  rtc (thread_step (thread_broadcast_routine stack)) (alone (pull_file name stack1 stack2) s) q ->
  observe (th_main q) = RetF o ->
  exists v, exec posix (pull_file name stack1 stack2) (recasts v s) o (recasts v (main_state q)).
Proof. apply once_threads; [apply casts_thread_broadcast|apply once_pull_file]. Qed.

Lemma receiver_ready_recast v name stack1 stack2 c :
  receiver_ready name stack1 stack2 c -> receiver_ready name stack1 stack2 (recast v c).
Proof. intros []. by constructor. Qed.
End pull.

(** ** The theorems *)

(** C8: a receiver and its broadcasting thread, their calls interleaved in any order:
    what the receiver does, from the call of [pull_file] to its return, a receiver
    without a thread can do too, with the same calls, replies and outcome, if
    [cast_sock] holds the right value; only that field of the configuration can
    differ at the end.  So the theorems on executions of [pull_file] are theorems on
    [pull_file] with its thread, as long as the thread does not end the process. *)
Theorem pull_file_alone `{Host} `{Crc} name stack1 stack2 stack s q o :
  rtc (thread_step (thread_broadcast_routine stack)) (alone (pull_file name stack1 stack2) s) q ->
  observe (th_main q) = RetF o ->
  exists v, exec posix (pull_file name stack1 stack2) (recasts v s) o (recasts v (main_state q)).
Proof. apply pull_file_threads. Qed.

(** C9: whatever another thread writes to [cast_sock] between any two of its calls,
    [pull_file] comes to an end as it does alone, under the same conditions
    ([sender_says]: the first message, if it is a SEND packet, announces a file of
    [sz] bytes, 0 < sz < 2^32, in chunks none of which is empty, and the file created
    has the size it was given).  It returns [SUCCESS] only after a whole session of
    the protocol, [ETHREAD] only when the thread did not start, and otherwise the
    process ends with [EXIT_FAILURE] after a report, or goes out of its memory, which
    takes an information string without terminator or a NACK of the
    announcement ([puller_astray]). *)
Theorem pull_file_in_company `{Host} `{Crc} sz c name stack1 stack2 s :
  p_conf s = c -> receiver_ready name stack1 stack2 c ->
  wp (shared (posix_while (sender_says _ sz (p_trace s))))
    (fun o s' => exists r tr, p_trace s' = p_trace s ++ [Obs (PthreadCreate thread_broadcast) r] ++ tr /\
      match o with
      | Val _ => r = 0 /\ received_file _ stack1 stack2 sz tr (p_conf s')
      | Fail st => st = ETHREAD /\ r <> 0 /\ tr = []
      | Exited code => code = EXIT_FAILURE /\ exists st tr0, st ∈ puller_errors /\ tr = tr0 ++ [report st]
      | Undef => puller_astray _ tr
      end) (pull_file name stack1 stack2) s.
Proof.
  intros Hs Hr. match goal with |- wp _ ?Q _ _ => eapply wp_mono; [apply (once_wp _ Q); [apply once_pull_file|]|] end.
  - intros v. destruct (receiver_ready_recast v _ _ _ _ Hr).
    by apply (pull_file_ok sz (recast v c) name stack1 stack2 (recasts v s)); [by rewrite <- Hs|..].
  - cbn beta. intros o s' (v & Ho). exact Ho.
Qed.

(** C6: the transfer succeeds also with the receiver's thread beside it, broadcasting
    whenever it likes, as long as it does not end the process: under the conditions
    of [transfer_succeeds] on the calls of the sender and of the receiver's main
    thread (among them a file of less than 2^32 bytes, no multiple of the chunk size),
    both functions return [SUCCESS], and the file received is the file sent. *)
Theorem transfer_succeeds_threaded (H1 H2 : Host) `{Crc} n content errors J c path rest st1 st2 s1 o1 s1'
    name st3 st4 stack s2 q o2 :
  channels_ok n -> bytes_ok content -> sender_ready (len content) path st1 st2 c ->
  len content mod conf_chsize c <> 0 -> carried (conf_addrs c) ->
  p_conf s1 = c -> exec posix (@push_file H1 _ (path ++ 0 :: rest) st1 st2) s1 o1 s1' ->
  p_trace s1' = p_trace s1 ++ ours J ->
  receiver_ready name st3 st4 (p_conf s2) -> dialable (conf_addrs (p_conf s2)) ->
  rtc (thread_step (@thread_broadcast_routine H2 stack)) (alone (@pull_file H2 _ name st3 st4) s2) q ->
  observe (th_main q) = RetF o2 -> th_main_calls q = p_trace s2 ++ theirs J ->
  recoverable (chunks (conf_chsize c) content) (len content / conf_chsize c + 1)
    (Z.min (conf_tf_trycount c) (conf_tf_trycount (p_conf s2))) errors ->
  smooth n content J -> delivers n errors J ->
  o1 = Val tt /\ o2 = Val tt /\
  mf_bytes (conf_mfile (p_conf s1')) = content /\ mf_bytes (conf_mfile (th_conf q)) = content.
Proof.
  intros Hn Hb Hsr Hmod Hca Hs1 He1 Ht1 Hrr Hdial Hr Ho Ht2 Hrec Hsm Hdv.
  destruct (pull_file_threads (H := H2) _ _ _ _ _ _ _ Hr Ho) as [v He2].
  apply (receiver_ready_recast v) in Hrr.
  exact (joint_succeeds H1 H2 n content errors J c path rest st1 st2 s1 o1 s1'
    name st3 st4 (recasts v s2) o2 (recasts v (main_state q)) Hn Hb Hsr Hmod Hca Hs1 He1 Ht1 Hrr Hdial He2 Ht2 Hrec Hsm Hdv).
Qed.
