(* ===== verification/Keeps.v ===== *)
(** * Programs that keep to a discipline

    [keeps D Q m] is a rely and guarantee: given documented replies and a
    configuration in [confs D], whoever wrote it, every call of [m] is in
    [calls_of D], every configuration it writes is in [confs D], and what it returns
    satisfies [Q].  Nothing is said of termination: it holds of programs that go on
    for ever, and of every state on the way.  [kept_reachable] is its soundness: when
    both threads of a process keep to a discipline, so does every state they reach. *)
From stdpp Require Import relations.
From S2P Require Import Prelude Types Sys Error Threads.

(** ** What programs rely on and guarantee *)

Record discipline := {
  confs : InitConfig -> Prop;
  calls_of : forall X, sysE X -> Prop
}.

(** A program is given a configuration in [confs] and documented replies, and owes
    calls in [calls_of] and updates that stay in [confs]. *)
Definition given (D : discipline) X (e : sysE X) : X -> Prop :=
  match e in sysE X return X -> Prop with
  | GetConf => confs D
  | e => reply_ok e
  end.
Definition owed (D : discipline) X (e : sysE X) : Prop :=
  match e with
  | SetConf f => forall c, confs D c -> confs D (f c)
  | e => calls_of D _ e
  end.

Definition keep_step {A} (D : discipline) (Q : A -> Prop) (Rel : itree sysE A -> Prop) (t : itree' sysE A) : Prop :=
  match t with
  | RetF a => Q a
  | TauF u => Rel u
  | VisF e k => owed D _ e /\ forall x, given D _ e x -> Rel (k x)
  end.

(** Every call [t] comes to is owed, every result satisfies [Q]. *)
Definition keeps_to {A} (D : discipline) (Q : A -> Prop) (t : itree sysE A) : Prop :=
  exists Rel : itree sysE A -> Prop, Rel t /\ forall u, Rel u -> keep_step D Q Rel (observe u).

(** The results of a program of the monad that are values. *)
Definition value {A} (Q : A -> Prop) (o : outcome A) : Prop :=
  match o with Val a => Q a | _ => True end.

Lemma keep_step_mono {A} D (Q : A -> Prop) (Rel Rel' : itree sysE A -> Prop) t :
  (forall u, Rel u -> Rel' u) -> keep_step D Q Rel t -> keep_step D Q Rel' t.
Proof. intros HR. destruct t; cbn; [done|apply HR|]. intros [Ho Hk]. auto. Qed.

Section keeps.
Context (D : discipline).

Lemma keeps_to_step {A} (Q : A -> Prop) t : keeps_to D Q t -> keep_step D Q (keeps_to D Q) (observe t).
Proof.
  intros (Rel & Ht & HR). eapply keep_step_mono; [|by apply HR]. intros u Hu. by exists Rel.
Qed.

Lemma keeps_to_fold {A} (Q : A -> Prop) t : keep_step D Q (keeps_to D Q) (observe t) -> keeps_to D Q t.
Proof.
  intros Hs. exists (fun u => u = t \/ keeps_to D Q u). split; [by left|]. intros u [->|Hu].
  - eapply keep_step_mono; [|exact Hs]. auto.
  - eapply keep_step_mono; [|by apply keeps_to_step]. auto.
Qed.

Lemma keeps_to_ret {A} (Q : A -> Prop) a : Q a -> keeps_to D Q (Ret a).
Proof. intros Ha. by apply keeps_to_fold. Qed.

Lemma keeps_to_mono {A} (Q Q' : A -> Prop) t : keeps_to D Q t -> (forall a, Q a -> Q' a) -> keeps_to D Q' t.
Proof.
  intros (Rel & Ht & HR) HQ. exists Rel. split; [done|]. intros u Hu. specialize (HR u Hu).
  destruct (observe u); cbn in *; auto.
Qed.

Lemma keeps_to_bind {A B} (Q : A -> Prop) (Q' : B -> Prop) t k :
  keeps_to D Q t -> (forall a, Q a -> keeps_to D Q' (k a)) -> keeps_to D Q' (ITree.bind t k).
Proof.
  intros Ht Hk. exists (fun u => keeps_to D Q' u \/ exists m, u = ITree.bind m k /\ keeps_to D Q m).
  split; [right; by exists t|]. intros u [Hu|(m & -> & Hm)].
  - eapply keep_step_mono; [|by apply keeps_to_step]. auto.
  - rewrite observe_bind. pose proof (keeps_to_step _ _ Hm) as Hs. destruct (observe m) as [a|v|X e h]; cbn in *.
    + eapply keep_step_mono; [|apply keeps_to_step, Hk, Hs]. auto.
    + right. by exists v.
    + destruct Hs as [Ho Hh]. split; [done|]. intros x Hx. right. exists (h x). auto.
Qed.

(** Of an iteration: [Inv] holds of what is handed from turn to turn. *)
Lemma keeps_to_iter {A B} (Inv : A -> Prop) (Q : B -> Prop) (body : A -> itree sysE (A + B)) x :
  Inv x -> (forall x, Inv x -> keeps_to D (fun r => match r with inl x' => Inv x' | inr b => Q b end) (body x)) ->
  keeps_to D Q (ITree.iter body x).
Proof.
  intros Hx Hb. set (K := fun lr : A + B => match lr with inl l => Tau (ITree.iter body l) | inr r => Ret r end).
  set (P := fun lr : A + B => match lr with inl x' => Inv x' | inr b => Q b end).
  exists (fun u => exists m, observe u = observe (ITree.bind m K) /\ keeps_to D P m).
  split; [exists (body x); split; [done|by apply Hb]|]. intros u (m & -> & Hm). rewrite observe_bind.
  pose proof (keeps_to_step _ _ Hm) as Hs. destruct (observe m) as [[l|r]|v|X e h]; cbn in *;
    [exists (body l); split; [done|by apply Hb]|done|by exists v|].
  destruct Hs as [Ho Hh]. split; [done|]. intros y Hy. exists (h y). auto.
Qed.

(** *** The program monad *)

Definition keeps {A} (Q : A -> Prop) (m : M A) : Prop := keeps_to D (value Q) m.

Lemma keeps_mbind {A B} (Q : A -> Prop) (Q' : B -> Prop) (m : M A) (k : A -> M B) :
  keeps Q m -> (forall a, Q a -> keeps Q' (k a)) -> keeps Q' (m ≫= k).
Proof.
  intros Hm Hk. eapply keeps_to_bind; [exact Hm|]. intros [a|st|c|] Ha; cbn; [by apply Hk|by apply keeps_to_ret..].
Qed.

Lemma keeps_mono {A} (Q Q' : A -> Prop) (m : M A) : keeps Q m -> (forall a, Q a -> Q' a) -> keeps Q' m.
Proof. intros Hm HQ. eapply keeps_to_mono; [exact Hm|]. intros [a|?|?|]; cbn; auto. Qed.

Lemma keeps_mret {A} (Q : A -> Prop) a : Q a -> keeps Q (mret a : M A).
Proof. intros Ha. by apply keeps_to_ret. Qed.
Lemma keeps_fail {A} (Q : A -> Prop) st : keeps Q (fail st : M A).
Proof. by apply keeps_to_ret. Qed.
Lemma keeps_exit {A} (Q : A -> Prop) c : keeps Q (exit c : M A).
Proof. by apply keeps_to_ret. Qed.
Lemma keeps_undef {A} (Q : A -> Prop) : keeps Q (undef : M A).
Proof. by apply keeps_to_ret. Qed.
Lemma keeps_defined {A} (Q : A -> Prop) (o : option A) : (forall a, o = Some a -> Q a) -> keeps Q (defined o).
Proof. intros Hq. destruct o; [by apply keeps_mret, Hq|apply keeps_undef]. Qed.

Lemma keeps_sys {X} (e : sysE X) : owed D _ e -> keeps (given D _ e) (sys e).
Proof.
  intros Ho. apply keeps_to_fold. split; [done|]. intros x Hx.
  eapply keeps_to_bind with (Q := fun y => y = x); [by apply keeps_to_ret|]. intros ? ->. by apply keeps_to_ret.
Qed.

Lemma keeps_status_of (m : M unit) : keeps (fun _ => True) m -> keeps (fun _ => True) (status_of m).
Proof. intros Hm. eapply keeps_to_bind; [exact Hm|]. intros [a|st|c|] _; by apply keeps_to_ret. Qed.

Lemma keeps_free_on_fail {A} (Q : A -> Prop) (m : M A) : owed D _ Free -> keeps Q m -> keeps Q (free_on_fail m).
Proof.
  intros Ho Hm. eapply keeps_to_bind; [exact Hm|]. intros [a|st|c|] Ha; try by apply keeps_to_ret.
  eapply keeps_mbind; [by apply keeps_sys|]. intros _ _. apply keeps_fail.
Qed.

Lemma keeps_loop {St A} (Inv : St -> Prop) (Q : A -> Prop) (body : St -> M (St + A)) x :
  Inv x -> (forall x, Inv x -> keeps (fun r => match r with inl x' => Inv x' | inr a => Q a end) (body x)) ->
  keeps Q (loop body x).
Proof.
  intros Hx Hb. apply (keeps_to_iter Inv); [done|]. intros y Hy. eapply keeps_to_bind; [by apply Hb|].
  intros [[l|r]|st|c|] Hr; by apply keeps_to_ret.
Qed.
End keeps.

(** A program all of whose calls are owed, whatever they answer. *)
Definition harmless (D : discipline) : call_prop := fun A X e _ => owed D X e.
#[export] Instance harmless_extends D : Extends (harmless D).
Proof. by intros A B X e k h. Qed.

(** What is computed from a value that is known, or known to be computed. *)
Lemma always_defined_bind {A B} (ok : call_prop) o (k : A -> M B) :
  (forall a, o = Some a -> always ok (k a)) -> always ok (defined o ≫= k).
Proof.
  destruct o as [a|]; intros Hk; [|by apply always_fold].
  apply (always_observe _ (k a)); [done|by apply Hk].
Qed.

Lemma keeps_defined_some {A B} D (Q : B -> Prop) (a : A) o (k : A -> M B) :
  o = Some a -> keeps D Q (k a) -> keeps D Q (defined o ≫= k).
Proof. intros -> Hk. eapply (keeps_mbind _ (eq a)); [by apply keeps_mret|by intros ? <-]. Qed.

Lemma always_keeps {A} D (m : M A) : always (harmless D) m -> keeps D (fun _ => True) m.
Proof.
  intros (Rel & Hm & HR). exists Rel. split; [done|]. intros u Hu. specialize (HR u Hu).
  destruct (observe u) as [[]|v|X e k]; [done..|]. destruct HR as [Ho Hk]. by split.
Qed.

(** The parts of a program that read the configuration for nothing the discipline
    speaks of are [harmless]: [harmless_go] follows them.  [keeps_go] follows what is
    between them, where what was read matters. *)
Create HintDb keeping.
#[export] Hint Constants Opaque : keeping.
Ltac harmless_leaf :=
  idtac; match goal with
  | |- always (harmless _) (sys _) =>
      apply always_sys; [apply _|]; intros ? ?; cbn; first [exact I|done|by intros ? ?|solve [eauto with keeping]]
  end.
Ltac harmless_step := first [solve [auto with keeping]|apply always_defined_bind; intros ? ?|program_step harmless_leaf].
Ltac harmless_go := repeat harmless_step.

Ltac keeps_step :=
  match goal with
  | |- keeps _ _ (mret _) => apply keeps_mret
  | |- keeps _ _ (fail _) => apply keeps_fail
  | |- keeps _ _ (defined _) => apply keeps_defined; intros ? ?
  | |- keeps _ _ (match ?x with _ => _ end) => destruct x
  | |- keeps _ _ (sys GetConf ≫= _) =>
      let c := fresh "c" in let Hc := fresh "Hc" in
      eapply keeps_mbind; [by apply keeps_sys|intros c Hc; cbn in Hc]
  | |- keeps _ _ (status_of _) => apply keeps_status_of
  | |- keeps _ _ (tryexec_call _) => unfold tryexec_call
  | |- keeps _ _ (status_of _ ≫= _) => eapply keeps_mbind; [apply keeps_status_of|intros ? _]
  | |- keeps _ (fun _ => True) _ => apply always_keeps; solve [harmless_go]
  | |- keeps _ _ (_ ≫= _) =>
      eapply (keeps_mbind _ (fun _ => True)); [apply always_keeps; solve [harmless_go]|intros ? _]
  | |- keeps _ _ (_ ≫= _) => eapply keeps_mbind; [solve [eauto with keeping]|cbn beta; intros ? ?]
  end.
Ltac keeps_go := repeat first [exact I|solve [eauto with keeping]|keeps_step].

(** ** Soundness

    What the threads of a process owe, the process has: rule induction on its steps. *)

Definition obeys (D : discipline) (o : obs) : Prop := calls_of D _ (ob_call o).

Record kept {A B} (D : discipline) (Q : A -> Prop) (p : threads A B) : Prop := {
  kept_main : keeps D Q (th_main p);
  kept_other : forall u, th_other p = Some u -> keeps D (fun _ => True) u;
  kept_conf : confs D (th_conf p);
  kept_main_calls : Forall (obeys D) (th_main_calls p);
  kept_other_calls : Forall (obeys D) (th_other_calls p)
}.

(** A step of either thread is one of the environment, on what it sees of the process. *)
Lemma keeps_step_sound {A} D (Q : A -> Prop) (t : M A) X (e : sysE X) k x s s' :
  keeps D Q t -> observe t = VisF e k -> confs D (p_conf s) -> Forall (obeys D) (p_trace s) -> posix X e s x s' ->
  keeps D Q (k x) /\ confs D (p_conf s') /\ Forall (obeys D) (p_trace s').
Proof.
  intros Ht Hob Hc Htr Hp. apply keeps_to_step in Ht. rewrite Hob in Ht. destruct Ht as [Ho Hk].
  assert (Hlog : reply_ok e x /\ s' = logged e x s -> is_conf e = false ->
    keeps D Q (k x) /\ confs D (p_conf s') /\ Forall (obeys D) (p_trace s')).
  { intros [Hr ->] He. split; [apply Hk; by destruct e|]. split; [done|]. apply Forall_app; split; [done|].
    apply Forall_singleton. by destruct e. }
  destruct e; try by apply Hlog.
  - destruct Hp as [-> ->]. split; [by apply Hk|done].
  - rewrite Hp. split; [by apply Hk|]. split; [by apply Ho|done].
Qed.

Lemma keeps_tau_sound {A} D (Q : A -> Prop) (t u : M A) : keeps D Q t -> observe t = TauF u -> keeps D Q u.
Proof. intros Ht Hob. apply keeps_to_step in Ht. by rewrite Hob in Ht. Qed.

Section soundness.
Context {A B : Type} (D : discipline) (Q : A -> Prop) (body : M B) (Hbody : keeps D (fun _ => True) body).

Lemma kept_step p q : kept D Q p -> thread_step body p q -> kept D Q q.
Proof using Hbody.
  intros [Hm Ho Hc Ht1 Ht2] Hs. destruct Hs as [t _ Hob|X e k x s _ Hob Hp|u u' _ Hu Hob|X e k x s u _ Hu Hob Hp].
  - constructor; [by eapply keeps_tau_sound|done..].
  - destruct (keeps_step_sound _ _ _ _ _ _ _ (main_state p) _ Hm Hob Hc Ht1 Hp) as (Hk & Hc' & Ht').
    constructor; [done| |done..]. intros u. cbn. destruct (starts e x); [by intros [= <-]|apply Ho].
  - constructor; [done| |done..]. intros v [= <-]. eapply keeps_tau_sound; [by apply Ho|done].
  - destruct (keeps_step_sound _ _ _ _ _ _ _ (other_state p) _ (Ho u Hu) Hob Hc Ht2 Hp) as (Hk & Hc' & Ht').
    constructor; [done| |done..]. by intros v [= <-].
Qed.

Lemma kept_reachable p q : kept D Q p -> rtc (thread_step body) p q -> kept D Q q.
Proof using Hbody. intros Hp Hr. induction Hr as [|p q r Hs _ IH]; [done|]. apply IH. by eapply kept_step. Qed.

Lemma kept_alone t s : keeps D Q t -> confs D (p_conf s) -> Forall (obeys D) (p_trace s) ->
  kept D Q (alone (B := B) t s).
Proof. intros Ht Hc Htr. constructor; [done|done|done|done|apply Forall_nil_2]. Qed.

Lemma kept_result (p : threads A B) a : kept D Q p -> observe (th_main p) = RetF (Val a) -> Q a.
Proof. intros [Hm _ _ _ _] Hob. apply keeps_to_step in Hm. by rewrite Hob in Hm. Qed.
End soundness.
