(* ===== verification/Peeks.v ===== *)
(** * A wait is followed by a read

    Both programs poll a socket, and look at the type of a header, before they read
    ([poll_in], [pull_segment]).  Between the wait and the read they put nothing on a
    socket and take nothing from another, so who waits for a socket to be readable
    waits for what is read next from it.  The one socket that is polled and not read
    is the one that listens. *)
From stdpp Require Import relations gmap.
From S2P Require Import Prelude Types Sys Prefix Wire Utils Error Mfile NetStream FileStream Cntl Data Pusher Puller Rufshare Delivery Joint Threads.

(** What was waited for: nothing that is left to be read, a socket, or a connection. *)
Variant watch := idle | watching (fd : Z) | listening (fd : Z).

(** What is waited for after a call and its reply, if the call may be made then. *)
Definition after_call (p : watch) {X} (e : sysE X) : option (X -> watch) :=
  match e in sysE X return option (X -> watch) with
  | SendTo _ _ _ => match p with idle => Some (fun _ => idle) | _ => None end
  | Poll fd events _ =>
      if events =? POLLIN then
        match p with
        | idle => Some (fun _ => watching fd)
        | watching _ => None
        | listening fd' => if fd =? fd' then Some (fun _ => p) else None
        end
      else Some (fun _ => p)
  | RecvFrom fd size flags =>
      match p with
      | idle => if flags =? MSG_PEEK then if size =? 1 then Some (fun _ => watching fd) else None else Some (fun _ => idle)
      | watching fd' =>
          if fd =? fd' then
            if flags =? MSG_PEEK then if size =? 1 then Some (fun _ => p) else None
            else Some (fun r => if fst r =? -1 then p else idle)
          else None
      | listening _ => None
      end
  | Listen fd _ => match p with idle => Some (fun _ => listening fd) | _ => None end
  | Accept fd => match p with listening fd' => if fd =? fd' then Some (fun _ => idle) else None | _ => None end
  | _ => Some (fun _ => p)
  end.

(** A program that returns a value has read what it waited for: [q] is what it leaves. *)
Definition settled {A} (q p : watch) (o : outcome A) : Prop :=
  match o with
  | Val _ => p = q
  | Fail st => p = idle \/ st <> SUCCESS
  | _ => True
  end.

Definition look_step {A} (Q : watch -> A -> Prop) (Rel : watch -> itree sysE A -> Prop) (p : watch)
    (t : itree' sysE A) : Prop :=
  match t with
  | RetF a => Q p a
  | TauF u => Rel p u
  | VisF e k => exists f, after_call p e = Some f /\ forall x, Rel (f x) (k x)
  end.

Definition looks_to {A} (p : watch) (Q : watch -> A -> Prop) (t : itree sysE A) : Prop :=
  exists Rel : watch -> itree sysE A -> Prop, Rel p t /\ forall p u, Rel p u -> look_step Q Rel p (observe u).

#[warnings="-notation-for-abbreviation"] Notation looks p q := (looks_to p (settled q)) (only parsing).

Section looks.
Context {A : Type} (Q : watch -> A -> Prop).

Lemma look_step_mono (Rel Rel' : watch -> itree sysE A -> Prop) p t :
  (forall p u, Rel p u -> Rel' p u) -> look_step Q Rel p t -> look_step Q Rel' p t.
Proof using Type. intros HR. destruct t; cbn; [done|apply HR|]. intros (p' & Hp & Hk). exists p'. auto. Qed.

Lemma looks_step p t : looks_to p Q t -> look_step Q (fun p u => looks_to p Q u) p (observe t).
Proof using Type. intros (Rel & Ht & HR). eapply look_step_mono; [|by apply HR]. intros p' u Hu. by exists Rel. Qed.

Lemma looks_fold p t : look_step Q (fun p u => looks_to p Q u) p (observe t) -> looks_to p Q t.
Proof using Type.
  intros Hs. exists (fun p' u => (p' = p /\ u = t) \/ looks_to p' Q u). split; [by left|]. intros p' u [[-> ->]|Hu].
  - eapply look_step_mono; [|exact Hs]. auto.
  - eapply look_step_mono; [|by apply looks_step]. auto.
Qed.

Lemma looks_done p a : Q p a -> looks_to p Q (Ret a).
Proof using Type. intros Ha. by apply looks_fold. Qed.
End looks.

Lemma looks_after {A B} p (Q : watch -> A -> Prop) (Q' : watch -> B -> Prop) t h :
  looks_to p Q t -> (forall p' a, Q p' a -> looks_to p' Q' (h a)) -> looks_to p Q' (ITree.bind t h).
Proof.
  intros Ht Hh. exists (fun p u => looks_to p Q' u \/ exists t', u = ITree.bind t' h /\ looks_to p Q t').
  split; [right; by exists t|]. intros p' u [Hu|(t' & -> & Ht')].
  - eapply look_step_mono; [|by apply looks_step]. auto.
  - rewrite observe_bind. pose proof (looks_step _ _ _ Ht') as Hs. destruct (observe t') as [a|v|X e k]; cbn in *.
    + eapply look_step_mono; [|apply looks_step, Hh, Hs]. auto.
    + right. by exists v.
    + destruct Hs as (p2 & Hp & Hk). exists p2. split; [done|]. intros x. right. by exists (k x).
Qed.

Lemma looks_mbind {A B} p q r (m : M A) (k : A -> M B) :
  looks p q m -> (forall a, looks q r (k a)) -> looks p r (m ≫= k).
Proof.
  intros Hm Hk. eapply looks_after; [exact Hm|]. intros p' [a|st|c|] Ho; cbn in *; [by subst|by apply looks_done..].
Qed.

Lemma looks_mret {A} p (a : A) : looks p p (mret a : M A).
Proof. by apply looks_done. Qed.
Lemma looks_fail {A} p q st : st <> SUCCESS -> looks p q (fail st : M A).
Proof. intros Hst. apply looks_done. by right. Qed.
Lemma looks_fail_bind {A B} p q st (k : A -> M B) : st <> SUCCESS -> looks p q (fail st ≫= k).
Proof. intros Hst. apply looks_fold. by right. Qed.
Lemma looks_undef {A} p q : looks p q (undef : M A).
Proof. by apply looks_done. Qed.
Lemma looks_defined {A} p (o : option A) : looks p p (defined o).
Proof. destruct o; [apply looks_mret|apply looks_undef]. Qed.
Lemma looks_sys {X} p q (e : sysE X) : after_call p e = Some (fun _ => q) -> looks p q (sys e).
Proof. intros He. apply looks_fold. eexists. split; [exact He|]. intros x. by apply looks_fold. Qed.
Lemma looks_sys_bind {X A} p q (e : sysE X) f (k : X -> M A) :
  after_call p e = Some f -> (forall x, looks (f x) q (k x)) -> looks p q (sys e ≫= k).
Proof.
  intros He Hk. apply looks_fold. rewrite observe_sys. exists f. split; [done|]. intros x. apply looks_fold.
  rewrite observe_answer. apply looks_step, Hk.
Qed.

(** Of an iteration, between the turns of which nothing is looked at. *)
Lemma looks_loop {St A} (body : St -> M (St + A)) x : (forall x, looks idle idle (body x)) -> looks idle idle (loop body x).
Proof.
  intros Hb.
  set (K := fun lr : St + outcome A => match lr with inl l => Tau (loop body l) | inr r => Ret r end).
  exists (fun p u => exists m, observe u = observe (ITree.bind (ITree.bind m loop_step) K) /\ looks_to p (settled idle) m).
  split; [by exists (body x)|]. intros p u (m & -> & Hm). rewrite !observe_bind.
  pose proof (looks_step _ _ _ Hm) as Hs. destruct (observe m) as [[[l|r]|st|c|]|v|X e h]; cbn in *; try done.
  - subst p. by exists (body l).
  - by exists v.
  - destruct Hs as (p' & Hp & Hh). exists p'. split; [done|]. intros y. by exists (h y).
Qed.

Lemma looks_free_on_fail {A} p q (m : M A) : looks p q m -> looks p q (free_on_fail m).
Proof.
  intros Hm. eapply looks_after; [exact Hm|]. intros p' [a|st|c|] Ho; try by apply looks_done.
  eapply (looks_mbind _ p'); [by apply looks_sys|]. intros _. by apply looks_done.
Qed.

(** ** Programs that do not wait *)

Definition no_look : call_prop := fun A X e _ => after_call idle e = Some (fun _ => idle).
#[export] Instance no_look_extends : Extends no_look.
Proof. by intros A B X e k h. Qed.
#[warnings="-notation-for-abbreviation"] Notation straight := (always no_look) (only parsing).

Lemma straight_looks {A} (m : M A) : straight m -> looks idle idle m.
Proof.
  intros (Rel & Hm & HR). exists (fun p u => p = idle /\ Rel u). split; [done|]. intros p u [-> Hu]. specialize (HR u Hu).
  destruct (observe u) as [o|v|X e k]; cbn.
  - destruct o; cbn; auto.
  - done.
  - destruct HR as [Ho Hk]. eexists. split; [exact Ho|]. auto.
Qed.

(** What fails after a look ahead is not [SUCCESS], so [tryexec] ends the process. *)
Lemma looks_tryexec (m : M unit) : looks idle idle m -> looks idle idle (tryexec_call m).
Proof.
  intros Hm. eapply (looks_after _ (fun p o => match o with Val st => p = idle \/ st <> SUCCESS | Fail _ => False | _ => True end)).
  - eapply looks_after; [exact Hm|]. intros p [a|st|c|] Ho; cbn in *; apply looks_done; auto.
  - intros p [st|st|c|] Ho; cbn in *; [|done|by apply looks_done..]. rewrite tryexec_reports. destruct (decide (st = SUCCESS)) as [->|Hst].
    + destruct Ho as [->|Ho]; [by apply looks_mret|done].
    + unfold raise. eapply (looks_mbind p p); [by apply looks_sys|]. intros _. by apply looks_done.
Qed.

Lemma straight_bind {A B} (m : M A) (k : A -> M B) : straight m -> (forall a, looks idle idle (k a)) -> looks idle idle (m ≫= k).
Proof. intros Hm. by apply looks_mbind, straight_looks. Qed.

(** A check that follows a look. *)
Lemma looks_check_int p v err : err <> SUCCESS -> looks p p (CHECK_INT v err).
Proof. intros He. unfold CHECK_INT. destruct (v =? -1); [by apply looks_fail|apply looks_mret]. Qed.
Lemma looks_check_size p v size : looks p p (CHECK_SIZE v size).
Proof. unfold CHECK_SIZE. destruct (v <? size); [by apply looks_fail|apply looks_mret]. Qed.
Lemma looks_check_equal p a b err : err <> SUCCESS -> looks p p (CHECK_EQUAL a b err).
Proof. intros He. unfold CHECK_EQUAL. destruct (a =? b); [apply looks_mret|by apply looks_fail]. Qed.

Lemma looks_pull sock buf size : looks (watching sock) idle (pull_tcp_data sock buf size false).
Proof.
  unfold pull_tcp_data. eapply looks_sys_bind; [cbn; by rewrite Z.eqb_refl|]. intros [r d]. cbn [fst].
  unfold CHECK_INT. destruct (r =? -1); [by apply looks_fail_bind|].
  apply (looks_mbind _ idle); [apply looks_mret|]. intros _. eapply looks_mbind; [apply looks_defined|]. intros buf'.
  eapply looks_mbind; [apply looks_check_size|]. intros _. apply looks_mret.
Qed.
Lemma looks_peek sock buf : looks (watching sock) (watching sock) (pull_tcp_data sock buf 1 true).
Proof.
  unfold pull_tcp_data. eapply looks_mbind; [apply looks_sys; cbn; by rewrite Z.eqb_refl|]. intros [r d].
  eapply looks_mbind; [by apply looks_check_int|]. intros _. eapply looks_mbind; [apply looks_defined|]. intros buf'.
  eapply looks_mbind; [apply looks_check_size|]. intros _. apply looks_mret.
Qed.

Lemma looks_poll_in sock timeout type : looks idle (watching sock) (poll_in sock timeout type).
Proof.
  unfold poll_in. eapply (looks_mbind _ (watching sock)); [by apply looks_sys|]. intros [r rev].
  destruct (r =? -1); [by apply looks_fail|]. destruct (r =? 0); [by apply looks_fail|].
  eapply looks_mbind with (q := watching sock).
  { destruct (_ =? 0); [by apply looks_fail|apply looks_peek]. }
  intros d. eapply looks_mbind; [apply looks_defined|]. intros b. by apply looks_check_equal.
Qed.

(** A header: a look, and a read of the same socket. *)
Lemma looks_header {A} sock timeout type size (k : list Z -> M A) :
  (forall packet, looks idle idle (k packet)) ->
  looks idle idle (poll_in sock timeout type;; packet ← pull_tcp_data sock (zeros size) size false; k packet).
Proof.
  intros Hk. eapply looks_mbind; [apply looks_poll_in|]. intros _. eapply looks_mbind; [apply looks_pull|exact Hk].
Qed.

(** ** The two programs *)

Create HintDb peeking.
Ltac straight_leaf :=
  idtac; match goal with
  | |- always _ (sys _) => apply always_sys; [apply _|]; intros ? ?; reflexivity
  end.
Ltac straight_go := repeat first [solve [auto with peeking]|program_step straight_leaf].
Ltac looks_step_go :=
  match goal with
  | |- looks_to _ _ (match ?x with _ => _ end) => destruct x
  | |- looks_to _ _ (mret _) => apply looks_mret
  | |- looks_to _ _ (fail _) => by apply looks_fail
  | |- looks_to _ _ (loop _ _) => apply looks_loop; intros ?
  | |- looks_to _ _ (tryexec_call _) => apply looks_tryexec
  | |- looks_to _ _ (_ ≫= _) => apply straight_bind; [solve [straight_go]|intros ?]
  | |- looks_to _ _ (_ ≫= _) => eapply looks_mbind; [solve [eauto with peeking]|intros ?]
  | |- looks_to _ _ _ => apply straight_looks; solve [straight_go]
  end.
Ltac looks_go := repeat first [solve [auto with peeking]|looks_step_go].

Section programs.
Context `{Host} `{Crc}.

Lemma straight_tcp_socket sock a b c d e : straight (init_tcp_socket sock a b c d e).
Proof. unfold init_tcp_socket, deref, network_byteorder. straight_go. Qed.
Lemma straight_udp_socket sock a b c d e : straight (init_udp_socket sock a b c d e).
Proof. unfold init_udp_socket, deref, network_byteorder. straight_go. Qed.
Lemma looks_accept sock fd timeout : looks idle idle (accept_new_connection sock fd timeout).
Proof.
  unfold accept_new_connection, host_ipstring. eapply (looks_mbind _ (listening fd)); [by apply looks_sys|]. intros r.
  eapply looks_mbind; [by apply looks_check_int|]. intros _. eapply (looks_mbind _ (listening fd)).
  { apply looks_sys. cbn. by rewrite Z.eqb_refl. }
  intros [r' rev]. eapply (looks_mbind _ (listening fd)).
  { destruct (r' =? -1); [by apply looks_fail|]. destruct (r' =? 0); [by apply looks_fail|apply looks_mret]. }
  intros _. eapply looks_mbind; [apply looks_sys; cbn; by rewrite Z.eqb_refl|]. intros [tmp addr]. looks_go.
Qed.
Lemma straight_close sock : straight (close_socket sock).
Proof. unfold close_socket. straight_go. Qed.
Lemma looks_pull_udp sock buf size : looks (watching sock) idle (pull_udp_data sock buf size).
Proof.
  unfold pull_udp_data. eapply looks_sys_bind; [cbn; by rewrite Z.eqb_refl|]. intros [r d]. cbn [fst].
  unfold CHECK_INT. destruct (r =? -1); [by apply looks_fail_bind|].
  apply (looks_mbind _ idle); [apply looks_mret|]. intros _. looks_go.
Qed.
Lemma straight_on_mfile {A} (f : MFILE -> option (A * MFILE)) : straight (on_mfile f).
Proof. unfold on_mfile. straight_go. Qed.
Lemma straight_open path mode : straight (start_file_stream path mode).
Proof. unfold start_file_stream, create_file, mfopen, set_filec. straight_go. Qed.
#[local] Hint Resolve straight_tcp_socket straight_udp_socket looks_accept straight_close
  straight_on_mfile straight_open : peeking.

Lemma straight_start_cntl sock conn : straight (start_cntl sock conn).
Proof. unfold start_cntl. straight_go. Qed.
Lemma straight_start_data sock : straight (start_data sock).
Proof. unfold start_data. straight_go. Qed.
Lemma straight_end : straight end_file_stream.
Proof. unfold end_file_stream, mfclose. straight_go. Qed.
Lemma straight_copy_info stack : straight (copy_info stack).
Proof. unfold copy_info. straight_go. Qed.
Lemma straight_poll_out sock timeout (push : M unit) : straight push -> straight (poll_out sock timeout push).
Proof. intros Hp. unfold poll_out. straight_go. Qed.
Lemma straight_push_tcp sock buf size : straight (push_tcp_data sock buf size).
Proof. unfold push_tcp_data. straight_go. Qed.
#[local] Hint Resolve straight_start_cntl straight_start_data straight_end straight_copy_info straight_poll_out straight_push_tcp : peeking.

Lemma straight_push_SEND sock args timeout : straight (push_SEND_header sock args timeout).
Proof. unfold push_SEND_header. straight_go. Qed.
Lemma straight_push_FLOW sock args timeout : straight (push_FLOW_header sock args timeout).
Proof. unfold push_FLOW_header. straight_go. Qed.
Lemma straight_push_ack a seq timeout : straight (push_ack a seq timeout).
Proof. unfold push_ack, push_RECV_header. straight_go. Qed.
Lemma straight_push_chunk sock chunk timeout : straight (push_chunk_data sock chunk timeout).
Proof. unfold push_chunk_data, push_segment, push_udp_data. straight_go. Qed.
Lemma looks_pull_segment sock timeout rsize : looks idle idle (pull_segment sock timeout rsize).
Proof.
  unfold pull_segment. destruct (rsize =? 0); [apply looks_mret|]. apply straight_bind; [straight_go|]. intros c.
  eapply (looks_mbind _ (watching sock)); [by apply looks_sys|]. intros [r rev]. eapply (looks_mbind _ idle).
  - assert (Hf : forall st, st <> SUCCESS -> looks (watching sock) idle (sys Free;; fail st : M (list Z))).
    { intros st Hst. eapply (looks_mbind _ (watching sock)); [by apply looks_sys|]. intros _. by apply looks_fail. }
    destruct (r =? -1); [by apply Hf|]. destruct (r =? 0); [by apply Hf|]. destruct (_ =? 0); [by apply Hf|].
    apply looks_free_on_fail, looks_pull_udp.
  - intros segbuf. looks_go.
Qed.
#[local] Hint Resolve looks_pull_segment looks_loop : peeking.
Lemma looks_pull_chunk sock chunk timeout : looks idle idle (pull_chunk_data sock chunk timeout).
Proof. unfold pull_chunk_data, set_socket_rcvlowsize, mfsync. looks_go. Qed.
Lemma straight_set_segsize : straight set_segsize.
Proof. unfold set_segsize. straight_go. Qed.
#[local] Hint Resolve straight_push_SEND straight_push_FLOW straight_push_ack straight_push_chunk looks_pull_chunk
  straight_set_segsize : peeking.

Lemma looks_pull_RECV sock timeout : looks idle idle (pull_RECV_header sock timeout).
Proof. unfold pull_RECV_header. apply looks_header. intros packet. looks_go. Qed.
Lemma looks_pull_FLOW sock timeout : looks idle idle (pull_FLOW_header sock timeout).
Proof. unfold pull_FLOW_header. apply looks_header. intros packet. looks_go. Qed.
Lemma looks_pull_SEND sock args timeout : looks idle idle (pull_SEND_header sock args timeout).
Proof.
  unfold pull_SEND_header. apply looks_header. intros packet. eapply straight_bind; [unfold pull_tcp_data; straight_go|].
  intros infostr. looks_go.
Qed.
#[local] Hint Resolve looks_pull_RECV looks_pull_FLOW looks_pull_SEND : peeking.

Lemma looks_push_handshake stack : looks idle idle (push_handshake stack).
Proof. unfold push_handshake. looks_go. Qed.
Lemma looks_push_flow_try packet t : looks idle idle (push_flow_try packet t).
Proof. unfold push_flow_try. looks_go. Qed.
Lemma looks_push_chunk_try chcon t : looks idle idle (push_chunk_try chcon t).
Proof. unfold push_chunk_try. looks_go. Qed.
#[local] Hint Resolve looks_loop looks_push_handshake looks_push_flow_try looks_push_chunk_try : peeking.
Lemma looks_push_transfer : looks idle idle push_transfer.
Proof. unfold push_transfer, push_one_chunk. looks_go. Qed.
Lemma looks_push_verification stack : looks idle idle (push_verification stack).
Proof. unfold push_verification. looks_go. Qed.
Lemma looks_pull_handshake name stack : looks idle idle (pull_handshake name stack).
Proof. unfold pull_handshake, set_filec. looks_go. Qed.
Lemma looks_pull_chunk_try chcon crc t : looks idle idle (pull_chunk_try chcon crc t).
Proof. unfold pull_chunk_try. looks_go. Qed.
#[local] Hint Resolve looks_pull_chunk_try : peeking.
Lemma looks_pull_transfer : looks idle idle pull_transfer.
Proof. unfold pull_transfer, pull_one_chunk. looks_go. Qed.
Lemma looks_accept_cntl sock fd timeout : looks idle idle (accept_cntl sock fd timeout).
Proof. apply looks_accept. Qed.
#[local] Hint Resolve looks_accept_cntl : peeking.
Lemma looks_pull_verification stack : looks idle idle (pull_verification stack).
Proof. unfold pull_verification. looks_go. Qed.
#[local] Hint Resolve looks_push_transfer looks_push_verification looks_pull_handshake looks_pull_transfer looks_pull_verification : peeking.

Lemma looks_push_file path stack1 stack2 : looks idle idle (push_file path stack1 stack2).
Proof. unfold push_file, start_pusher. looks_go. Qed.
Lemma looks_start_puller name stack1 stack2 : looks idle idle (start_puller name stack1 stack2).
Proof. unfold start_puller. looks_go. Qed.
#[local] Hint Resolve looks_start_puller : peeking.
Lemma looks_pull_file name stack1 stack2 : looks idle idle (pull_file name stack1 stack2).
Proof. unfold pull_file. looks_go. Qed.
End programs.


(** ** On the way *)

(** A socket on which a connection is waited for listens. *)
Definition watched (p : watch) (tr : list obs) : Prop := forall fd, p = listening fd -> fd ∈ listeners tr.

Lemma watched_call p X (e : sysE X) f x tr :
  watched p tr -> after_call p e = Some f -> watched (f x) (tr ++ [Obs e x]).
Proof.
  intros Hp He fd Hf. rewrite listeners_app, elem_of_app.
  assert (Hkeep : forall q, p = q -> q = listening fd -> fd ∈ listeners tr) by (intros q -> ->; by apply Hp).
  destruct e; cbn in He; repeat case_match; simplify_eq; try done; try (left; by eapply Hkeep).
  - by destruct (x.1 =? -1).
  - right. unfold listeners. cbn. in_list.
Qed.

(** What is waited for, at any point of an execution. *)
Lemma looks_reached {A} (m m' : M A) s s' :
  looks idle idle m -> reaches posix (m, s) (m', s') ->
  exists p, looks p idle m' /\ forall tr, p_trace s' = p_trace s ++ tr -> watched p tr.
Proof.
  intros Hm Hr. assert (Hgo : forall x y : M A * pstate, reaches posix x y -> forall p tr0, looks p idle x.1 -> watched p tr0 ->
    exists p', looks p' idle y.1 /\ forall tr, p_trace y.2 = p_trace x.2 ++ tr -> watched p' (tr0 ++ tr)).
  { clear. induction 1 as [x|[m s] [m1 s1] y Hmv Hrest IH]; intros p tr0 Hm Hp; cbn [fst snd] in *.
    - exists p. split; [done|]. intros tr Ht. rewrite (trace_here _ _ Ht), app_nil_r. done.
    - apply looks_step in Hm. inversion Hmv as [? ? ? Hob|? ? X e k x s2 Hob Hx]; subst; rewrite Hob in Hm.
      + exact (IH p tr0 Hm Hp).
      + destruct Hm as (f & Hf & Hk). destruct (is_conf e) eqn:Hc.
        * assert (f x = p) as Hfx by (destruct e; try discriminate Hc; by injection Hf as <-).
          destruct (IH p tr0) as (p' & Hp' & Htr); [by rewrite <- Hfx|done|]. exists p'. split; [done|].
          rewrite <- (posix_conf_trace _ _ _ _ _ Hc Hx). exact Htr.
        * apply posix_call in Hx as [_ ->]; [|done].
          destruct (IH (f x) (tr0 ++ [Obs e x])) as (p' & Hp' & Htr); [apply Hk|by eapply watched_call|]. exists p'. split; [done|].
          intros tr Ht. destruct (reaches_trace _ _ Hrest) as [tr1 Ht1]. unfold state_trace in Ht1. cbn in Ht1, Htr.
          assert (tr = [Obs e x] ++ tr1) as ->.
          { apply (app_inv_head (p_trace s)). etrans; [symmetry; exact Ht|]. etrans; [exact Ht1|]. by rewrite <- app_assoc. }
          specialize (Htr tr1 Ht1). by rewrite <- app_assoc in Htr. }
  destruct (Hgo _ _ Hr idle [] Hm ltac:(by intros fd)) as (p & Hp & Htr). by exists p.
Qed.

(** The call that comes next is allowed. *)
Lemma looks_call {A} p (m : M A) X (e : sysE X) k :
  looks p idle m -> observe m = VisF e k -> exists f, after_call p e = Some f /\ forall x, looks (f x) idle (k x).
Proof. intros Hm Hob. apply looks_step in Hm. by rewrite Hob in Hm. Qed.

(** After a wait, an execution that returns a value reads the same socket first. *)
Lemma look_read {A} fd (m : M A) s (a : A) s' tr :
  looks (watching fd) idle m -> exec posix m s (Val a) s' -> p_trace s' = p_trace s ++ tr ->
  exists d w, wire tr = In fd d :: w.
Proof.
  intros Hm He. remember (Val a) as o eqn:Eo. revert tr Hm Eo.
  induction He as [m s o Hob|m u s o s' Hob _ IH|X e k x m s s1 o s' Hob Hx He IH]; intros tr Hm Eo Ht; subst;
    apply looks_step in Hm; rewrite Hob in Hm; cbn [look_step] in Hm.
  - done.
  - by eapply IH.
  - destruct Hm as (f & Hf & Hk). destruct (exec_trace _ _ _ _ He) as [tr2 Ht2].
    destruct (is_conf e) eqn:Hc.
    + assert (f x = watching fd) as Hfx by (destruct e; try discriminate Hc; by injection Hf as <-).
      eapply (IH tr); [by rewrite <- Hfx|done|]. by rewrite Ht, (posix_conf_trace _ _ _ _ _ Hc Hx).
    + apply posix_call in Hx as [Hx ->]; [|done]. cbn [logged p_trace] in Ht2.
      assert (tr = Obs e x :: tr2) as -> by (rewrite Ht2, <- app_assoc in Ht; by apply app_inv_head in Ht).
      assert (Hquiet : f x = watching fd -> wire_event _ e x = [] -> exists d w, wire (Obs e x :: tr2) = In fd d :: w).
      { intros Hfx Hev. destruct (IH tr2) as (d & w & Hw2); [by rewrite <- Hfx|done|done|].
        exists d, w. cbn. by rewrite Hev. }
      destruct e; try discriminate Hc; unfold after_call in Hf; try discriminate Hf; try by (injection Hf as <-; apply Hquiet).
      * destruct (events =? POLLIN); [discriminate Hf|]. by injection Hf as <-; apply Hquiet.
      * destruct (Z.eqb_spec fd0 fd) as [->|]; [|discriminate Hf]. destruct x as [r d].
        destruct (Z.eqb_spec flags MSG_PEEK) as [->|Hfl].
        -- destruct (size =? 1); [|discriminate Hf]. injection Hf as <-. apply Hquiet; [done|]. cbn. by rewrite orb_true_r.
        -- injection Hf as <-. cbn [fst] in Hquiet. destruct (Z.eqb_spec r (-1)) as [->|Hr]; [by apply Hquiet|].
           exists d, (wire tr2). cbn. destruct (Z.eqb_spec r (-1)); [done|]. by destruct (Z.eqb_spec flags MSG_PEEK).
Qed.
