(* ===== verification/Progress.v ===== *)
(** * Two processes never wait for each other

    However the calls of the two processes and the steps of their programs fall, and
    whatever replies they get as long as those are good ones, the transfer of
    [transfer_succeeds] goes on until both have returned: there is always a step,
    since when both would read, one of them is behind the other in the turns of the
    transfer and has something to read; and there is no endless sequence of steps. *)
From stdpp Require Import relations gmap.
From S2P Require Import Prelude Protocol Types Sys Prefix Wire Turns Utils Error Mfile NetStream FileStream Cntl Data Pusher Puller Rufshare Session Delivery Hearing Answered Joint Threads Peeks.

(** ** Who waits in turns that match *)

Section waiting.
Context (a b conn data : Z) (ss rs : list turn) (Hm : Forall2 (turns_match a b conn data) ss rs).
Context (Hss : Forall asks ss) (Hrs : Forall is_asked rs).
Context (Has : Forall (fun t => len t.2 = 8) ss) (Har : Forall (fun t => len t.2 = 8) rs).
Context (Hsome : Forall (fun t => Forall some_bytes t.1) rs).

Lemma len_acks (ts : list turn) : Forall (fun t => len t.2 = 8) ts -> len (concat (snd <$> ts)) = 8 * Z.of_nat (length ts).
Proof using Type. induction 1 as [|t ts Ht _ IH]; [done|]. cbn [fmap list_fmap concat length]. rewrite len_app, Ht, IH. lia. Qed.

(** What is put is taken, turn by turn. *)
Lemma put_taken k :
  len (out_bytes a (asking a (take k ss))) = len (in_bytes conn (answering conn (take k rs))) /\
  len (out_bytes b (asking a (take k ss))) = len (in_bytes data (answering conn (take k rs))).
Proof using Hm.
  pose proof (Forall2_take _ _ _ k Hm) as Hk. rewrite !asking_out, !answering_in.
  induction Hk as [|s r ss' rs' [E1 E2] _ [IH1 IH2]]; [done|]. cbn [fmap list_fmap concat]. rewrite !len_app. lia.
Qed.

Lemma put_more fd k k' : (k <= k')%nat -> len (out_bytes fd (asking a (take k ss))) <= len (out_bytes fd (asking a (take k' ss))).
Proof using Type.
  intros Hk. replace k' with (k + (k' - k))%nat by lia. rewrite <- take_take_drop, asking_app, out_bytes_app, len_app.
  pose proof (len_nonneg (out_bytes fd (asking a (take (k' - k) (drop k ss))))). lia.
Qed.

(** The side that asks, before it reads: it has put all of its turn. *)
Lemma asker_waits w fd d w' :
  w ++ In fd d :: w' = asking a ss ->
  exists k, (k < length ss)%nat /\ len d = 8 /\ len (in_bytes a w) = 8 * Z.of_nat k /\
    forall fd', out_bytes fd' w = out_bytes fd' (asking a (take (S k) ss)).
Proof using Hss Has.
  intros Hw. destruct (asking_waits _ _ _ _ _ _ Hss Hw) as (k & t & Hk & -> & ->). exists k.
  pose proof (lookup_lt_Some _ _ _ Hk) as Hlt. pose proof (Forall_lookup_1 _ _ _ _ Hss Hk) as Ht.
  split_and!; [done|exact (Forall_lookup_1 _ _ _ _ Has Hk)| |].
  - rewrite in_bytes_app, asking_in, outs_in, app_nil_r, len_acks by (try done; by apply Forall_take).
    rewrite length_take. unfold turn in *. lia.
  - intros fd'. erewrite take_S_r by exact Hk. rewrite asking_app, !out_bytes_app. f_equal.
    rewrite asking_cons, out_bytes_app, out_in. cbn. by rewrite app_nil_r.
Qed.

(** The side that answers, before it reads: it has answered the turns before, and
    what it wants is of this turn. *)
Lemma answerer_waits w fd d w' :
  w ++ In fd d :: w' = answering conn rs ->
  exists k, (k < length rs)%nat /\ len (out_bytes conn w) = 8 * Z.of_nat k /\ 0 < len d /\
    len (in_bytes fd w) + len d <= len (in_bytes fd (answering conn (take (S k) rs))).
Proof using Hrs Har Hsome.
  intros Hw. destruct (answering_waits _ _ _ _ _ _ Hw) as (k & t & w1 & w2 & Hk & Ht & ->). exists k.
  pose proof (lookup_lt_Some _ _ _ Hk) as Hlt.
  pose proof (Forall_lookup_1 _ _ _ _ Hrs Hk) as Hins. unfold is_asked in Hins. rewrite Ht in Hins.
  apply Forall_app in Hins as [Hins _].
  pose proof (Forall_lookup_1 _ _ _ _ Hsome Hk) as Hd. cbn beta in Hd. rewrite Ht in Hd.
  apply Forall_app in Hd as [_ [Hd _]%Forall_cons].
  split_and!; [done| |exact Hd|].
  - rewrite out_bytes_app, answering_out, (ins_out _ w1), app_nil_r, len_acks by (try done; by apply Forall_take).
    rewrite length_take. unfold turn in *. lia.
  - erewrite take_S_r by exact Hk. rewrite answering_app, answering_cons, Ht, !in_bytes_app, in_here, !len_app.
    match goal with |- context [len (in_bytes fd w2)] => pose proof (len_nonneg (in_bytes fd w2)) end.
    match goal with |- context [in_bytes fd (Out ?x ?y :: ?z)] => pose proof (len_nonneg (in_bytes fd (Out x y :: z))) end. lia.
Qed.

(** A side that has come to its end, or waits for more than there is. *)
Definition asker_stuck (ended : Prop) (w1 w2 : list wev) : Prop :=
  ended /\ w1 = asking a ss \/
  exists fd d w size, w1 ++ In fd d :: w = asking a ss /\ size <= Z.max 1 (len d) /\ len (out_bytes conn w2) < len (in_bytes a w1) + size.
Definition answerer_stuck (ended : Prop) (w1 w2 : list wev) : Prop :=
  ended /\ w2 = answering conn rs \/
  exists fd d w size, w2 ++ In fd d :: w = answering conn rs /\ size <= Z.max 1 (len d) /\
    (fd = conn /\ len (out_bytes a w1) < len (in_bytes conn w2) + size \/
     fd = data /\ len (out_bytes b w1) < len (in_bytes data w2) + size).

Lemma not_both_stuck (ended1 ended2 : Prop) w1 w2 :
  asker_stuck ended1 w1 w2 -> answerer_stuck ended2 w1 w2 -> ended1 /\ ended2.
Proof using All.
  pose proof (Forall2_length _ _ _ Hm) as Hl.
  assert (Hend : forall k, (length ss <= k)%nat -> asking a (take k ss) = asking a ss) by (intros k Hk; by rewrite firstn_all2).
  assert (Hgot : forall k fd (d : list Z) size, size <= Z.max 1 (len d) -> 0 < len d ->
    len (in_bytes fd w2) + len d <= len (in_bytes fd (answering conn (take (S k) rs))) ->
    (fd = conn /\ len (out_bytes a w1) < len (in_bytes conn w2) + size \/
     fd = data /\ len (out_bytes b w1) < len (in_bytes data w2) + size) ->
    exists fd', len (out_bytes fd' w1) < len (out_bytes fd' (asking a (take (S k) ss)))).
  { intros k fd d size Hs Hd Hin Hor. destruct (put_taken (S k)) as [P1 P2].
    destruct Hor as [[-> Ho]|[-> Ho]]; [exists a|exists b]; lia. }
  intros [[He1 ->]|(fd & d & w & size & Hw & Hs & Hlt)] [[He2 ->]|(fd2 & d2 & w' & size2 & Hw' & Hs2 & Hor)]; [done|exfalso..].
  - destruct (answerer_waits _ _ _ _ Hw') as (m & Hm' & _ & Hd2 & Hin).
    destruct (Hgot m _ _ _ Hs2 Hd2 Hin Hor) as (fd' & Hlt). rewrite <- (Hend (length ss)) in Hlt by done.
    pose proof (put_more fd' (S m) (length ss) ltac:(lia)). lia.
  - destruct (asker_waits _ _ _ _ Hw) as (k & Hk & Hd & Hin & _). rewrite Hin, answering_out, len_acks in Hlt by done. lia.
  - destruct (asker_waits _ _ _ _ Hw) as (k & Hk & Hd & Hin & Hout). destruct (answerer_waits _ _ _ _ Hw') as (m & Hm' & Ha & Hd2 & Hin').
    destruct (Hgot m _ _ _ Hs2 Hd2 Hin' Hor) as (fd' & Hlt'). rewrite Hout in Hlt'.
    destruct (Nat.le_gt_cases (S m) (S k)) as [Hle|]; [pose proof (put_more fd' _ _ Hle); lia|]. lia.
Qed.
End waiting.

(** ** Steps of the two together *)

(** What is left of each program, its state, and the calls so far. *)
Record world := { w_sender : M unit * pstate; w_receiver : M unit * pstate; w_calls : joint }.

(** A step of either program; when it is a call, it goes well, and the network
    delivers what it delivers. *)
Inductive world_step (n : channels) (errors : gmap nat Z) (content : list Z) : world -> world -> Prop :=
| step_sender p p' q J l :
    moves posix p p' -> state_trace p' = state_trace p ++ l ->
    smooth n content (J ++ (inl <$> l)) -> delivers n errors (J ++ (inl <$> l)) ->
    world_step n errors content {| w_sender := p; w_receiver := q; w_calls := J |}
      {| w_sender := p'; w_receiver := q; w_calls := J ++ (inl <$> l) |}
| step_receiver p q q' J l :
    moves posix q q' -> state_trace q' = state_trace q ++ l ->
    smooth n content (J ++ (inr <$> l)) -> delivers n errors (J ++ (inr <$> l)) ->
    world_step n errors content {| w_sender := p; w_receiver := q; w_calls := J |}
      {| w_sender := p; w_receiver := q'; w_calls := J ++ (inr <$> l) |}.

(** Whatever steps are taken, there is a next one until [P] holds, and it will. *)
Inductive inevitable {W} (step : W -> W -> Prop) (P : W -> Prop) (w : W) : Prop :=
| inevitable_now : P w -> inevitable step P w
| inevitable_later w' : step w w' -> (forall w', step w w' -> inevitable step P w') -> inevitable step P w.

(** What a call waits for, after those of [tr]: a number of bytes on a socket. *)
Definition wants {X} (tr : list obs) (e : sysE X) : option (Z * Z) :=
  match e with
  | RecvFrom fd size _ => Some (fd, size)
  | Poll fd events _ => if (events =? POLLIN) && negb (bool_decide (fd ∈ listeners tr)) then Some (fd, 1) else None
  | _ => None
  end.

Lemma wants_call {X} tr (e : sysE X) p : wants tr e = Some p -> is_conf e = false.
Proof. by destruct e. Qed.

Lemma len_spoil errors l : len (spoil errors l) = len l.
Proof. unfold spoil, len. by rewrite length_imap. Qed.

(** A read of bytes that are there is answered with those. *)
Lemma next_brings stream tr fd size flags :
  in_bytes fd (wire tr) `prefix_of` stream fd -> 0 <= size ->
  (0 < size -> len (in_bytes fd (wire tr)) + size <= len (stream fd)) ->
  in_bytes fd (wire tr) ++ next_data stream tr fd size flags `prefix_of` stream fd.
Proof.
  intros [r Hr] Hs Hl. unfold next_data. rewrite Hr, zdrop_app by done.
  destruct (Z.eq_dec size 0) as [->|]; [rewrite (app_nil_r (in_bytes fd (wire tr)) : _ ++ ztake 0 _ = _); by eexists|].
  rewrite Hr, len_app in Hl. rewrite ztake_app_le by lia. exists (zdrop size r). by rewrite <- app_assoc, ztake_zdrop.
Qed.

Lemma answered_brings file sock conn stream tr o fd :
  answered_as file sock conn (next_data stream tr) o -> from_socket tr o = Some fd ->
  in_bytes fd (wire tr) `prefix_of` stream fd ->
  (forall size, wants tr (ob_call o) = Some (fd, size) -> 0 < size -> len (in_bytes fd (wire tr)) + size <= len (stream fd)) ->
  brings (stream fd) (in_bytes fd (wire tr)) o.
Proof.
  destruct o as [X e x]. unfold answered_as, brings, from_socket. destruct e; try done; cbn [ob_call ob_reply wants answered]; intros Ha Hfd Hp Hl.
  - destruct (decide (fd0 ∈ listeners tr)) as [|Hls]; [done|]. injection Hfd as ->. intros _ Hin.
    destruct (Z.eqb_spec events POLLIN) as [->|He]; [|by destruct (Hin (Ha He))].
    rewrite bool_decide_false in Hl by done. specialize (Hl 1 eq_refl). lia.
  - injection Hfd as ->. destruct (Z.ltb_spec size 0); [by intros ?|]. rewrite Ha. intros _.
    apply next_brings; [done|done|]. intros Hs. by apply Hl.
Qed.

Section moving.
Context (n : channels) (Hn : channels_ok n) (content : list Z) (Hb : bytes_ok content) (Hl : len content < 2 ^ 63).
Context (errors : gmap nat Z) (J : joint) (Hsm : smooth n content J) (Hdv : delivers n errors J).

Let answers := out_bytes (ch_conn n) (wire (theirs J)).
Let script := out_bytes (ch_cntl n) (wire (ours J)).
Let stream := spoil errors (out_bytes (ch_send n) (wire (ours J))).

(** Each hears what the other says. *)
Lemma told_now : told (ch_cntl n) (ch_send n) content answers (ours J).
Proof using Hsm Hdv.
  destruct (delivers_reads _ _ _ Hdv) as (_ & _ & R). destruct Hsm as [Hw Hs _ Hd _ Hm].
  apply Forall_app in Hw as [Hw _], Hs as [Hs _]. constructor; try done. by eapply reads_follows.
Qed.
Lemma heard_now : hears (ch_conn n) (ch_recv n) (len content) script stream (theirs J).
Proof using Hsm Hdv.
  destruct (delivers_reads _ _ _ Hdv) as (R1 & R2 & _). destruct Hsm as [Hw Hs Hr _ Hd _].
  apply Forall_app in Hw as [_ Hw], Hs as [_ Hs]. constructor; try done; [by eapply reads_follows|]. left. apply R2.
Qed.

Lemma sender_moves t s q X (e : sysE X) k :
  observe t = VisF e k -> bytes_ok answers ->
  (forall size, wants (ours J) e = Some (ch_cntl n, size) -> 0 < size -> len (in_bytes (ch_cntl n) (wire (ours J))) + size <= len answers) ->
  exists w, world_step n errors content {| w_sender := (t, s); w_receiver := q; w_calls := J |} w.
Proof using All.
  intros Hob Hba Hav. destruct Hn as [F1 F2 F3 F4 F5 F6]. destruct (is_conf e) eqn:Hc.
  { destruct (posix_conf _ e s Hc) as (x & s' & Hx & Ht). eexists. eapply (step_sender _ _ _ _ (k x, s') q J []).
    - by eapply moves_vis.
    - unfold state_trace. cbn. by rewrite Ht, app_nil_r.
    - by rewrite app_nil_r.
    - by rewrite app_nil_r. }
  destruct (can_answer content (fun type => if type =? SOCK_STREAM then ch_cntl n else ch_send n) 0
    (next_data (answer_stream (ch_cntl n) answers) (ours J)) X e Hc Hb Hl) as (x & Hx & Hgo & Hans).
  { intros type. by destruct (type =? _). }
  { done. }
  { intros. apply next_data_ok; [|done]. intros fd'. unfold answer_stream. destruct (fd' =? ch_cntl n); [done|apply bytes_ok_nil]. }
  assert (Hself : answer_stream (ch_cntl n) answers (ch_cntl n) = answers) by (unfold answer_stream; by rewrite Z.eqb_refl).
  pose proof (told_more _ _ _ _ _ (Obs e x) told_now Hgo Hans) as [Hw Hs Hd Hm _].
  destruct (delivers_reads _ _ _ Hdv) as (_ & _ & [Hp _]).
  eexists. eapply (step_sender _ _ _ _ (k x, logged e x s) q J [Obs e x]); [|done| |].
  - eapply moves_vis; [exact Hob|]. by apply posix_call.
  - destruct Hsm as [Hw' Hs' Hr' Hd' Hl' Hm']. constructor; rewrite ?ours_app, ?theirs_app; cbn; rewrite ?app_nil_r; try done.
    + apply Forall_app in Hw' as [_ Hw']. by apply Forall_app.
    + apply Forall_app in Hs' as [_ Hs']. by apply Forall_app.
  - apply delivers_step; [done|]. cbn. intros Hfd. fold answers in Hp |- *. rewrite <- Hself in Hp |- *.
    eapply answered_brings; [exact Hans|exact Hfd|exact Hp|]. rewrite Hself. exact Hav.
Qed.

Lemma receiver_moves t s p X (e : sysE X) k :
  observe t = VisF e k -> bytes_ok script -> bytes_ok stream ->
  (forall size, wants (theirs J) e = Some (ch_conn n, size) -> 0 < size -> len (in_bytes (ch_conn n) (wire (theirs J))) + size <= len script) ->
  (forall size, wants (theirs J) e = Some (ch_recv n, size) -> 0 < size -> len (in_bytes (ch_recv n) (wire (theirs J))) + size <= len stream) ->
  exists w, world_step n errors content {| w_sender := p; w_receiver := (t, s); w_calls := J |} w.
Proof using All.
  intros Hob Hbs Hbd Hav1 Hav2. destruct Hn as [F1 F2 F3 F4 F5 F6]. destruct (is_conf e) eqn:Hc.
  { destruct (posix_conf _ e s Hc) as (x & s' & Hx & Ht). eexists. eapply (step_receiver _ _ _ p _ (k x, s') J []).
    - by eapply moves_vis.
    - unfold state_trace. cbn. by rewrite Ht, app_nil_r.
    - by rewrite app_nil_r.
    - by rewrite app_nil_r. }
  set (str := script_stream (ch_conn n) (ch_recv n) script stream).
  destruct (can_answer content (fun _ => ch_recv n) (ch_conn n) (next_data str (theirs J)) X e Hc Hb Hl) as (x & Hx & Hgo & Hans).
  { done. }
  { done. }
  { intros. apply next_data_ok; [|done]. intros fd'. unfold str, script_stream.
    destruct (fd' =? ch_conn n); [done|]. destruct (fd' =? ch_recv n); [done|apply bytes_ok_nil]. }
  assert (Hself1 : str (ch_conn n) = script) by (unfold str, script_stream; by rewrite Z.eqb_refl).
  assert (Hself2 : str (ch_recv n) = stream)
    by (unfold str, script_stream; rewrite Z.eqb_refl; by destruct (Z.eqb_spec (ch_recv n) (ch_conn n))).
  pose proof (hears_more _ _ _ _ _ _ (Obs e x) heard_now F6 Hgo Hans) as [Hw Hs Hr Hd _ _].
  destruct (delivers_reads _ _ _ Hdv) as ([Hp1 _] & [Hp2 _] & _).
  eexists. eapply (step_receiver _ _ _ p _ (k x, logged e x s) J [Obs e x]); [|done| |].
  - eapply moves_vis; [exact Hob|]. by apply posix_call.
  - destruct Hsm as [Hw' Hs' Hr' Hd' Hl' Hm']. constructor; rewrite ?ours_app, ?theirs_app; cbn; rewrite ?app_nil_r; try done.
    + apply Forall_app in Hw' as [Hw' _]. by apply Forall_app.
    + apply Forall_app in Hs' as [Hs' _]. by apply Forall_app.
  - apply delivers_step; [done|]. split; intros Hfd.
    + fold script in Hp1 |- *. rewrite <- Hself1 in Hp1 |- *. eapply answered_brings; [exact Hans|exact Hfd|exact Hp1|].
      rewrite Hself1. exact Hav1.
    + fold stream in Hp2 |- *. rewrite <- Hself2 in Hp2 |- *. eapply answered_brings; [exact Hans|exact Hfd|exact Hp2|].
      rewrite Hself2. exact Hav2.
Qed.
End moving.

(** ** The transfer goes on *)

(** A program that waits for a socket reads it next, in an execution in which all
    goes well. *)
Lemma next_read {A} p (m : M A) fd size X (e : sysE X) k s x (a : A) s2 tr post :
  looks p idle m -> watched p tr -> observe m = VisF e k -> wants tr e = Some (fd, size) -> 0 < size ->
  reply_ok e x -> goes_well (Obs e x) ->
  exec posix (k x) (logged e x s) (Val a) s2 -> p_trace s2 = p_trace s ++ [Obs e x] ++ post ->
  exists d w, wire ([Obs e x] ++ post) = In fd d :: w /\ size <= Z.max 1 (len d).
Proof.
  intros Hm Hp Hob Hwt Hs Hx Hg He Ht. destruct (looks_call _ _ _ _ _ Hm Hob) as (f & Hf & Hk).
  assert (Hread : f x = watching fd -> wire [Obs e x] = [] -> size = 1 ->
    exists d w, wire ([Obs e x] ++ post) = In fd d :: w /\ size <= Z.max 1 (len d)).
  { intros Hfx Hw ->. destruct (look_read fd (k x) (logged e x s) a s2 post) as (d & w & Hwd); [by rewrite <- Hfx|exact He|by rewrite Ht, app_assoc|].
    exists d, w. split; [by rewrite wire_app, Hw|lia]. }
  destruct e; try discriminate Hwt; cbn [wants] in Hwt; unfold after_call in Hf.
  - destruct (events =? POLLIN); [|discriminate Hwt]. cbn [andb] in Hwt.
    destruct (bool_decide_reflect (fd0 ∈ listeners tr)) as [|Hls]; [discriminate Hwt|]. injection Hwt as -> <-.
    destruct p as [|fd'|fd']; [|discriminate Hf|].
    + injection Hf as <-. by apply Hread.
    + destruct (Z.eqb_spec fd fd') as [->|]; [|discriminate Hf]. by destruct (Hls (Hp fd' eq_refl)).
  - injection Hwt as -> ->. destruct x as [r d].
    unfold goes_well in Hg. cbn in Hg, Hx. destruct (Z.ltb_spec size 0); [lia|].
    destruct (Z.eqb_spec r (-1)) as [|Hr]; [discriminate Hg|]. destruct (Z.ltb_spec r size); [discriminate Hg|].
    destruct (Z.eqb_spec flags MSG_PEEK) as [->|Hfl].
    + assert (f (r, d) = watching fd /\ size = 1) as [Hfx ->].
      { destruct p as [|fd'|fd']; [| |discriminate Hf].
        - destruct (Z.eqb_spec size 1); [|discriminate Hf]. by injection Hf as <-.
        - destruct (Z.eqb_spec fd fd') as [->|]; [|discriminate Hf]. destruct (Z.eqb_spec size 1); [|discriminate Hf]. by injection Hf as <-. }
      apply Hread; [done| |done]. cbn. by rewrite orb_true_r.
    + exists d, (wire post). split; [|lia]. rewrite wire_app. cbn.
      destruct (Z.eqb_spec r (-1)); [done|]. by destruct (Z.eqb_spec flags MSG_PEEK).
Qed.

Lemma moves_while {A} (heard : list obs -> Prop) tr0 l (p p' : itree sysE A * pstate) :
  moves posix p p' -> state_trace p' = tr0 ++ l -> heard l -> moves (posix_while (hearing heard tr0)) p p'.
Proof.
  intros Hm Ht Hh. inversion Hm; subst; [by apply moves_tau|]. eapply moves_vis; [done|]. split; [done|]. by exists l.
Qed.

Section inevitability.
Context (H1 H2 : Host) `{Crc} (n : channels) (Hn : channels_ok n) (content : list Z) (Hb : bytes_ok content).
Context (c : InitConfig) (path rest : list Z) (st1 st2 : CntlAddrs) (s1 : pstate).
Context (Hsr : sender_ready (len content) path st1 st2 c) (Hmod : len content mod conf_chsize c <> 0)
  (Hca : carried (conf_addrs c)) (Hs1 : p_conf s1 = c).
Context (name : list Z) (st3 st4 : SendArgs) (s2 : pstate).
Context (Hrr : receiver_ready name st3 st4 (p_conf s2)) (Hdial : dialable (conf_addrs (p_conf s2))).

Let count := len content / conf_chsize c + 1.
Let chunk := chunks (conf_chsize c) content.

Context (faults : Z -> list (list Z)) (errors : gmap nat Z).
Context (Hfa : faults_ok chunk count (Z.min (conf_tf_trycount c) (conf_tf_trycount (p_conf s2))) faults)
  (Herr : spoil errors (data_sent chunk faults 1 count) = data_heard chunk faults 1 count).
Context (c0 : InitConfig) (Hpr0 : prepared (len content) c c0) (Hmb0 : mf_bytes (conf_mfile c0) = content).

Let sending : M unit := push_file (H := H1) (path ++ 0 :: rest) st1 st2.
Let receiving : M unit := pull_file (H := H2) name st3 st4.
Let ss := sent_turns H1 H2 c0 faults (ch_cntl n) (ch_send n).
Let rs := heard_turns H1 H2 c0 faults (ch_conn n) (ch_recv n).

(** The beginnings of the two executions. *)
Record going (w : world) : Prop := {
  go_sender : reaches posix (sending, s1) (w_sender w);
  go_ours : state_trace (w_sender w) = p_trace s1 ++ ours (w_calls w);
  go_receiver : reaches posix (receiving, s2) (w_receiver w);
  go_theirs : state_trace (w_receiver w) = p_trace s2 ++ theirs (w_calls w);
  go_smooth : smooth n content (w_calls w);
  go_delivers : delivers n errors (w_calls w)
}.

Lemma ours_theirs (l : list obs) : ours (inl <$> l) = l /\ theirs (inl <$> l) = [] /\ ours (inr <$> l) = [] /\ theirs (inr <$> l) = l.
Proof using Type. induction l as [|o l (IH1 & IH2 & IH3 & IH4)]; [done|]. cbn. split_and!; [by f_equal|done|done|by f_equal]. Qed.

Lemma going_step w w' : going w -> world_step n errors content w w' -> going w'.
Proof using Type.
  intros [G1 G2 G3 G4 G5 G6] Hs. destruct Hs as [p p' q J l Hm Ht Hsm Hdv|p q q' J l Hm Ht Hsm Hdv];
    destruct (ours_theirs l) as (E1 & E2 & E3 & E4); constructor; cbn in *; try done;
    rewrite ?ours_app, ?theirs_app, ?E1, ?E2, ?E3, ?E4, ?app_nil_r; try done.
  - by eapply rtc_r.
  - by rewrite Ht, G2, app_assoc.
  - by eapply rtc_r.
  - by rewrite Ht, G4, app_assoc.
Qed.

Let answers := answer_script H2 faults count.
Let stream := data_heard (data_at c0) faults 1 count.
Let now_told := told (ch_cntl n) (ch_send n) content answers.
Let now_heard := hears (ch_conn n) (ch_recv n) (len content) (script H1 c0) stream.

Lemma going_told w : going w -> now_told (ours (w_calls w)) /\ now_heard (theirs (w_calls w)).
Proof using All.
  destruct w as [[t1 s1'] [t2 s2'] J]. intros [G1 G2 G3 G4 G5 G6].
  exact (joint_told H1 H2 n Hn content Hb J c path rest st1 st2 s1 t1 s1' Hsr Hmod Hca Hs1 G1 G2 name st3 st4 s2 t2 s2' Hrr Hdial
    G3 G4 faults errors Hfa Herr G5 G6 c0 Hpr0 Hmb0 J [] ltac:(by rewrite app_nil_r)).
Qed.

(** Each can go on to the end of its turns. *)
Lemma sender_ends t s pre :
  reaches posix (sending, s1) (t, s) -> p_trace s = p_trace s1 ++ pre -> now_told pre ->
  exists s3 post, exec posix t s (Val tt) s3 /\ p_trace s3 = p_trace s ++ post /\ Forall goes_well post /\
    wire (pre ++ post) = asking (ch_cntl n) ss.
Proof using All.
  intros Hr Ht Hh. destruct Hn as [F1 F2 F3 F4 F5 F6].
  destruct (sending_completes H1 H2 content _ _ faults c path rest st1 st2 s1 t s pre Hb F1 F2 F5 Hsr Hmod Hs1) as
    (c1 & s3 & post & Hpr & Hmb & He & Ht3 & Hh3 & Hw); [|done|done|done|].
  { intros q Hq. pose proof (fa_few _ _ _ _ Hfa q Hq). lia. }
  exists s3, post. split_and!; [done|by rewrite Ht3, Ht, app_assoc| |].
  - pose proof (td_well _ _ _ _ _ Hh3) as Hall. by apply Forall_app in Hall as [_ ?].
  - by rewrite Hw, (same_turns H1 H2 content c faults c1 c0).
Qed.

Lemma receiver_ends t s pre :
  reaches posix (receiving, s2) (t, s) -> p_trace s = p_trace s2 ++ pre -> now_heard pre ->
  exists s3 post z, exec posix t s (Val tt) s3 /\ p_trace s3 = p_trace s ++ post /\ Forall goes_well post /\
    0 < z /\ wire (pre ++ post) = answering (ch_conn n) (rs z).
Proof using All.
  intros Hr Ht Hh. destruct Hn as [F1 F2 F3 F4 F5 F6].
  destruct (sender_addrs content c path st1 st2 Hsr Hca c0 Hpr0) as (Hwf0 & Hca0 & Hd0).
  pose proof (chunk_count content c c0 Hpr0) as Hcc.
  destruct (receiving_completes H1 H2 content c0 faults (ch_conn n) (ch_recv n) name st3 st4 s2 t s pre) as
    (s3 & post & z & He & Ht3 & Hh3 & Hz & Hw); try done.
  - apply Hpr0.
  - by apply (partial_chunk content c).
  - by apply (faults_here content c s2 faults).
  - by rewrite Hcc.
  - exists s3, post, z. split_and!; [done|by rewrite Ht3, Ht, app_assoc| |done|done].
    pose proof (hr_well _ _ _ _ _ _ Hh3) as Hall. by apply Forall_app in Hall as [_ ?].
Qed.

(** So a side that does not go on has come to its end, or waits for the other. *)
Lemma sender_stuck w :
  going w ->
  (exists o, observe (w_sender w).1 = RetF o) \/
  (exists X (e : sysE X) k size, observe (w_sender w).1 = VisF e k /\ wants (ours (w_calls w)) e = Some (ch_cntl n, size) /\ 0 < size /\
    len (out_bytes (ch_conn n) (wire (theirs (w_calls w)))) < len (in_bytes (ch_cntl n) (wire (ours (w_calls w)))) + size) ->
  asker_stuck (ch_cntl n) (ch_conn n) ss (exists o, observe (w_sender w).1 = RetF o) (wire (ours (w_calls w))) (wire (theirs (w_calls w))).
Proof using All.
  intros Hg. destruct (going_told _ Hg) as [Hh _]. destruct w as [[t s] q J]. destruct Hg as [G1 G2 _ _ _ _].
  unfold state_trace in G2. cbn [w_sender w_receiver w_calls fst snd] in *. intros [[o Ho]|(X & e & k & size & Hob & Hwt & Hs & Hlt)].
  - left. split; [by exists o|]. destruct (sender_ends t s _ G1 G2 Hh) as (s3 & post & He & Ht & _ & Hw).
    destruct (exec_returned _ _ _ _ _ Ho He) as [_ ->]. apply trace_here in Ht as ->. by rewrite app_nil_r in Hw.
  - right. destruct Hn as [F1 F2 F3 F4 F5 F6].
    destruct (told_answers (ch_cntl n) (ch_send n) content answers Hb (bytes_ok_answers _ _ _)) with (e := e) (tr := ours J)
      as (x & Hx & Hhx); [|done|done|by eapply wants_call|done|].
    { pose proof (sr_size _ _ _ _ _ Hsr). lia. }
    assert (Hr' : reaches posix (sending, s1) (k x, logged e x s)).
    { eapply rtc_r; [exact G1|]. eapply moves_vis; [exact Hob|]. apply posix_call; [by eapply wants_call|done]. }
    destruct (sender_ends (k x) (logged e x s) (ours J ++ [Obs e x]) Hr') as (s3 & post & He & Ht & Hpost & Hw); [|done|].
    { cbn. by rewrite G2, app_assoc. }
    destruct (looks_reached _ _ _ _ (looks_push_file _ _ _) G1) as (p & Hp & Hwatch).
    pose proof (td_well _ _ _ _ _ Hhx) as Hwell. apply Forall_app in Hwell as [_ [Hwell _]%Forall_cons].
    destruct (next_read p t (ch_cntl n) size X e k s x tt s3 (ours J) post) as (d & w & Hwd & Hd); try done; [by apply Hwatch|..].
    { rewrite Ht. cbn. by rewrite <- app_assoc. }
    exists (ch_cntl n), d, w, size. split_and!; [|done|done]. by rewrite <- Hwd, <- wire_app, app_assoc.
Qed.

Lemma receiver_stuck w :
  going w ->
  (exists o, observe (w_receiver w).1 = RetF o) \/
  (exists X (e : sysE X) k fd size, observe (w_receiver w).1 = VisF e k /\ wants (theirs (w_calls w)) e = Some (fd, size) /\ 0 < size /\
    (fd = ch_conn n /\ len (out_bytes (ch_cntl n) (wire (ours (w_calls w)))) < len (in_bytes (ch_conn n) (wire (theirs (w_calls w)))) + size \/
     fd = ch_recv n /\ len (out_bytes (ch_send n) (wire (ours (w_calls w)))) < len (in_bytes (ch_recv n) (wire (theirs (w_calls w)))) + size)) ->
  exists z, 0 < z /\ answerer_stuck (ch_cntl n) (ch_send n) (ch_conn n) (ch_recv n) (rs z) (exists o, observe (w_receiver w).1 = RetF o)
      (wire (ours (w_calls w))) (wire (theirs (w_calls w))).
Proof using All.
  intros Hg. destruct (going_told _ Hg) as [_ Hh]. destruct w as [p [t s] J]. destruct Hg as [_ _ G1 G2 _ _].
  unfold state_trace in G2. cbn [w_sender w_receiver w_calls fst snd] in *. intros [[o Ho]|(X & e & k & fd & size & Hob & Hwt & Hs & Hlt)].
  - destruct (receiver_ends t s _ G1 G2 Hh) as (s3 & post & z & He & Ht & _ & Hz & Hw). exists z. split; [done|left; split; [by exists o|]].
    destruct (exec_returned _ _ _ _ _ Ho He) as [_ ->]. apply trace_here in Ht as ->. by rewrite app_nil_r in Hw.
  - destruct Hn as [F1 F2 F3 F4 F5 F6]. destruct (sender_addrs content c path st1 st2 Hsr Hca c0 Hpr0) as (Hwf0 & Hca0 & _).
    assert (Hbd : bytes_ok stream).
    { unfold stream. unfold count. rewrite <- (chunk_count content c c0 Hpr0). eapply bytes_ok_heard, (faults_here content c s2 faults); try done.
      intros q. unfold data_at, chunk_bytes. rewrite Hmb0. by apply bytes_ok_take, bytes_ok_drop. }
    destruct (hears_answers (ch_conn n) (ch_recv n) content (script H1 c0) stream Hb (bytes_ok_script H1 c0 Hwf0 Hca0) Hbd)
      with (e := e) (tr := theirs J) as (x & Hx & Hhx); [|done|done|done|by eapply wants_call|done|].
    { pose proof (sr_size _ _ _ _ _ Hsr). lia. }
    assert (Hr' : reaches posix (receiving, s2) (k x, logged e x s)).
    { eapply rtc_r; [exact G1|]. eapply moves_vis; [exact Hob|]. apply posix_call; [by eapply wants_call|done]. }
    destruct (receiver_ends (k x) (logged e x s) (theirs J ++ [Obs e x]) Hr') as (s3 & post & z & He & Ht & Hpost & Hz & Hw); [|done|].
    { cbn. by rewrite G2, app_assoc. }
    destruct (looks_reached _ _ _ _ (looks_pull_file _ _ _) G1) as (p' & Hp & Hwatch).
    pose proof (hr_well _ _ _ _ _ _ Hhx) as Hwell. apply Forall_app in Hwell as [_ [Hwell _]%Forall_cons].
    destruct (next_read p' t fd size X e k s x tt s3 (theirs J) post) as (d & w & Hwd & Hd); try done; [by apply Hwatch|..].
    { rewrite Ht. cbn. by rewrite <- app_assoc. }
    exists z. split; [done|right]. exists fd, d, w, size. split_and!; [|done|done]. by rewrite <- Hwd, <- wire_app, app_assoc.
Qed.

Lemma out_bytes_ok w :
  going w ->
  bytes_ok (out_bytes (ch_conn n) (wire (theirs (w_calls w)))) /\ bytes_ok (out_bytes (ch_cntl n) (wire (ours (w_calls w)))) /\
  bytes_ok (spoil errors (out_bytes (ch_send n) (wire (ours (w_calls w))))).
Proof using All.
  intros Hg. destruct (going_told _ Hg) as [Htold Hheard]. destruct w as [[t1 s1'] [t2 s2'] J]. destruct Hg as [G1 G2 G3 G4 G5 G6].
  assert (Hpre : forall l l' : list Z, l `prefix_of` l' -> bytes_ok l' -> bytes_ok l) by (intros l l' [r ->]; by intros [? _]%Forall_app).
  destruct (sender_addrs content c path st1 st2 Hsr Hca c0 Hpr0) as (Hwf0 & Hca0 & _).
  pose proof (receiver_writes H1 H2 n Hn content Hb J c path rest st1 st2 s1 t1 s1' Hsr Hmod Hca Hs1 G1 G2 name st3 st4 s2 t2 s2' Hrr Hdial
    G3 G4 faults errors Hfa Herr G5 G6 c0 Hpr0 Hmb0 J [] ltac:(by rewrite app_nil_r) Hheard) as Ha.
  destruct (sender_writes H1 H2 n Hn content Hb J c path rest st1 st2 s1 t1 s1' Hsr Hmod Hca Hs1 G1 G2 name st3 st4 s2 t2 s2' Hrr Hdial
    G3 G4 faults errors Hfa Herr G5 G6 c0 Hpr0 Hmb0 J [] ltac:(by rewrite app_nil_r) Htold) as [Hs Hd].
  split_and!; [exact (Hpre _ _ Ha (bytes_ok_answers _ _ _))|exact (Hpre _ _ Hs (bytes_ok_script H1 c0 Hwf0 Hca0))|].
  eapply Hpre; [exact Hd|]. rewrite <- (chunk_count content c c0 Hpr0).
  eapply bytes_ok_heard, (faults_here content c s2 faults); try done.
  intros q. unfold data_at, chunk_bytes. rewrite Hmb0. by apply bytes_ok_take, bytes_ok_drop.
Qed.

Lemma waiting_dec {X} tr (e : sysE X) (P : Z -> Z -> Prop) `{!forall fd size, Decision (P fd size)} :
  (exists fd size, wants tr e = Some (fd, size) /\ P fd size) \/ (forall fd size, wants tr e = Some (fd, size) -> ~ P fd size).
Proof using Type.
  destruct (wants tr e) as [[fd size]|]; [|by right]. destruct (decide (P fd size)) as [Hp|Hp]; [left; by exists fd, size|].
  right. by intros ? ? [= <- <-].
Qed.

Lemma sender_goes w :
  going w -> (exists w', world_step n errors content w w') \/
  asker_stuck (ch_cntl n) (ch_conn n) ss (exists o, observe (w_sender w).1 = RetF o) (wire (ours (w_calls w))) (wire (theirs (w_calls w))).
Proof using All.
  intros Hg. pose proof (sender_stuck _ Hg) as Hstuck. destruct (out_bytes_ok _ Hg) as (Hba & _ & _).
  destruct w as [[t s] q J]. pose proof Hg as [_ _ _ _ G5 G6]. cbn [w_sender w_receiver w_calls fst snd] in *.
  pose proof (sr_size _ _ _ _ _ Hsr) as Hsz. destruct (observe t) as [o|u|X e k] eqn:Hob.
  - right. apply Hstuck. left. by exists o.
  - left. eexists. eapply (step_sender _ _ _ _ (u, s) q J []); [by apply moves_tau|by rewrite app_nil_r|by rewrite app_nil_r..].
  - destruct (waiting_dec (ours J) e (fun fd size => fd = ch_cntl n /\ 0 < size /\
      len (out_bytes (ch_conn n) (wire (theirs J))) < len (in_bytes (ch_cntl n) (wire (ours J))) + size))
      as [(fd & size & Hwt & -> & Hs & Hlt)|Hno].
    + right. apply Hstuck. right. by exists X, e, k, size.
    + left. eapply (sender_moves n Hn content Hb ltac:(lia) errors J G5 G6); [exact Hob|exact Hba|].
      intros size Hwt Hs. specialize (Hno _ _ Hwt). lia.
Qed.

Lemma receiver_goes w :
  going w -> (exists w', world_step n errors content w w') \/
  exists z, 0 < z /\
    answerer_stuck (ch_cntl n) (ch_send n) (ch_conn n) (ch_recv n) (rs z) (exists o, observe (w_receiver w).1 = RetF o)
      (wire (ours (w_calls w))) (wire (theirs (w_calls w))).
Proof using All.
  intros Hg. pose proof (receiver_stuck _ Hg) as Hstuck. destruct (out_bytes_ok _ Hg) as (_ & Hbs & Hbd).
  destruct w as [p [t s] J]. pose proof Hg as [_ _ _ _ G5 G6]. cbn [w_sender w_receiver w_calls fst snd] in *.
  pose proof (sr_size _ _ _ _ _ Hsr) as Hsz. destruct (observe t) as [o|u|X e k] eqn:Hob.
  - right. apply Hstuck. left. by exists o.
  - left. eexists. eapply (step_receiver _ _ _ p _ (u, s) J []); [by apply moves_tau|by rewrite app_nil_r|by rewrite app_nil_r..].
  - destruct (waiting_dec (theirs J) e (fun fd size => 0 < size /\
      (fd = ch_conn n /\ len (out_bytes (ch_cntl n) (wire (ours J))) < len (in_bytes (ch_conn n) (wire (theirs J))) + size \/
       fd = ch_recv n /\ len (out_bytes (ch_send n) (wire (ours J))) < len (in_bytes (ch_recv n) (wire (theirs J))) + size)))
      as [(fd & size & Hwt & Hs & Hlt)|Hno].
    + right. apply Hstuck. right. by exists X, e, k, fd, size.
    + left. eapply (receiver_moves n Hn content Hb ltac:(lia) errors J G5 G6); [exact Hob|exact Hbs|exact Hbd|..];
        intros size Hwt Hs; specialize (Hno _ _ Hwt); [lia|]. rewrite len_spoil. lia.
Qed.

(** Until both have returned, there is a step. *)
Definition transferred (w : world) : Prop :=
  observe (w_sender w).1 = RetF (Val tt) /\ observe (w_receiver w).1 = RetF (Val tt) /\
  mf_bytes (conf_mfile (p_conf (w_sender w).2)) = content /\ mf_bytes (conf_mfile (p_conf (w_receiver w).2)) = content.

Lemma going_on w : going w -> transferred w \/ exists w', world_step n errors content w w'.
Proof using All.
  intros Hg. destruct (sender_goes w Hg) as [?|Hs]; [by right|]. destruct (receiver_goes w Hg) as [?|(z & Hz & Hr)]; [by right|]. left.
  destruct Hn as [F1 F2 F3 F4 F5 F6]. assert (Hseg : 0 < conf_segsize c0) by apply (pr_announced _ _ _ Hpr0).
  destruct (sender_addrs content c path st1 st2 Hsr Hca c0 Hpr0) as (Hwf0 & _).
  assert (Hsome : Forall (fun t => Forall some_bytes t.1) (rs z)).
  { apply heard_turns_some; [done|]. intros crc. rewrite (len_send_bytes H1 c0 (pr_announced _ _ _ Hpr0) Hwf0). done. }
  destruct (not_both_stuck (ch_cntl n) (ch_send n) (ch_conn n) (ch_recv n) ss (rs z)
    (turns_match_all H1 H2 c0 faults _ _ _ _ z _ (faults_here content c s2 faults Hfa c0 Hpr0 Hmb0) F5 F6 Hseg Hz)
    (sent_turns_asks _ _ _ _ _ _) (heard_turns_asked _ _ _ _ _ _ _) (sent_turns_acks _ _ _ _ _ _) (heard_turns_acks _ _ _ _ _ _ _) Hsome
    _ _ _ _ Hs Hr) as [[o1 Ho1] [o2 Ho2]].
  destruct w as [[t1 s1'] [t2 s2'] J]. destruct Hg as [G1 G2 G3 G4 G5 G6]. cbn [w_sender w_receiver w_calls fst snd] in *.
  destruct (joint_well H1 H2 n Hn content Hb J c path rest st1 st2 s1 t1 s1' Hsr Hmod Hca Hs1 G1 G2 name st3 st4 s2 t2 s2' Hrr Hdial
    G3 G4 faults errors Hfa Herr G5 G6 c0 Hpr0 Hmb0 o1 o2 Ho1 Ho2) as (-> & -> & Hm1 & Hm2).
  by split_and!.
Qed.

(** There is no endless sequence of steps: each is one of a program that ends. *)
Let heard_sender : env pstate := posix_while (hearing now_told (p_trace s1)).
Let heard_receiver : env pstate := posix_while (hearing now_heard (p_trace s2)).

Lemma sender_acc w : going w -> Acc (flip (moves heard_sender)) (w_sender w).
Proof using All.
  destruct w as [[t1 s1'] [t2 s2'] J]. intros [G1 G2 G3 G4 G5 G6]. eapply wp_acc.
  exact (sender_rest H1 H2 n Hn content Hb J c path rest st1 st2 s1 t1 s1' Hsr Hmod Hca Hs1 G1 G2 name st3 st4 s2 t2 s2' Hrr Hdial
    G3 G4 faults errors Hfa Herr G5 G6 c0 Hpr0 Hmb0).
Qed.
Lemma receiver_acc w : going w -> Acc (flip (moves heard_receiver)) (w_receiver w).
Proof using All.
  destruct w as [[t1 s1'] [t2 s2'] J]. intros [G1 G2 G3 G4 G5 G6]. eapply wp_acc.
  exact (receiver_rest H1 H2 n Hn content Hb J c path rest st1 st2 s1 t1 s1' Hsr Hmod Hca Hs1 G1 G2 name st3 st4 s2 t2 s2' Hrr Hdial
    G3 G4 faults errors Hfa Herr G5 G6 c0 Hpr0 Hmb0).
Qed.

Lemma going_ends p :
  Acc (flip (moves heard_sender)) p -> forall q, Acc (flip (moves heard_receiver)) q ->
  forall J, going {| w_sender := p; w_receiver := q; w_calls := J |} ->
  inevitable (world_step n errors content) transferred {| w_sender := p; w_receiver := q; w_calls := J |}.
Proof using All.
  induction 1 as [p _ IHp]. induction 1 as [q Hq IHq]. intros J Hg.
  destruct (going_on _ Hg) as [?|[w Hw]]; [by apply inevitable_now|]. eapply inevitable_later; [exact Hw|]. clear w Hw.
  intros w Hw. pose proof (going_step _ _ Hg Hw) as Hg'. destruct (going_told _ Hg') as [Htold Hheard].
  inversion Hw; subst.
  - apply IHp; [|by constructor|done]. eapply moves_while; [done|apply Hg'|exact Htold].
  - apply IHq; [|done]. eapply moves_while; [done|apply Hg'|exact Hheard].
Qed.

Lemma going_inevitable w : going w -> inevitable (world_step n errors content) transferred w.
Proof using All.
  intros Hg. pose proof (sender_acc _ Hg) as Ha1. pose proof (receiver_acc _ Hg) as Ha2.
  destruct w as [p q J]. by apply going_ends.
Qed.
End inevitability.

(** ** The theorem *)

(** C2: the transfer cannot fail to come about: start [push_file] on one machine and
    [pull_file] on another, and let their steps fall in any order, every call being
    given any reply that is a good one ([smooth]) and that the network can give
    ([delivers]: what the other side has sent by then, in order, with bytes of the
    data changed at [errors]).  Then, whatever steps are taken, there is a next one
    until both programs have returned [SUCCESS] and the file received is the file
    sent, byte for byte; and that happens after finitely many.  So there is no
    deadlock, no read that waits for what will not come, and no endless repetition.
    The conditions on the file (less than 2^32 bytes, no multiple of the chunk size),
    the configurations and the errors are those of [transfer_succeeds].  A socket is
    readable as soon as a byte is there: the low-water mark that [pull_chunk_data]
    sets on the data socket is not part of the network. *)
Theorem transfer_inevitable (H1 H2 : Host) `{Crc} n content errors c path rest st1 st2 s1 name st3 st4 s2 :
  channels_ok n -> bytes_ok content -> sender_ready (len content) path st1 st2 c ->
  len content mod conf_chsize c <> 0 -> carried (conf_addrs c) -> p_conf s1 = c ->
  receiver_ready name st3 st4 (p_conf s2) -> dialable (conf_addrs (p_conf s2)) ->
  recoverable (chunks (conf_chsize c) content) (len content / conf_chsize c + 1)
    (Z.min (conf_tf_trycount c) (conf_tf_trycount (p_conf s2))) errors ->
  inevitable (world_step n errors content) (transferred content)
    {| w_sender := (@push_file H1 _ (path ++ 0 :: rest) st1 st2, s1);
       w_receiver := (@pull_file H2 _ name st3 st4, s2); w_calls := [] |}.
Proof.
  intros Hn Hb Hsr Hmod Hca Hs1 Hrr Hdial (faults & Hfa & Herr).
  destruct (sender_start H1 H2 n content c path rest st1 st2 s1 faults) as (c0 & Hpr0 & Hmb0); try done.
  { intros q Hq. pose proof (fa_few _ _ _ _ Hfa q Hq). lia. }
  apply (going_inevitable H1 H2 n Hn content Hb c path rest st1 st2 s1 Hsr Hmod Hca Hs1 name st3 st4 s2 Hrr Hdial faults errors
    Hfa Herr c0 Hpr0 Hmb0).
  constructor; cbn; try apply rtc_refl; try by rewrite app_nil_r.
  - constructor; try by constructor. by intros (? & ? & ? & ?%elem_of_nil & _).
  - constructor.
Qed.
