(* ===== verification/Typing.v ===== *)
(** * The types of the configuration and of the calls (include/types.h)

    A model in which every integer is a [Z] and every array a list owes the reader
    that the values stay what the C types say.  [typed_conf] says it of the shared
    configuration, [typed_call] of the arguments of a call: widths, sizes of arrays,
    bytes.  Every program of the library keeps the one and owes the other, whatever
    the calls answer and whatever another thread that keeps to the types writes in
    between; so they hold in every state that the threads of a process reach. *)
From stdpp Require Import relations.
From S2P Require Import Prelude Protocol Types Sys Prefix Wire Utils Error Mfile NetStream FileStream Cntl Data Pusher Puller Broadcast Scanpair Rufshare Session Delivery Hearing Answered Joint Threads Keeps.

(** ** The types *)

(** [char arr[n]], and the signed integers of [w] bits. *)
Definition typed_array (n : Z) (arr : list Z) : Prop := len arr = n /\ bytes_ok arr.
Definition in_signed (w z : Z) : Prop := - 2 ^ (w - 1) <= z < 2 ^ (w - 1).

Record typed_addrs (a : CntlAddrs) : Prop := {
  ty_filename : typed_array MAXFILENAMESIZE (addrs_filename a);
  ty_name : typed_array MAXNAMESIZE (addrs_name a);
  ty_local_ip : typed_array MAXIPV4SIZE (addrs_local_ip a);
  ty_remote_ip : typed_array MAXIPV4SIZE (addrs_remote_ip a);
  ty_local_port : in_width 16 (addrs_local_port a);
  ty_remote_port : in_width 16 (addrs_remote_port a)
}.

(** A mapping of [size] bytes. *)
Definition typed_mapping (size : Z) (b : mapping) : Prop := typed_array size (map_bytes b).

Record typed_mfile (m : MFILE) : Prop := {
  ty_stream : mfile_ok m;
  ty_open : in_signed 16 (mf_open m);
  ty_buf : forall b, mf_buf m = Some b -> typed_mapping (mf_size m) b
}.

Record typed_conf (c : InitConfig) : Prop := {
  ty_chsize : in_width 16 (conf_chsize c);
  ty_pchsize : in_width 16 (conf_pchsize c);
  ty_chcount : in_width 32 (conf_chcount c);
  ty_seq : in_width 32 (conf_seq c);
  ty_mfile : typed_mfile (conf_mfile c);
  ty_fsize : in_width 64 (fc_size (conf_filec c));
  ty_fname : typed_array MAXFILENAMESIZE (fc_name (conf_filec c));
  ty_addrs : typed_addrs (conf_addrs c);
  ty_segsize : in_width 64 (conf_segsize c);
  ty_timeouts : Forall (in_signed 32)
    [conf_hst_send c; conf_hst_recv c; conf_vft_send c; conf_vft_recv c; conf_tft_flow c;
     conf_tft_recv c; conf_tft_data c; conf_bct_cast c; conf_spt_cast c];
  ty_shorts : Forall (in_signed 16)
    [conf_bc_interval c; conf_sp_interval c; conf_tf_trycount c; conf_bc_trycount c; conf_sp_trycount c]
}.

(** The arguments of a call.  A descriptor is whatever the system gave. *)
Definition typed_sockaddr (a : sockaddr_in) : Prop :=
  sin_family a = AF_INET /\ in_width 16 (sin_port a) /\ typed_array 4 (sin_addr a).
Definition typed_path (path : list Z) : Prop := bytes_ok path /\ no_nul path.

Definition typed_call {X} (e : sysE X) : Prop :=
  match e with
  | Malloc size => in_width 64 size
  | Realloc _ size => 0 < size
  | Poll _ events timeout => (events = POLLIN \/ events = POLLOUT) /\ in_signed 32 timeout
  | SendTo _ buf _ => bytes_ok buf /\ in_width 64 (len buf)
  | RecvFrom _ size _ => in_width 64 size
  | Setsockopt _ _ val => in_width 32 val
  | Bind _ addr => typed_sockaddr addr
  | Connect _ addr => typed_sockaddr addr
  | Fopen path _ => typed_path path
  | Stat path => typed_path path
  | Ftruncate _ size => in_signed 64 size
  | Mmap size _ _ _ => in_width 64 size
  | Munmap m size => typed_mapping size m
  | Msync m off size _ => exists n, typed_mapping n m /\ 0 <= off /\ off + size = n
  | Sleep seconds => in_signed 16 seconds
  | _ => True
  end.

Definition typing : discipline := {| confs := typed_conf; calls_of := @typed_call |}.

(** *** Checks and calls *)

Create HintDb typing.
#[export] Hint Constants Opaque : typing.
#[export] Hint Resolve ty_filename ty_name ty_local_ip ty_remote_ip ty_local_port ty_remote_port ty_chsize ty_pchsize
  ty_chcount ty_seq ty_mfile ty_fsize ty_fname ty_addrs ty_segsize : typing.

#[warnings="-notation-for-abbreviation"] Notation typed := (keeps typing).
#[warnings="-notation-for-abbreviation"] Notation program := (keeps typing (fun _ => True)).

Section checks.
Lemma typed_check_equal a b err : program (CHECK_EQUAL a b err).
Proof. unfold CHECK_EQUAL. destruct (a =? b); [by apply keeps_mret|apply keeps_fail]. Qed.
Lemma typed_check_notequal a b err : program (CHECK_NOTEQUAL a b err).
Proof. unfold CHECK_NOTEQUAL. destruct (a =? b); [apply keeps_fail|by apply keeps_mret]. Qed.
Lemma typed_check_int a err : typed (fun _ => a <> -1) (CHECK_INT a err).
Proof. unfold CHECK_INT. destruct (Z.eqb_spec a (-1)); [apply keeps_fail|by apply keeps_mret]. Qed.
Lemma typed_check_stat st : program (CHECK_STAT st).
Proof. unfold CHECK_STAT. destruct (decide _); [by apply keeps_mret|apply keeps_fail]. Qed.
Lemma typed_free : program (sys Free).
Proof. eapply keeps_mono; [by apply keeps_sys|done]. Qed.
Lemma typed_check_sstat st : program (CHECK_SSTAT st).
Proof.
  unfold CHECK_SSTAT. destruct (decide _); [by apply keeps_mret|].
  eapply keeps_mbind; [apply typed_free|intros; apply keeps_fail].
Qed.
Lemma typed_check_size a b : program (CHECK_SIZE a b).
Proof. unfold CHECK_SIZE. destruct (_ <? _); [apply keeps_fail|by apply keeps_mret]. Qed.
Lemma typed_check_ipv4 b : program (CHECK_IPV4 b).
Proof. destruct b; [by apply keeps_mret|apply keeps_fail]. Qed.
Lemma typed_check_port p : program (CHECK_PORT p).
Proof. unfold CHECK_PORT. destruct (_ =? _); [apply keeps_fail|by apply keeps_mret]. Qed.
Lemma typed_check_thread r : program (CHECK_THREAD r).
Proof. unfold CHECK_THREAD. destruct (negb _); [apply keeps_fail|by apply keeps_mret]. Qed.
Lemma typed_check_mfile m : program (CHECK_MFILE m).
Proof. unfold CHECK_MFILE. destruct (_ =? _); [apply keeps_fail|by apply keeps_mret]. Qed.
Lemma typed_check_ptr {A} (p : option A) err : typed (fun a => p = Some a) (CHECK_PTR p err).
Proof. destruct p; [by apply keeps_mret|apply keeps_fail]. Qed.
End checks.
#[export] Hint Resolve typed_check_equal typed_check_notequal typed_check_int typed_check_stat typed_free typed_check_sstat
  typed_check_size typed_check_ipv4 typed_check_port typed_check_thread typed_check_mfile typed_check_ptr : typing.

(** [typed_step] goes through one construct of a program; what a callee gives is
    found in the database [typing]. *)
Ltac typed_step :=
  match goal with
  | |- keeps _ _ (mret _) => apply keeps_mret
  | |- keeps _ _ (fail _) => apply keeps_fail
  | |- keeps _ _ (exit _) => apply keeps_exit
  | |- keeps _ _ undef => apply keeps_undef
  | |- keeps _ _ (defined _) => let a := fresh "a" in let Ha := fresh "Ha" in apply keeps_defined; intros a Ha
  | |- keeps _ _ (status_of _) => apply keeps_status_of
  | |- keeps _ _ (free_on_fail _) => apply keeps_free_on_fail; [exact I|]
  | |- keeps _ (fun _ => True) (sys _) =>
      eapply keeps_mono; [apply keeps_sys; cbn [owed typing confs calls_of typed_call]; try exact I|done]
  | |- keeps _ _ (sys _ ≫= _) =>
      let x := fresh "x" in let Hx := fresh "Hx" in
      eapply keeps_mbind; [apply keeps_sys; cbn [owed typing confs calls_of typed_call]; try exact I|intros x Hx; cbn [given typing confs reply_ok] in Hx]
  | |- keeps _ _ (defined _ ≫= _) =>
      let x := fresh "x" in let Hx := fresh "Hx" in eapply keeps_mbind;
      [apply keeps_defined; intros x Hx; exact Hx|cbn beta; intros x Hx]
  | |- keeps _ _ (?m ≫= _) =>
      let x := fresh "x" in let Hx := fresh "Hx" in eapply keeps_mbind; [solve [eauto with typing]|intros x Hx]
  | |- keeps _ _ (status_of _ ≫= _) =>
      eapply keeps_mbind; [apply keeps_status_of|intros ? _]
  | |- @keeps _ _ _ (@mbind M _ unit _ _ _) =>
      eapply (keeps_mbind _ (fun _ => True)); [|intros [] _]
  | |- keeps _ (fun _ => True) _ => eapply keeps_mono; [solve [eauto with typing]|done]
  | |- keeps _ _ (let '(_, _) := ?p in _) => destruct p
  | |- keeps _ _ (if ?b then _ else _) => let E := fresh "E" in destruct b eqn:E
  | |- keeps _ _ (match ?x with _ => _ end) => let E := fresh "E" in destruct x eqn:E
  end.
Ltac typed_go := repeat first [progress intros|exact I|solve [eauto with typing]|typed_step].

(** ** Typed data *)

Section data.
Lemma typed_zeros n : 0 <= n -> typed_array n (zeros n).
Proof. intros Hn. split; [by apply len_zeros|apply bytes_ok_zeros]. Qed.

Lemma typed_mem_write n arr off src arr' :
  typed_array n arr -> bytes_ok src -> mem_write arr off src = Some arr' -> typed_array n arr'.
Proof.
  intros [Hl Hb] Hs Hw. split; [by rewrite (mem_write_len _ _ _ _ Hw)|].
  unfold mem_write in Hw. destruct (bool_decide _); [|done]. injection Hw as <-. auto with ruf.
Qed.

Lemma bytes_mem_read l off n d : bytes_ok l -> mem_read l off n = Some d -> bytes_ok d.
Proof. unfold mem_read. intros Hb. destruct (bool_decide _); [|done]. intros [= <-]. auto with ruf. Qed.

Lemma typed_sstrncpy n m dst src d :
  typed_array n dst -> bytes_ok src -> sstrncpy dst src m = Some d -> typed_array n d.
Proof.
  intros Hd Hs. unfold sstrncpy. intros Hc. destruct (sstr_dlen src m) as [k|]; [|done]. cbn in Hc.
  destruct (mem_read src 0 k) as [data|] eqn:Hr; [|done]. cbn in Hc.
  destruct (mem_write dst 0 data) as [d'|] eqn:Hw; [|done]. cbn in Hc.
  eapply typed_mem_write; [|by apply bytes_ok_cons; [|apply bytes_ok_nil]|exact Hc].
  eapply typed_mem_write; [exact Hd|eapply bytes_mem_read; [exact Hs|exact Hr]|exact Hw].
Qed.

Lemma pton_bytes s dn cur b addr :
  bytes_ok dn -> (length dn <= 3)%nat -> 0 <= cur <= 255 -> pton_loop s dn cur b = Some addr -> typed_array 4 addr.
Proof.
  revert dn cur b. induction s as [|c s IH]; intros dn cur b Hd Hl Hc; cbn [pton_loop].
  - destruct (b && (length dn =? 3)%nat) eqn:E; [|done]. apply andb_prop in E as [_ E%Nat.eqb_eq].
    intros [= <-]. split; [unfold len; rewrite length_app; cbn; lia|]. apply bytes_ok_app; [done|].
    apply bytes_ok_cons; [unfold byte_ok; lia|apply bytes_ok_nil].
  - destruct (is_digit c) eqn:Ed.
    + destruct (b && (cur =? 0)); [done|]. destruct (Z.ltb_spec 255 (cur * 10 + (c - 48))); [done|].
      apply IH; [done|done|]. unfold is_digit in Ed. lia.
    + destruct ((c =? dot) && b); [|done]. destruct (Nat.eqb_spec (length dn) 3); [done|].
      apply IH; [apply bytes_ok_app; [done|apply bytes_ok_cons; [unfold byte_ok; lia|apply bytes_ok_nil]]| |lia].
      rewrite length_app. cbn. lia.
Qed.

Lemma inet_pton_typed ip addr : inet_pton ip = Some addr -> typed_array 4 addr.
Proof. apply pton_bytes; [apply bytes_ok_nil|cbn; lia|lia]. Qed.

Lemma inet_ntop_bytes addr : bytes_ok addr -> bytes_ok (inet_ntop addr).
Proof.
  intros Hb. unfold inet_ntop. destruct addr as [|a [|b [|c [|d [|]]]]]; try apply bytes_ok_nil.
  assert (Hdot : byte_ok dot) by done. repeat (apply Forall_cons in Hb as [? Hb]). unfold byte_ok in *.
  repeat first [apply bytes_ok_dec; lia|apply bytes_ok_app|apply bytes_ok_cons; [done|]|apply bytes_ok_nil].
Qed.

Lemma fmt_s_bytes n arr s : bytes_ok arr -> fmt_s n arr = Some s -> bytes_ok s.
Proof.
  unfold fmt_s. intros Hb. destruct (strlen arr); [intros [= <-]; auto with ruf|].
  destruct (_ <=? _); [|done]. intros [= <-]. auto with ruf.
Qed.

Lemma infostring_bytes a s : typed_addrs a -> infostring a = Some s -> bytes_ok s.
Proof.
  intros [[_ Hf] [_ Hn] [_ Hl] _ [Hp _] _]. unfold infostring.
  destruct (fmt_s 255 _) as [f|] eqn:E1; [|done]. destruct (fmt_s 31 _) as [n|] eqn:E2; [|done].
  destruct (fmt_s 15 _) as [i|] eqn:E3; [|done]. intros [= <-].
  apply fmt_s_bytes in E1, E2, E3; try done. unfold colon, at_sign.
  repeat first [done|by apply bytes_ok_dec|apply bytes_ok_app|apply bytes_ok_cons; [done|]|apply bytes_ok_nil].
Qed.

Lemma pack_typed a s : typed_addrs a -> pack_into_infostring (zeros INFOSTRSIZE) a = Some s -> typed_array INFOSTRSIZE s.
Proof.
  intros Ha. unfold pack_into_infostring. destruct (infostring a) as [i|] eqn:E; [|done].
  apply typed_mem_write; [by apply typed_zeros|]. apply infostring_bytes in E; [|done].
  apply bytes_ok_app; [auto with ruf|by apply bytes_ok_cons; [|apply bytes_ok_nil]].
Qed.

Lemma scan_until_bytes n stop s : bytes_ok s -> bytes_ok (scan_until n stop s).1 /\ bytes_ok (scan_until n stop s).2.
Proof.
  revert s. induction n as [|n IH]; intros [|c s] Hs; cbn [scan_until]; try (split; [apply bytes_ok_nil|done]).
  destruct (c =? stop); [split; [apply bytes_ok_nil|done]|]. apply Forall_cons in Hs as [Hc Hs].
  destruct (IH s Hs) as [H1 H2]. destruct (scan_until n stop s). split; [by apply bytes_ok_cons|done].
Qed.

Lemma scan_set_bytes n stop s f r : bytes_ok s -> scan_set n stop s = Some (f, r) -> bytes_ok f /\ bytes_ok r.
Proof.
  intros Hs. unfold scan_set. pose proof (scan_until_bytes n stop s Hs) as Hb.
  destruct (scan_until n stop s) as [[|c f'] r']; [done|]. intros [= <- <-]. exact Hb.
Qed.

Lemma scan_char_bytes c s r : bytes_ok s -> scan_char c s = Some r -> bytes_ok r.
Proof.
  destruct s as [|d s]; [done|]. cbn. intros Hs%Forall_cons. destruct (d =? c); [|done]. intros [= <-]. apply Hs.
Qed.

Lemma store_str_typed n arr s arr' : typed_array n arr -> bytes_ok s -> store_str arr s = Some arr' -> typed_array n arr'.
Proof.
  intros Ha Hs. apply typed_mem_write; [done|]. apply bytes_ok_app; [done|].
  by apply bytes_ok_cons; [|apply bytes_ok_nil].
Qed.

Lemma unpack_typed infostr a a' :
  bytes_ok infostr -> typed_addrs a -> unpack_from_infostring infostr a = Some a' -> typed_addrs a'.
Proof.
  intros Hb Ha. unfold unpack_from_infostring. destruct (strlen infostr); [|done]. cbn [mbind option_bind].
  apply bytes_ok_cstr in Hb. destruct (scan_set 255 _ _) as [[f r]|] eqn:E1; [|by intros [= <-]].
  apply scan_set_bytes in E1 as [Hf Hr]; [|done].
  destruct (store_str _ f) as [arr|] eqn:S1; [|done]. cbn [mbind option_bind].
  apply (store_str_typed MAXFILENAMESIZE) in S1; [|apply Ha|done].
  assert (Ha1 : typed_addrs (set_addrs_filename arr a)) by (destruct Ha; by constructor).
  destruct (scan_char colon r) as [r1|] eqn:C1; [|by intros [= <-]]. cbn [mbind option_bind].
  apply scan_char_bytes in C1; [|done]. destruct (scan_set 31 _ _) as [[n r2]|] eqn:E2; [|by intros [= <-]].
  apply scan_set_bytes in E2 as [Hn Hr2]; [|done].
  destruct (store_str _ n) as [arr2|] eqn:S2; [|done]. cbn [mbind option_bind].
  apply (store_str_typed MAXNAMESIZE) in S2; [|apply Ha1|done]. set (a1 := set_addrs_filename arr a) in *.
  assert (Ha2 : typed_addrs (set_addrs_name arr2 a1)) by (destruct Ha1; by constructor).
  destruct (scan_char at_sign r2) as [r3|] eqn:C2; [|by intros [= <-]]. cbn [mbind option_bind].
  apply scan_char_bytes in C2; [|done]. destruct (scan_set 15 _ _) as [[i r4]|] eqn:E3; [|by intros [= <-]].
  apply scan_set_bytes in E3 as [Hi Hr4]; [|done].
  destruct (store_str _ i) as [arr3|] eqn:S3; [|done]. cbn [mbind option_bind].
  apply (store_str_typed MAXIPV4SIZE) in S3; [|apply Ha2|done]. set (a2 := set_addrs_name arr2 a1) in *.
  assert (Ha3 : typed_addrs (set_addrs_remote_ip arr3 a2)) by (destruct Ha2; by constructor).
  destruct (r5 ← scan_char colon r4; scan_hu r5) as [port|] eqn:E4; [|by intros [= <-]].
  intros [= <-]. destruct (scan_char colon r4) as [r5|]; [|done]. cbn in E4. apply scan_hu_width in E4.
  destruct Ha3. by constructor.
Qed.
End data.

(** ** Updates of the configuration *)

Ltac conf_go := intros []; constructor; assumption.

Lemma typed_set_sock sock fd c : typed_conf c -> typed_conf (set_sock sock fd c).
Proof. destruct sock; conf_go. Qed.
Lemma typed_set_mfile m c : typed_mfile m -> typed_conf c -> typed_conf (set_mfile m c).
Proof. intros Hm. conf_go. Qed.
Lemma typed_set_addrs a c : typed_addrs a -> typed_conf c -> typed_conf (set_conf_addrs a c).
Proof. intros Ha. conf_go. Qed.
Lemma typed_set_seq n c : in_width 32 n -> typed_conf c -> typed_conf (set_conf_seq n c).
Proof. intros Hn. conf_go. Qed.
Lemma typed_set_segsize n c : in_width 64 n -> typed_conf c -> typed_conf (set_conf_segsize n c).
Proof. intros Hn. conf_go. Qed.
Lemma typed_set_fsize n c : in_width 64 n -> typed_conf c -> typed_conf (set_conf_filec (set_fc_size n (conf_filec c)) c).
Proof. intros Hn. conf_go. Qed.
Lemma typed_set_fname s c :
  typed_array MAXFILENAMESIZE s -> typed_conf c -> typed_conf (set_conf_filec (set_fc_name s (conf_filec c)) c).
Proof. intros Hs. conf_go. Qed.
Lemma typed_set_fmfile m c : typed_mfile m -> typed_conf c -> typed_conf (set_conf_filec (set_fc_mfile m (conf_filec c)) c).
Proof. apply typed_set_mfile. Qed.
Lemma typed_set_counts chsize pchsize chcount c :
  in_width 16 chsize -> in_width 16 pchsize -> in_width 32 chcount -> typed_conf c ->
  typed_conf (set_conf_chcount chcount (set_conf_pchsize pchsize (set_conf_chsize chsize c))).
Proof. intros H1 H2 H3. conf_go. Qed.
Lemma typed_set_remote_ip ip c : typed_array MAXIPV4SIZE ip -> typed_conf c ->
  typed_conf (set_conf_addrs (set_addrs_remote_ip ip (conf_addrs c)) c).
Proof. intros Hip Hc. apply typed_set_addrs; [|done]. destruct (ty_addrs c Hc). by constructor. Qed.
Lemma typed_set_remote_port p c : in_width 16 p -> typed_conf c ->
  typed_conf (set_conf_addrs (set_addrs_remote_port p (conf_addrs c)) c).
Proof. intros Hp Hc. apply typed_set_addrs; [|done]. destruct (ty_addrs c Hc). by constructor. Qed.
Lemma typed_set_filename s c : typed_array MAXFILENAMESIZE s -> typed_conf c ->
  typed_conf (set_conf_addrs (set_addrs_filename s (conf_addrs c)) c).
Proof. intros Hs Hc. apply typed_set_addrs; [|done]. destruct (ty_addrs c Hc). by constructor. Qed.
#[export] Hint Resolve typed_set_sock typed_set_mfile typed_set_addrs typed_set_seq typed_set_segsize typed_set_fsize
  typed_set_fname typed_set_fmfile typed_set_counts typed_set_remote_ip typed_set_remote_port typed_set_filename : typing.

Lemma typed_get_conf : typed typed_conf (sys GetConf).
Proof. by apply keeps_sys. Qed.
Lemma typed_set_conf f : (forall c, typed_conf c -> typed_conf (f c)) -> program (sys (SetConf f)).
Proof. intros Hf. eapply keeps_mono; [by apply keeps_sys|done]. Qed.
#[export] Hint Resolve typed_get_conf typed_set_conf : typing.

(** ** The sockets *)

Lemma ntohl_width `{Host} v : in_width 32 (ntohl v).
Proof.
  unfold in_width, ntohl, htonl. change (2 ^ 32) with 4294967296.
  pose proof (Z.mod_pos_bound v 256 ltac:(lia)). pose proof (Z.mod_pos_bound (v / 256) 256 ltac:(lia)).
  pose proof (Z.mod_pos_bound (v / 65536) 256 ltac:(lia)). pose proof (Z.mod_pos_bound (v / 16777216) 256 ltac:(lia)).
  pose proof (Z.mod_pos_bound v 4294967296 ltac:(lia)). destruct little_endian; lia.
Qed.

Section sockets.
Context `{Host}.

Lemma sockaddr_typed port addr : typed_array 4 addr -> typed_sockaddr (sockaddr port addr).
Proof. intros Ha. split; [done|]. split; [apply ntohs_width|done]. Qed.

Lemma typed_network_byteorder ip : typed (typed_array 4) (network_byteorder ip).
Proof.
  unfold network_byteorder. destruct (inet_pton ip) eqn:E; [|apply keeps_fail].
  by apply keeps_mret, (inet_pton_typed ip).
Qed.

Lemma typed_deref sock : program (deref sock).
Proof. unfold deref. typed_go. Qed.

Lemma typed_setsockopt fd opt v : in_width 32 v -> program (sys (Setsockopt fd opt v)).
Proof. intros Hv. eapply keeps_mono; [by apply keeps_sys|done]. Qed.
Lemma typed_bind fd addr : typed_sockaddr addr -> program (sys (Bind fd addr)).
Proof. intros Ha. eapply keeps_mono; [by apply keeps_sys|done]. Qed.
Lemma typed_connect fd addr : typed_sockaddr addr -> program (sys (Connect fd addr)).
Proof. intros Ha. eapply keeps_mono; [by apply keeps_sys|done]. Qed.
Lemma typed_close fd : program (sys (Close fd)).
Proof. eapply keeps_mono; [by apply keeps_sys|done]. Qed.
Lemma one_width : in_width 32 1.
Proof. done. Qed.
End sockets.
#[export] Hint Resolve sockaddr_typed typed_network_byteorder typed_deref typed_setsockopt typed_bind typed_connect
  typed_close one_width : typing.

(** What came in, written into a buffer. *)
Lemma received_typed n size buf r (d : list Z) buf' :
  typed_array n buf -> fst (r, d) = -1 \/ 0 <= fst (r, d) <= size /\ len (snd (r, d)) = fst (r, d) /\ bytes_ok (snd (r, d)) ->
  r <> -1 -> mem_write buf 0 d = Some buf' -> typed_array n buf'.
Proof. cbn. intros Hb [->|(_ & _ & Hd)] Hr; [done|]. by apply typed_mem_write. Qed.
#[export] Hint Resolve received_typed bytes_mem_read typed_mem_write typed_sstrncpy unpack_typed pack_typed ntohs_width ntohl_width
  typed_zeros : typing.

Lemma sent_typed buf size d : in_width 64 size -> bytes_ok buf -> mem_read buf 0 size = Some d ->
  bytes_ok d /\ in_width 64 (len d).
Proof. intros Hs Hb Hr. split; [by eapply bytes_mem_read|]. by rewrite (mem_read_len _ _ _ _ Hr). Qed.
#[export] Hint Resolve sent_typed : typing.

Section channels.
Context `{Host}.

Lemma typed_init_tcp_socket sock a b c d e : program (init_tcp_socket sock a b c d e).
Proof. unfold init_tcp_socket. typed_go. Qed.
Lemma typed_init_udp_socket sock a b c d e : program (init_udp_socket sock a b c d e).
Proof. unfold init_udp_socket. typed_go. Qed.
Lemma typed_scan_init_udp_socket sock a b : program (scan_init_udp_socket sock a b).
Proof.
  unfold scan_init_udp_socket. change (scan_network_byteorder a) with (network_byteorder a). typed_go.
Qed.
Lemma typed_close_socket sock : program (close_socket sock).
Proof. unfold close_socket. typed_go. Qed.
Lemma typed_host_ipstring ip addr :
  typed_array MAXIPV4SIZE ip -> bytes_ok addr -> typed (typed_array MAXIPV4SIZE) (host_ipstring ip addr).
Proof.
  intros Hi Ha. apply keeps_defined. intros ip' Hw. eapply typed_mem_write; [exact Hi| |exact Hw].
  apply bytes_ok_app; [by apply inet_ntop_bytes|by apply bytes_ok_cons; [|apply bytes_ok_nil]].
Qed.
Lemma typed_accept sock fd timeout : in_signed 32 timeout -> program (accept_new_connection sock fd timeout).
Proof.
  intros Ht. unfold accept_new_connection. typed_go.
  match goal with H : _ <= (_, ?s).1 /\ _ |- _ => eapply keeps_mbind;
    [apply typed_host_ipstring; [eauto with typing|apply H]|intros ip Hip] end. typed_go.
Qed.

Lemma typed_push_tcp_data sock buf size : in_width 64 size -> bytes_ok buf -> program (push_tcp_data sock buf size).
Proof. intros Hs Hb. unfold push_tcp_data. typed_go. Qed.
Lemma typed_push_udp_data sock buf size : in_width 64 size -> bytes_ok buf -> program (push_udp_data sock buf size).
Proof. intros Hs Hb. unfold push_udp_data. typed_go. Qed.
Lemma typed_pull_tcp_data n sock buf size peek :
  in_width 64 size -> typed_array n buf -> typed (typed_array n) (pull_tcp_data sock buf size peek).
Proof. intros Hs Hb. unfold pull_tcp_data. typed_go. Qed.
Lemma typed_pull_udp_data n sock buf size :
  in_width 64 size -> typed_array n buf -> typed (typed_array n) (pull_udp_data sock buf size).
Proof. intros Hs Hb. unfold pull_udp_data. typed_go. Qed.
Lemma typed_rcvlowsize sock size : program (set_socket_rcvlowsize sock size).
Proof.
  unfold set_socket_rcvlowsize. typed_go. unfold optval_int. destruct little_endian; by apply wrap_width.
Qed.
End channels.
#[export] Hint Resolve typed_init_tcp_socket typed_init_udp_socket typed_scan_init_udp_socket typed_close_socket typed_accept
  typed_push_tcp_data typed_push_udp_data typed_pull_tcp_data typed_pull_udp_data typed_rcvlowsize : typing.

(** ** The headers *)

Section headers.
Context `{Host}.

(** A header that came in. *)
Definition typed_send (h : SendArgs) : Prop :=
  in_width 16 (send_chunk_size (send_packet h)) /\ in_width 16 (send_partial_chunk_size (send_packet h)) /\
  in_width 32 (send_chunk_count (send_packet h)) /\ typed_addrs (send_info h).

Lemma mem16_bytes v : bytes_ok (store16 v).
Proof. unfold store16. destruct little_endian; repeat apply bytes_ok_cons; auto with ruf. Qed.
Lemma mem32_bytes v : bytes_ok (store32 v).
Proof. unfold store32. destruct little_endian; repeat apply bytes_ok_cons; auto with ruf. Qed.

Ltac packet_bytes := repeat first [apply mem16_bytes|apply mem32_bytes|apply bytes_ok_app
  |apply bytes_ok_cons; [apply byte_ok_mod|]|apply bytes_ok_nil].
Lemma CastPacket_bytes p : bytes_ok (CastPacket_mem p).
Proof. unfold CastPacket_mem. packet_bytes. Qed.
Lemma FlowPacket_bytes p : bytes_ok (FlowPacket_mem p).
Proof. unfold FlowPacket_mem. packet_bytes. Qed.
Lemma SendPacket_bytes p : bytes_ok (SendPacket_mem p).
Proof. unfold SendPacket_mem. packet_bytes. Qed.
Lemma RecvPacket_bytes p : bytes_ok (RecvPacket_mem p).
Proof. unfold RecvPacket_mem. packet_bytes. Qed.

Lemma typed_poll_out sock timeout push : in_signed 32 timeout -> program push -> program (poll_out sock timeout push).
Proof.
  intros Ht Hp. unfold poll_out. typed_go. eapply (keeps_mbind _ (fun _ => True)); [|intros; apply typed_check_sstat].
  typed_go.
Qed.

Lemma typed_poll_in sock timeout type : in_signed 32 timeout -> program (poll_in sock timeout type).
Proof.
  intros Ht. unfold poll_in. typed_go.
  eapply (keeps_mbind _ (fun _ => True)); [|typed_go].
  match goal with |- keeps _ _ (if ?b then _ else _) => destruct b end; [apply keeps_fail|].
  eapply keeps_mono; [apply (typed_pull_tcp_data sizeof_RUFShareType); [done|by apply typed_zeros]|done].
Qed.
End headers.
#[export] Hint Resolve typed_poll_out typed_poll_in : typing.
#[export] Hint Extern 1 (in_width _ _) => first [done|apply wrap_width; done] : typing.
#[export] Hint Extern 1 (0 <= _) => done : typing.

Section headers2.
Context `{Host}.

Lemma info_bytes packet a s : bytes_ok packet -> typed_addrs a ->
  pack_into_infostring (zeros INFOSTRSIZE) a = Some s -> bytes_ok (packet ++ s).
Proof. intros Hp Ha Hs. apply bytes_ok_app; [done|by apply (pack_typed a)]. Qed.
#[local] Hint Resolve info_bytes CastPacket_bytes SendPacket_bytes FlowPacket_bytes RecvPacket_bytes : typing.

Lemma typed_push_RECV_header sock args timeout : in_signed 32 timeout -> program (push_RECV_header sock args timeout).
Proof. intros Ht. unfold push_RECV_header. typed_go. Qed.
Lemma typed_push_FLOW_header sock args timeout : in_signed 32 timeout -> program (push_FLOW_header sock args timeout).
Proof. intros Ht. unfold push_FLOW_header. typed_go. Qed.
Lemma typed_push_SEND_header sock args timeout :
  in_signed 32 timeout -> typed_addrs (send_info args) -> program (push_SEND_header sock args timeout).
Proof. intros Ht Ha. unfold push_SEND_header. typed_go. Qed.
Lemma typed_push_broadcast_header sock args timeout :
  in_signed 32 timeout -> typed_addrs (cast_info args) -> program (push_broadcast_header sock args timeout).
Proof. intros Ht Ha. unfold push_broadcast_header. typed_go. Qed.

Lemma typed_pull_RECV_header sock timeout : in_signed 32 timeout -> program (pull_RECV_header sock timeout).
Proof. intros Ht. unfold pull_RECV_header. typed_go. Qed.
Lemma typed_pull_FLOW_header sock timeout : in_signed 32 timeout -> program (pull_FLOW_header sock timeout).
Proof. intros Ht. unfold pull_FLOW_header. typed_go. Qed.
Lemma typed_pull_SEND_header sock args timeout :
  in_signed 32 timeout -> typed_addrs (send_info args) -> typed typed_send (pull_SEND_header sock args timeout).
Proof. intros Ht Ha. unfold pull_SEND_header. typed_go.
  split_and!; try apply ntohs_width; try apply ntohl_width.
  eapply unpack_typed; [|exact Ha|eassumption]. match goal with Hx : typed_array INFOSTRSIZE _ |- _ => apply Hx end.
Qed.
End headers2.

(** ** Files *)

Lemma typed_set_pos pos m : 0 <= pos <= mf_size m -> typed_mfile m -> typed_mfile (set_mf_pos pos m).
Proof. intros Hp [[Hb Hf Hpos Hsz] Ho Hbuf]. by constructor. Qed.

Lemma mfread_typed ptr size m ptr' n m' k :
  typed_mfile m -> in_width 64 size -> size <= k -> typed_array k ptr ->
  mfread ptr size 1 m = Some (ptr', n, m') -> typed_array k ptr' /\ typed_mfile m'.
Proof.
  intros Hm Hs Hk Hp Hr. destruct (Z.eq_dec (mf_open m) 0) as [E|E].
  { unfold mfread in Hr. rewrite E in Hr. cbn in Hr. by injection Hr as <- <- <-. }
  destruct Hp as [Hl Hb]. pose proof Hm as [Hok Hopen Hbuf].
  destruct (mfread_ok ptr size 1 m) as (p & Hr' & Hp & _); [done|done|unfold in_width in Hs; lia|lia|].
  rewrite Hr in Hr'. injection Hr' as -> -> ->. pose proof (ok_pos m Hok).
  assert (Hn : 0 <= Z.min (size * 1) (mf_size m - mf_pos m) <= size) by (unfold in_width in Hs; lia).
  destruct (ok_buf m Hok E) as (b & Hb' & Hlb). destruct (Hbuf b Hb') as [_ Hbb].
  split; [|by apply typed_set_pos; [lia|]]. rewrite Hp. unfold mf_bytes. rewrite Hb'. split; [|auto with ruf].
  rewrite len_app, len_ztake, len_zdrop by (rewrite ?len_zdrop; lia). lia.
Qed.

Lemma mfwrite_typed ptr size m n m' k :
  typed_mfile m -> in_width 64 size -> size <= k -> typed_array k ptr ->
  mfwrite ptr size 1 m = Some (n, m') -> typed_mfile m'.
Proof.
  intros Hm Hs Hk [Hl Hb] Hr. destruct (Z.eq_dec (mf_open m) 0) as [E|E].
  { unfold mfwrite in Hr. rewrite E in Hr. cbn in Hr. by injection Hr as <- <-. }
  pose proof Hm as [Hok Hopen Hbuf].
  destruct (mfwrite_ok ptr size 1 m) as (p & Hr' & Hpos & Ho' & Hsz & Hbytes & Hok'); [done|done|unfold in_width in Hs; lia|lia|].
  rewrite Hr in Hr'. injection Hr' as -> ->. constructor; [done|by rewrite Ho'|]. intros b' Hb'. split.
  - destruct (ok_buf p Hok') as (b2 & Hb2 & Hlb2); [by rewrite Ho'|]. rewrite Hb' in Hb2. by injection Hb2 as <-.
  - unfold mf_bytes in Hbytes. rewrite Hb' in Hbytes. destruct (ok_buf m Hok E) as (b & Hbm & _).
    destruct (Hbuf b Hbm) as [_ Hbb]. rewrite Hbm in Hbytes. rewrite Hbytes. auto with ruf.
Qed.

Lemma mfseek_typed pos m : 0 <= pos -> typed_mfile m -> typed_mfile (mfseek m pos).2.
Proof.
  intros Hp Hm. unfold mfseek. destruct (negb _ && _) eqn:E; [|done]. apply andb_prop in E as [_ E].
  apply typed_set_pos; [lia|done].
Qed.

Section files.
Lemma typed_mfopen path mode prot flags : typed_path path -> typed typed_mfile (mfopen path mode prot flags).
Proof.
  intros Hp. assert (Hclosed : forall n, 0 <= n < 2 ^ 63 ->
    typed_mfile {| mf_file := None; mf_open := 0; mf_size := n; mf_pos := 0; mf_buf := None |}).
  { intros n Hn. constructor; [constructor; cbn; (done || lia)|done|done]. }
  assert (Hsz : forall z, 0 <= z < 2 ^ 63 -> wrap 64 z = z) by (intros z Hz; unfold wrap; rewrite Z.mod_small; lia).
  unfold mfopen. typed_go; try (apply Hclosed; lia).
  - match goal with H : _ /\ 0 <= (_, ?z).2 < _ |- _ => cbn in H; rewrite Hsz in * by apply H end.
    match goal with H : 0 < _ /\ len _ = _ /\ _ |- _ => destruct H as (Hpos & Hl & Hb) end.
    constructor; [constructor; cbn; [by eauto|done|lia|tauto]|done|by intros b [= <-]].
  - match goal with H : _ /\ 0 <= (_, ?z).2 < _ |- _ => cbn in H; rewrite Hsz by apply H end. apply Hclosed. tauto.
Qed.

Lemma typed_mfsync m flags : typed_mfile m -> program (mfsync m flags).
Proof.
  intros Hm. unfold mfsync. typed_go.
  match goal with H : (?p =? -1) = false, H' : ?p = -1 \/ _ |- _ =>
    apply Z.eqb_neq in H; assert (Hp : 0 < p) by (destruct H'; [done|assumption]); set (page := p) in * end.
  destruct Hm as [[_ _ [Hp0 Hp1] Hsz] _ Hbuf]. pose proof (Z.mod_pos_bound (mf_pos m) page Hp).
  pose proof (Z.mod_le (mf_pos m) page Hp0 Hp). exists (mf_size m). split; [by apply Hbuf|]. split; [lia|].
  unfold wrap. rewrite (Z.mod_small _ (2 ^ 64)); lia.
Qed.

Lemma typed_mfclose m : typed_mfile m -> program (mfclose m).
Proof.
  intros Hm. unfold mfclose. typed_go.
  - eapply (keeps_mbind _ (fun _ => True)); [typed_go; by apply ty_buf|]. intros r _.
    eapply (keeps_mbind _ (fun _ => True)); typed_go.
Qed.
End files.
#[export] Hint Resolve typed_mfopen typed_mfsync typed_mfclose : typing.

Section streams.
Lemma to_off_signed size : in_signed 64 (to_off size).
Proof.
  unfold in_signed, to_off. change (2 ^ (64 - 1)) with (2 ^ 63). change (2 ^ 64) with (2 * 2 ^ 63).
  pose proof (Z.mod_pos_bound (size + 2 ^ 63) (2 * 2 ^ 63) ltac:(lia)). lia.
Qed.
Lemma cstr_path path : bytes_ok path -> typed_path (cstr path).
Proof. intros Hp. split; [auto with ruf|apply no_nul_cstr]. Qed.
#[local] Hint Resolve to_off_signed cstr_path : typing.

Lemma typed_create_file path size : bytes_ok path -> program (create_file path size).
Proof. intros Hp. unfold create_file. typed_go. Qed.
#[local] Hint Resolve typed_create_file : typing.

Lemma extract_loop_bound src i off : extract_loop src i = Some off -> 0 <= off.
Proof.
  revert off. induction i as [|i IH]; intros off; cbn; [intros [= <-]; lia|].
  destruct (src !! i); [|done]. cbn. destruct (_ =? _); [intros [= <-]; lia|apply IH].
Qed.
Lemma extract_bytes path n name : bytes_ok path -> extract_file_name path n = Some (Some name) -> bytes_ok name.
Proof.
  unfold extract_file_name. intros Hp. destruct (_ <=? _); [|done]. destruct (extract_loop _ _); [|done].
  intros [= <-]. auto with ruf.
Qed.

Lemma typed_start_file_stream path mode : bytes_ok path -> program (start_file_stream path mode).
Proof.
  intros Hp. unfold start_file_stream, set_filec. typed_go. apply typed_set_fname; [|done]. cbn beta in *. subst.
  eapply typed_sstrncpy; [| |eassumption]; [by apply ty_fname|by eapply extract_bytes].
Qed.

Lemma typed_end_file_stream : program end_file_stream.
Proof. unfold end_file_stream. typed_go. Qed.
End streams.
#[export] Hint Resolve typed_start_file_stream typed_end_file_stream : typing.

(** ** Chunks *)

Record typed_chunk (chunk : ChunkContext) : Prop := {
  ty_start : in_width 64 (cc_start_pos chunk);
  ty_size : in_width 64 (cc_chunk_size chunk)
}.
#[export] Hint Resolve ty_start ty_size : typing.

Section chunks.
Context `{Host} `{Crc}.

Lemma typed_start_cntl sock conn : program (start_cntl sock conn).
Proof. unfold start_cntl. typed_go. Qed.
Lemma typed_start_data sock : program (start_data sock).
Proof. unfold start_data. typed_go. Qed.

Lemma typed_on_mfile {A} (Q : A -> Prop) (f : MFILE -> option (A * MFILE)) :
  (forall m a m', typed_mfile m -> f m = Some (a, m') -> Q a /\ typed_mfile m') -> typed Q (on_mfile f).
Proof.
  intros Hf. unfold on_mfile. typed_step. typed_step. destruct x0 as [a m].
  destruct (Hf _ _ _ (ty_mfile x Hx) Hx0) as [Ha Hm]. typed_go.
Qed.

Lemma segment_size_width segsize rsize :
  in_width 64 segsize -> in_width 64 rsize ->
  in_width 64 (segment_size segsize rsize) /\ segment_size segsize rsize <= segsize /\
  in_width 64 (rsize - segment_size segsize rsize).
Proof. unfold in_width. rewrite segment_size_min. lia. Qed.

(** What a loop over the bytes that remain hands on. *)
Definition remaining (r : Z + unit) : Prop := match r with inl n => in_width 64 n | inr _ => True end.

Lemma typed_push_segment sock timeout rsize :
  in_signed 32 timeout -> in_width 64 rsize -> typed remaining (push_segment sock timeout rsize).
Proof.
  intros Ht Hr. unfold push_segment. typed_go.
  destruct (segment_size_width (conf_segsize x) rsize) as (H1 & H2 & H3); [by apply ty_segsize|done|].
  eapply (keeps_mbind _ (typed_array (conf_segsize x))).
  - apply typed_on_mfile. intros m buf m' Hm He. destruct (mfread _ _ _ _) as [[[p n] m1]|] eqn:E1; [|done].
    injection He as <- <-. eapply mfread_typed; [exact Hm|exact H1|exact H2|apply typed_zeros; apply (ty_segsize x Hx)|exact E1].
  - intros segbuf [Hl Hb]. typed_go.
Qed.

Lemma typed_pull_segment sock timeout rsize :
  in_signed 32 timeout -> in_width 64 rsize -> typed remaining (pull_segment sock timeout rsize).
Proof.
  intros Ht Hr. unfold pull_segment. typed_go.
  destruct (segment_size_width (conf_segsize x) rsize) as (H1 & H2 & H3); [by apply ty_segsize|done|].
  eapply (keeps_mbind _ (typed_array (conf_segsize x))).
  - typed_go. apply typed_pull_udp_data; [done|]. apply typed_zeros, (ty_segsize x Hx).
  - intros segbuf Hb. eapply (keeps_mbind _ (fun _ => True)).
    + apply typed_on_mfile. intros m [] m' Hm He. destruct (mfwrite _ _ _ _) as [[n m1]|] eqn:E1; [|done].
      injection He as <-. split; [done|]. eapply mfwrite_typed; [exact Hm|exact H1|exact H2|exact Hb|exact E1].
    + intros [] _. apply keeps_mret. exact H3.
Qed.

Lemma typed_seek chunk : typed_chunk chunk -> program (on_mfile (fun m => Some (mfseek m (cc_start_pos chunk)))).
Proof.
  intros [[Hs _] _]. apply typed_on_mfile. intros m a m' Hm [= He]. split; [done|].
  pose proof (mfseek_typed (cc_start_pos chunk) m Hs Hm) as Hm'. by rewrite He in Hm'.
Qed.

Lemma typed_segments (body : Z -> M (Z + unit)) n :
  (forall rsize, in_width 64 rsize -> typed remaining (body rsize)) -> in_width 64 n -> program (loop body n).
Proof.
  intros Hb Hn. apply (keeps_loop _ (in_width 64)); [done|]. intros r Hr.
  eapply keeps_mono; [by apply Hb|]. by intros [|[]].
Qed.
#[local] Hint Resolve typed_seek typed_segments typed_push_segment typed_pull_segment : typing.

Lemma typed_push_chunk_data sock chunk timeout :
  in_signed 32 timeout -> typed_chunk chunk -> program (push_chunk_data sock chunk timeout).
Proof. intros Ht Hc. unfold push_chunk_data. typed_go. Qed.

Lemma typed_pull_chunk_data sock chunk timeout :
  in_signed 32 timeout -> typed_chunk chunk -> program (pull_chunk_data sock chunk timeout).
Proof. intros Ht Hc. unfold pull_chunk_data. typed_go. Qed.
End chunks.
#[export] Hint Resolve typed_start_cntl typed_start_data typed_push_chunk_data typed_pull_chunk_data typed_push_RECV_header
  typed_push_FLOW_header typed_push_SEND_header typed_push_broadcast_header typed_pull_RECV_header typed_pull_FLOW_header
  typed_pull_SEND_header typed_sstrncpy : typing.

(** ** The programs *)

Section programs.
Context `{Host} `{Crc}.

Lemma timeout_typed c z : typed_conf c ->
  z ∈ [conf_hst_send c; conf_hst_recv c; conf_vft_send c; conf_vft_recv c; conf_tft_flow c;
       conf_tft_recv c; conf_tft_data c; conf_bct_cast c; conf_spt_cast c] -> in_signed 32 z.
Proof. intros Hc Hz. pose proof (ty_timeouts c Hc) as Ht. rewrite Forall_forall in Ht. by apply Ht. Qed.
#[local] Hint Extern 2 (in_signed 32 (_ _)) => (eapply timeout_typed; [eassumption|in_list]) : typing.

Lemma chunk_context_typed c : typed_conf c -> typed_chunk (chunk_context c).
Proof.
  intros Hc. constructor; cbn.
  - pose proof (wrap_width 32 (wrap 32 (conf_seq c - 1) * conf_chsize c) ltac:(lia)) as Hw. unfold in_width in *. lia.
  - pose proof (ty_chsize c Hc). pose proof (ty_pchsize c Hc). unfold in_width in *.
    destruct (_ =? _); lia.
Qed.
#[local] Hint Resolve chunk_context_typed : typing.

Lemma sstrncpy_typed n m dst src d k :
  sstrncpy dst src m = Some d -> typed_array n dst -> typed_array k src -> typed_array n d.
Proof. intros Hs Hd [_ Hb]. by eapply typed_sstrncpy. Qed.

Lemma typed_copy_info stack : typed_addrs stack -> typed typed_addrs (copy_info stack).
Proof.
  intros Ha. unfold copy_info. typed_go. constructor; cbn.
  1-4: eapply sstrncpy_typed; [eassumption|apply Ha|apply (ty_addrs x Hx)].
  - apply ty_local_port, (ty_addrs x Hx).
  - apply ty_remote_port, (ty_addrs x Hx).
Qed.

Lemma typed_segsize : program set_segsize.
Proof.
  unfold set_segsize. typed_go. apply typed_set_segsize; [|done].
  match goal with |- in_width 64 (calc_segment_size ?s) => assert (Hs : 0 <= s < 2 ^ 64) end.
  { pose proof (ty_chsize c H1). pose proof (ty_pchsize c H1). unfold in_width in *. destruct (negb _); lia. }
  revert Hs. generalize (if negb (conf_chsize c =? 0) then conf_chsize c else conf_pchsize c). intros z Hz.
  unfold calc_segment_size, in_width, SEGMENT_SIZE0, SEGMENT_SIZE1, SEGMENT_SIZE2, SEGMENT_SIZE3.
  repeat destruct (_ <? _); lia.
Qed.

Lemma counts_typed fs cs n p : calc_chunk_count fs cs = Some (n, p) -> in_width 32 n /\ in_width 16 p.
Proof.
  unfold calc_chunk_count. destruct (_ =? _); [done|]. intros [= <- <-]. split; by apply wrap_width.
Qed.
Lemma typed_set_announced n p c : in_width 32 n -> in_width 16 p -> typed_conf c ->
  typed_conf (set_conf_chcount n (set_conf_pchsize p c)).
Proof. intros Hn Hp. conf_go. Qed.
#[local] Hint Resolve typed_copy_info typed_segsize typed_set_announced : typing.

(** Tries hand on their number. *)
Lemma typed_tries {St A} (body : St -> M (St + A)) t : (forall t, program (body t)) -> program (loop body t).
Proof.
  intros Hb. apply (keeps_loop _ (fun _ => True)); [done|]. intros r _.
  eapply keeps_mono; [apply Hb|]. by intros [|].
Qed.

Lemma typed_push_handshake stack : typed_addrs stack -> program (push_handshake stack).
Proof.
  intros Ha. unfold push_handshake. typed_go. apply counts_typed in Hx0 as [Hz Hz0]. by apply typed_set_announced.
Qed.

Lemma typed_push_flow_try packet t : program (push_flow_try packet t).
Proof. unfold push_flow_try. typed_go. Qed.
Lemma typed_push_chunk_try chunk t : typed_chunk chunk -> program (push_chunk_try chunk t).
Proof. intros Hc. unfold push_chunk_try. typed_go. Qed.
#[local] Hint Resolve typed_tries typed_push_flow_try typed_push_chunk_try : typing.

Lemma typed_push_transfer : program push_transfer.
Proof.
  unfold push_transfer. typed_go. apply typed_tries. intros t. unfold push_one_chunk. typed_go.
Qed.

Lemma typed_push_verification stack : typed_addrs stack -> program (push_verification stack).
Proof. intros Ha. unfold push_verification. typed_go. Qed.
#[local] Hint Resolve typed_push_handshake typed_push_transfer typed_push_verification : typing.

Lemma typed_start_pusher path stack1 stack2 :
  bytes_ok path -> typed_addrs stack1 -> typed_addrs stack2 -> program (start_pusher path stack1 stack2).
Proof. intros Hp H1 H2. unfold start_pusher, end_cntl, end_data. typed_go. Qed.

(** *** The receiver *)

Lemma typed_push_ack ack seq timeout : in_signed 32 timeout -> program (push_ack ack seq timeout).
Proof. intros Ht. unfold push_ack. typed_go. Qed.
#[local] Hint Resolve typed_push_ack : typing.

Lemma forever_typed : in_signed 32 FOREVER_TIMEOUT.
Proof. done. Qed.
#[local] Hint Resolve forever_typed : typing.

Lemma typed_pull_handshake name stack : typed_array MAXNAMESIZE name -> typed_addrs (send_info stack) ->
  typed (typed_array MAXNAMESIZE) (pull_handshake name stack).
Proof.
  intros Hn Ha. unfold pull_handshake, set_filec.
  typed_step. eapply keeps_mbind; [by apply typed_pull_SEND_header|]. intros h (H1 & H2 & H3 & H4).
  typed_go.
  all: assert (Hcopy : forall n m dst k src d, sstrncpy dst src m = Some d -> typed_array n dst -> typed_array k src ->
    typed_array n d) by (intros; by eapply sstrncpy_typed).
  - apply typed_set_fname; [|done]. eapply Hcopy; [eassumption|by apply ty_fname|apply H4].
  - apply typed_set_filename; [|done]. eapply Hcopy; [eassumption|by apply ty_filename, ty_addrs|apply H4].
  - apply typed_set_remote_ip; [|done]. eapply Hcopy; [eassumption|by apply ty_remote_ip, ty_addrs|apply H4].
  - apply typed_start_file_stream. match goal with Hc : typed_conf ?c |- bytes_ok (addrs_filename (conf_addrs ?c)) =>
      apply (ty_filename _ (ty_addrs c Hc)) end.
  - eapply Hcopy; [eassumption|done|apply H4].
Qed.

Lemma typed_pull_chunk_try chunk crc t : typed_chunk chunk -> program (pull_chunk_try chunk crc t).
Proof. intros Hc. unfold pull_chunk_try. typed_go. Qed.
#[local] Hint Resolve typed_pull_chunk_try : typing.

Lemma typed_pull_transfer : program pull_transfer.
Proof.
  unfold pull_transfer. typed_go. apply typed_tries. intros t. unfold pull_one_chunk. typed_go.
Qed.

Lemma typed_pull_verification stack : typed_addrs (send_info stack) -> program (pull_verification stack).
Proof. intros Ha. unfold pull_verification. typed_go. Qed.
#[local] Hint Resolve typed_pull_handshake typed_pull_transfer typed_pull_verification : typing.

Lemma typed_start_puller name stack1 stack2 :
  typed_array MAXNAMESIZE name -> typed_addrs (send_info stack1) -> typed_addrs (send_info stack2) ->
  typed (typed_array MAXNAMESIZE) (start_puller name stack1 stack2).
Proof. intros Hn H1 H2. unfold start_puller, end_cntl, end_data, accept_cntl. typed_go. Qed.

(** *** Broadcasting and scanning *)

Lemma short_typed c z : typed_conf c ->
  z ∈ [conf_bc_interval c; conf_sp_interval c; conf_tf_trycount c; conf_bc_trycount c; conf_sp_trycount c] ->
  in_signed 16 z.
Proof. intros Hc Hz. pose proof (ty_shorts c Hc) as Ht. rewrite Forall_forall in Ht. by apply Ht. Qed.
#[local] Hint Extern 2 (in_signed 16 (_ _)) => (eapply short_typed; [eassumption|in_list]) : typing.

Lemma typed_broadcast_turn header t : typed_addrs (cast_info header) -> program (broadcast_turn header t).
Proof. intros Ha. unfold broadcast_turn. typed_go. Qed.
#[local] Hint Resolve typed_broadcast_turn : typing.

Lemma typed_start_broadcast stack : typed_addrs stack -> program (start_broadcast stack).
Proof. intros Ha. unfold start_broadcast, broadcast_loop. typed_go. Qed.

Definition typed_pair (p : PairInfo) : Prop :=
  typed_array MAXNAMESIZE (pi_name p) /\ typed_array MAXIPV4SIZE (pi_ip p) /\ in_width 16 (pi_port p).
Definition typed_scan (st : scan_state) : Prop :=
  typed_addrs (cast_info (ss_header st)) /\ Forall typed_pair (ss_info st).

Lemma typed_pull_broadcast_header sock args timeout :
  in_signed 32 timeout -> typed_addrs (cast_info args) ->
  typed (fun h => typed_addrs (cast_info h)) (pull_broadcast_header sock args timeout).
Proof.
  intros Ht Ha. unfold pull_broadcast_header. typed_go.
  eapply (keeps_mbind _ (typed_array (sizeof_CastPacket + INFOSTRSIZE))).
  - typed_go.
  - intros buf [_ Hb]. typed_go. eapply unpack_typed; [|exact Ha|eassumption]. auto with ruf.
Qed.
#[local] Hint Resolve typed_pull_broadcast_header : typing.

Lemma typed_record_pair fresh info a :
  typed_pair fresh -> Forall typed_pair info -> typed_addrs a -> typed (Forall typed_pair) (record_pair fresh info a).
Proof.
  intros (Hf & _) Hi Ha. unfold record_pair. typed_go; [unfold sizeof_PairInfo; lia|].
  apply Forall_app; split; [done|]. apply Forall_singleton. split_and!; cbn; [|apply Ha|apply Ha].
  eapply sstrncpy_typed; [eassumption|exact Hf|apply Ha].
Qed.
#[local] Hint Resolve typed_record_pair : typing.

(** A step that looks at the status of a program that gives values. *)
Lemma typed_inspect {A B} (Q : A -> Prop) (Q' : B -> Prop) (m : M A) (k : A + status_t -> M B) :
  typed Q m -> (forall r, match r with inl a => Q a | inr _ => True end -> typed Q' (k r)) ->
  typed Q' (ITree.bind m (fun o => match o with
                                  | Val a => Ret (Val (inl a))
                                  | Fail e => Ret (Val (inr e))
                                  | Exited n => Ret (Exited n)
                                  | Undef => Ret Undef
                                  end) ≫= k).
Proof.
  intros Hm Hk. eapply (keeps_mbind _ (fun r => match r with inl a => Q a | inr _ => True end)); [|exact Hk].
  eapply keeps_to_bind; [exact Hm|]. intros [a|e|n|] Ha; by apply keeps_to_ret.
Qed.

Lemma typed_scan_rest fresh st : typed_pair fresh -> typed_scan st ->
  typed (fun r => match r with inl st => typed_scan st | inr st => typed_scan st end) (scan_rest fresh st).
Proof.
  intros Hf [Hh Hi]. unfold scan_rest. typed_step.
  eapply typed_inspect; [by eauto with typing|]. intros r Hr.
  eapply (keeps_mbind _ typed_scan).
  - destruct r; typed_go; by split.
  - intros st' Hst. typed_go.
Qed.

Lemma typed_start_scanpair fresh stack : typed_pair fresh -> typed_addrs (cast_info stack) ->
  typed (Forall typed_pair) (start_scanpair fresh stack).
Proof.
  intros Hf Ha. unfold start_scanpair. typed_go. eapply (keeps_mbind _ typed_scan).
  - apply (keeps_loop _ typed_scan); [by split; [|apply Forall_nil]|]. intros st Hst. unfold scan_turn.
    typed_go. by apply typed_scan_rest.
  - intros st [_ Hi]. unfold scan_close_socket. typed_go.
Qed.

(** *** The library interface *)

Lemma typed_tryexec st : program (tryexec st).
Proof. rewrite tryexec_reports. unfold raise. typed_go. Qed.
#[local] Hint Resolve typed_tryexec typed_start_pusher typed_start_puller typed_start_broadcast : typing.

Lemma typed_tryexec_call m : program m -> program (tryexec_call m).
Proof. intros Hm. unfold tryexec_call. typed_go. Qed.
#[local] Hint Resolve typed_tryexec_call : typing.

Lemma typed_push_file path stack1 stack2 :
  bytes_ok path -> typed_addrs stack1 -> typed_addrs stack2 -> program (push_file path stack1 stack2).
Proof. intros Hp H1 H2. unfold push_file. typed_go. Qed.

Lemma typed_pull_file name stack1 stack2 :
  typed_array MAXNAMESIZE name -> typed_addrs (send_info stack1) -> typed_addrs (send_info stack2) ->
  program (pull_file name stack1 stack2).
Proof.
  intros Hn H1 H2. unfold pull_file. typed_go; apply typed_tryexec_call; typed_go.
Qed.

Lemma typed_broadcast stack : typed_addrs stack -> program (broadcast stack).
Proof. intros Ha. unfold broadcast. typed_go. Qed.

Lemma typed_thread stack : typed_addrs stack -> program (thread_broadcast_routine stack).
Proof. intros Ha. unfold thread_broadcast_routine. eapply keeps_mbind;
  [apply keeps_status_of, typed_broadcast, Ha|]. intros st _. by apply keeps_mret. Qed.

Lemma typed_scanpair fresh stack : typed_pair fresh -> typed_addrs (cast_info stack) ->
  typed (Forall typed_pair) (scanpair fresh stack).
Proof.
  intros Hf Ha. unfold scanpair. typed_go. eapply typed_inspect; [by apply typed_start_scanpair|].
  intros [info|st] Hr; typed_go.
Qed.
End programs.

(** The calls of a program to the library, and what it gives: the arguments are
    arrays of the declared sizes, whatever they hold. *)
Inductive entry `{Host} `{Crc} : forall A, (A -> Prop) -> M A -> Prop :=
| entry_push path stack1 stack2 : bytes_ok path -> typed_addrs stack1 -> typed_addrs stack2 ->
    entry unit (fun _ => True) (push_file path stack1 stack2)
| entry_pull name stack1 stack2 :
    typed_array MAXNAMESIZE name -> typed_addrs (send_info stack1) -> typed_addrs (send_info stack2) ->
    entry unit (fun _ => True) (pull_file name stack1 stack2)
| entry_broadcast stack : typed_addrs stack -> entry unit (fun _ => True) (broadcast stack)
| entry_scanpair fresh stack : typed_pair fresh -> typed_addrs (cast_info stack) ->
    entry (list PairInfo) (Forall typed_pair) (scanpair fresh stack).

(** C10: the values keep to their C types.  Whichever public function runs on a
    well-typed configuration, its broadcasting thread beside it, whatever the system
    answers and whoever's turn it is: in every state the process reaches the shared
    configuration is well typed (integers at their width, strings of their array's
    size, a mapping of the mapped file's size), every call either thread has made had
    arguments of the types it takes, and a scan returns well-typed entries. *)
Theorem entry_points_keep_types `{Host} `{Crc} A (Q : A -> Prop) m stack s q :
  entry A Q m -> typed_addrs stack -> typed_conf (p_conf s) -> Forall (obeys typing) (p_trace s) ->
  rtc (thread_step (thread_broadcast_routine stack)) (alone m s) q ->
  typed_conf (th_conf q) /\ Forall (obeys typing) (th_main_calls q) /\ Forall (obeys typing) (th_other_calls q) /\
  forall a, observe (th_main q) = RetF (Val a) -> Q a.
Proof.
  intros Hm Ha Hc Htr Hr.
  assert (Ht : typed Q m).
  { destruct Hm; [by apply typed_push_file|by apply typed_pull_file|by apply typed_broadcast|by apply typed_scanpair]. }
  pose proof (kept_reachable typing Q _ (typed_thread stack Ha) _ _ (kept_alone typing Q m s Ht Hc Htr) Hr) as Hq.
  split_and!; [apply Hq..|]. intros a. by eapply kept_result.
Qed.
