(* ===== verification/Discovery.v ===== *)
(** * Discovery: broadcasters, scans and the addresses found (source/broadcast.c, scanpair.c)

    A receiver announces itself with CAST datagrams, and a sender scans for them.
    The datagrams of a broadcasting process are the beacon of its configuration, in
    every state that it reaches ([broadcast_beacons]); over a network whose CAST
    datagrams come from broadcasters, a scan ends with one entry for each beacon it
    received, and the entry is the name and address of its broadcaster
    ([scan_finds_broadcasters]). *)
From stdpp Require Import relations.
From S2P Require Import Prelude Protocol Types Sys Prefix Wire Utils Error Mfile NetStream FileStream Cntl Data Pusher Puller Broadcast Scanpair Rufshare Session Delivery Hearing Answered Joint Threads Keeps.

(** ** The beacon *)

(** The bytes of a CAST datagram of the addresses [a]: no host order in them. *)
Definition beacon (a : CntlAddrs) : list Z := [CAST; 0] ++ be16 0 ++ infostr_of a.

(** The configuration stays at the addresses [a], and every datagram is the beacon. *)
Definition beaconing (a : CntlAddrs) : discipline := {|
  confs := fun c => conf_addrs c = a;
  calls_of := fun X e => match e with SendTo _ buf _ => buf = beacon a | _ => True end
|}.

Section beacon.
Context (a : CntlAddrs) (Ha : addrs_wf a).

Lemma len_beacon : len (beacon a) = sizeof_CastPacket + INFOSTRSIZE.
Proof using Ha. unfold beacon. rewrite !len_app. by rewrite (proj1 (infostr_terminated a Ha)). Qed.

Lemma beacon_split :
  ztake sizeof_CastPacket (beacon a) = [CAST; 0] ++ be16 0 /\
  ztake INFOSTRSIZE (zdrop sizeof_CastPacket (beacon a)) = infostr_of a.
Proof using Ha.
  unfold beacon. rewrite app_assoc. rewrite ztake_app, zdrop_app by done. split; [done|].
  rewrite ztake_all; [done|]. by rewrite (proj1 (infostr_terminated a Ha)).
Qed.

Context `{Host}.

(** What [push_broadcast_header] builds of a header that was copied from [a]. *)
Lemma packed_beacon info : addrs_wf info -> infostring info = infostring a ->
  pack_into_infostring (zeros INFOSTRSIZE) info = Some (infostr_of a).
Proof using Type.
  intros Hi He. pose proof (with_info_ok [] a info Hi He) as Hw. unfold with_info in Hw.
  destruct (pack_into_infostring _ _); [|done]. by injection Hw as ->.
Qed.
End beacon.

Section broadcasts.
Context `{Host} (a : CntlAddrs) (Ha : addrs_wf a).

Lemma beacon_read n d :
  n = sizeof_CastPacket + INFOSTRSIZE -> mem_read (beacon a) 0 n = Some d -> d = beacon a.
Proof using Ha. intros -> Hd. rewrite mem_read_all in Hd by (symmetry; by apply len_beacon). by injection Hd. Qed.

Lemma beacon_push sock info timeout :
  addrs_wf info -> infostring info = infostring a ->
  always (harmless (beaconing a))
    (push_broadcast_header sock {| cast_packet := pack_RUFShare_CastPacket 0; cast_info := info |} timeout).
Proof using Ha.
  intros Hi He. unfold push_broadcast_header. cbn [cast_info cast_packet].
  rewrite cast_wire, (packed_beacon a) by done. unfold poll_out, push_udp_data. harmless_go.
  match goal with E : Some _ = Some _, Hd : mem_read _ 0 _ = Some _ |- _ =>
    injection E as <-; pose proof (beacon_read _ _ eq_refl Hd) as -> end. harmless_go.
Qed.

Lemma beacon_copy stack : addrs_wf stack ->
  keeps (beaconing a) (fun info => addrs_wf info /\ infostring info = infostring a) (copy_info stack).
Proof using Ha.
  intros Hst. unfold copy_info. keeps_step. subst.
  destruct (copies_ok stack _ Hst Ha) as (f & n & l & r & Hf & Hn & Hl & Hr & Hi & Hs).
  do 4 (eapply keeps_defined_some; [eassumption|]). by apply keeps_mret.
Qed.

#[local] Hint Resolve beacon_push beacon_copy : keeping.

Lemma beacon_init sock x y z w b : always (harmless (beaconing a)) (init_udp_socket sock x y z w b).
Proof using Type. unfold init_udp_socket, network_byteorder, deref. destruct sock; harmless_go. Qed.
#[local] Hint Resolve beacon_init : keeping.

Lemma beacon_start stack : addrs_wf stack -> keeps (beaconing a) (fun _ => True) (start_broadcast stack).
Proof using Ha.
  intros Hst. unfold start_broadcast, broadcast_loop, broadcast_turn, close_socket. keeps_go.
  match goal with Hi : addrs_wf _ /\ _ |- _ => destruct Hi end. apply always_keeps. harmless_go.
Qed.
#[local] Hint Resolve beacon_start : keeping.

Lemma beacon_broadcast stack : addrs_wf stack -> keeps (beaconing a) (fun _ => True) (broadcast stack).
Proof using Ha. intros Hst. unfold broadcast. keeps_go. Qed.

Lemma beacon_thread stack : addrs_wf stack -> keeps (beaconing a) (fun _ => True) (thread_broadcast_routine stack).
Proof using Ha.
  intros Hst. unfold thread_broadcast_routine.
  eapply keeps_mbind; [by apply keeps_status_of, beacon_broadcast|]. intros ? _. by apply keeps_mret.
Qed.
End broadcasts.

(** ** Broadcasting processes *)

(** The calls of a process that runs [broadcast] with the addresses [a], at some
    point of its run: it need not come to an end. *)
Definition broadcasting (a : CntlAddrs) (tr : list obs) : Prop :=
  exists (_ : Host) stack s (q : threads unit bool),
    addrs_wf a /\ conf_addrs (p_conf s) = a /\ p_trace s = [] /\ addrs_wf stack /\
    rtc (thread_step (thread_broadcast_routine stack)) (alone (broadcast stack) s) q /\ tr = th_main_calls q.

(** A broadcaster sends nothing but its beacon, or, when the system cuts a datagram
    short, a prefix of it. *)
Lemma broadcast_beacons a tr fd d :
  broadcasting a tr -> Out fd d ∈ wire tr -> exists n, d = ztake n (beacon a).
Proof.
  intros (Ho & stack & s & q & Ha & Hs & Ht & Hst & Hr & ->).
  assert (Hk : kept (beaconing a) (fun _ => True) q).
  { eapply kept_reachable; [by apply (beacon_thread a Ha stack)| |exact Hr].
    apply kept_alone; [by apply beacon_broadcast|done|by rewrite Ht]. }
  pose proof (kept_main_calls _ _ _ Hk) as Hc. clear Hr Hk. induction Hc as [|o tr Hob _ IH]; [by intros ?%elem_of_nil|].
  cbn [wire]. rewrite elem_of_app. intros [Hin|?]; [|by apply IH].
  destruct o as [X e x]. cbn in Hin. destruct e; cbn in Hin; try by apply elem_of_nil in Hin.
  - destruct (x =? -1); [by apply elem_of_nil in Hin|]. apply list_elem_of_singleton in Hin as [= -> ->].
    cbn in Hob. subst. by exists x.
  - destruct (_ || _); [by apply elem_of_nil in Hin|]. by apply list_elem_of_singleton in Hin.
Qed.

(** A whole one. *)
Lemma broadcast_is_beacon a tr fd d :
  broadcasting a tr -> Out fd d ∈ wire tr -> is_cast d = true -> d = beacon a.
Proof.
  intros Hb Hd Hc. destruct (broadcast_beacons _ _ _ _ Hb Hd) as [n ->]. destruct Hb as (_ & _ & _ & _ & Ha & _).
  apply andb_prop in Hc as [Hl%Z.eqb_eq _]. rewrite <- (len_beacon a Ha) in Hl.
  unfold ztake, len in *. rewrite length_take in Hl. apply take_ge. lia.
Qed.

(** ** Scanning among broadcasters *)

(** The entry that a beacon of [a] stands for. *)
Definition found (a : CntlAddrs) (p : PairInfo) : Prop :=
  cstr (pi_name p) = cstr (addrs_name a) /\ cstr (pi_ip p) = cstr (addrs_local_ip a) /\ pi_port p = addrs_local_port a.

(** The datagrams of the size and type of a CAST packet. *)
Definition casts (ds : list (list Z)) : list (list Z) := List.filter is_cast ds.

Section collecting.
Context `{Host} (known : list CntlAddrs) (fresh : PairInfo).
Context (Hknown : forall a, a ∈ known -> addrs_wf a) (Hfresh : len (pi_name fresh) = MAXNAMESIZE).

(** A beacon is decoded, over any header, to an entry, which is that of its
    broadcaster when the strings of the broadcaster survive the information string. *)
Lemma beacon_decoded a header :
  a ∈ known -> addrs_wf (cast_info header) ->
  exists header' p,
    decode_CAST header [ztake sizeof_CastPacket (beacon a); ztake INFOSTRSIZE (zdrop sizeof_CastPacket (beacon a))]
      = Some header' /\ addrs_wf (cast_info header') /\ pair_of fresh (cast_info header') = Some p /\ (carried a -> found a p).
Proof using Hknown Hfresh.
  intros Hin Hh. pose proof (Hknown a Hin) as Ha. destruct (beacon_split a Ha) as [-> ->].
  unfold decode_CAST. rewrite decode_cast_wire by (unfold in_width; lia). cbn [mbind option_bind].
  destruct (unpack_ok (infostr_of a) (cast_info header)) as (a' & Hu & Hwf & _);
    [apply infostr_terminated, Ha|done|]. rewrite Hu. cbn [mbind option_bind].
  destruct (sstrncpy_ok (pi_name fresh) (addrs_name a') MAXNAMESIZE) as (name & Hs & _ & Hc & _);
    [by rewrite Hfresh|done|right; by rewrite (wf_name _ Hwf)|].
  do 2 eexists. split; [done|]. split; [done|]. unfold pair_of. cbn [cast_info]. rewrite Hs. cbn [mbind option_bind].
  split; [done|]. intros [Hf Hn Hi _].
  destruct (infostring_exchange (zeros INFOSTRSIZE) a (cast_info header))
    as (buf & a2 & Hp & _ & Hu2 & _ & Hna & Hia & Hpa); [done..|].
  rewrite (packed_beacon a a Ha eq_refl) in Hp. injection Hp as <-. rewrite Hu in Hu2. injection Hu2 as <-.
  split_and!; cbn; [|done|done]. rewrite Hc, Hna, ztake_all; [done|]. apply Hn.
Qed.

Lemma collect_found ds : forall header info header' info',
  addrs_wf (cast_info header) -> (forall d, d ∈ ds -> is_cast d = true -> exists a, a ∈ known /\ d = beacon a) ->
  collect fresh header info ds = Some (header', info') ->
  exists new, info' = info ++ new /\ Forall2 (fun d p => exists a, a ∈ known /\ d = beacon a /\ (carried a -> found a p)) (casts ds) new.
Proof using Hknown Hfresh.
  induction ds as [|d ds IH]; intros header info header' info' Hh Hds; cbn [collect casts List.filter].
  { intros [= <- <-]. exists []. by rewrite app_nil_r. }
  assert (Hds' : forall d, d ∈ ds -> is_cast d = true -> exists a, a ∈ known /\ d = beacon a).
  { intros d' Hd'. apply Hds. by right. }
  destruct (is_cast d) eqn:Hd; [|by apply IH].
  destruct (Hds d) as (a & Ha & ->); [by left|done|].
  destruct (beacon_decoded a header Ha Hh) as (h & p & -> & Hwf & Hp & Hf). cbn [mbind option_bind]. rewrite Hp.
  cbn [mbind option_bind]. intros Hc. apply IH in Hc as (new & -> & Hnew); [|done|done].
  exists (p :: new). rewrite <- app_assoc. split; [done|]. constructor; [|done]. by exists a.
Qed.
End collecting.

(** A network: every CAST datagram that comes in was sent by one of the processes
    [bs], given by their addresses and calls.  It may lose, duplicate and reorder. *)
Definition carries (bs : list (CntlAddrs * list obs)) (tr : list obs) : Prop :=
  forall fd d, In fd d ∈ wire tr -> is_cast d = true -> exists b fd', b ∈ bs /\ Out fd' d ∈ wire b.2.

Lemma carries_beacons bs tr :
  (forall b, b ∈ bs -> broadcasting b.1 b.2) -> carries bs tr ->
  forall fd d, In fd d ∈ wire tr -> is_cast d = true -> exists a, a ∈ bs.*1 /\ d = beacon a.
Proof.
  intros Hbs Hn fd d Hd Hc. destruct (Hn fd d Hd Hc) as (b & fd' & Hb & Ho). exists b.1.
  split; [by apply list_elem_of_fmap_2|]. by eapply broadcast_is_beacon; [apply Hbs| |].
Qed.

Lemma broadcasting_wf a tr : broadcasting a tr -> addrs_wf a.
Proof. by intros (_ & _ & _ & _ & Ha & _). Qed.

(** C15: over a network whose CAST datagrams come from broadcasting processes, in any
    order, lost or repeated, and while the clock advances, [scanpair] comes to an end:
    it returns exactly one entry for each beacon received, in order, or the process
    ends with a status of the system's; hosts may have any byte order.  The entry has
    the name, the address and the port of the process that sent the beacon, if that
    process's strings survive the information string ([carried]: a file name of 1 to
    255 bytes without a colon, a user name of 1 to 31 bytes without an at sign, an
    address of 1 to 15 bytes without a colon); of another process there is an entry
    for each beacon too, whose fields the theorem leaves open.  A scan does not go out of its memory, unless [realloc] fails. *)
Theorem scan_finds_broadcasters `{Host} n bs fresh stack s :
  0 < n -> first_failing (scan_checks (p_conf s)) = None -> p_trace s = [] ->
  addrs_wf (cast_info stack) -> len (pi_name fresh) = MAXNAMESIZE ->
  (forall b, b ∈ bs -> broadcasting b.1 b.2) ->
  wp (posix_while (fun tr => ticks n (times tr) /\ carries bs tr)) (fun o s' =>
      match o with
      | Val info => exists fd ds, wire (p_trace s') = In fd <$> ds /\
          Forall2 (fun d p => exists b, b ∈ bs /\ d = beacon b.1 /\ (carried b.1 -> found b.1 p)) (casts ds) info
      | Exited code => code = EXIT_FAILURE /\ exists st tr, st ∈ ERRTIME :: EXPTRY0 :: FAILURE :: socket_errors /\
          p_trace s' = tr ++ [report st]
      | Undef => exists null size, Obs (Realloc null size) false ∈ p_trace s'
      | Fail _ => False
      end) (scanpair fresh stack) s.
Proof.
  intros Hn Hck Ht Hst Hf Hbs.
  assert (Hkn : forall a, a ∈ bs.*1 -> addrs_wf a).
  { intros a (b & -> & Hb)%list_elem_of_fmap. by eapply broadcasting_wf, Hbs. }
  assert (H0 : carries bs (p_trace s)) by (rewrite Ht; by intros ? ? ?%elem_of_nil).
  unfold scanpair. apply wp_mbind. apply wp_sys. intros c s1 [[-> ->] _]. cbn [seq_post].
  eapply (wp_guards _ _ _ (scan_checks (p_conf s))); [guards_go|]. rewrite Hck.
  apply wp_mbind, wp_bind. eapply wp_mono; [by apply wp_while_and, (start_scanpair_ok n)|].
  intros o s' [(tr & Htr & Ho) Hc]. rewrite Ht in Htr. cbn [app] in Htr.
  destruct o as [info|st|?|]; apply wp_ret; cbn [seq_post]; [| |done|].
  - apply wp_mret. destruct Ho as (fd & h & ds & _ & Hw & Hcol). exists fd, ds. rewrite Htr. split; [done|].
    apply (collect_found (bs.*1)) in Hcol as (new & -> & Hnew); [|done|done|done|].
    + eapply Forall2_impl; [exact Hnew|]. intros d p (a & (b & -> & Hb)%list_elem_of_fmap & Hd & Hp). by exists b.
    + intros d Hd. eapply (carries_beacons bs (p_trace s')); [done|done|]. rewrite Htr, Hw. by apply list_elem_of_fmap_2.
  - apply wp_mbind. apply (wp_fewer _ _ _ _ _ (posix_while_posix _)), tryexec_fails.
    { intros ->. revert Ho. change (SUCCESS ∉ ERRTIME :: EXPTRY0 :: FAILURE :: socket_errors). by apply (bool_decide_unpack _). }
    cbn [seq_post]. split; [done|]. exists st, tr. split; [done|]. cbn. by rewrite Htr.
  - destruct Ho as [(fd & d & Hin & Hd & Hs)|(b & m & Hin)]; [exfalso|exists b, m; by rewrite Htr].
    destruct (carries_beacons bs (p_trace s') Hbs Hc fd d) as (a & Ha & ->); [by rewrite Htr|done|].
    rewrite (proj2 (beacon_split a (Hkn a Ha))) in Hs. by apply infostr_terminated in Hs; [|apply Hkn].
Qed.
