(* ===== verification/Endpoints.v ===== *)
(** * The addresses of the connections (source/cntl.c, data.c, net_stream.c)

    A process binds its sockets at the local address of its configuration and
    connects them to the remote one, on the control channel, on the data channel and
    in the broadcasting thread, whatever it is told by its peer ([ending]).  So a sender
    that dials the entry a scan gave it connects to the address and port that the
    receiver listens on ([found_is_bound]). *)
From stdpp Require Import relations.
From S2P Require Import Prelude Protocol Types Sys Prefix Wire Utils Error Mfile NetStream FileStream Cntl Data Pusher Puller Broadcast Scanpair Rufshare Session Delivery Hearing Answered Joint Threads Keeps Discovery.

(** [names addr ip port]: the socket address is the one of this string and port. *)
Definition names `{Host} (addr : sockaddr_in) (ip : list Z) (port : Z) : Prop :=
  exists x, inet_pton ip = Some x /\ addr = sockaddr port x.

(** One end of the connections of a process: the local address of its configuration,
    to which it binds, or the remote one, to which it connects. *)
Variant connection_end := local_end | remote_end.
Definition end_is (e : connection_end) (ip : list Z) (port : Z) (lip : list Z) (lport : Z) (rip : list Z) (rport : Z) : Prop :=
  match e with
  | local_end => cstr lip = cstr ip /\ lport = port
  | remote_end => cstr rip = cstr ip /\ rport = port
  end.

(** The address of that end stays, and no socket is bound, or connected, elsewhere. *)
Definition ending `{Host} (e : connection_end) (ip : list Z) (port : Z) : discipline := {|
  confs := fun c => let a := conf_addrs c in
    end_is e ip port (addrs_local_ip a) (addrs_local_port a) (addrs_remote_ip a) (addrs_remote_port a);
  calls_of := fun X c =>
    match c, e with
    | Bind _ addr, local_end => names addr ip port
    | Connect _ addr, remote_end => names addr ip port
    | _, _ => True
    end
|}.

Section endings.
Context `{Host} `{Crc} (e : connection_end) (ip : list Z) (port : Z).
#[local, warnings="-notation-for-abbreviation"] Notation unmoved := (always (harmless (ending e ip port))).
#[local, warnings="-notation-for-abbreviation"] Notation going := (keeps (ending e ip port) (fun _ => True)).

Lemma end_named lip lport rip rport x y :
  end_is e ip port lip lport rip rport -> inet_pton lip = Some x -> inet_pton rip = Some y ->
  match e with local_end => names (sockaddr lport x) ip port | remote_end => names (sockaddr rport y) ip port end.
Proof using Type.
  unfold inet_pton. intros He Hx Hy. destruct e; destruct He as [E <-];
    [exists x|exists y]; unfold inet_pton; by rewrite <- E.
Qed.

Lemma always_network {A} (ok : call_prop) `{!Extends ok} s (k : list Z -> M A) :
  (forall x, inet_pton s = Some x -> always ok (k x)) -> always ok (network_byteorder s ≫= k).
Proof using Type.
  intros Hk. unfold network_byteorder. destruct (inet_pton s) as [x|]; [|by apply always_fold].
  by apply (always_observe _ (k x)); [|apply Hk].
Qed.

Ltac endpoint_go := intros He; unfold deref; repeat (apply always_network; [apply _|intros ? ?]);
  match goal with Hx : inet_pton _ = Some ?x, Hy : inet_pton _ = Some ?y |- _ =>
    pose proof (end_named _ _ _ _ _ _ He Hx Hy) end.

Lemma unmoved_init_tcp sock lip lport rip rport c :
  end_is e ip port lip lport rip rport -> unmoved (init_tcp_socket sock lip lport rip rport c).
Proof using Type. unfold init_tcp_socket. endpoint_go. destruct e, sock; harmless_go. Qed.

Lemma unmoved_init_udp sock lip lport rip rport c :
  end_is e ip port lip lport rip rport -> unmoved (init_udp_socket sock lip lport rip rport c).
Proof using Type. unfold init_udp_socket. endpoint_go. destruct e, sock; harmless_go. Qed.
#[local] Hint Resolve unmoved_init_tcp unmoved_init_udp : keeping.

Lemma unmoved_close sock : unmoved (close_socket sock).
Proof using Type. unfold close_socket. harmless_go. Qed.
#[local] Hint Resolve unmoved_close : keeping.

Lemma start_cntl_going sock c : going (start_cntl sock c).
Proof using Type. unfold start_cntl. keeps_go. Qed.
Lemma start_data_going sock : going (start_data sock).
Proof using Type. unfold start_data. keeps_go. Qed.

(** What both sides do with headers, files and chunks. *)
Lemma unmoved_pull_tcp sock buf size peek : unmoved (pull_tcp_data sock buf size peek).
Proof using Type. unfold pull_tcp_data. harmless_go. Qed.
Lemma unmoved_push_tcp sock buf size : unmoved (push_tcp_data sock buf size).
Proof using Type. unfold push_tcp_data. harmless_go. Qed.
Lemma unmoved_push_udp sock buf size : unmoved (push_udp_data sock buf size).
Proof using Type. unfold push_udp_data. harmless_go. Qed.
Lemma unmoved_pull_udp sock buf size : unmoved (pull_udp_data sock buf size).
Proof using Type. unfold pull_udp_data. harmless_go. Qed.
#[local] Hint Resolve unmoved_pull_tcp unmoved_push_tcp unmoved_push_udp unmoved_pull_udp : keeping.
Lemma unmoved_poll_in sock timeout type : unmoved (poll_in sock timeout type).
Proof using Type. unfold poll_in. harmless_go. Qed.
Lemma unmoved_poll_out sock timeout push : unmoved push -> unmoved (poll_out sock timeout push).
Proof using Type. intros Hp. unfold poll_out. harmless_go. Qed.
#[local] Hint Resolve unmoved_poll_in unmoved_poll_out : keeping.
Lemma unmoved_pull_SEND sock args timeout : unmoved (pull_SEND_header sock args timeout).
Proof using Type. unfold pull_SEND_header. harmless_go. Qed.
Lemma unmoved_pull_FLOW sock timeout : unmoved (pull_FLOW_header sock timeout).
Proof using Type. unfold pull_FLOW_header. harmless_go. Qed.
Lemma unmoved_pull_RECV sock timeout : unmoved (pull_RECV_header sock timeout).
Proof using Type. unfold pull_RECV_header. harmless_go. Qed.
Lemma unmoved_push_SEND sock args timeout : unmoved (push_SEND_header sock args timeout).
Proof using Type. unfold push_SEND_header. harmless_go. Qed.
Lemma unmoved_push_FLOW sock args timeout : unmoved (push_FLOW_header sock args timeout).
Proof using Type. unfold push_FLOW_header. harmless_go. Qed.
Lemma unmoved_push_RECV sock args timeout : unmoved (push_RECV_header sock args timeout).
Proof using Type. unfold push_RECV_header. harmless_go. Qed.
Lemma unmoved_push_CAST sock args timeout : unmoved (push_broadcast_header sock args timeout).
Proof using Type. unfold push_broadcast_header. harmless_go. Qed.
#[local] Hint Resolve unmoved_pull_SEND unmoved_pull_FLOW unmoved_pull_RECV unmoved_push_SEND unmoved_push_FLOW
  unmoved_push_RECV unmoved_push_CAST : keeping.

Lemma unmoved_start_file path mode : unmoved (start_file_stream path mode).
Proof using Type. unfold start_file_stream, create_file, mfopen, set_filec. harmless_go. Qed.
Lemma unmoved_end_file : unmoved end_file_stream.
Proof using Type. unfold end_file_stream, mfclose. harmless_go. Qed.
Lemma unmoved_on_mfile {A} (f : MFILE -> option (A * MFILE)) : unmoved (on_mfile f).
Proof using Type. unfold on_mfile. harmless_go. Qed.
Lemma unmoved_copy_info stack : unmoved (copy_info stack).
Proof using Type. unfold copy_info. harmless_go. Qed.
Lemma unmoved_segsize : unmoved set_segsize.
Proof using Type. unfold set_segsize. harmless_go. Qed.
#[local] Hint Resolve unmoved_start_file unmoved_end_file unmoved_on_mfile unmoved_copy_info unmoved_segsize : keeping.
Lemma unmoved_push_chunk sock chunk timeout : unmoved (push_chunk_data sock chunk timeout).
Proof using Type. unfold push_chunk_data, push_segment. harmless_go. Qed.
Lemma unmoved_pull_chunk sock chunk timeout : unmoved (pull_chunk_data sock chunk timeout).
Proof using Type. unfold pull_chunk_data, set_socket_rcvlowsize, pull_segment, mfsync. harmless_go. Qed.
#[local] Hint Resolve unmoved_push_chunk unmoved_pull_chunk : keeping.

(** The sender. *)
Lemma unmoved_push_transfer : unmoved push_transfer.
Proof using Type. unfold push_transfer, push_one_chunk, push_flow_try, push_chunk_try. harmless_go. Qed.
Lemma unmoved_push_handshake stack : unmoved (push_handshake stack).
Proof using Type. unfold push_handshake. harmless_go. Qed.
Lemma unmoved_push_verification stack : unmoved (push_verification stack).
Proof using Type. unfold push_verification. harmless_go. Qed.
#[local] Hint Resolve start_cntl_going start_data_going unmoved_push_transfer unmoved_push_handshake
  unmoved_push_verification : keeping.

Lemma start_pusher_going path stack1 stack2 : going (start_pusher path stack1 stack2).
Proof using Type. unfold start_pusher, end_cntl, end_data. keeps_go. Qed.
#[local] Hint Resolve start_pusher_going : keeping.
Lemma push_file_going path stack1 stack2 : going (push_file path stack1 stack2).
Proof using Type. unfold push_file. keeps_go. Qed.

(** The broadcasting thread. *)
Lemma start_broadcast_going stack : going (start_broadcast stack).
Proof using Type. unfold start_broadcast, broadcast_loop, broadcast_turn. keeps_go. Qed.
#[local] Hint Resolve start_broadcast_going : keeping.
Lemma broadcast_going stack : going (broadcast stack).
Proof using Type. unfold broadcast. keeps_go. Qed.
Lemma thread_going stack : going (thread_broadcast_routine stack).
Proof using Type.
  unfold thread_broadcast_routine. eapply keeps_mbind; [apply keeps_status_of, broadcast_going|].
  intros ? _. by apply keeps_mret.
Qed.
End endings.

(** The receiver writes the remote address it is told, and no other. *)
Section receiver.
Context `{Host} `{Crc} (ip : list Z) (port : Z).
#[local, warnings="-notation-for-abbreviation"] Notation unmoved := (always (harmless (ending local_end ip port))).
#[local, warnings="-notation-for-abbreviation"] Notation going := (keeps (ending local_end ip port) (fun _ => True)).
#[local] Hint Resolve unmoved_close unmoved_pull_SEND unmoved_pull_FLOW unmoved_push_RECV unmoved_start_file
  unmoved_end_file unmoved_pull_chunk start_cntl_going start_data_going unmoved_segsize : keeping.

Lemma unmoved_accept sock fd timeout : unmoved (accept_new_connection sock fd timeout).
Proof using Type. unfold accept_new_connection, host_ipstring. destruct sock; harmless_go. Qed.
Lemma unmoved_push_ack ack seq timeout : unmoved (push_ack ack seq timeout).
Proof using Type. unfold push_ack. harmless_go. Qed.
#[local] Hint Resolve unmoved_accept unmoved_push_ack : keeping.
Lemma unmoved_pull_handshake name stack : unmoved (pull_handshake name stack).
Proof using Type. unfold pull_handshake, set_filec. harmless_go. Qed.
Lemma unmoved_pull_transfer : unmoved pull_transfer.
Proof using Type. unfold pull_transfer, pull_one_chunk, pull_chunk_try. harmless_go. Qed.
Lemma unmoved_pull_verification stack : unmoved (pull_verification stack).
Proof using Type. unfold pull_verification. harmless_go. Qed.
#[local] Hint Resolve unmoved_pull_handshake unmoved_pull_transfer unmoved_pull_verification : keeping.

Lemma start_puller_going name stack1 stack2 : going (start_puller name stack1 stack2).
Proof using Type. unfold start_puller, accept_cntl, end_cntl, end_data. keeps_go. Qed.
#[local] Hint Resolve start_puller_going : keeping.
Lemma pull_file_going name stack1 stack2 : going (pull_file name stack1 stack2).
Proof using Type. unfold pull_file. keeps_go. Qed.
End receiver.

(** ** The rendezvous *)

(** The same address and port, for hosts that may differ in byte order. *)
Definition same_endpoint (H1 H2 : Host) (addr1 addr2 : sockaddr_in) : Prop :=
  exists port x, addr1 = @sockaddr H1 port x /\ addr2 = @sockaddr H2 port x.

(** C16: a sender reaches the receiver that it found.  Let [p] be the entry of a scan
    for the addresses [a], a sender's configuration dial [p], and a receiver run
    [pull_file] at [a], with its thread and whatever it is told: every connection the
    sender makes, or tries, for the control or the data channel, is to the one address
    and port at which every socket of the receiver is bound. *)
Theorem found_is_bound (H1 H2 : Host) `{Crc} a p path st1 st2 stk1 s1 q1 name rs1 rs2 stk2 s2 q2 fd1 fd2 addr1 addr2 r1 r2 :
  found a p ->
  cstr (addrs_remote_ip (conf_addrs (p_conf s1))) = cstr (pi_ip p) ->
  addrs_remote_port (conf_addrs (p_conf s1)) = pi_port p ->
  rtc (thread_step (@thread_broadcast_routine H1 stk1)) (alone (@push_file H1 _ path st1 st2) s1) q1 ->
  cstr (addrs_local_ip (conf_addrs (p_conf s2))) = cstr (addrs_local_ip a) ->
  addrs_local_port (conf_addrs (p_conf s2)) = addrs_local_port a ->
  rtc (thread_step (@thread_broadcast_routine H2 stk2)) (alone (@pull_file H2 _ name rs1 rs2) s2) q2 ->
  p_trace s1 = [] -> p_trace s2 = [] ->
  Obs (Connect fd1 addr1) r1 ∈ th_main_calls q1 ->
  Obs (Bind fd2 addr2) r2 ∈ th_main_calls q2 ++ th_other_calls q2 ->
  same_endpoint H1 H2 addr1 addr2.
Proof.
  intros (_ & Hip & Hport) Hi1 Hp1 Hr1 Hi2 Hp2 Hr2 Ht1 Ht2 Hc Hb.
  set (ip := addrs_local_ip a) in *. set (port := addrs_local_port a) in *.
  assert (K1 : kept (@ending H1 remote_end ip port) (fun _ => True) q1).
  { eapply kept_reachable; [apply thread_going| |exact Hr1]. apply kept_alone; [apply push_file_going| |by rewrite Ht1].
    cbn. by rewrite Hi1, Hp1. }
  assert (K2 : kept (@ending H2 local_end ip port) (fun _ => True) q2).
  { eapply kept_reachable; [apply thread_going| |exact Hr2]. apply kept_alone; [apply pull_file_going| |by rewrite Ht2].
    cbn. by rewrite Hi2, Hp2. }
  pose proof (kept_main_calls _ _ _ K1) as C1. rewrite Forall_forall in C1. destruct (C1 _ Hc) as (x & Hx & ->).
  assert (C2 : Forall (obeys (@ending H2 local_end ip port)) (th_main_calls q2 ++ th_other_calls q2))
    by (apply Forall_app; split; [apply K2|apply K2]).
  rewrite Forall_forall in C2. destruct (C2 _ Hb) as (y & Hy & ->). rewrite Hx in Hy. injection Hy as <-.
  by exists port, x.
Qed.
