(* ===== verification/Samples.v ===== *)
(** * Concrete inputs, and runs of the program against them

    A small file, a sender's and a receiver's configuration, and functions that
    answer the calls of a process as a friendly operating system and a friendly
    peer would.  The programs are executed against them. *)
From S2P Require Import Prelude Protocol Types Sys Wire Utils Error Mfile Logd NetStream FileStream Cntl Data Pusher Puller Broadcast Scanpair Rufshare.

(** ** Data *)

Definition sample_host : Host := le_host.
(** Any functions will do as checksums. *)
Definition sample_crc : Crc :=
  {| crc_16 := fold_right (fun b n => (7 * n + b) mod 2 ^ 16) 1;
     crc_32 := fold_right (fun b n => (31 * n + b) mod 2 ^ 32) 1 |}.

Definition sample_path : list Z := lit "/tmp/a.bin".
Definition sample_content : list Z := [10; 20; 30; 40; 50; 60; 70; 80; 90; 100].

Definition sample_addrs : CntlAddrs :=
  {| addrs_filename := clit MAXFILENAMESIZE "a.bin"; addrs_name := clit MAXNAMESIZE "alice";
     addrs_local_ip := clit MAXIPV4SIZE "10.0.0.1"; addrs_remote_ip := clit MAXIPV4SIZE "10.0.0.2";
     addrs_local_port := 5000; addrs_remote_port := 6000 |}.
Definition no_addrs : CntlAddrs :=
  {| addrs_filename := zeros MAXFILENAMESIZE; addrs_name := zeros MAXNAMESIZE;
     addrs_local_ip := zeros MAXIPV4SIZE; addrs_remote_ip := zeros MAXIPV4SIZE;
     addrs_local_port := 0; addrs_remote_port := 0 |}.

Definition closed_mfile : MFILE :=
  {| mf_file := None; mf_open := 0; mf_size := 0; mf_pos := 0; mf_buf := None |}.
Definition open_mfile (content : list Z) : MFILE :=
  {| mf_file := Some 3; mf_open := 1; mf_size := len content; mf_pos := 0;
     mf_buf := Some {| map_addr := 4096; map_bytes := content |} |}.

(** A configuration as the caller fills it: chunks of [chsize] bytes, or zero for
    a receiver. *)
Definition sample_conf (chsize : Z) : InitConfig :=
  {| conf_chsize := chsize; conf_pchsize := 0; conf_chcount := 0; conf_seq := 0;
     conf_cntl_sock := 0; conf_data_sock := 0; conf_conn_sock := 0; conf_cast_sock := 9;
     conf_filec := {| fc_mfile := closed_mfile; fc_size := 0; fc_name := zeros MAXFILENAMESIZE |};
     conf_addrs := sample_addrs; conf_segsize := 0; conf_hst_send := 100; conf_hst_recv := 100;
     conf_vft_send := 100; conf_vft_recv := 100; conf_tft_flow := 100; conf_tft_recv := 100;
     conf_tft_data := 100; conf_bct_cast := 100; conf_spt_cast := 100; conf_bc_interval := 1;
     conf_sp_interval := 2; conf_tf_trycount := 3; conf_bc_trycount := 3; conf_sp_trycount := 3 |}.

(** The configuration of a transfer of [sample_content], in chunks of four bytes
    and segments of three. *)
Definition transfer_conf : InitConfig :=
  set_conf_filec {| fc_mfile := open_mfile sample_content; fc_size := 10; fc_name := zeros MAXFILENAMESIZE |}
    (set_conf_segsize 3 (set_conf_seq 1 (set_conf_chcount 3 (set_conf_pchsize 2 (sample_conf 4))))).

Definition initially (c : InitConfig) : pstate := {| p_conf := c; p_trace := [] |}.

(** ** Answers to the calls *)

(** A system on which every call succeeds; what comes in over the sockets is the
    messages [w], the first of which a peek leaves in place. *)
Definition friendly_reply (content : list Z) X (e : sysE X) : list (list Z) -> X * list (list Z) :=
  match e in sysE X return list (list Z) -> X * list (list Z) with
  | Malloc _ => fun w => (true, w)
  | Realloc _ _ => fun w => (true, w)
  | Free => fun w => (tt, w)
  | Poll _ events _ => fun w => ((1, if events =? POLLIN then POLLIN else POLLOUT), w)
  | SendTo _ buf _ => fun w => (len buf, w)
  | RecvFrom _ size flags => fun w =>
      if size <? 0 then ((-1, []), w) else
      match w with
      | d :: w' =>
          if flags =? MSG_PEEK then ((Z.min size (len d), ztake size d), w)
          else ((Z.min size (len d), ztake size d), w')
      | [] => ((0, []), [])
      end
  | Socket type => fun w => (6 + Z.abs type, w)
  | Setsockopt _ _ _ => fun w => (0, w)
  | Bind _ _ => fun w => (0, w)
  | Connect _ _ => fun w => (0, w)
  | Listen _ _ => fun w => (0, w)
  | Accept _ => fun w => ((10, {| sin_family := AF_INET; sin_port := 0; sin_addr := [10; 0; 0; 2] |}), w)
  | Close _ => fun w => (0, w)
  | Fopen _ _ => fun w => (Some 3, w)
  | Fclose _ => fun w => (0, w)
  | Fstat _ => fun w => ((0, len content), w)
  | Stat _ => fun w => ((0, len content), w)
  | Fstatvfs _ => fun w => ((0, (1000, 1000)), w)
  | Ftruncate _ _ => fun w => (0, w)
  | Mmap size _ _ _ => fun w =>
      (if (0 <? size) && (size =? len content) then Some {| map_addr := 4096; map_bytes := content |} else None, w)
  | Munmap _ _ => fun w => (0, w)
  | Msync _ _ _ _ => fun w => (0, w)
  | Sysconf_pagesize => fun w => (4096, w)
  | Time => fun w => (Z.of_nat (length w), w)
  | Sleep _ => fun w => (tt, w)
  | PrintError _ _ _ => fun w => (tt, w)
  | PthreadCreate _ => fun w => (0, w)
  | PthreadJoin _ => fun w => (0, w)
  | GetConf => fun w => (sample_conf 0, w)
  | SetConf _ => fun w => (tt, w)
  end.

(** The same as a handler: the configuration and the trace are the process's. *)
Definition friendly (content : list Z) : handler (pstate * list (list Z)) :=
  fun X e =>
    match e in sysE X return pstate * list (list Z) -> X * (pstate * list (list Z)) with
    | GetConf => fun w => (p_conf w.1, w)
    | SetConf f => fun w => (tt, (with_conf f w.1, w.2))
    | e => fun w => let r := friendly_reply content _ e w.2 in (r.1, (logged e r.1 w.1, r.2))
    end.

(** These answers are possible ones, and the file has the size of [content]. *)
Lemma friendly_reply_ok content X (e : sysE X) w :
  bytes_ok content -> len content < 2 ^ 63 -> Forall bytes_ok w -> is_conf e = false ->
  reply_ok e (friendly_reply content X e w).1 /\ Forall bytes_ok (friendly_reply content X e w).2 /\
  size_is (len content) (Obs e (friendly_reply content X e w).1).
Proof.
  intros Hc Hl Hw Hconf. pose proof (len_nonneg content). unfold size_is.
  destruct e; try discriminate Hconf; cbn [friendly_reply fst snd reply_ok ob_call ob_reply]; unfold minus_one_or_zero;
    try (split_and!; try done; by auto); try (split_and!; (done || lia)).
  - split; [|done]. right. cbn. by destruct (events =? POLLIN).
  - len_pos. split_and!; (done || lia).
  - destruct (Z.ltb_spec size 0); [cbn; by auto|]. destruct w as [|d w].
    { cbn. split_and!; try done. right. split; [lia|by split; [|constructor]]. }
    apply Forall_cons in Hw as [Hd Hw].
    assert (Hr : 0 <= Z.min size (len d) <= size /\ len (ztake size d) = Z.min size (len d) /\ bytes_ok (ztake size d)).
    { pose proof (len_nonneg d). split; [lia|]. split; [|by apply Forall_take].
      rewrite <- ztake_min. apply len_ztake. lia. }
    destruct (flags =? MSG_PEEK); cbn [fst snd]; (split; [by right|split; [|done]]); [by constructor|done].
  - split; [|done]. cbn. split_and!; try done. repeat constructor; done.
  - split; [|done]. destruct ((0 <? size) && (size =? len content)) eqn:E; [|done]. cbn.
    apply andb_prop in E as [E1 E2]. split_and!; (done || lia).
Qed.


Lemma friendly_ok content X (e : sysE X) w s :
  bytes_ok content -> len content < 2 ^ 63 -> w.1 = s /\ Forall bytes_ok w.2 ->
  exists s', posix_if (size_is (len content)) X e s (fst (friendly content X e w)) s' /\
    (snd (friendly content X e w)).1 = s' /\ Forall bytes_ok (snd (friendly content X e w)).2.
Proof.
  intros Hc Hl [<- Hw]. destruct (is_conf e) eqn:E.
  - destruct e; try discriminate E; cbn [friendly fst snd]; eexists; (split; [|by split]);
      split; done.
  - destruct (friendly_reply_ok content X e w.2 Hc Hl Hw E) as (Hr & Hw' & Hs).
    destruct e; try discriminate E; (eexists; split; [split; [split; [exact Hr|reflexivity]|by intros _]|by split]).
Qed.

(** A program that returns against them, and what its postcondition then says. *)
Definition returned {A W} (r : option (outcome A * W)) : bool :=
  match r with Some (Val _, _) => true | _ => false end.

Lemma friendly_run {A} content (Q : outcome A -> pstate -> Prop) t s w n :
  bytes_ok content -> len content < 2 ^ 63 -> Forall bytes_ok w ->
  wp (posix_if (size_is (len content))) Q t s ->
  returned (run (friendly content) n t (s, w)) = true ->
  exists a s' w', run (friendly content) n t (s, w) = Some (Val a, (s', w')) /\ Q (Val a) s'.
Proof.
  intros Hc Hl Hw Hwp Hr. destruct (run (friendly content) n t (s, w)) as [[[a|?|?|] [s' w']]|] eqn:E; try done.
  destruct (run_wp_rel (posix_if (size_is (len content))) Q t s (friendly content) (fun w s => w.1 = s /\ Forall bytes_ok w.2) (s, w) n (Val a) (s', w'))
    as (s1 & [<- _] & HQ); [|done|done|done|by exists a, s', w'].
  intros X e w1 s1 Hrel. by apply friendly_ok.
Qed.

Lemma friendly_exec {A} content (t : M A) s w n r s' w' :
  bytes_ok content -> len content < 2 ^ 63 -> Forall bytes_ok w ->
  run (friendly content) n t (s, w) = Some (r, (s', w')) ->
  exec posix t s r s' /\ exists tr, p_trace s' = p_trace s ++ tr /\ Forall (size_is (len content)) tr.
Proof.
  intros Hc Hl Hw Hr. apply exec_if_inv.
  destruct (run_exec_rel (posix_if (size_is (len content))) t s (friendly content)
    (fun w s => w.1 = s /\ Forall bytes_ok w.2) (s, w) n r (s', w')) as (s1 & [<- _] & He); [|done|done|exact He].
  intros X e w1 s1 Hrel. by apply friendly_ok.
Qed.

Lemma friendly_outcome {A} content (Q : outcome A -> pstate -> Prop) t s w n o w' :
  wp posix Q t s ->
  bytes_ok content -> len content < 2 ^ 63 -> Forall bytes_ok w ->
  run (friendly content) n t (s, w) = Some (o, w') -> Q o w'.1.
Proof.
  intros Hwp Hc Hl Hw Hr.
  destruct (run_wp_rel posix Q t s (friendly content) (fun w s => w.1 = s /\ Forall bytes_ok w.2) (s, w) n o w')
    as (s1 & [<- _] & HQ); [|done|done|done|done].
  intros X e w1 s1 Hrel. destruct (friendly_ok content X e w1 s1 Hc Hl Hrel) as (s' & [Hp _] & Hq). by exists s'.
Qed.

Lemma friendly_run_posix {A} content (Q : outcome A -> pstate -> Prop) t s w n :
  wp posix Q t s ->
  bytes_ok content -> len content < 2 ^ 63 -> Forall bytes_ok w ->
  returned (run (friendly content) n t (s, w)) = true ->
  exists a s' w', run (friendly content) n t (s, w) = Some (Val a, (s', w')) /\ Q (Val a) s'.
Proof. intros Hwp Hc Hl Hw. apply friendly_run; [done..|]. by apply (wp_fewer _ _ _ _ _ (posix_if_posix _)). Qed.

(** The outcome of a program and the messages it exchanged. *)
Definition outcome_of {A} (r : option (outcome A * (pstate * list (list Z)))) : option (outcome A * list wev) :=
  (fun p => (p.1, wire (p_trace p.2.1))) <$> r.

(** ** Runs *)

#[export] Existing Instance sample_host.
#[export] Existing Instance sample_crc.

(** An ACK takes two answers: the peek at its type and the packet. *)
Definition ack_msg (ack seq : Z) : list Z := encode_RecvPacket sample_host ack 0 seq.

Definition fuel : nat := 2000.

(** A run of the sender of [sample_content] whose peer answers with [inbox]. *)
Definition sender_run (inbox : list (list Z)) : option (outcome unit * list wev) :=
  outcome_of (run (friendly sample_content) fuel
    (push_file (sample_path ++ [0]) no_addrs no_addrs) (initially (sample_conf 4), inbox)).

(** The answers of a receiver that gets everything: to the announcement, to the
    header and the data of each chunk, and to the checksum. *)
Definition all_acks : list (list Z) :=
  [ack_msg 1 0; ack_msg 1 1; ack_msg 1 1; ack_msg 1 2; ack_msg 1 2; ack_msg 1 3; ack_msg 1 3; ack_msg 1 4].
(** The same, but the second chunk's header is refused once and its data once. *)
Definition some_nacks : list (list Z) :=
  [ack_msg 1 0; ack_msg 1 1; ack_msg 1 1; ack_msg 0 2; ack_msg 1 2; ack_msg 0 2; ack_msg 1 2;
   ack_msg 1 3; ack_msg 1 3; ack_msg 1 4].

Definition ended {A} (o : outcome A) (r : option (outcome A * list wev)) : Prop :=
  exists w, r = Some (o, w).

Example sender_succeeds : ended (Val tt) (sender_run all_acks).
Proof. eexists. vm_compute. reflexivity. Qed.

Example sender_retries : ended (Val tt) (sender_run some_nacks).
Proof. eexists. vm_compute. reflexivity. Qed.

(** A peer that refuses the announcement ends the process. *)
Example sender_refused : ended (Exited EXIT_FAILURE) (sender_run [ack_msg 0 0]).
Proof. eexists. vm_compute. reflexivity. Qed.

(** What the sender put on the wire, as the receiver's reads find it: a SEND
    packet and its information string are read apart. *)
Definition sent (w : list wev) : list (list Z) :=
  concat ((fun e => match e with
    | Out _ d => if len d =? sizeof_SendPacket + INFOSTRSIZE
                 then [ztake sizeof_SendPacket d; zdrop sizeof_SendPacket d] else [d]
    | In _ _ => []
    end) <$> w).
Definition answered (w : list wev) : list (list Z) :=
  concat ((fun e => match e with Out _ d => [d] | In _ _ => [] end) <$> w).

Definition receiver_run (inbox : list (list Z)) :=
  run (friendly (zeros 10)) fuel (pull_file (zeros MAXNAMESIZE) {| send_packet := pack_RUFShare_SendPacket 0 0 0 0; send_info := no_addrs |}
    {| send_packet := pack_RUFShare_SendPacket 0 0 0 0; send_info := no_addrs |}) (initially (sample_conf 0), inbox).

(** The two programs together: the receiver, given what the sender sends,
    succeeds, gives the answers the sender was given, and has the sender's file. *)
Example session_agrees :
  match sender_run all_acks with
  | Some (Val _, w) =>
      match receiver_run (sent w) with
      | Some (Val _, (s, rest)) =>
          rest = [] /\ answered (wire (p_trace s)) = all_acks /\
          mf_bytes (conf_mfile (p_conf s)) = sample_content
      | _ => False
      end
  | _ => False
  end.
Proof. vm_compute. by split_and!. Qed.

(** ** A scan *)

(** The friendly system with a clock that advances by a second every [k] calls. *)
Definition clocked (k : Z) : handler (pstate * list (list Z)) :=
  fun X e =>
    match e in sysE X return pstate * list (list Z) -> X * (pstate * list (list Z)) with
    | Time => fun w => let t := Z.of_nat (length (p_trace w.1)) / k in (t, (logged Time t w.1, w.2))
    | e => friendly [] _ e
    end.

Definition blank_cast : CastArgs := {| cast_packet := pack_RUFShare_CastPacket 0; cast_info := no_addrs |}.
Definition blank_pair : PairInfo :=
  {| pi_name := zeros MAXNAMESIZE; pi_ip := zeros MAXIPV4SIZE; pi_port := 0 |}.
Definition beacon_of (info : string) : list Z := encode_CastPacket sample_host 0 ++ clit INFOSTRSIZE info.

(** Two beacons with a packet of another type between them. *)
Definition scan_inbox : list (list Z) :=
  [beacon_of "f:alice@10.0.0.1:5000"; FLOW :: tail (beacon_of "f:x@10.0.0.9:1"); beacon_of "f:bob@10.0.0.2:6000"].

Example scan_finds_both :
  match run (clocked 10) fuel (scanpair blank_pair blank_cast) (initially (sample_conf 0), scan_inbox) with
  | Some (Val info, _) =>
      (fun p => (cstr (pi_name p), cstr (pi_ip p), pi_port p)) <$> info
      = [(lit "alice", lit "10.0.0.1", 5000); (lit "bob", lit "10.0.0.2", 6000)]
  | _ => False
  end.
Proof. by vm_compute. Qed.

(** The friendly system takes every datagram of a broadcast. *)
Definition beacon_system : handler pstate :=
  fun X e s => let r := friendly [] X e (s, []) in (r.1, r.2.1).

Lemma beacon_system_ok : answers (posix_if all_sent) beacon_system.
Proof.
  intros X e s.
  destruct (friendly_ok [] X e (s, []) s) as (s' & [Hp _] & <- & _); [constructor|done|by split; [|constructor]|].
  split; [exact Hp|]. intros Hc. destruct e; try discriminate Hc; cbn; try done.
  - intros ->. done.
Qed.

(** ** Facts about the data *)

Lemma sample_addrs_wf : addrs_wf sample_addrs.
Proof. by constructor. Qed.
Lemma no_addrs_wf : addrs_wf no_addrs.
Proof. by constructor. Qed.

Lemma open_mfile_ok content : 0 < len content < 2 ^ 63 -> mfile_ok (open_mfile content).
Proof. intros Hl. constructor; cbn; [|done|lia|lia]. intros _. by eexists. Qed.

Lemma transfer_conf_ok : transfer_ok transfer_conf.
Proof. constructor; [by apply open_mfile_ok|done|done]. Qed.

Lemma transfer_conf_announced : announced transfer_conf.
Proof. constructor; [apply transfer_conf_ok|done..]. Qed.
