(* ===== verification/Witnesses.v ===== *)
(** * The theorems at concrete inputs

    For each theorem with hypotheses, an input at which they hold and what it then
    says.  Where it is about a program, the program is run against the friendly
    system of [Samples] and returns a value: the postconditions are reached on the
    successful path, not only on failures. *)
From stdpp Require Import relations gmap.
From S2P Require Import Prelude Protocol Types Sys Wire Utils Error Mfile Logd Lograce NetStream FileStream Cntl Data Pusher Puller Broadcast Scanpair Rufshare Session Delivery Hearing Answered Joint Threads Keeps Peeks Progress Typing Discovery Endpoints Samples.

(** Hypotheses that compute. *)
Ltac checked := first [done | by vm_compute | by (unfold in_width; lia) | by apply (bool_decide_unpack _)].

(** ** Pure functions *)

Lemma calc_roundtrip_iff_witness :
  exists cc ps, calc_chunk_count 10 4 = Some (cc, ps) /\ calc_file_size cc 4 ps = 10 /\ cc = 3.
Proof.
  destruct (calc_roundtrip_iff 10 4) as (cc & ps & Hc & Hiff & Hcc); [lia|lia|].
  exists cc, ps. split; [exact Hc|]. split; [by apply Hiff|]. by apply Hcc.
Defined.

Lemma extract_file_name_basename_witness :
  exists base, extract_file_name (sample_path ++ [0]) (len sample_path + 1) = Some (Some (base ++ [0])) /\
    basename sample_path base.
Proof. apply (extract_file_name_basename sample_path []). done. Defined.

Lemma pack_into_infostring_fits_witness :
  exists s, infostring sample_addrs = Some s /\ len s <= 309 /\ no_nul s /\
    pack_into_infostring (zeros INFOSTRSIZE) sample_addrs = Some (s ++ [0] ++ zdrop (len s + 1) (zeros INFOSTRSIZE)).
Proof. apply (pack_into_infostring_fits (zeros INFOSTRSIZE) sample_addrs); [apply sample_addrs_wf|done]. Defined.

Lemma unpack_memory_safe_witness :
  exists a', unpack_from_infostring (clit INFOSTRSIZE "x:y@z:1") no_addrs = Some a' /\ addrs_wf a' /\
    addrs_local_ip a' = addrs_local_ip no_addrs /\ addrs_local_port a' = addrs_local_port no_addrs.
Proof. apply (unpack_memory_safe (clit INFOSTRSIZE "x:y@z:1") no_addrs); [done|apply no_addrs_wf]. Defined.

(** A file named [a:b] arrives as [a]. *)
Definition colon_addrs : CntlAddrs := set_addrs_filename (clit MAXFILENAMESIZE "a:b") sample_addrs.

Lemma infostring_colon_truncates_witness :
  exists buf' a', pack_into_infostring (zeros INFOSTRSIZE) colon_addrs = Some buf' /\
    unpack_from_infostring buf' no_addrs = Some a' /\ cstr (addrs_filename a') = lit "a".
Proof.
  apply (infostring_colon_truncates (zeros INFOSTRSIZE) colon_addrs no_addrs (lit "a") (lit "b"));
    [by constructor|apply no_addrs_wf|checked..].
Defined.

Lemma send_header_exchange_witness :
  exists bytes args,
    with_info (encode_SendPacket le_host 4 3 2 0xABCD) sample_addrs = Some bytes /\
    decode_SEND (H := be_host) {| send_packet := pack_RUFShare_SendPacket 0 0 0 0; send_info := no_addrs |}
      [ztake sizeof_SendPacket bytes; zdrop sizeof_SendPacket bytes] = Some args /\
    send_chunk_count (send_packet args) = 3 /\ send_crc (send_packet args) = 0xABCD /\
    cstr (addrs_filename (send_info args)) = lit "a.bin".
Proof.
  destruct (send_header_exchange le_host be_host 4 3 2 0xABCD sample_addrs
    {| send_packet := pack_RUFShare_SendPacket 0 0 0 0; send_info := no_addrs |})
    as (bytes & args & Hb & _ & Hd & Hp & Hf & _);
    [checked..|apply sample_addrs_wf|apply no_addrs_wf|split_and!; checked|split_and!; checked|split_and!; checked|].
  exists bytes, args. rewrite Hp. by split_and!.
Defined.

(** ** The memory file and the log *)

Lemma mfread_spec_witness :
  exists ptr', mfread (zeros 4) 4 1 (open_mfile sample_content)
    = Some (ptr', 4, set_mf_pos 4 (open_mfile sample_content)) /\ ptr' = [10; 20; 30; 40].
Proof.
  destruct (mfread_spec (zeros 4) 4 1 (open_mfile sample_content)) as (ptr' & Hr & -> & _);
    [by apply open_mfile_ok|checked..|]. eexists. split; [exact Hr|done].
Defined.

Lemma mfwrite_spec_witness :
  exists m', mfwrite [1; 2; 3] 3 1 (open_mfile sample_content) = Some (3, m') /\ mf_pos m' = 3 /\
    mf_bytes m' = [1; 2; 3; 40; 50; 60; 70; 80; 90; 100] /\ mfile_ok m'.
Proof.
  destruct (mfwrite_spec [1; 2; 3] 3 1 (open_mfile sample_content)) as (m' & Hw & Hp & _ & _ & Hb & Hok);
    [by apply open_mfile_ok|checked..|]. exists m'. split_and!; [exact Hw|exact Hp|exact Hb|exact Hok].
Defined.

Lemma mfwrite_mfread_witness :
  exists m1 m2, mfwrite [1; 2; 3] 3 1 (snd (mfseek (open_mfile sample_content) 4)) = Some (3, m1) /\
    mfread (zeros 5) 3 1 (snd (mfseek m1 4)) = Some ([1; 2; 3; 0; 0], 3, m2).
Proof. apply (mfwrite_mfread [1; 2; 3] (zeros 5) 4 (open_mfile sample_content)); [by apply open_mfile_ok|checked..]. Defined.

(** Three records in a log of two: the third is in the place of the first. *)
Definition sample_log : LogContext :=
  {| lc_logfile := Some 3; lc_buffer := Some {| map_addr := 4096; map_bytes := zeros (2 * sizeof_LogMsg) |};
     lc_pos := 0; lc_size := 2 * sizeof_LogMsg; lc_logcount := 2 |}.
Definition sample_logs : list (list Z) := [zeros sizeof_LogMsg; zeros sizeof_LogMsg; zeros sizeof_LogMsg].

(** A call that is logged in the morning of 2 January 2026, and one without a time. *)
Definition sample_call (level text : string) (time : option tm) : log_call :=
  {| lg_level := lit level ++ [0]; lg_mod := lit "source/pusher.c" ++ [0]; lg_pos := lit "start_pusher" ++ [0];
     lg_text := lit text; lg_time := time;
     lg_stack := {| lm_level := zeros LEVELSIZE; lm_date := zeros DATESIZE; lm_clock := zeros CLOCKSIZE;
                    lm_mod := zeros MODSIZE; lm_pos := zeros POSSIZE; lm_msg := zeros MSGSIZE |} |}.
Definition sample_time : tm :=
  {| tm_sec := 5; tm_min := 4; tm_hour := 3; tm_mday := 2; tm_mon := 0; tm_year := 126 |}.
Definition sample_calls : list log_call :=
  [sample_call "TRACE" "one" (Some sample_time); sample_call "ERROR" "two" None;
   sample_call "DEBUG" "three" (Some sample_time); sample_call "TRACE" "four" (Some sample_time)].

Example sample_date : log_date sample_time = lit "2026-01-02" /\ log_clock sample_time = lit "03:04:05".
Proof. done. Qed.

Lemma logging_ring_witness :
  wp posix (fun o s' => forall logc', o = Val (0, logc') -> exists c' logs,
      log_all sample_calls logc' = Some c' /\ length logs = 3%nat /\ ring_inv 2 logs c')
    (init_logd (lit "/tmp/" ++ [0]) 2 sample_log) (initially (sample_conf 0)).
Proof.
  eapply wp_mono; [apply (logging_ring (lit "/tmp/" ++ [0]) 2 sample_calls sample_log); [done..|]|].
  - assert (Htm : tm_ok sample_time) by (constructor; cbn; lia).
    assert (Hok : forall level text time, strlen (lit level ++ [0]) <> None -> no_nul (lit text) -> time = None \/ time = Some sample_time ->
      log_call_ok (sample_call level text time)).
    { intros level text time Hl Ht Hm. constructor; [done|done|done|done| |done].
      cbn. intros t ->. destruct Hm as [?|[= ->]]; done. }
    repeat (apply Forall_cons; split; [apply Hok; [done|by cbn; repeat constructor|auto]|]). by apply Forall_nil.
  - intros o s' (tr & _ & _ & r & logc' & -> & Ho) logc [= -> ->].
    destruct Ho as [[[=] _]|(_ & _ & _ & c' & logs & Hc & Hi & Hf)]. exists c', logs. split; [exact Hc|].
    split; [|exact Hi]. by rewrite <- (Forall2_length _ _ _ Hf).
Defined.

(** Three threads about to log in a log of two records: some interleaving overruns. *)
Lemma interleavings_in_bounds_witness :
  ~ (forall schedule, run_schedule schedule (about_to_log sample_logs) sample_log <> None).
Proof.
  intros Hall. apply (interleavings_in_bounds sample_logs sample_log) in Hall; [by vm_compute in Hall| |by repeat constructor].
  constructor; [eexists; split; [done|by vm_compute]|done|by vm_compute|by vm_compute].
Defined.

(** ** The transfer *)

Lemma chunks_cover_file_witness :
  concat (data_at transfer_conf <$> seqZ 1 3) = sample_content.
Proof. exact (chunks_cover_file transfer_conf transfer_conf_announced). Defined.

(** The run of a program on a configuration. *)
Abbreviation transfer_run m c inbox := (run (friendly sample_content) fuel m (initially c, inbox)).

Ltac bytes_checked := apply (bool_decide_unpack _); by vm_compute.

Lemma push_transfer_spec_witness :
  exists a s' w', transfer_run push_transfer transfer_conf (tail some_nacks) = Some (Val a, (s', w')) /\
    sends_from sample_host transfer_conf 1 (wire (p_trace s')).
Proof.
  destruct (friendly_run_posix sample_content _ _ _ (tail some_nacks) fuel
    (push_transfer_spec transfer_conf (initially transfer_conf) transfer_conf_announced
       ltac:(done) eq_refl eq_refl)) as (a & s' & w' & Hr & tr & Ht & (seq & pos & _ & _ & _ & Hs) & _);
    [bytes_checked|done|bytes_checked|by vm_compute|].
  exists a, s', w'. split; [exact Hr|]. by rewrite Ht.
Defined.

(** The chunks of the file as they come in, each after its FLOW header. *)
Definition chunk_inbox : list (list Z) :=
  concat ((fun seq => flow_bytes sample_host transfer_conf seq :: segments 3 (data_at transfer_conf seq)) <$> [1; 2; 3]).

Lemma pull_transfer_spec_witness :
  exists a s' w', transfer_run pull_transfer transfer_conf chunk_inbox = Some (Val a, (s', w')) /\
    exists content, len content = 10 /\
      receives_from sample_host transfer_conf 1 sample_content (wire (p_trace s')) content.
Proof.
  destruct (friendly_run_posix sample_content _ _ _ chunk_inbox fuel
    (pull_transfer_spec transfer_conf (initially transfer_conf) transfer_conf_announced
       ltac:(done) eq_refl eq_refl)) as (a & s' & w' & Hr & tr & Ht & content & pos & _ & _ & Hl & Hrec & _);
    [bytes_checked|done|bytes_checked|by vm_compute|].
  exists a, s', w'. split; [exact Hr|]. exists content. split; [exact Hl|]. rewrite Ht. exact Hrec.
Defined.

Lemma pull_transfer_integrity_witness :
  exists a s' w', transfer_run pull_transfer transfer_conf chunk_inbox = Some (Val a, (s', w')) /\
    exists m p, In (conf_conn_sock transfer_conf) m ∈ wire (p_trace s') /\ decode_FlowPacket sample_host m = Some p /\ flow_sequence p = 2 /\
      flow_chunk_size p = len (chunk_bytes (conf_mfile (p_conf s')) (chunk_at transfer_conf 2)) /\
      u32 (crc_32 (chunk_bytes (conf_mfile (p_conf s')) (chunk_at transfer_conf 2))) = flow_crc p.
Proof.
  destruct (friendly_run_posix sample_content _ _ _ chunk_inbox fuel
    (pull_transfer_integrity transfer_conf (initially transfer_conf) transfer_conf_announced
       ltac:(done) eq_refl eq_refl)) as ([] & s' & w' & Hr & tr & Ht & Hall);
    [bytes_checked|done|bytes_checked|by vm_compute|].
  exists tt, s', w'. split; [exact Hr|]. rewrite Ht.
  exact (Hall eq_refl 2 (conj (ltac:(done) : 1 <= 2) (ltac:(done) : 2 <= conf_chcount transfer_conf))).
Defined.

(** The first chunk of four bytes of which only three come in. *)
Definition short_inbox : list (list Z) := [flow_bytes sample_host transfer_conf 1; [10; 20; 30]].

Lemma lost_segment_ends_transfer_witness :
  exists (o : outcome (Z + unit)) s' w', transfer_run (pull_one_chunk 3) transfer_conf short_inbox = Some (o, (s', w')) /\
    exists head body, wire (p_trace s') = head ++ body /\ (length head <= 2)%nat /\
      (4 <= len (in_bytes (conf_data_sock transfer_conf) body) \/
       (exists st, o = Fail st) /\ exists ds, body = In (conf_data_sock transfer_conf) <$> ds).
Proof.
  assert (Hs : sendable transfer_conf (conf_seq transfer_conf)) by by (split; [|left]).
  pose proof (fun o w' => friendly_outcome sample_content _ _ _ short_inbox fuel o w'
    (lost_segment_ends_transfer transfer_conf (initially transfer_conf) transfer_conf_announced Hs eq_refl)
    ltac:(bytes_checked) ltac:(done) ltac:(bytes_checked)) as Hall.
  destruct (transfer_run (pull_one_chunk 3) transfer_conf short_inbox) as [[o [s' w']]|] eqn:E;
    [|vm_compute in E; discriminate E].
  destruct (Hall o (s', w') E) as (tr & Ht & Hb).
  exists o, s', w'. split; [reflexivity|]. cbn [fst] in Ht. rewrite Ht. exact Hb.
Defined.

Definition second_chunk : ChunkContext := {| cc_start_pos := 4; cc_chunk_size := 4 |}.

Lemma push_chunk_data_spec_witness :
  exists a s' w', transfer_run (push_chunk_data 7 second_chunk 100) transfer_conf [] = Some (Val a, (s', w')) /\
    wire (p_trace s') = [Out 7 [50; 60; 70]; Out 7 [80]].
Proof.
  destruct (friendly_run_posix sample_content _ _ _ [] fuel
    (push_chunk_data_spec transfer_conf 7 100 second_chunk (initially transfer_conf) transfer_conf_ok
       ltac:(done) eq_refl)) as (a & s' & w' & Hr & tr & Ht & _ & _ & Hw);
    [bytes_checked|done|bytes_checked|by vm_compute|].
  exists a, s', w'. split; [exact Hr|]. rewrite Ht. exact Hw.
Defined.

Lemma pull_chunk_data_spec_witness :
  exists a s' w', transfer_run (pull_chunk_data 7 second_chunk 100) transfer_conf [[1; 2; 3]; [4]]
      = Some (Val a, (s', w')) /\
    exists got, len got = 4 /\ wire (p_trace s') = In 7 <$> segments 3 got.
Proof.
  destruct (friendly_run_posix sample_content _ _ _ [[1; 2; 3]; [4]] fuel
    (pull_chunk_data_spec transfer_conf 7 100 second_chunk (initially transfer_conf) transfer_conf_ok
       ltac:(done) eq_refl)) as (a & s' & w' & Hr & tr & Ht & got & pos & _ & _ & Hl & Hw & _);
    [bytes_checked|done|bytes_checked|by vm_compute|].
  exists a, s', w'. split; [exact Hr|]. exists got. split; [exact Hl|]. rewrite Ht. exact Hw.
Defined.

(** A chunk that begins at the tenth byte of ten. *)
(** Ten bytes in chunks of five. *)
Definition multiple_conf : InitConfig := set_conf_chsize 5 (set_conf_pchsize 0 transfer_conf).

Lemma push_transfer_exact_multiple_witness :
  wp posix (fun o s' => exists st, o = Fail st /\ st ∈ EMFSEEK :: transfer_errors)
    push_transfer (initially multiple_conf).
Proof.
  apply (push_transfer_exact_multiple multiple_conf); [|done..].
  constructor; [constructor; [by apply open_mfile_ok|done|done]|done..].
Defined.

(** ** The handshake and the verification *)

Definition blank_send : SendArgs :=
  {| send_packet := pack_RUFShare_SendPacket 0 0 0 0; send_info := no_addrs |}.

(** The announcement of [sample_content], with the checksum [crc]. *)
Definition announcement (crc : Z) : list (list Z) :=
  [encode_SendPacket sample_host 4 3 2 crc; clit INFOSTRSIZE "a.bin:alice@10.0.0.1:5000"].

Lemma pull_handshake_spec_witness :
  exists name s' w', run (friendly sample_content) fuel (pull_handshake (zeros MAXNAMESIZE) blank_send)
      (initially (sample_conf 0), announcement 0) = Some (Val name, (s', w')) /\
    handshaken blank_send (sample_conf 0) (Val name) (p_trace s') (p_conf s').
Proof.
  destruct (friendly_run_posix sample_content _ _ _ (announcement 0) fuel
    (pull_handshake_spec (zeros MAXNAMESIZE) blank_send (sample_conf 0) (initially (sample_conf 0))
       eq_refl no_addrs_wf sample_addrs_wf ltac:(done) ltac:(done)))
    as (name & s' & w' & Hr & tr & Ht & Hh & _); [bytes_checked|done|bytes_checked|by vm_compute|].
  exists name, s', w'. split; [exact Hr|]. rewrite Ht. exact Hh.
Defined.

(** A checksum that is not the file's is refused and the call succeeds all the
    same. *)
Lemma pull_verification_spec_witness :
  exists a s' w', transfer_run (pull_verification blank_send) transfer_conf (announcement 0xDEAD)
      = Some (Val a, (s', w')) /\ sent (wire (p_trace s')) = [ack_bytes sample_host 0 1] /\
    exists m infostr header, len infostr = INFOSTRSIZE /\ decode_SEND blank_send [m; infostr] = Some header /\
      wire (p_trace s') = [In 0 m; In 0 infostr;
        Out 0 (ack_bytes sample_host
          (if send_crc (send_packet header) =? u16 (crc_16 sample_content) then 1 else 0) 1)].
Proof.
  destruct (friendly_run_posix sample_content _ _ _ (announcement 0xDEAD) fuel
    (pull_verification_spec blank_send transfer_conf (initially transfer_conf) eq_refl no_addrs_wf
       transfer_conf_ok eq_refl)) as ([] & s' & w' & Hr & tr & _ & Ht & _ & _ & Hv);
    [bytes_checked|done|bytes_checked|by vm_compute|].
  exists tt, s', w'. split; [exact Hr|]. split.
  - assert (Hsent := f_equal (fun r => if r is Some (_, (s, _)) then sent (wire (p_trace s)) else []) Hr).
    cbn beta iota in Hsent. rewrite <- Hsent. by vm_compute.
  - rewrite Ht. exact Hv.
Defined.

Lemma push_headers_spec_witness :
  exists cbytes sbytes,
    with_info (CastPacket_mem (pack_RUFShare_CastPacket 0)) sample_addrs = Some cbytes /\
    with_info (SendPacket_mem (pack_RUFShare_SendPacket 4 3 2 0)) sample_addrs = Some sbytes /\
    wp posix (calls (fun o tr => pushes 7 sbytes MSG_NOSIGNAL 100 o tr /\ tally heap_delta tr = 0)
        (initially transfer_conf))
      (push_SEND_header 7 {| send_packet := pack_RUFShare_SendPacket 4 3 2 0; send_info := sample_addrs |} 100)
      (initially transfer_conf).
Proof.
  pose proof (with_info_ok (CastPacket_mem (pack_RUFShare_CastPacket 0)) sample_addrs sample_addrs sample_addrs_wf eq_refl) as Hc.
  pose proof (with_info_ok (SendPacket_mem (pack_RUFShare_SendPacket 4 3 2 0)) sample_addrs sample_addrs sample_addrs_wf eq_refl) as Hs.
  eexists _, _. split; [exact Hc|]. split; [exact Hs|].
  apply (push_headers_spec 7 100 {| cast_packet := pack_RUFShare_CastPacket 0; cast_info := sample_addrs |}
    {| send_packet := pack_RUFShare_SendPacket 4 3 2 0; send_info := sample_addrs |}
    {| flow_packet := pack_RUFShare_FlowPacket 4 1 0 |} {| recv_packet := pack_RUFShare_RecvPacket 1 0 1 |}
    _ _ (initially transfer_conf) Hc Hs).
Defined.

(** ** Files and connections *)

Lemma start_file_stream_spec_witness :
  exists a s' w', transfer_run (start_file_stream (sample_path ++ [0]) MRD) (sample_conf 4) [] = Some (Val a, (s', w')) /\
    started sample_path MRD (sample_conf 4) (Val a) (p_trace s') (p_conf s').
Proof.
  destruct (friendly_run_posix sample_content _ _ _ [] fuel
    (start_file_stream_spec sample_path [] MRD (sample_conf 4) (initially (sample_conf 4))
       ltac:(by repeat constructor) ltac:(done) ltac:(done) eq_refl))
    as (a & s' & w' & Hr & tr & Ht & Hs); [bytes_checked|done|bytes_checked|by vm_compute|].
  exists a, s', w'. split; [exact Hr|]. rewrite Ht. exact Hs.
Defined.

Lemma accept_new_connection_spec_witness :
  exists a s' w', transfer_run (accept_new_connection conn_sock 7 100) (sample_conf 0) [] = Some (Val a, (s', w')) /\
    accepted conn_sock (sample_conf 0) (Val a) (p_trace s') (p_conf s').
Proof.
  destruct (friendly_run_posix sample_content _ _ _ [] fuel
    (accept_new_connection_spec conn_sock 7 100 (initially (sample_conf 0)) ltac:(done)))
    as (a & s' & w' & Hr & tr & Ht & Hs); [bytes_checked|done|bytes_checked|by vm_compute|].
  exists a, s', w'. split; [exact Hr|]. rewrite Ht. exact Hs.
Defined.

(** ** The public functions *)

(** The sender of [sample_content], to the end, with a refused header and refused
    data on the way. *)
Lemma push_file_spec_witness :
  exists a s' w', run (friendly sample_content) fuel (push_file (sample_path ++ [0]) no_addrs no_addrs)
      (initially (sample_conf 4), some_nacks) = Some (Val a, (s', w')) /\
    sent_file sample_host 10 (sample_conf 4) (initially (sample_conf 4)) s'.
Proof.
  destruct (friendly_run sample_content _ _ _ some_nacks fuel ltac:(bytes_checked) ltac:(done) ltac:(bytes_checked)
    (push_file_spec 10 (sample_conf 4) sample_path [] no_addrs no_addrs (initially (sample_conf 4))
       ltac:(by repeat constructor) ltac:(done) ltac:(done) sample_addrs_wf no_addrs_wf no_addrs_wf
       ltac:(done) ltac:(by vm_compute) ltac:(done) ltac:(done) eq_refl))
    as (a & s' & w' & Hr & Hs); [by vm_compute|].
  exists a, s', w'. split; [exact Hr|exact Hs].
Defined.

Lemma pull_file_spec_witness :
  wp (posix_while (sender_says sample_host 10 []))
    (fun o s' => forall a, o = Val a -> exists r tr,
       p_trace s' = [Obs (PthreadCreate thread_broadcast) r] ++ tr /\
       received_file sample_host blank_send blank_send 10 tr (p_conf s'))
    (pull_file (zeros MAXNAMESIZE) blank_send blank_send) (initially (sample_conf 0)).
Proof.
  eapply wp_mono; [apply (pull_file_spec 10 (sample_conf 0) (zeros MAXNAMESIZE) blank_send blank_send
    (initially (sample_conf 0)) eq_refl no_addrs_wf no_addrs_wf sample_addrs_wf); done|].
  intros o s' (r & tr & Ht & Ho) a ->. destruct Ho as (_ & Hs).
  by exists r, tr.
Defined.

Lemma entry_points_refuse_witness :
  wp posix (calls (fun (o : outcome unit) tr => o = Fail BADCONF /\ tr = []) (initially (sample_conf 0)))
    (push_file (sample_path ++ [0]) no_addrs no_addrs) (initially (sample_conf 0)).
Proof.
  refine (proj1 (entry_points_refuse (sample_path ++ [0]) blank_pair no_addrs no_addrs blank_send blank_send blank_cast
    BADCONF (initially (sample_conf 0))) _). by vm_compute.
Defined.

Definition sample_beacon : CastArgs := {| cast_packet := pack_RUFShare_CastPacket 0; cast_info := sample_addrs |}.
Lemma sample_beacon_bytes : exists bytes, cast_bytes sample_beacon = Some bytes.
Proof. eexists. exact (with_info_ok _ sample_addrs sample_addrs sample_addrs_wf eq_refl). Defined.

Lemma broadcast_never_ends_witness :
  forallb (fun n => if run beacon_system n (broadcast_loop sample_beacon 3) (initially (sample_conf 0)) is Some _
                    then false else true) (seq 0 100) = true.
Proof.
  destruct sample_beacon_bytes as [bytes Hb]. apply forallb_forall. intros n _.
  by rewrite (broadcast_never_ends beacon_system sample_beacon bytes 3 (initially (sample_conf 0)) n
    beacon_system_ok Hb ltac:(done) ltac:(done)).
Defined.

Lemma start_scanpair_spec_witness :
  wp (ticking 5) (fun o s' => forall info, o = Val info -> exists fd header ds,
      wire (p_trace s') = In fd <$> ds /\ collect blank_pair blank_cast [] ds = Some (header, info))
    (start_scanpair blank_pair blank_cast) (initially (sample_conf 0)).
Proof.
  eapply wp_mono; [apply (start_scanpair_spec 5 blank_pair blank_cast (initially (sample_conf 0)));
    [done|apply no_addrs_wf|done]|].
  intros o s' (tr & Ht & Ho) info ->. destruct Ho as (fd & header & ds & _ & Hw & Hc).
  exists fd, header, ds. rewrite Ht. by split.
Defined.

(** ** The two programs together *)

Local Notation sender_end := (run (friendly sample_content) fuel
  (push_file (sample_path ++ [0]) no_addrs no_addrs) (initially (sample_conf 4), all_acks)).
Definition inbox_of (r : option (outcome unit * (pstate * list (list Z)))) : list (list Z) :=
  match r with Some (_, (s, _)) => sent (wire (p_trace s)) | None => [] end.
Local Notation receiver_end inbox := (run (friendly (zeros 10)) fuel
  (pull_file (zeros MAXNAMESIZE) blank_send blank_send) (initially (sample_conf 0), inbox)).

(** Two results that are successes, over connections that are reliable. *)
Definition ends_well (r1 r2 : option (outcome unit * (pstate * list (list Z)))) : bool :=
  match r1, r2 with
  | Some (Val _, (s1, _)), Some (Val _, (s2, _)) =>
      bool_decide (NoDup (sockets (p_trace s1))) && bool_decide (NoDup (sockets (p_trace s2))) &&
      bool_decide (gather truncated_event (p_trace s2) = [10]) &&
      bool_decide (gather fstat_event (p_trace s2) = [10]) &&
      reliableb (wire (p_trace s1)) (wire (p_trace s2)) &&
      bool_decide (Forall bytes_ok (sent (wire (p_trace s1))))
  | _, _ => false
  end.

Lemma ends_well_inv r1 r2 :
  ends_well r1 r2 = true -> exists s1 w1 s2 w2, r1 = Some (Val tt, (s1, w1)) /\ r2 = Some (Val tt, (s2, w2)) /\
    NoDup (sockets (p_trace s1)) /\ NoDup (sockets (p_trace s2)) /\ keeps_size (p_trace s2) /\
    reliable (wire (p_trace s1)) (wire (p_trace s2)) /\ Forall bytes_ok (sent (wire (p_trace s1))).
Proof.
  destruct r1 as [[[[]|?|?|] [s1 w1]]|]; try discriminate. destruct r2 as [[[[]|?|?|] [s2 w2]]|]; try discriminate.
  cbn [ends_well]. rewrite !andb_true_iff, !bool_decide_eq_true. intros (((((H1 & H2) & H3) & H4) & H5) & H6).
  exists s1, w1, s2, w2. split_and!; try done; [|by apply reliableb_ok].
  intros n z Hn Hz. rewrite H3 in Hn. rewrite H4 in Hz. apply list_elem_of_singleton in Hn, Hz. congruence.
Qed.

Lemma they_end_well : ends_well sender_end (receiver_end (inbox_of sender_end)) = true.
Proof. by vm_compute. Qed.

Lemma closed_broadcast_ends_witness :
  (exists rname s', exec posix (start_puller (zeros MAXNAMESIZE) blank_send blank_send) (initially (sample_conf 0)) (Val rname) s' /\
     Obs (Close 9) 0 ∈ p_trace s') /\
  wp (posix_if (sends_nothing 9)) (fun o s' => o = Val tt \/ o = Exited EXIT_FAILURE)
    (tryexec_call (broadcast_loop sample_beacon 3)) (initially (sample_conf 0)).
Proof.
  destruct sample_beacon_bytes as [bytes Hb].
  destruct (closed_broadcast_ends sample_beacon bytes 3 (initially (sample_conf 0))) as [Hclose Hend]. split.
  - destruct (run (friendly (zeros 10)) fuel (start_puller (zeros MAXNAMESIZE) blank_send blank_send)
      (initially (sample_conf 0), inbox_of sender_end)) as [[[rname|?|?|] [s' w']]|] eqn:E;
      assert (Hr := f_equal returned E); [|by vm_compute in Hr..].
    apply friendly_exec in E as [He _]; [|bytes_checked|done|bytes_checked]. exists rname, s'. split; [exact He|].
    destruct (Hclose _ _ _ _ _ eq_refl He) as (tr & -> & Hin). exact Hin.
  - eapply wp_mono; [exact (Hend Hb ltac:(done))|]. intros o s' (tr & _ & _ & turns & _ & _ & Ho).
    destruct o as [[]|?|?|]; [by left|done| |done]. right. by destruct Ho as [-> _].
Defined.

Lemma sample_sender_ready : sender_ready 10 sample_path no_addrs no_addrs (sample_conf 4).
Proof.
  constructor; [by repeat constructor|done|done|apply sample_addrs_wf|apply no_addrs_wf|apply no_addrs_wf|done
               |by vm_compute|done|done].
Defined.
Lemma sample_receiver_ready : receiver_ready (zeros MAXNAMESIZE) blank_send blank_send (sample_conf 0).
Proof.
  constructor; [apply no_addrs_wf|apply no_addrs_wf|apply sample_addrs_wf|done|done|done|done|by vm_compute].
Defined.

Lemma transfer_end_to_end_witness :
  exists s1 w1 s2 w2, sender_end = Some (Val tt, (s1, w1)) /\
    receiver_end (sent (wire (p_trace s1))) = Some (Val tt, (s2, w2)) /\
    forall i, 0 <= i ->
      u32 (crc_32 (chunk_of 4 (mf_bytes (conf_mfile (p_conf s2))) i))
      = u32 (crc_32 (chunk_of 4 (mf_bytes (conf_mfile (p_conf s1))) i)).
Proof.
  destruct (ends_well_inv _ _ they_end_well) as (s1 & w1 & s2 & w2 & E1 & E2 & Hn1 & Hn2 & Hk & Hrel & Hb).
  rewrite E1 in E2. cbn [inbox_of] in E2. exists s1, w1, s2, w2. split; [exact E1|]. split; [exact E2|].
  destruct (friendly_exec sample_content _ _ all_acks _ _ _ _ ltac:(bytes_checked) ltac:(done) ltac:(bytes_checked) E1) as (He1 & tr1 & Ht1 & Hs1).
  destruct (friendly_exec (zeros 10) _ _ (sent (wire (p_trace s1))) _ _ _ _ ltac:(bytes_checked) ltac:(done) Hb E2) as (He2 & tr2 & Ht2 & _).
  cbn [initially p_trace app] in Ht1, Ht2. rewrite Ht1 in Hn1, Hrel. rewrite Ht2 in Hn2, Hk, Hrel.
  refine (proj2 (proj2 (proj2 (transfer_end_to_end sample_host sample_host 10 (sample_conf 4) sample_path [] no_addrs no_addrs
    (initially (sample_conf 4)) s1 tr1 (zeros MAXNAMESIZE) blank_send blank_send (initially (sample_conf 0)) s2 tr2
    sample_sender_ready eq_refl He1 Ht1 Hs1 Hn1 sample_receiver_ready He2 Ht2 Hk Hn2 Hrel)))).
Defined.

(** The same with a byte of the second chunk spoiled when it is sent for the first
    time, which the receiver refuses, so that the sender repeats it; and the calls
    of two runs interleaved. *)
Definition one_refusal : list (list Z) :=
  [ack_msg 1 0; ack_msg 1 1; ack_msg 1 1; ack_msg 1 2; ack_msg 0 2; ack_msg 1 2; ack_msg 1 3; ack_msg 1 3; ack_msg 1 4].
Local Notation refused_end := (run (friendly sample_content) fuel
  (push_file (sample_path ++ [0]) no_addrs no_addrs) (initially (sample_conf 4), one_refusal)).
Definition spoiled (inbox : list (list Z)) : list (list Z) := alter (fun d => <[1%nat := 99]> d) 5%nat inbox.
Definition sample_errors : gmap nat Z := {[5%nat := 99]}.
Definition sample_faults (q : Z) : list (list Z) := if q =? 2 then [[50; 99; 70; 80]] else [].

Definition sample_channels : channels := {| ch_cntl := 7; ch_send := 8; ch_conn := 10; ch_recv := 8 |}.
Definition sample_joint (errors : gmap nat Z) (l r : list obs) : joint :=
  interleave (schedule fuel sample_channels errors [] l r) l r.
Definition smooth_together (errors : gmap nat Z) (l r : list obs) : bool :=
  smoothb sample_channels sample_content l r && deliversb sample_channels errors [] (sample_joint errors l r).

Lemma sample_joint_ok errors l r :
  smooth_together errors l r = true ->
  exists J, l = ours J /\ r = theirs J /\ smooth sample_channels sample_content J /\ delivers sample_channels errors J.
Proof.
  unfold smooth_together, sample_joint. generalize (schedule fuel sample_channels errors [] l r) as choices.
  intros choices [Hs Hd]%andb_prop. exists (interleave choices l r).
  rewrite interleave_ours, interleave_theirs. split_and!; [done|done| |].
  - apply smoothb_ok. by rewrite interleave_ours, interleave_theirs.
  - apply (deliversb_ok sample_channels errors []); [constructor|exact Hd].
Qed.

(** Both have returned [SUCCESS] over a network that spoiled that byte. *)
Definition ends_well_too (r1 r2 : option (outcome unit * (pstate * list (list Z)))) : bool :=
  match r1, r2 with
  | Some (Val _, (s1, _)), Some (Val _, (s2, _)) =>
      smooth_together sample_errors (p_trace s1) (p_trace s2) &&
      bool_decide (Forall bytes_ok (spoiled (sent (wire (p_trace s1)))))
  | _, _ => false
  end.

Lemma ends_well_too_inv r1 r2 :
  ends_well_too r1 r2 = true -> exists s1 w1 s2 w2 J, r1 = Some (Val tt, (s1, w1)) /\ r2 = Some (Val tt, (s2, w2)) /\
    p_trace s1 = ours J /\ p_trace s2 = theirs J /\
    smooth sample_channels sample_content J /\ delivers sample_channels sample_errors J /\
    Forall bytes_ok (spoiled (sent (wire (p_trace s1)))).
Proof.
  destruct r1 as [[[[]|?|?|] [s1 w1]]|]; try discriminate. destruct r2 as [[[[]|?|?|] [s2 w2]]|]; try discriminate.
  cbn [ends_well_too]. intros [(J & HJ1 & HJ2 & Hsm & Hdl)%sample_joint_ok Hb%bool_decide_eq_true]%andb_prop.
  by exists s1, w1, s2, w2, J.
Qed.

Lemma they_end_well_too : ends_well_too refused_end (receiver_end (spoiled (inbox_of refused_end))) = true.
Proof. by vm_compute. Qed.

Lemma sample_recoverable :
  recoverable (chunks 4 sample_content) (len sample_content / 4 + 1)
    (Z.min (conf_tf_trycount (sample_conf 4)) (conf_tf_trycount (sample_conf 0))) sample_errors.
Proof.
  exists sample_faults. split; [|by vm_compute]. constructor; unfold sample_faults; intros q; [intros d|]; intros Hq;
    (destruct (Z.eqb_spec q 2) as [->|]; [|done || by intros ?%elem_of_nil]); [|done].
  intros ->%list_elem_of_singleton. split_and!; [done|by apply (bool_decide_unpack _); vm_compute|by vm_compute].
Qed.

Lemma sample_clean :
  recoverable (chunks 4 sample_content) (len sample_content / 4 + 1)
    (Z.min (conf_tf_trycount (sample_conf 4)) (conf_tf_trycount (sample_conf 0))) ∅.
Proof. by apply recoverable_clean. Qed.

Lemma sample_carried : carried sample_addrs.
Proof.
  constructor; split_and!; first [apply (bool_decide_unpack (bytes_ok _)); by vm_compute
    |apply (bool_decide_unpack (_ ∉ _)); by vm_compute|by vm_compute].
Qed.

Lemma sample_channels_ok : channels_ok sample_channels.
Proof. by constructor. Qed.
Lemma sample_bytes : bytes_ok sample_content.
Proof. apply (bool_decide_unpack _). by vm_compute. Qed.
Lemma sample_partial : 10 mod conf_chsize (sample_conf 4) <> 0.
Proof. done. Qed.
Lemma sample_dialable : dialable (conf_addrs (sample_conf 0)).
Proof. split; [reflexivity|split; [reflexivity|split; discriminate]]. Qed.

Lemma transfer_succeeds_witness :
  exists s1 w1 s2 w2, refused_end = Some (Val tt, (s1, w1)) /\
    receiver_end (spoiled (sent (wire (p_trace s1)))) = Some (Val tt, (s2, w2)) /\
    mf_bytes (conf_mfile (p_conf s2)) = sample_content.
Proof.
  destruct (ends_well_too_inv _ _ they_end_well_too) as (s1 & w1 & s2 & w2 & J & E1 & E2 & HJ1 & HJ2 & Hsm & Hdl & Hb).
  rewrite E1 in E2. cbn [inbox_of] in E2. exists s1, w1, s2, w2. split; [exact E1|]. split; [exact E2|].
  destruct (friendly_exec sample_content _ _ one_refusal _ _ _ _ ltac:(bytes_checked) ltac:(done) ltac:(bytes_checked) E1) as (He1 & _).
  destruct (friendly_exec (zeros 10) _ _ _ _ _ _ _ ltac:(bytes_checked) ltac:(done) Hb E2) as (He2 & _).
  refine (proj2 (proj2 (proj2 (transfer_succeeds sample_host sample_host sample_channels sample_content sample_errors J
    (sample_conf 4) sample_path [] no_addrs no_addrs
    (initially (sample_conf 4)) (Val tt) s1 (zeros MAXNAMESIZE) blank_send blank_send (initially (sample_conf 0))
    (Val tt) s2 sample_channels_ok sample_bytes sample_sender_ready sample_partial sample_carried eq_refl He1 HJ1
    sample_receiver_ready sample_dialable He2 HJ2 sample_recoverable Hsm Hdl)))).
Defined.

Lemma transfer_inevitable_witness :
  inevitable (world_step sample_channels sample_errors sample_content) (transferred sample_content)
    {| w_sender := (@push_file sample_host _ (sample_path ++ [0]) no_addrs no_addrs, initially (sample_conf 4));
       w_receiver := (@pull_file sample_host _ (zeros MAXNAMESIZE) blank_send blank_send, initially (sample_conf 0));
       w_calls := [] |}.
Proof.
  exact (transfer_inevitable sample_host sample_host sample_channels sample_content sample_errors (sample_conf 4)
    sample_path [] no_addrs no_addrs (initially (sample_conf 4)) (zeros MAXNAMESIZE) blank_send blank_send
    (initially (sample_conf 0)) sample_channels_ok sample_bytes sample_sender_ready sample_partial sample_carried eq_refl
    sample_receiver_ready sample_dialable sample_recoverable).
Defined.

Lemma push_file_succeeds_witness :
  wp (posix_while (patient sample_host 10 3)) (fun o s' => o = Val tt)
    (push_file (sample_path ++ [0]) no_addrs no_addrs) (initially (sample_conf 4)).
Proof.
  eapply wp_mono; [exact (push_file_succeeds 10 (sample_conf 4) sample_path [] no_addrs no_addrs
    (initially (sample_conf 4)) sample_sender_ready sample_partial eq_refl eq_refl)|].
  by intros o s' [-> _].
Defined.

(** ** The receiver and its thread *)

(** Three turns for the main thread, one for the broadcasting one, and so on. *)
Definition sample_turns : list bool := concat (repeat [true; true; true; false] 1000).
Local Notation threads_end inbox := ((take_turns (thread_broadcast_routine no_addrs) (friendly (zeros 10)) sample_turns
  (alone (pull_file (zeros MAXNAMESIZE) blank_send blank_send) (initially (sample_conf 0))) inbox).1).

(** The main thread has returned [SUCCESS], and its calls and the sender's go
    together; the other thread has opened a socket of its own and is broadcasting. *)
Definition threads_well (r1 : option (outcome unit * (pstate * list (list Z)))) (p : threads unit bool) : bool :=
  match r1, observe (th_main p) with
  | Some (Val _, (s1, _)), RetF (Val _) =>
      smooth_together ∅ (p_trace s1) (th_main_calls p) &&
      bool_decide (Forall bytes_ok (sent (wire (p_trace s1)))) &&
      (9 <? length (wire (th_other_calls p)))%nat && (conf_cast_sock (th_conf p) =? 8)
  | _, _ => false
  end.

Lemma threads_end_well : threads_well sender_end (threads_end (inbox_of sender_end)) = true.
Proof. by vm_compute. Qed.

Lemma threads_well_inv r1 p :
  threads_well r1 p = true -> exists s1 w1 J, r1 = Some (Val tt, (s1, w1)) /\ observe (th_main p) = RetF (Val tt) /\
    p_trace s1 = ours J /\ th_main_calls p = theirs J /\ smooth sample_channels sample_content J /\ delivers sample_channels ∅ J /\
    Forall bytes_ok (sent (wire (p_trace s1))).
Proof.
  destruct r1 as [[[[]|?|?|] [s1 w1]]|]; try discriminate. unfold threads_well.
  destruct (observe (th_main p)) as [[[]|?|?|]|?|? ? ?]; try discriminate.
  rewrite !andb_true_iff, bool_decide_eq_true. intros (((H1 & Hb) & _) & _).
  destruct (sample_joint_ok ∅ (p_trace s1) (th_main_calls p) H1) as (J & HJ1 & HJ2 & Hsm & Hdl).
  exists s1, w1, J. by split_and!.
Qed.

Lemma friendly_threads {A B} content (body : M B) turns (p : threads A B) w :
  bytes_ok content -> len content < 2 ^ 63 -> Forall bytes_ok w ->
  rtc (thread_step body) p (take_turns body (friendly content) turns p w).1.
Proof.
  intros Hc Hl Hw. apply (take_turns_ok body (friendly content) (Forall bytes_ok)); [|done].
  intros X e s w1 Hw1. destruct (friendly_ok content X e (s, w1) s Hc Hl) as (s' & [Hp _] & <- & Hw'); [done|done].
Qed.

Lemma sample_threads :
  exists s1 w1 q J, sender_end = Some (Val tt, (s1, w1)) /\
    q = threads_end (sent (wire (p_trace s1))) /\
    rtc (thread_step (thread_broadcast_routine no_addrs))
      (alone (pull_file (zeros MAXNAMESIZE) blank_send blank_send) (initially (sample_conf 0))) q /\
    observe (th_main q) = RetF (Val tt) /\ p_trace s1 = ours J /\ th_main_calls q = theirs J /\
    smooth sample_channels sample_content J /\ delivers sample_channels ∅ J /\
    exec posix (push_file (sample_path ++ [0]) no_addrs no_addrs) (initially (sample_conf 4)) (Val tt) s1.
Proof.
  destruct (threads_well_inv _ _ threads_end_well) as (s1 & w1 & J & E1 & Ho & HJ1 & HJ2 & Hsm & Hdl & Hb).
  rewrite E1 in Ho, HJ2. cbn [inbox_of] in Ho, HJ2.
  destruct (friendly_exec sample_content _ _ all_acks _ _ _ _ ltac:(bytes_checked) ltac:(done) ltac:(bytes_checked) E1) as (He1 & _).
  eexists s1, w1, _, J. split; [exact E1|]. split; [reflexivity|]. split; [|by split_and!].
  apply friendly_threads; [bytes_checked|done|done].
Qed.

Lemma pull_file_alone_witness :
  exists (q : threads unit bool) v, th_conf q = th_conf (threads_end (inbox_of sender_end)) /\
    exec posix (pull_file (zeros MAXNAMESIZE) blank_send blank_send) (recasts v (initially (sample_conf 0)))
      (Val tt) (recasts v (main_state q)).
Proof.
  destruct sample_threads as (s1 & w1 & q & J & E1 & Hq & Hr & Ho & _).
  destruct (pull_file_alone (zeros MAXNAMESIZE) blank_send blank_send no_addrs (initially (sample_conf 0)) q (Val tt) Hr Ho)
    as [v Hv].
  exists q, v. split; [by rewrite Hq, E1|exact Hv].
Defined.

Lemma pull_file_in_company_witness :
  wp (shared (posix_while (sender_says sample_host 10 [])))
    (fun o s' => forall a, o = Val a -> exists r tr,
       p_trace s' = [Obs (PthreadCreate thread_broadcast) r] ++ tr /\
       received_file sample_host blank_send blank_send 10 tr (p_conf s'))
    (pull_file (zeros MAXNAMESIZE) blank_send blank_send) (initially (sample_conf 0)).
Proof.
  eapply wp_mono; [exact (pull_file_in_company 10 (sample_conf 0) (zeros MAXNAMESIZE) blank_send blank_send
    (initially (sample_conf 0)) eq_refl sample_receiver_ready)|].
  intros o s' (r & tr & Ht & Ho) a ->. destruct Ho as (_ & Hs). by exists r, tr.
Defined.

Lemma transfer_succeeds_threaded_witness :
  exists s1 w1 q, sender_end = Some (Val tt, (s1, w1)) /\ q = threads_end (sent (wire (p_trace s1))) /\
    mf_bytes (conf_mfile (th_conf q)) = sample_content.
Proof.
  destruct sample_threads as (s1 & w1 & q & J & E1 & Hq & Hr & Ho & HJ1 & HJ2 & Hsm & Hdl & He1).
  exists s1, w1, q. split; [exact E1|]. split; [exact Hq|].
  refine (proj2 (proj2 (proj2 (transfer_succeeds_threaded sample_host sample_host sample_channels sample_content ∅ J
    (sample_conf 4) sample_path []
    no_addrs no_addrs (initially (sample_conf 4)) (Val tt) s1 (zeros MAXNAMESIZE) blank_send blank_send no_addrs
    (initially (sample_conf 0)) q (Val tt) sample_channels_ok sample_bytes sample_sender_ready sample_partial sample_carried
    eq_refl He1 HJ1 sample_receiver_ready sample_dialable Hr Ho HJ2 sample_clean Hsm Hdl)))).
Defined.

(** The caller's configuration and stack are well typed, and so is whatever the
    reception with its thread comes to. *)
Lemma typed_no_addrs : typed_addrs no_addrs.
Proof. by constructor; (apply typed_zeros || split). Qed.
Lemma typed_sample_addrs : typed_addrs sample_addrs.
Proof. constructor; first [done|split; [done|apply (bool_decide_unpack (bytes_ok _)); by vm_compute]]. Qed.
Lemma typed_sample_conf : typed_conf (sample_conf 0).
Proof.
  constructor; try done; cbv [sample_conf conf_mfile conf_filec conf_addrs fc_mfile fc_name].
  - by apply typed_zeros.
  - apply typed_sample_addrs.
  - by repeat constructor.
  - by repeat constructor.
Qed.

Lemma entry_points_keep_types_witness :
  exists q, rtc (thread_step (thread_broadcast_routine no_addrs))
      (alone (pull_file (zeros MAXNAMESIZE) blank_send blank_send) (initially (sample_conf 0))) q /\
    observe (th_main q) = RetF (Val tt) /\ typed_conf (th_conf q) /\ Forall (obeys typing) (th_other_calls q).
Proof.
  destruct sample_threads as (s1 & w1 & q & J & E1 & Hq & Hr & Ho & _).
  exists q. split; [exact Hr|]. split; [exact Ho|].
  destruct (entry_points_keep_types unit (fun _ => True) (pull_file (zeros MAXNAMESIZE) blank_send blank_send) no_addrs
    (initially (sample_conf 0)) q
    (entry_pull (zeros MAXNAMESIZE) blank_send blank_send (typed_zeros MAXNAMESIZE ltac:(done)) typed_no_addrs typed_no_addrs)
    typed_no_addrs typed_sample_conf (Forall_nil_2 _) Hr) as (Hc & _ & Hother & _).
  split; [exact Hc|exact Hother].
Defined.

(** ** Discovery *)

(** A process that has been broadcasting for some turns. *)
Local Notation beacons_sent := (th_main_calls (take_turns (thread_broadcast_routine no_addrs) (friendly []) (repeat true 100)
  (alone (broadcast no_addrs) (initially (sample_conf 0))) []).1).

Lemma sample_broadcasting : broadcasting sample_addrs beacons_sent.
Proof.
  exists sample_host, no_addrs, (initially (sample_conf 0)). eexists. split; [exact sample_addrs_wf|].
  split; [reflexivity|]. split; [reflexivity|]. split; [exact no_addrs_wf|]. split; [|reflexivity].
  by apply friendly_threads; [constructor|done|constructor].
Qed.

(** It has sent beacons. *)
Example sample_beacons : match sent (wire beacons_sent) with d :: _ => d = beacon sample_addrs | [] => False end.
Proof. by vm_compute. Qed.

Lemma scan_finds_broadcasters_witness :
  wp (posix_while (fun tr => ticks 10 (times tr) /\ carries [(sample_addrs, beacons_sent)] tr))
    (fun o s' => forall info, o = Val info -> Forall (found sample_addrs) info)
    (scanpair blank_pair blank_cast) (initially (sample_conf 0)).
Proof.
  assert (Hbs : forall b, b ∈ [(sample_addrs, beacons_sent)] -> broadcasting b.1 b.2).
  { intros b ->%list_elem_of_singleton. exact sample_broadcasting. }
  eapply wp_mono; [exact (scan_finds_broadcasters 10 [(sample_addrs, beacons_sent)] blank_pair blank_cast
    (initially (sample_conf 0)) eq_refl eq_refl eq_refl no_addrs_wf eq_refl Hbs)|].
  intros o s' Ho info ->. destruct Ho as (fd & ds & _ & Hf). induction Hf as [|d p ds' info' (b & Hb & _ & Hp) _ IH]; [constructor|].
  constructor; [|exact IH]. apply list_elem_of_singleton in Hb as ->. exact (Hp sample_carried).
Defined.

#[local] Instance sockaddr_eq_dec : EqDecision sockaddr_in.
Proof. solve_decision. Defined.

(** The connections and the bindings along a trace. *)
Definition connects (o : obs) : list (Z * sockaddr_in * Z) :=
  match ob_call o in sysE X return X -> list (Z * sockaddr_in * Z) with
  | Connect fd addr => fun r => [(fd, addr, r)]
  | _ => fun _ => []
  end (ob_reply o).
Definition binds (o : obs) : list (Z * sockaddr_in * Z) :=
  match ob_call o in sysE X return X -> list (Z * sockaddr_in * Z) with
  | Bind fd addr => fun r => [(fd, addr, r)]
  | _ => fun _ => []
  end (ob_reply o).

Lemma connects_in fd addr r tr : (fd, addr, r) ∈ concat (connects <$> tr) -> Obs (Connect fd addr) r ∈ tr.
Proof.
  induction tr as [|[X e x] tr IH]; [by intros ?%elem_of_nil|]. cbn. rewrite elem_of_app. intros [Hin|Hin]; [|right; auto].
  destruct e; try by apply elem_of_nil in Hin. cbn in Hin. apply list_elem_of_singleton in Hin as [= -> -> ->]. by left.
Qed.
Lemma binds_in fd addr r tr : (fd, addr, r) ∈ concat (binds <$> tr) -> Obs (Bind fd addr) r ∈ tr.
Proof.
  induction tr as [|[X e x] tr IH]; [by intros ?%elem_of_nil|]. cbn. rewrite elem_of_app. intros [Hin|Hin]; [|right; auto].
  destruct e; try by apply elem_of_nil in Hin. cbn in Hin. apply list_elem_of_singleton in Hin as [= -> -> ->]. by left.
Qed.

(** The entry of the receiver, and a sender that dials it. *)
Definition alice : PairInfo := {| pi_name := clit MAXNAMESIZE "alice"; pi_ip := clit MAXIPV4SIZE "10.0.0.1"; pi_port := 5000 |}.
Definition dialling_conf : InitConfig :=
  set_conf_addrs (set_addrs_remote_ip (pi_ip alice) (set_addrs_remote_port (pi_port alice) sample_addrs)) (sample_conf 4).
Local Notation dialled := (take_turns (thread_broadcast_routine no_addrs) (friendly sample_content) (repeat true 300)
  (alone (push_file (sample_path ++ [0]) no_addrs no_addrs) (initially dialling_conf)) all_acks).1.

Lemma sample_dialled :
  rtc (thread_step (thread_broadcast_routine no_addrs))
    (alone (push_file (sample_path ++ [0]) no_addrs no_addrs) (initially dialling_conf)) dialled /\
  Obs (Connect 7 (sockaddr 5000 [10; 0; 0; 1])) 0 ∈ th_main_calls dialled.
Proof.
  split; [apply friendly_threads; [bytes_checked|done|bytes_checked]|].
  apply connects_in. apply (bool_decide_unpack _). by vm_compute.
Qed.

Lemma sample_bound :
  Obs (Bind 7 (sockaddr 5000 [10; 0; 0; 1])) 0 ∈ th_main_calls (threads_end (inbox_of sender_end)) ++ th_other_calls (threads_end (inbox_of sender_end)).
Proof. apply binds_in. apply (bool_decide_unpack _). by vm_compute. Qed.

Lemma found_is_bound_witness :
  exists addr1 addr2, Obs (Connect 7 addr1) 0 ∈ th_main_calls dialled /\ same_endpoint sample_host sample_host addr1 addr2.
Proof.
  destruct sample_threads as (s1 & w1 & q & J & E1 & Hq & Hr & _). destruct sample_dialled as [Hd Hc].
  pose proof sample_bound as Hb. rewrite E1 in Hb. cbn [inbox_of] in Hb. rewrite <- Hq in Hb.
  exists (sockaddr 5000 [10; 0; 0; 1]), (sockaddr 5000 [10; 0; 0; 1]). split; [exact Hc|].
  refine (found_is_bound sample_host sample_host sample_addrs alice (sample_path ++ [0]) no_addrs no_addrs no_addrs
    (initially dialling_conf) _ (zeros MAXNAMESIZE) blank_send blank_send no_addrs (initially (sample_conf 0)) q
    7 7 _ _ 0 0 (conj eq_refl (conj eq_refl eq_refl)) eq_refl eq_refl Hd eq_refl eq_refl Hr eq_refl eq_refl Hc Hb).
Defined.
